(* ===== verification/_CoqProject ===== *)
-Q . S2P
Prelude.v
CLib.v
Util.v
RingBuffer.v
LinkedList.v
Khash.v
KhashArith.v
KhashFlags.v
KhashProbe.v
KhashProof.v
KhashResize.v
KhashMap.v
Database.v
RespWriter.v
Rdb.v
ServerState.v
Commands.v
CommandSpec.v
Reference.v
Timeless.v
KeyspaceRun.v
Halting.v
RespParser.v
RespInline.v
CommandHandler.v
ParserTerm.v
Wire.v
Client.v
ClientAlloc.v
Propagation.v
Replication.v
ReplicationSpec.v
MasterSpec.v
Sync.v
Server.v
ServerSpec.v
Acts.v
Clients.v
Replicas.v
Joining.v
SessionInv.v
ServerInv.v
SessionHalts.v
ServerHalts.v
