(* ===== verification/Prelude.v ===== *)
(** * Verification of the redis-lite server (src/src)

    redis-lite is a single-threaded key-value server that speaks the RESP
    protocol.  Bytes from a socket enter the input ring buffer of a client; a
    push-down parser reports what it reads to a handler, which collects the
    arguments of a command and runs the function of that command; the function
    works on the keyspace (a hash table of strings and linked lists with
    expiration times) and writes a reply into the output ring buffer.  The
    keyspace can be saved to and loaded from a snapshot file, and commands are
    passed on to replicas.  A server started as a replica links itself to its
    master, asks for a snapshot and loads it.  One event loop serves the
    listening socket, the clients, the replicas and the link to the master.

    ** Files and the code they model

    - [Prelude] (this file): bytes, machine integers with their wrap-around,
      the outcomes of C code ([Ok], or [Stop] with the reason: failed
      assertion, access outside an object, indeterminate value, wrong union
      member, [exit], endless probe, fuel), the state monad over them, the hint databases and
      tactics, lemmas on lists and integers.  [leads I J f] says that a function
      of the monad takes states with [I] to states with [J] when it returns;
      [preserve] proves it along the function's text from the hints of [keep].
      [halts X I f] says that [f] ends from states with [I], with the tactic
      [halt] and the hints of [halt].
    - [CLib]: what the code uses of the C library: C strings, [strtol],
      [%ld], [snprintf].
    - [Util]: util.c (parse_integer, construct_file_path, current_time_millis,
      set_non_blocking).
    - [RingBuffer]: ring_buffer.c.  The doubly mapped memory is one list read
      and written modulo its length; [rb_create] runs over the answers of the
      operating system.
    - [LinkedList]: linked_list.c on a heap of nodes and list headers, with
      allocation failure, freed memory and uninitialised fields.
    - [Khash]: khash.h instantiated for string keys: flag words, probing,
      kh_get, kh_put, kh_del, kh_clear, kh_destroy, kh_resize with its kick-out
      loop; a probe that leaves the arrays is a fault.
      [KhashArith] (what its shifts compute), [KhashFlags]
      (bit fields), [KhashProbe] (triangular probing visits every bucket),
      [KhashProof] (the invariant, get and del), [KhashResize] (rehashing) and
      [KhashMap] (put, and the table as a finite map) are its proof.
    - [Database]: database.c, with [Module Keyspace] for the static functions
      set, get, exist and delete.
    - [RespWriter]: the writing half of resp.c and the add_*_reply functions of
      commands.c.
    - [Rdb]: rdb.c, over the bytes of a file.
    - [ServerState]: the structures of client.h and server_config.h, the epoll
      registration of client.c and the table of replicas of replication.c, which
      holds the descriptors of the clients its pointers lead to ([DANGLING] for a
      client that was freed); a [world] is the keyspace memory, the client being
      served, the server information and configuration, the files and the answers
      of epoll_ctl.
    - [Commands]: commands.c (the option parser of SET and every handler) and
      get_command_type and handle_command of command_handler.c.
    - [CommandSpec]: what the handlers answer, and what no handler changes
      ([dispatch] is the switch of handle_command).
    - [Reference]: the reference machine.  [spec_command] gives the reply and
      the next keyspace of a command from the keyspace and the clock alone, with
      no table, heap, buffer or client; it has its own table of command names,
      its own words of SET and its own grammar of numbers ([Util.number]), and
      the handlers are proved against it.
      [Timeless]: which commands give the same result at any time.
      [KeyspaceRun]: the memory of the database after any commands and loads.
      [Halting]: every command and every load ends ([command_fine] and
      [load_fine] say when a probe cannot be endless).
    - [RespParser]: the parsing half of resp.c against the class [Handler],
      which is handler.h; the class [HandlerInv] is what the parser relies on.
      [RespInline]: its inline commands.
    - [CommandHandler]: the callbacks of command_handler.c, which implement
      [Handler]; the arguments of an earlier array stay in the table as freed
      ones, and a length that wraps is refused by [malloc] or leaves the buffer.
      [ParserTerm]: the parser on any input, by a
      weakest-precondition calculus over its handler (class [HandlerSafe]).
    - [Wire]: pipelines through all of the above, from bytes to bytes.
    - [Client]: the socket loops of client.c, process_client_input with its
      propagation to the replicas and flush_client_output; a [session] is a
      world with the input buffer, parser, collector and socket of the client
      being served, the backlog and the other clients.
    - [ClientAlloc]: create_client and destroy_client of client.c and the
      destroy_* functions, with what is acquired and released.
      [Propagation]: what passing a request on does to every replica of the
      table.
    - [Replication]: replication.c and the send_*_command functions of
      commands.c, on sessions: the link of a replica to its master and the
      master's output to a replica.  [ReplicationSpec] and [MasterSpec] prove
      the two ends, [Sync] runs them against each other.
    - [Server]: redis-server.c and main.c: the command line, start-up, the
      event loop and shutdown; a [server] is the globals and the connections by
      descriptor, and an event runs the functions above on the session of its
      connection ([handle_events]; an event of a client that was freed earlier in
      the same turn is a fault, also when its descriptor was given out again).
      The answers of the allocator to the lists and the table of the database are
      given at the start ([mem_start]).  [ServerSpec]: start-up, shutdown and single events.
      [Acts]: what clients and replicas can do to a server, and the reference
      that says what each act answers.  [Clients]: any number of clients and
      replicas served together.  [Replicas]: a master and its replicas as a
      system of servers.  [Joining]: a replica joins a master among the other
      connections of both.  [SessionInv] and [ServerInv]: the invariant of the
      server under every event.
      [SessionHalts] and [ServerHalts]: every event ends.

    ** What the theorems show

    - Containers refine their specification for every sequence of operations:
      the ring buffer is a bounded FIFO, the linked list a sequence, the hash
      table a finite map, the database a map from keys to strings and lists
      with expiration times.  Each of these includes that no assertion fails,
      no access leaves an object and every loop ends.
    - Every reply function appends the encoding of its reply.  PING, ECHO, GET,
      SET, INCR, DECR, DEL, EXIST, LPUSH, RPUSH, LRANGE, DBSIZE and unknown
      commands, with any arguments, implement the reference machine: missing
      and expired keys, keys of the other type, options, number formats and
      wrong numbers of arguments included; they fault exactly where the machine
      does.
    - The server refines the same machine: clients that connect and send
      pipelines, in any interleaving, get exactly the replies of the machine that
      runs their requests in the order of the events, and replicas beside them,
      which take bytes at their own pace, get exactly the requests that end with
      SET.  The same holds of a server that is a replica and gets commands over
      the link to its master.  This is for requests that arrive complete and that
      the machine runs without a fault, clients whose sockets take their replies,
      and requests that end with SET of at most the 40 bytes that the backlog can
      take.
    - A master and its replicas refine a machine with a log of the requests that
      are passed on: every replica has at any time the keyspace of a prefix of
      the log, and the master's once everything sent to it has arrived.  This
      needs what the code needs: requests that are passed on set no expiration,
      the others only read, each request that is passed on arrives by itself
      and has at most 40 bytes.
    - A server started as a replica joins a master that serves others: after nine
      turns it has the master's keyspace, the other connections of both are as
      they were, and from then on it is one of the replicas above.  The master has
      fewer than 256 keys, all of them strings without expiration that the snapshot
      gives back as they are, its snapshot has at most 65536 bytes, and the replica
      has no other key, as the code never clears it.
    - Invariants of every event that does not fault, whatever the peers send and
      whatever the operating system and the allocator answer: connections, buffers, parser stacks, argument
      arrays, the backlog, the replica table and the counters of a snapshot
      transfer keep their shape, and the memory of the database changes by
      commands and loads only.  As long as the allocator gives memory, it represents
      a keyspace after every history of commands and loads that leads there and
      has fewer than 2^28 arguments and bytes.
    - The parser reports the structure of its input and reads exactly its
      bytes; the collector hands the handlers exactly the arguments; a
      pipeline of commands runs its handlers in order; one call of
      process_client_input serves a client that sent complete commands;
      flushing keeps every byte in order whatever the socket does.  On any
      input the stack of the parser keeps its shape and the parser returns.
    - The server never hangs: the start, every event and the shutdown end,
      whatever the peers send and the operating system answers; only a probe of
      the hash table could be endless, and as long as the allocator gives memory
      none is after a history of fewer than 2^28 arguments and bytes.
    - Replication: the snapshot sender and receiver keep every byte in order
      whatever the sockets do (the receiver as long as no read is larger than the
      room in its buffer), the handshake reaches READY, and a master and a replica
      run against each other end with the master's keys on both, within the
      limits of the snapshot: fewer than 256 keys, strings only, at most 65536
      bytes.
    - The server: creating and destroying clients releases what was acquired, a
      stopped server leaves a file that gives its keyspace back as far as the
      format carries it (fewer than 256 keys, strings only), and destroying
      the database frees exactly its lists and the arrays of its table.
    - A snapshot that is loaded gives the keyspace back as far as its format
      carries it, and loading any file at all ends without a fault.
    - Where the code does something else than it means to, the theorem states
      what it does: these theorems are the ones on the replication backlog and
      the continuation of a replica, negative array lengths, split bulk strings,
      empty arrays, full output buffers, failed table growth, uninitialised list
      lengths, the limits of the snapshot format, late and early snapshot
      headers, hang-ups, a closed link and the restart of a master.

    ** Bounds and fuel

    Loops whose length the data gives are structural. The others take fuel
    ([EndlessProbe] when that of a loop over the buckets is used up,
    [OutOfFuel] for every other loop): a probe loop of kh_get or kh_put gets
    twice the number of buckets plus one, after which triangular steps are back
    at their start, and the search for a free bucket the number of buckets,
    which [KhashProbe] shows to be enough because the first n triangular steps
    visit every bucket of a power of two; the kick-out chain gets the number of
    buckets plus one, as each turn frees one; the loop that destroys a list
    takes the size of the heap; the section loops of the snapshot reader take
    the length of the file plus one, as every turn reads a byte; the parser
    takes a number of steps that the theorems give ([commands_steps]: four per
    argument and three per command, and one to find the end, and more does no
    harm), and [ParserTerm] shows that [parse_steps] of the number of bytes is
    enough for any input; the socket loops, the receiver of the snapshot
    included, take one turn per answer of the socket, and one or two more; the
    sender takes one turn per answer and per byte of the file. The event loop
    is structural on what epoll_wait answers. A theorem never assumes that the
    fuel is enough: it names fuel with which the result is reached. Counters
    keep their width; the theorems bound the number of keys below 2^28 and list
    lengths below INT_MAX, where the code's [int] and 32-bit counters are
    exact.

    ** Not modelled

    System calls are answers given to the model (files, epoll_ctl, epoll_wait,
    mmap, fcntl, the sockets); output to the terminal is left out.  Short
    allocations of strings ([strdup] of keys and arguments) are taken to
    succeed, except where a failure is part of the code's logic (list nodes,
    table growth, ring buffer and client creation, argument arrays, arguments of
    more than PTRDIFF_MAX bytes).  Strings
    written to a snapshot are shorter than 2 GiB; writes to an open file
    succeed, and the bytes of the temporary snapshot are in its file when it is
    closed.  Signed overflow wraps, as it does on the target; the replication
    identifier of 40 characters in an array of 40 is read up to the zero padding
    that follows it.  The memory of keys, strings and table arrays is not
    tracked beyond its content; kh_destroy gives what it releases.  The hash
    functions of khash.h for other key types, its set and iteration macros, and
    the programs under test/ are not part of the server.  The
    events of a replica that joins are proved among the other connections, which
    are quiet meanwhile; requests that arrive during the transfer of a snapshot are
    covered by the invariants and by the termination of every event only. *)

From Stdlib Require Export ZArith Lia.
From Stdlib Require Import Ascii.
From stdpp Require Export base tactics option numbers strings list gmap.

#[global] Open Scope Z_scope.

(** ** Bytes and byte strings *)

(** A C [char] read as one of its 256 bit patterns. *)
Abbreviation byte := Ascii.ascii.
Abbreviation bytes := (list byte).

Declare Scope bytes_scope.
Delimit Scope bytes_scope with bytes.

(** The bytes of a string literal of the source, without its terminator. *)
Definition lit (s : String.string) : bytes := String.list_ascii_of_string s.
Arguments lit s%_string_scope.

Definition byte_val (b : byte) : Z := Z.of_N (Ascii.N_of_ascii b).
Definition byte_of (z : Z) : byte := Ascii.ascii_of_N (Z.to_N (z mod 256)).

Definition NUL : byte := byte_of 0.
Definition CR : byte := byte_of 13.
Definition LF : byte := byte_of 10.
Definition CRLF : bytes := [CR; LF].

(** ** Machine integers: the wrap-around of each width, written out *)

Definition uwrap (w z : Z) : Z := z mod 2 ^ w.
Definition swrap (w z : Z) : Z := (z + 2 ^ (w - 1)) mod 2 ^ w - 2 ^ (w - 1).

Abbreviation u8 := (uwrap 8).
Abbreviation u16 := (uwrap 16).
Abbreviation u32 := (uwrap 32).
Abbreviation u64 := (uwrap 64).
Abbreviation s8 := (swrap 8).
Abbreviation s16 := (swrap 16).
Abbreviation s32 := (swrap 32).
Abbreviation s64 := (swrap 64).

Definition INT_MAX : Z := 2147483647.
Definition INT_MIN : Z := -2147483648.
Definition LONG_MAX : Z := 9223372036854775807.
Definition LONG_MIN : Z := -9223372036854775808.

(** ** Outcomes of C code

    [Ok] carries the result of a run the C standard gives a meaning to.
    [Stop] marks a run that leaves it, and says where. *)
Inductive fault : Type :=
  | AssertFailed     (* an [assert] of the source aborts the process *)
  | BadAccess        (* a read or write outside a live object *)
  | Indeterminate    (* an uninitialised or dangling value is used *)
  | WrongUnionMember (* a union is read through the member not stored last *)
  | ExitFailure      (* the source calls [exit(EXIT_FAILURE)] *)
  | EndlessProbe     (* a loop over the buckets of a hash table does not end *)
  | OutOfFuel.       (* the fuel of another modelled loop ran out *)

Inductive res (A : Type) : Type :=
  | Ok (a : A)
  | Stop (f : fault).
Arguments Ok {A} a.
Arguments Stop {A} f.

#[export] Instance fault_eq_dec : EqDecision fault.
Proof. solve_decision. Defined.
#[export] Instance res_eq_dec `{EqDecision A} : EqDecision (res A).
Proof. solve_decision. Defined.

#[export] Instance res_ret : MRet res := @Ok.
#[export] Instance res_bind : MBind res :=
  λ A B f r, match r with Ok a => f a | Stop e => Stop e end.
#[export] Instance res_fmap : FMap res :=
  λ A B f r, match r with Ok a => Ok (f a) | Stop e => Stop e end.

Definition of_option {A} (e : fault) (o : option A) : res A :=
  match o with Some a => Ok a | None => Stop e end.

(** State passing over a state [S], with the outcomes above. *)
Definition st (S A : Type) : Type := S → res (A * S).

#[export] Instance st_ret {S} : MRet (st S) := λ A a s, Ok (a, s).
#[export] Instance st_bind {S} : MBind (st S) :=
  λ A B f m s, match m s with Ok (a, s') => f a s' | Stop e => Stop e end.

Definition stop {S A} (e : fault) : st S A := λ _, Stop e.
Definition gets {S A} (f : S → A) : st S A := λ s, Ok (f s, s).
Definition modify {S} (f : S → S) : st S unit := λ s, Ok (tt, f s).
Definition lift {S A} (r : res A) : st S A :=
  λ s, match r with Ok a => Ok (a, s) | Stop e => Stop e end.

Definition when {S} (b : bool) (m : st S unit) : st S unit :=
  if b then m else mret tt.

Fixpoint for_each {S A} (f : A → st S unit) (l : list A) : st S unit :=
  match l with
  | [] => mret tt
  | x :: l' => f x ≫= λ _, for_each f l'
  end.

(** ** Tactics and hint databases *)

Create HintDb redis discriminated.
Create Rewrite HintDb redis.

(** Simplify one layer of the [res] and [st] monads. *)
Ltac run_res :=
  repeat (progress (unfold mbind, mret, st_bind, st_ret, res_bind, res_ret,
                      gets, modify, lift, when, stop in *; cbn beta iota in *)).

(** Case split on the first [if] or [match] whose scrutinee is a boolean. *)
Ltac case_bool :=
  match goal with
  | |- context [if ?b then _ else _] => destruct b eqn:?
  end.

(** Turn boolean comparisons of hypotheses and goal into propositions. *)
Ltac zbool :=
  repeat match goal with
  | H : (_ && _) = true |- _ => apply andb_prop in H; destruct H
  | H : (_ || _) = false |- _ => apply orb_false_elim in H; destruct H
  | H : negb _ = true |- _ => apply negb_true_iff in H
  | H : negb _ = false |- _ => apply negb_false_iff in H
  | H : (_ <? _) = true |- _ => apply Z.ltb_lt in H
  | H : (_ <? _) = false |- _ => apply Z.ltb_ge in H
  | H : (_ <=? _) = true |- _ => apply Z.leb_le in H
  | H : (_ <=? _) = false |- _ => apply Z.leb_gt in H
  | H : (_ =? _) = true |- _ => apply Z.eqb_eq in H
  | H : (_ =? _) = false |- _ => apply Z.eqb_neq in H
  | H : bool_decide _ = true |- _ => apply bool_decide_eq_true in H
  | H : bool_decide _ = false |- _ => apply bool_decide_eq_false in H
  end.

(** ** The state monad: lemmas *)

Lemma st_bind_ok {S A B} (m : st S A) (f : A → st S B) s a s' :
  m s = Ok (a, s') → (m ≫= f) s = f a s'.
Proof. intros E. unfold mbind, st_bind. by rewrite E. Qed.

Lemma st_bind_stop {S A B} (m : st S A) (f : A → st S B) s e :
  m s = Stop e → (m ≫= f) s = Stop e.
Proof. intros E. unfold mbind, st_bind. by rewrite E. Qed.

Lemma st_bind_inv {S A B} (m : st S A) (f : A → st S B) s b s' :
  (m ≫= f) s = Ok (b, s') → ∃ a s1, m s = Ok (a, s1) ∧ f a s1 = Ok (b, s').
Proof. unfold mbind, st_bind. destruct (m s) as [[a s1]|] eqn:E; [|done]. eauto. Qed.

Lemma st_ret_eq {S A} (a : A) (s : S) : (mret a : st S A) s = Ok (a, s).
Proof. done. Qed.

Lemma for_each_app {S A} (f : A → st S unit) l1 l2 s :
  for_each f (l1 ++ l2) s = (for_each f l1 ≫= λ _, for_each f l2) s.
Proof.
  revert s. induction l1 as [|x l1 IH]; intros s; [done|]. cbn [app for_each].
  unfold mbind, st_bind. destruct (f x s) as [[? s1]|]; [|done]. apply IH.
Qed.

(** *** What a run establishes

    [leads I J f]: a run of [f] that ends normally takes a state with [I] to one
    with [J].  The tactic [preserve] splits sequences, conditionals and case
    analyses, and closes the steps with the hints of the database [keep]. *)

Definition leads {S A} (I J : S → Prop) (f : st S A) : Prop :=
  ∀ s a s', I s → f s = Ok (a, s') → J s'.
Abbreviation preserves I := (leads I I).

Section leads.
Context {S : Type} (I J K : S → Prop).

Lemma leads_bind {A B} (f : st S A) (g : A → st S B) :
  leads I J f → (∀ a, leads J K (g a)) → leads I K (f ≫= g).
Proof. intros Hf Hg s b s' Hs (a & s1 & E1 & E2)%st_bind_inv. eapply Hg; [by eapply Hf|done]. Qed.

(** With what the lifted result is. *)
Lemma leads_lift_bind {A B} (r : res A) (g : A → st S B) :
  (∀ a, r = Ok a → leads I K (g a)) → leads I K (lift r ≫= g).
Proof.
  intros Hg s b s' Hs. unfold mbind, st_bind, lift. destruct r as [a|]; [|done]. by apply Hg.
Qed.

Lemma leads_ret {A} (a : A) : preserves I (mret a).
Proof. by intros s b s' Hs [= <- <-]. Qed.
Lemma leads_lift {A} (r : res A) : preserves I (lift r).
Proof. intros s b s' Hs. unfold lift. destruct r; [|done]. by intros [= <- <-]. Qed.
Lemma leads_stop {A} e : leads I J (stop e : st S A).
Proof. done. Qed.
Lemma leads_gets {A} (f : S → A) : preserves I (gets f).
Proof. by intros s b s' Hs [= <- <-]. Qed.
Lemma leads_modify f : (∀ s, I s → J (f s)) → leads I J (modify f).
Proof. intros Hf s b s' Hs [= <- <-]. by apply Hf. Qed.
Lemma leads_when b f : preserves I f → preserves I (when b f).
Proof. intros Hf. destruct b; [done|apply leads_ret]. Qed.
Lemma leads_for_each {A} (f : A → st S unit) l : (∀ x, preserves I (f x)) → preserves I (for_each f l).
Proof.
  intros Hf. induction l as [|x l IH]; [apply leads_ret|].
  intros s b s' Hs (a & s1 & E1 & E2)%st_bind_inv. eapply IH; [by eapply Hf|done].
Qed.
End leads.

Create HintDb keep discriminated.
#[export] Hint Resolve leads_ret leads_lift leads_stop leads_gets leads_for_each : keep.

Ltac preserve :=
  repeat match goal with
  | |- leads _ _ (if ?b then _ else _) => destruct b
  | |- leads _ _ (match ?x with _ => _ end) => destruct x
  | |- leads _ _ (when _ _) => apply leads_when
  | |- preserves ?I (_ ≫= _) => apply (leads_bind I I I); [|intros]
  | |- leads _ _ (let _ := _ in _) => cbv zeta
  | |- _ => solve [auto with keep]
  end.

(** ** Halting

    [halts X I f]: a run of [f] from a state with [I] does not run out of fuel, and
    a loop over the buckets of a hash table is endless only if [X].  The tactic
    [halt] goes along the text of a function as [preserve] does, with the hints of
    the database [halt]. *)

Definition allowed (X : Prop) (e : fault) : Prop :=
  match e with OutOfFuel => False | EndlessProbe => X | _ => True end.
(** The two faults that stand for a loop that does not end. *)
Definition hangs (e : fault) : bool := match e with OutOfFuel | EndlessProbe => true | _ => false end.

Lemma allowed_fault X e : hangs e = false → allowed X e.
Proof. by destruct e. Qed.

Definition fine {A} (X : Prop) (r : res A) : Prop :=
  match r with Ok _ => True | Stop e => allowed X e end.
Definition halts {S A} (X : Prop) (I : S → Prop) (f : st S A) : Prop := ∀ s, I s → fine X (f s).

Lemma allowed_weaken (X Y : Prop) e : (X → Y) → allowed X e → allowed Y e.
Proof. destruct e; cbn; auto. Qed.
Lemma fine_weaken {A} (X Y : Prop) (r : res A) : (X → Y) → fine X r → fine Y r.
Proof. destruct r; [done|]. apply allowed_weaken. Qed.
Lemma fine_of_option {A} X e (o : option A) : allowed X e → fine X (of_option e o).
Proof. by destruct o. Qed.
Lemma fine_bind {A B} X (r : res A) (g : A → res B) :
  fine X r → (∀ a, r = Ok a → fine X (g a)) → fine X (r ≫= g).
Proof. destruct r; cbn; intros; auto. Qed.

Section halts.
Context {S : Type} (X : Prop) (I J : S → Prop).

Lemma halts_bind {A B} (f : st S A) (g : A → st S B) :
  halts X I f → leads I J f → (∀ a, halts X J (g a)) → halts X I (f ≫= g).
Proof.
  intros Hf Hl Hg s Hs. specialize (Hf s Hs). unfold mbind, st_bind in *.
  destruct (f s) as [[a s']|] eqn:E; [|done]. apply Hg. by eapply Hl.
Qed.
Lemma halts_ret {A} (a : A) : halts X I (mret a).
Proof. done. Qed.
Lemma halts_lift {A} (r : res A) : fine X r → halts X I (lift r).
Proof. intros Hr s _. unfold lift. by destruct r. Qed.
Lemma halts_lift_bind {A B} (r : res A) (g : A → st S B) :
  fine X r → (∀ a, r = Ok a → halts X I (g a)) → halts X I (lift r ≫= g).
Proof. intros Hr Hg s Hs. unfold mbind, st_bind, lift. destruct r as [a|]; [by apply Hg|done]. Qed.
Lemma halts_stop {A} e : allowed X e → halts X I (stop e : st S A).
Proof. by intros He s _. Qed.
Lemma halts_gets {A} (f : S → A) : halts X I (gets f).
Proof. done. Qed.
Lemma halts_gets_bind {A B} (f : S → A) (g : A → st S B) :
  (∀ s, I s → fine X (g (f s) s)) → halts X I (gets f ≫= g).
Proof. intros Hg s Hs. by apply Hg. Qed.
Lemma halts_modify f : halts X I (modify f).
Proof. done. Qed.
Lemma halts_when b f : halts X I f → halts X I (when b f).
Proof. by destruct b. Qed.
Lemma halts_for_each {A} (f : A → st S unit) l :
  (∀ x, halts X I (f x)) → (∀ x, preserves I (f x)) → halts X I (for_each f l).
Proof.
  intros Hf Hl. induction l as [|x l IH]; [done|]. intros s Hs. cbn [for_each]. specialize (Hf x s Hs).
  unfold mbind, st_bind. destruct (f x s) as [[u s']|] eqn:E; [|done]. apply IH. by eapply Hl.
Qed.
End halts.

Create HintDb halt discriminated.
#[export] Hint Resolve halts_ret halts_lift halts_gets halts_modify halts_stop halts_for_each fine_of_option : halt.
#[export] Hint Extern 0 (allowed _ _) => exact Logic.I : halt.
#[export] Hint Extern 1 (leads _ _ _) => solve [preserve] : halt.

Ltac halt :=
  repeat match goal with
  | |- halts _ _ (if ?b then _ else _) => destruct b
  | |- halts _ _ (match ?x with _ => _ end) => destruct x
  | |- halts _ _ (when _ _) => apply halts_when
  | |- halts ?X ?I (_ ≫= _) => apply (halts_bind X I I); [|solve [preserve]|intros]
  | |- halts _ _ (let _ := _ in _) => cbv zeta
  | |- _ => solve [auto with halt]
  end.

(** Run the first action of a sequence, given what it does. *)
Ltac st_step lem := erewrite st_bind_ok by (eapply lem; eauto); cbv beta; cbn [negb].
Ltac st_stop lem := erewrite st_bind_stop by (eapply lem; eauto).

(** ** Machine integers: lemmas *)

Lemma uwrap_small w z : 0 ≤ z < 2 ^ w → uwrap w z = z.
Proof. intros. by apply Z.mod_small. Qed.

Lemma uwrap_range w z : 0 ≤ w → 0 ≤ uwrap w z < 2 ^ w.
Proof. intros. apply Z.mod_pos_bound. lia. Qed.

Lemma swrap_small w z : - 2 ^ (w - 1) ≤ z < 2 ^ (w - 1) → 0 < w → swrap w z = z.
Proof.
  intros Hz Hw. unfold swrap. rewrite Z.mod_small; [lia|].
  replace (2 ^ w) with (2 * 2 ^ (w - 1)); [lia|].
  rewrite <- Z.pow_succ_r by lia. f_equal. lia.
Qed.

Lemma swrap_range w z : 0 < w → - 2 ^ (w - 1) ≤ swrap w z < 2 ^ (w - 1).
Proof.
  intros Hw. unfold swrap.
  assert (2 ^ w = 2 * 2 ^ (w - 1)) as Hp.
  { rewrite <- Z.pow_succ_r by lia. f_equal. lia. }
  pose proof (Z.mod_pos_bound (z + 2 ^ (w - 1)) (2 ^ w)). lia.
Qed.

(** Reading a value back at the same width after it was stored unsigned. *)
Lemma swrap_uwrap w z : 0 < w → swrap w (uwrap w z) = swrap w z.
Proof.
  intros. unfold swrap, uwrap.
  by rewrite Z.add_mod_idemp_l by (apply Z.pow_nonzero; lia).
Qed.

(** Narrowing after an unsigned computation at a larger width. *)
(** A summand that has wrapped already changes nothing. *)
Lemma swrap_add_r w a b : 0 < w → swrap w (a + swrap w b) = swrap w (a + b).
Proof.
  intros. unfold swrap. f_equal.
  replace (a + ((b + 2 ^ (w - 1)) mod 2 ^ w - 2 ^ (w - 1)) + 2 ^ (w - 1))
    with (a + (b + 2 ^ (w - 1)) mod 2 ^ w) by lia.
  rewrite Z.add_mod_idemp_r by (apply Z.pow_nonzero; lia). f_equal. lia.
Qed.

Lemma swrap_uwrap_narrow w w' z : 0 < w ≤ w' → swrap w (uwrap w' z) = swrap w z.
Proof.
  intros Hw. unfold swrap, uwrap. f_equal.
  assert (2 ^ w' = 2 ^ w * 2 ^ (w' - w)) as ->.
  { rewrite <- Z.pow_add_r by lia. f_equal. lia. }
  pose proof (Z.pow_pos_nonneg 2 w). pose proof (Z.pow_pos_nonneg 2 (w' - w)).
  rewrite Z.rem_mul_r by lia. rewrite (Z.mul_comm (2 ^ w)), Z.add_shuffle0.
  rewrite Z_mod_plus_full. by rewrite Z.add_mod_idemp_l by lia.
Qed.

Lemma s32_u64 z : INT_MIN ≤ z ≤ INT_MAX → s32 (u64 z) = z.
Proof.
  unfold INT_MIN, INT_MAX. intros. rewrite swrap_uwrap_narrow by lia. by rewrite swrap_small by lia.
Qed.

#[export] Hint Rewrite uwrap_small swrap_small using lia : redis.

(** ** Bytes: lemmas *)

Lemma byte_val_range b : 0 ≤ byte_val b < 256.
Proof. unfold byte_val. pose proof (N_ascii_bounded b). lia. Qed.

Lemma byte_of_val b : byte_of (byte_val b) = b.
Proof.
  unfold byte_of, byte_val. pose proof (N_ascii_bounded b).
  rewrite Z.mod_small by lia. rewrite N2Z.id. apply ascii_N_embedding.
Qed.

Lemma byte_val_of z : byte_val (byte_of z) = z mod 256.
Proof.
  unfold byte_of, byte_val. pose proof (Z.mod_pos_bound z 256).
  rewrite N_ascii_embedding by lia. lia.
Qed.

Lemma byte_val_inj b1 b2 : byte_val b1 = byte_val b2 → b1 = b2.
Proof. intros H. rewrite <- (byte_of_val b1), <- (byte_of_val b2). by rewrite H. Qed.

Lemma byte_of_ne z1 z2 : z1 mod 256 ≠ z2 mod 256 → byte_of z1 ≠ byte_of z2.
Proof. intros H E. apply H. by rewrite <- !byte_val_of, E. Qed.

#[export] Hint Resolve byte_val_range : redis.

(** ** Lists: slices, as C code takes them through a pointer and a length *)

Definition slice {A} (off len : Z) (l : list A) : list A :=
  take (Z.to_nat len) (drop (Z.to_nat off) l).

(** Longest prefix satisfying [p], and the rest. *)
Fixpoint span {A} (p : A → bool) (l : list A) : list A * list A :=
  match l with
  | [] => ([], [])
  | x :: l' => if p x then let '(a, b) := span p l' in (x :: a, b) else ([], l)
  end.

Abbreviation zlen l := (Z.of_nat (length l)).

Lemma span_app {A} (p : A → bool) l : (span p l).1 ++ (span p l).2 = l.
Proof.
  induction l as [|x l IH]; [done|]; simpl.
  destruct (p x); [|done]. destruct (span p l); simpl in *. by rewrite IH.
Qed.

Lemma span_all {A} (p : A → bool) l1 l2 :
  Forall (λ x, p x = true) l1 →
  (∀ x l', l2 = x :: l' → p x = false) →
  span p (l1 ++ l2) = (l1, l2).
Proof.
  intros H1 H2. induction H1 as [|x l1 Hx H1 IH]; simpl.
  - destruct l2 as [|x l2]; [done|]. simpl. by rewrite (H2 x l2).
  - by rewrite Hx, IH.
Qed.

Lemma span_fst_Forall {A} (p : A → bool) l : Forall (λ x, p x = true) (span p l).1.
Proof.
  induction l as [|x l IH]; simpl; [done|].
  destruct (p x) eqn:E; [|done]. destruct (span p l). simpl in *. by constructor.
Qed.

Lemma span_snd_head {A} (p : A → bool) l x l' : (span p l).2 = x :: l' → p x = false.
Proof.
  induction l as [|y l IH]; simpl; [done|].
  destruct (p y) eqn:E; [|intros [= -> ->]; done].
  destruct (span p l). simpl in *. done.
Qed.

Lemma zlen_app {A} (l1 l2 : list A) : zlen (l1 ++ l2) = zlen l1 + zlen l2.
Proof. rewrite length_app. lia. Qed.

Lemma slice_all {A} (l : list A) n : n = zlen l → slice 0 n l = l.
Proof. intros ->. unfold slice. rewrite Nat2Z.id. simpl. rewrite drop_0. by rewrite firstn_all. Qed.

Lemma slice_app_mid {A} (l1 l2 l3 : list A) off len :
  off = zlen l1 → len = zlen l2 → slice off len (l1 ++ l2 ++ l3) = l2.
Proof.
  intros -> ->. unfold slice. rewrite !Nat2Z.id.
  rewrite drop_app_length. by rewrite take_app_length.
Qed.

Lemma slice_length {A} (l : list A) off len :
  0 ≤ off → 0 ≤ len → off + len ≤ zlen l → zlen (slice off len l) = len.
Proof. intros. unfold slice. rewrite length_take, length_drop. lia. Qed.

Lemma omap_cons {A B} (f : A → option B) x l :
  omap f (x :: l) = match f x with Some y => y :: omap f l | None => omap f l end.
Proof. done. Qed.
