(* ===== verification/CLib.v ===== *)
(** * The C library functions the server calls

    [strlen]/[strdup] views of a buffer, [strtol], the ["%ld"] conversion of
    [snprintf], and [snprintf]'s truncation, as glibc on a 64-bit Linux
    defines them.  [strtoll] is [strtol]: both types have 64 bits. *)

From S2P Require Import Prelude.

(** ** Strings in buffers *)

(** The C string a buffer holds: its bytes before the first NUL (or all of
    them when the terminator comes right after the buffer). *)
Fixpoint cstr (l : bytes) : bytes :=
  match l with
  | [] => []
  | c :: l' => if bool_decide (c = NUL) then [] else c :: cstr l'
  end.

Definition no_nul (s : bytes) : Prop := NUL ∉ s.

#[export] Instance no_nul_dec s : Decision (no_nul s).
Proof. unfold no_nul. apply _. Defined.

(** ** Character classes *)

Definition isspace (c : byte) : bool :=
  let v := byte_val c in (v =? 32) || ((9 <=? v) && (v <=? 13)).
Definition isdigit (c : byte) : bool :=
  let v := byte_val c in (48 <=? v) && (v <=? 57).
Definition digit_val (c : byte) : Z := byte_val c - 48.
Definition digit_char (d : Z) : byte := byte_of (48 + d).

Definition MINUS : byte := byte_of 45.
Definition PLUS : byte := byte_of 43.

(** ** [strtol(str, &endptr, 10)]

    The argument is the memory from [str] on; a byte past its end counts as a
    byte that stops the conversion, which is what the terminator does.  The
    offset of [endptr] and the [ERANGE] flag are part of the result. *)
Record strtol_result := StrtolResult {
  st_value : Z;
  st_end : Z;        (* endptr - str *)
  st_erange : bool;  (* errno == ERANGE *)
  st_scanned : Z     (* how many bytes were looked at before stopping *)
}.

Definition digits_val (ds : bytes) : Z :=
  foldl (λ acc c, 10 * acc + digit_val c) 0 ds.

Definition strtol_sign (s : bytes) : bool * Z * bytes :=
  match s with
  | c :: s' =>
      if bool_decide (c = MINUS) then (true, 1, s')
      else if bool_decide (c = PLUS) then (false, 1, s')
      else (false, 0, s)
  | [] => (false, 0, [])
  end.

Definition strtol (s : bytes) : strtol_result :=
  let '(ws, r1) := span isspace s in
  let '(neg, sg, r2) := strtol_sign r1 in
  let '(ds, _) := span isdigit r2 in
  let scanned := zlen ws + sg + zlen ds in
  match ds with
  | [] => StrtolResult 0 0 false scanned
  | _ =>
      let v := if neg then - digits_val ds else digits_val ds in
      if LONG_MAX <? v then StrtolResult LONG_MAX scanned true scanned
      else if v <? LONG_MIN then StrtolResult LONG_MIN scanned true scanned
      else StrtolResult v scanned false scanned
  end.

(** ** ["%ld"], ["%lld"] and ["%d"] *)

Fixpoint digits_of (fuel : nat) (n : Z) (acc : bytes) : bytes :=
  match fuel with
  | O => acc
  | S fuel' =>
      let acc' := digit_char (n mod 10) :: acc in
      if n <? 10 then acc' else digits_of fuel' (n / 10) acc'
  end.

(** The number of binary digits bounds the number of decimal ones. *)
Definition fmt_u (n : Z) : bytes := digits_of (S (Z.to_nat (Z.log2 n))) n [].

Definition fmt_ld (z : Z) : bytes :=
  if z <? 0 then MINUS :: fmt_u (- z) else fmt_u z.

(** ** [snprintf(buf, size, ...)]: the bytes it stores for the formatted text *)
Definition snprintf (size : Z) (text : bytes) : bytes :=
  if size <=? 0 then [] else take (Z.to_nat (size - 1)) text ++ [NUL].

(** ** Lemmas: strings *)

Lemma cstr_no_nul l : no_nul (cstr l).
Proof.
  unfold no_nul. induction l as [|c l IH]; simpl; [set_solver|].
  case_bool_decide; set_solver.
Qed.

Lemma cstr_id s : no_nul s → cstr s = s.
Proof.
  unfold no_nul. induction s as [|c s IH]; simpl; [done|]. intros H.
  rewrite bool_decide_eq_false_2 by set_solver. rewrite IH by set_solver. done.
Qed.

Lemma cstr_term s l : no_nul s → cstr (s ++ NUL :: l) = s.
Proof.
  unfold no_nul. induction s as [|c s IH]; simpl; [done|]. intros H.
  rewrite bool_decide_eq_false_2 by set_solver. rewrite IH by set_solver. done.
Qed.

Lemma snprintf_fits size text :
  zlen text < size → snprintf size text = text ++ [NUL].
Proof.
  intros H. unfold snprintf. destruct (size <=? 0) eqn:E; zbool; [lia|].
  rewrite take_ge by lia. done.
Qed.

(** ** Lemmas: digits *)

Lemma digit_char_val d : 0 ≤ d < 10 → byte_val (digit_char d) = 48 + d.
Proof. intros. unfold digit_char. rewrite byte_val_of, Z.mod_small; lia. Qed.

Lemma digit_char_isdigit d : 0 ≤ d < 10 → isdigit (digit_char d) = true.
Proof.
  intros. unfold isdigit. rewrite digit_char_val by done.
  apply andb_true_iff. split; apply Z.leb_le; lia.
Qed.

Lemma digit_val_char d : 0 ≤ d < 10 → digit_val (digit_char d) = d.
Proof. intros. unfold digit_val. rewrite digit_char_val by done. lia. Qed.

Lemma isdigit_range c : isdigit c = true → 48 ≤ byte_val c ≤ 57.
Proof. unfold isdigit. intros. zbool. lia. Qed.

Lemma isdigit_not_space c : isdigit c = true → isspace c = false.
Proof.
  intros H%isdigit_range. unfold isspace.
  apply orb_false_iff. split; [apply Z.eqb_neq; lia|].
  apply andb_false_iff. right. apply Z.leb_gt. lia.
Qed.

Lemma isdigit_not_sign c : isdigit c = true → c ≠ MINUS ∧ c ≠ PLUS ∧ c ≠ NUL.
Proof.
  intros H%isdigit_range.
  assert (byte_val MINUS = 45 ∧ byte_val PLUS = 43 ∧ byte_val NUL = 0) as (? & ? & ?) by done.
  repeat split; intros ->; lia.
Qed.

Lemma digits_val_app ds1 ds2 :
  digits_val (ds1 ++ ds2) = digits_val ds1 * 10 ^ zlen ds2 + digits_val ds2.
Proof.
  unfold digits_val. rewrite foldl_app. generalize (foldl (λ acc c, 10 * acc + digit_val c) 0 ds1).
  induction ds2 as [|d ds2 IH] using rev_ind; intros a; simpl; [lia|].
  rewrite !foldl_app, IH. simpl. rewrite length_app. simpl.
  rewrite Nat2Z.inj_add, Z.pow_add_r by lia. simpl. lia.
Qed.

Lemma digits_of_spec fuel n acc :
  0 ≤ n < 10 ^ Z.of_nat fuel → (0 < fuel)%nat →
  ∃ ds, digits_of fuel n acc = ds ++ acc ∧ ds ≠ [] ∧
        Forall (λ c, isdigit c = true) ds ∧ digits_val ds = n ∧
        (∀ k, 0 < k → n < 10 ^ k → zlen ds ≤ k).
Proof.
  revert n acc. induction fuel as [|fuel IH]; intros n acc Hn Hf; [lia|]. simpl.
  pose proof (Z.mod_pos_bound n 10).
  destruct (n <? 10) eqn:E; zbool.
  - exists [digit_char (n mod 10)]. split_and!; [done|done|..].
    + apply Forall_singleton, digit_char_isdigit. lia.
    + unfold digits_val. simpl. rewrite digit_val_char by lia.
      rewrite Z.mod_small; lia.
    + intros. simpl. lia.
  - rewrite Nat2Z.inj_succ, Z.pow_succ_r in Hn by lia.
    assert (0 < 10 ^ Z.of_nat fuel) by lia.
    destruct fuel as [|fuel']; [simpl in Hn; lia|].
    destruct (IH (n / 10) (digit_char (n mod 10) :: acc)) as (ds & -> & ? & Hd & Hv & Hl);
      [split; [apply Z.div_pos; lia|apply Z.div_lt_upper_bound; lia]|lia|].
    exists (ds ++ [digit_char (n mod 10)]). split_and!.
    + by rewrite <- app_assoc.
    + intros [? ?]%app_nil. done.
    + apply Forall_app. split; [done|]. apply Forall_singleton, digit_char_isdigit. lia.
    + rewrite digits_val_app, Hv. unfold digits_val at 1. simpl.
      rewrite digit_val_char by lia. pose proof (Z.div_mod n 10). lia.
    + intros k Hk Hlt. rewrite zlen_app. simpl.
      destruct (decide (k = 1)) as [->|]; [simpl in Hlt; lia|].
      specialize (Hl (k - 1)).
      assert (n / 10 < 10 ^ (k - 1)); [|lia].
      apply Z.div_lt_upper_bound; [lia|]. rewrite <- Z.pow_succ_r by lia.
      replace (Z.succ (k - 1)) with k by lia. done.
Qed.

Lemma fmt_u_spec n :
  0 ≤ n →
  fmt_u n ≠ [] ∧ Forall (λ c, isdigit c = true) (fmt_u n) ∧ digits_val (fmt_u n) = n ∧
  (∀ k, 0 < k → n < 10 ^ k → zlen (fmt_u n) ≤ k).
Proof.
  intros Hn. unfold fmt_u.
  destruct (digits_of_spec (S (Z.to_nat (Z.log2 n))) n []) as (ds & -> & ?);
    [|lia|by rewrite app_nil_r].
  split; [done|]. pose proof (Z.log2_nonneg n).
  rewrite Nat2Z.inj_succ, Z2Nat.id by lia.
  destruct (decide (n = 0)) as [->|]; [done|].
  pose proof (Z.log2_spec n). eapply Z.lt_le_trans; [apply H0; lia|].
  apply Z.pow_le_mono_l. lia.
Qed.

(** A formatted number is digits and possibly a sign, is never empty and is at
    most 20 bytes long when it comes from a 64-bit integer. *)
Lemma fmt_ld_chars z c : c ∈ fmt_ld z → c = MINUS ∨ isdigit c = true.
Proof.
  unfold fmt_ld. assert (∀ n, 0 ≤ n → c ∈ fmt_u n → isdigit c = true) as Hu.
  { intros n Hn Hc. destruct (fmt_u_spec n Hn) as (_ & Hd & _). rewrite Forall_forall in Hd. by apply Hd. }
  destruct (z <? 0) eqn:E; zbool; intros Hin.
  - apply elem_of_cons in Hin as [Hin|Hin]; [by left|]. right. apply (Hu (- z)); [lia|done].
  - right. by apply (Hu z).
Qed.

Lemma fmt_ld_no_nul z : no_nul (fmt_ld z).
Proof. intros [|]%fmt_ld_chars; done. Qed.
Lemma fmt_ld_no_cr z : CR ∉ fmt_ld z.
Proof. intros [|]%fmt_ld_chars; done. Qed.

Lemma fmt_ld_length z : LONG_MIN ≤ z ≤ LONG_MAX → 1 ≤ zlen (fmt_ld z) ≤ 20.
Proof.
  unfold LONG_MIN, LONG_MAX, fmt_ld. intros Hz.
  destruct (z <? 0) eqn:E; zbool.
  - destruct (fmt_u_spec (- z)) as (? & _ & _ & Hl); [lia|].
    specialize (Hl 19). simpl length. rewrite Nat2Z.inj_succ. lia.
  - destruct (fmt_u_spec z) as (Hne & _ & _ & Hl); [lia|].
    specialize (Hl 19). destruct (fmt_u z); [done|]. simpl length in *. lia.
Qed.

(** ** Lemmas: [strtol] inverts ["%ld"] *)

Lemma strtol_digits (neg : bool) sg ds rest :
  sg = (if neg then [MINUS] else []) →
  ds ≠ [] → Forall (λ c, isdigit c = true) ds →
  (∀ c l, rest = c :: l → isdigit c = false) →
  let v := if neg then - digits_val ds else digits_val ds in
  LONG_MIN ≤ v ≤ LONG_MAX →
  strtol (sg ++ ds ++ rest) =
    StrtolResult v (zlen (sg ++ ds)) false (zlen (sg ++ ds)).
Proof.
  intros -> Hne Hds Hrest v Hv. unfold strtol.
  assert (span isspace ((if neg then [MINUS] else []) ++ ds ++ rest) =
            ([], (if neg then [MINUS] else []) ++ ds ++ rest)) as ->.
  { destruct neg; [reflexivity|]. destruct ds as [|d ds]; [done|]. simpl.
    apply Forall_cons in Hds as [Hd _]. by rewrite isdigit_not_space. }
  assert (strtol_sign ((if neg then [MINUS] else []) ++ ds ++ rest) =
            (neg, if neg then 1 else 0, ds ++ rest)) as ->.
  { destruct neg; [reflexivity|]. destruct ds as [|d ds]; [done|]. simpl.
    apply Forall_cons in Hds as [Hd _]. apply isdigit_not_sign in Hd as (? & ? & _).
    by rewrite !bool_decide_eq_false_2. }
  rewrite (span_all isdigit ds rest) by done.
  fold v. destruct ds as [|d ds]; [done|].
  unfold LONG_MIN, LONG_MAX in *.
  rewrite (proj2 (Z.ltb_ge _ _)) by lia. rewrite (proj2 (Z.ltb_ge _ _)) by lia.
  rewrite zlen_app. f_equal; destruct neg; simpl length; lia.
Qed.

Lemma strtol_fmt_ld z rest :
  LONG_MIN ≤ z ≤ LONG_MAX →
  (∀ c l, rest = c :: l → isdigit c = false) →
  strtol (fmt_ld z ++ rest) =
    StrtolResult z (zlen (fmt_ld z)) false (zlen (fmt_ld z)).
Proof.
  intros Hz Hrest. unfold fmt_ld. destruct (z <? 0) eqn:E; zbool.
  - destruct (fmt_u_spec (- z)) as (Hne & Hd & Hv & _); [lia|].
    change (MINUS :: fmt_u (- z)) with ([MINUS] ++ fmt_u (- z)). rewrite <- app_assoc.
    rewrite (strtol_digits true [MINUS]); rewrite ?Hv, ?Z.opp_involutive; done.
  - destruct (fmt_u_spec z) as (Hne & Hd & Hv & _); [lia|].
    change (fmt_u z ++ rest) with ([] ++ fmt_u z ++ rest).
    rewrite (strtol_digits false []); rewrite ?Hv; done.
Qed.

Lemma strtol_fmt_ld_nil z :
  LONG_MIN ≤ z ≤ LONG_MAX →
  strtol (fmt_ld z) = StrtolResult z (zlen (fmt_ld z)) false (zlen (fmt_ld z)).
Proof.
  intros Hz. rewrite <- (app_nil_r (fmt_ld z)) at 1. by apply strtol_fmt_ld.
Qed.

(** [strtol] never looks further than the bytes it reports as scanned, and its
    end pointer lies within them. *)
Lemma strtol_range s : LONG_MIN ≤ st_value (strtol s) ≤ LONG_MAX.
Proof.
  unfold strtol, LONG_MIN, LONG_MAX. destruct (span isspace s) as [ws r1]. destruct (strtol_sign r1) as [[neg sg] r2].
  destruct (span isdigit r2) as [[|d ds] r3]; cbn [st_value]; [lia|]. cbv zeta.
  set (v := if neg then _ else _). destruct (_ <? v) eqn:E1; [cbn; lia|]. destruct (v <? _) eqn:E2; cbn; zbool; lia.
Qed.

Lemma strtol_bounds s :
  0 ≤ st_end (strtol s) ≤ st_scanned (strtol s) ∧ st_scanned (strtol s) ≤ zlen s.
Proof.
  unfold strtol. pose proof (span_app isspace s) as Hs.
  destruct (span isspace s) as [ws r1]. simpl in Hs.
  assert (∃ sg, zlen r1 = sg + zlen ((strtol_sign r1).2) ∧ (strtol_sign r1).1.2 = sg ∧ 0 ≤ sg)
    as (sg & Hr1 & Hsg & ?).
  { unfold strtol_sign. destruct r1 as [|c r1]; [by exists 0|].
    repeat case_bool_decide; simpl; eexists; (split; [|split; [done|lia]]); lia. }
  destruct (strtol_sign r1) as [[neg sg'] r2]. simpl in *. subst sg'.
  pose proof (span_app isdigit r2) as Hr2.
  destruct (span isdigit r2) as [ds r3]. simpl in Hr2.
  subst s r2. rewrite zlen_app in Hr1. rewrite zlen_app, Hr1.
  destruct ds as [|d ds]; [cbn; lia|]. cbv zeta beta iota.
  generalize dependent (d :: ds). intros ds' ?.
  case_bool; [|case_bool]; cbn [st_end st_scanned]; lia.
Qed.

(** A canonical decimal text: exactly what ["%ld"] prints for its value. *)
Definition canonical_int (s : bytes) : bool :=
  bool_decide (s = fmt_ld (st_value (strtol s))).
