(* ===== verification/Util.v ===== *)
(** * [src/src/util.c], [src/src/util.h]

    Integer parsing on top of [strtol], the construction of file paths and
    the wall clock in milliseconds. *)

From S2P Require Import Prelude CLib.

Definition ERR_NONE : Z := 0.
Definition ERR_SYNTAX : Z := -1.
Definition ERR_VALUE : Z := -2.
Definition ERR_TYPE_MISMATCH : Z := -3.
Definition ERR_KEY_NOT_FOUND : Z := -4.

(** [gettimeofday] is the operating system's: its answer is an argument. *)
Definition current_time_millis (tv_sec tv_usec : Z) : Z :=
  tv_sec * 1000 + Z.quot tv_usec 1000.

(** Returned code, and the content of [*result] afterwards, given the one
    before the call.  [*endptr] is the terminator exactly when [endptr] is
    [strlen(str)] bytes into [str]. *)
Definition parse_integer (str : bytes) (result : Z) : Z * Z :=
  let r := strtol str in
  let endptr := st_end r in
  if (endptr =? 0) || negb (endptr =? zlen str) || st_erange r
  then (ERR_VALUE, result)
  else (ERR_NONE, st_value r).

Definition parse_long_long (str : bytes) (result : Z) : Z * Z :=
  let r := strtol str in
  let endptr := st_end r in
  if (endptr =? 0) || negb (endptr =? zlen str) || st_erange r
  then (ERR_VALUE, result)
  else (ERR_NONE, st_value r).

(** [dir[i]] of a C string: its terminator is part of the array. *)
Definition c_index (s : bytes) (i : Z) : option byte := (s ++ [NUL]) !! Z.to_nat i.

Definition construct_file_path (malloc_ok : bool) (dir filename : bytes) : option bytes :=
  let path_len := zlen dir + zlen filename + 2 in
  if negb malloc_ok then None
  else if bool_decide (c_index dir (zlen dir - 0) = Some (byte_of 47))
  then Some (cstr (snprintf path_len (dir ++ filename)))
  else Some (cstr (snprintf path_len (dir ++ byte_of 47 :: filename))).

Definition O_NONBLOCK : Z := 2048.

(** [set_non_blocking]: the answers of the two [fcntl] calls; the flags set. *)
Definition set_non_blocking (flags setfl_rc : Z) : res Z :=
  if flags =? -1 then Stop ExitFailure
  else if setfl_rc =? -1 then Stop ExitFailure
  else Ok (Z.lor flags O_NONBLOCK).

(** ** [parse_integer] accepts exactly the decimal texts of [long] values *)

Definition sign_texts : list (bytes * bool) :=
  [([], false); ([PLUS], false); ([MINUS], true)].

(** The texts [strtol] reads completely: spaces, an optional sign, digits. *)
Inductive int_text : bytes → Z → Prop :=
  | IntText (ws sg : bytes) (neg : bool) (ds : bytes) :
      Forall (λ c, isspace c = true) ws →
      (sg, neg) ∈ sign_texts →
      ds ≠ [] → Forall (λ c, isdigit c = true) ds →
      int_text (ws ++ sg ++ ds) (if neg then - digits_val ds else digits_val ds).

Lemma space_not_digit c : isspace c = true → isdigit c = false.
Proof.
  intros H. destruct (isdigit c) eqn:E; [|done].
  apply isdigit_not_space in E. congruence.
Qed.

Lemma strtol_int_text s v :
  int_text s v →
  strtol s = if LONG_MAX <? v then StrtolResult LONG_MAX (zlen s) true (zlen s)
             else if v <? LONG_MIN then StrtolResult LONG_MIN (zlen s) true (zlen s)
             else StrtolResult v (zlen s) false (zlen s).
Proof.
  intros [ws sg neg ds Hws Hsg Hne Hds]. unfold strtol.
  destruct ds as [|d ds]; [done|]. apply Forall_cons_1 in Hds as Hd. destruct Hd as [Hd _].
  pose proof (isdigit_not_sign d Hd) as (? & ? & _).
  assert (span isspace (ws ++ sg ++ d :: ds) = (ws, sg ++ d :: ds)) as ->.
  { apply span_all; [done|]. intros c l Hc.
    repeat (apply elem_of_cons in Hsg as [[= -> ->]|Hsg]); try (by injection Hc as <-);
      [injection Hc as <- _; by apply isdigit_not_space|set_solver]. }
  assert (strtol_sign (sg ++ d :: ds) = (neg, zlen sg, d :: ds)) as ->.
  { repeat (apply elem_of_cons in Hsg as [[= -> ->]|Hsg]); try done; [|set_solver].
    simpl. by rewrite !bool_decide_eq_false_2. }
  rewrite <- (app_nil_r (d :: ds)) at 1. rewrite (span_all isdigit) by done.
  cbv zeta iota. rewrite !zlen_app, Z.add_assoc. done.
Qed.

Lemma strtol_full s :
  st_end (strtol s) = zlen s → st_end (strtol s) ≠ 0 → ∃ v, int_text s v.
Proof.
  unfold strtol. pose proof (span_app isspace s) as Hs. pose proof (span_fst_Forall isspace s) as Hws.
  destruct (span isspace s) as [ws r1]. simpl in *.
  assert (∃ sg, sg ++ (strtol_sign r1).2 = r1 ∧ zlen sg = (strtol_sign r1).1.2 ∧
            (sg, (strtol_sign r1).1.1) ∈ sign_texts)
    as (sg & Hr1 & Hl & Hsg).
  { unfold strtol_sign. destruct r1 as [|c r1]; [by exists []; split_and!; [..|set_solver]|].
    case_bool_decide; [subst; exists [MINUS]; by split_and!; [..|set_solver]|].
    case_bool_decide; [subst; exists [PLUS]; by split_and!; [..|set_solver]|].
    by exists []; split_and!; [..|set_solver]. }
  destruct (strtol_sign r1) as [[neg sg'] r2]. simpl in *.
  pose proof (span_app isdigit r2) as Hr2. pose proof (span_fst_Forall isdigit r2) as Hds.
  destruct (span isdigit r2) as [ds r3]. simpl in *.
  destruct ds as [|d ds]; [done|]. intros He _.
  assert (zlen ws + sg' + zlen (d :: ds) = zlen s) as Hlen.
  { revert He. cbv zeta iota. repeat case_bool_decide; intros He.
    destruct (LONG_MAX <? _); [done|]. destruct (_ <? LONG_MIN); done. }
  assert (r3 = []) as ->.
  { subst s r1 r2. rewrite !zlen_app in Hlen. destruct r3; [done|]. simpl length in Hlen. lia. }
  rewrite app_nil_r in Hr2. subst. eexists. by constructor.
Qed.

(** Totality of the result: either the text denotes a [long], its value is
    stored and [ERR_NONE] returned, or [ERR_VALUE] is returned and the
    caller's variable keeps its content. *)
Lemma parse_integer_text s v r :
  int_text s v →
  parse_integer s r = if (LONG_MIN <=? v) && (v <=? LONG_MAX) then (ERR_NONE, v) else (ERR_VALUE, r).
Proof.
  intros Hv. unfold parse_integer. rewrite (strtol_int_text s v Hv).
  assert (zlen s ≠ 0).
  { destruct Hv as [ws sg neg ds _ _ Hne _]. destruct ds; [done|].
    rewrite !zlen_app. simpl length. lia. }
  destruct (LONG_MAX <? v) eqn:E1; zbool.
  { cbn [st_end st_erange st_value]. rewrite (proj2 (Z.eqb_neq _ 0)), Z.eqb_refl by done. cbn.
    destruct (LONG_MIN <=? v); [|done]. rewrite (proj2 (Z.leb_gt _ _)) by lia. done. }
  destruct (v <? LONG_MIN) eqn:E2; zbool; cbn [st_end st_erange st_value];
    rewrite (proj2 (Z.eqb_neq _ 0)), Z.eqb_refl by done; cbn.
  - rewrite (proj2 (Z.leb_gt _ _)) by lia. done.
  - rewrite !(proj2 (Z.leb_le _ _)) by lia. done.
Qed.

Lemma parse_integer_not_text s r :
  (∀ v, ¬ int_text s v) → parse_integer s r = (ERR_VALUE, r).
Proof.
  intros Hno. unfold parse_integer. pose proof (strtol_bounds s).
  destruct (st_end (strtol s) =? 0) eqn:E; [done|].
  destruct (st_end (strtol s) =? zlen s) eqn:E'; [|done]. zbool. exfalso.
  destruct (strtol_full s) as [v Hv]; [done|done|by apply (Hno v)].
Qed.

Lemma int_text_or_not s : (∃ v, int_text s v) ∨ (∀ v, ¬ int_text s v).
Proof.
  destruct (decide (st_end (strtol s) = zlen s ∧ st_end (strtol s) ≠ 0)) as [[? ?]|Hno].
  - left. by apply strtol_full.
  - right. intros v Hv. apply Hno. rewrite (strtol_int_text s v Hv).
    assert (zlen s ≠ 0).
    { destruct Hv as [ws sg neg ds _ _ Hne _]. destruct ds; [done|].
      rewrite !zlen_app. simpl length. lia. }
    repeat case_bool; done.
Qed.

(** Specification of [parse_integer] on every input. *)
Lemma parse_integer_cases s r :
  (∃ v, int_text s v ∧ LONG_MIN ≤ v ≤ LONG_MAX ∧ parse_integer s r = (ERR_NONE, v)) ∨
  ((∀ v, int_text s v → ¬ LONG_MIN ≤ v ≤ LONG_MAX) ∧ parse_integer s r = (ERR_VALUE, r)).
Proof.
  destruct (int_text_or_not s) as [[v Hv]|Hno].
  - rewrite (parse_integer_text s v r Hv).
    destruct ((LONG_MIN <=? v) && (v <=? LONG_MAX)) eqn:E.
    + left. exists v. zbool. split_and!; auto.
    + right. split; [|done]. intros v' Hv' Hr.
      assert (v' = v) as ->.
      { pose proof (strtol_int_text s v Hv) as H1. rewrite (strtol_int_text s v' Hv') in H1.
        rewrite (proj2 (Z.ltb_ge _ _)), (proj2 (Z.ltb_ge _ _)) in H1 by lia.
        destruct (LONG_MAX <? v); [done|]. destruct (v <? LONG_MIN); [done|]. by injection H1. }
      rewrite !(proj2 (Z.leb_le _ _)) in E by lia. done.
  - right. split; [by intros v Hv; destruct (Hno v)|]. by apply parse_integer_not_text.
Qed.

(** *** The reference reading of a number *)

(** Leading spaces, an optional sign, at least one digit and nothing else, in
    the range of [long]. *)
Definition number (s : bytes) : option Z :=
  let body := (span isspace s).2 in
  let '(neg, ds) :=
    match body with
    | c :: ds => if bool_decide (c = MINUS) then (true, ds)
                 else if bool_decide (c = PLUS) then (false, ds) else (false, body)
    | [] => (false, [])
    end in
  let v := if (neg : bool) then - digits_val ds else digits_val ds in
  if bool_decide (ds ≠ []) && forallb isdigit ds && (LONG_MIN <=? v) && (v <=? LONG_MAX)
  then Some v else None.

Lemma number_sound s v : number s = Some v → int_text s v ∧ LONG_MIN ≤ v ≤ LONG_MAX.
Proof.
  unfold number. pose proof (span_app isspace s) as Hs. pose proof (span_fst_Forall isspace s) as Hws.
  destruct (span isspace s) as [ws body]. cbn [fst snd] in *. subst s.
  assert (∀ (neg : bool) sg ds, (sg, neg) ∈ sign_texts → body = sg ++ ds →
    (let v := if neg then - digits_val ds else digits_val ds in
     if bool_decide (ds ≠ []) && forallb isdigit ds && (LONG_MIN <=? v) && (v <=? LONG_MAX)
     then Some v else None) = Some v → int_text (ws ++ body) v ∧ LONG_MIN ≤ v ≤ LONG_MAX) as Hread.
  { intros neg sg ds Hsg -> E. cbv zeta in E.
    destruct (_ && _) eqn:Eb; [|done]. injection E as <-. rewrite !andb_true_iff in Eb.
    destruct Eb as [[[Hne Hds] Hlo] Hhi]. apply bool_decide_eq_true_1 in Hne. zbool.
    split; [|lia]. constructor; [done|done|done|]. apply Forall_forall. intros c Hc.
    rewrite forallb_forall in Hds. apply Hds. by apply list_elem_of_In. }
  destruct body as [|c ds]; [done|]. case_bool_decide; [subst; apply (Hread true [MINUS] ds); [set_solver|done]|].
  case_bool_decide; [subst; apply (Hread false [PLUS] ds); [set_solver|done]|].
  apply (Hread false [] (c :: ds)); [set_solver|done].
Qed.

Lemma number_complete s v : int_text s v → LONG_MIN ≤ v ≤ LONG_MAX → number s = Some v.
Proof.
  intros [ws sg neg ds Hws Hsg Hne Hds] Hv. destruct ds as [|d ds]; [done|].
  apply Forall_cons_1 in Hds as Hd. destruct Hd as [Hd _]. pose proof (isdigit_not_sign d Hd) as (Hp & Hm & _).
  assert (span isspace (ws ++ sg ++ d :: ds) = (ws, sg ++ d :: ds)) as E.
  { apply span_all; [done|]. intros c l Hc.
    repeat (apply elem_of_cons in Hsg as [[= -> ->]|Hsg]); try (by injection Hc as <-);
      [injection Hc as <- _; by apply isdigit_not_space|set_solver]. }
  assert (forallb isdigit (d :: ds) = true) as Hall.
  { apply forallb_forall. intros c Hc%list_elem_of_In. by apply (proj1 (Forall_forall _ _) Hds). }
  unfold number. rewrite E. cbn [snd].
  repeat (apply elem_of_cons in Hsg as [[= -> ->]|Hsg]); [| | |set_solver]; cbn [app].
  - rewrite (bool_decide_eq_false_2 (d = MINUS)), (bool_decide_eq_false_2 (d = PLUS)) by done.
    rewrite Hall, !(proj2 (Z.leb_le _ _)), bool_decide_eq_true_2 by (done || lia). done.
  - rewrite (bool_decide_eq_false_2 (PLUS = MINUS)), (bool_decide_eq_true_2 (PLUS = PLUS)) by done.
    rewrite Hall, !(proj2 (Z.leb_le _ _)), bool_decide_eq_true_2 by (done || lia). done.
  - rewrite (bool_decide_eq_true_2 (MINUS = MINUS)) by done.
    rewrite Hall, !(proj2 (Z.leb_le _ _)), bool_decide_eq_true_2 by (done || lia). done.
Qed.

(** The code reads the numbers of the reference. *)
Lemma parse_integer_number s r :
  parse_integer s r = match number s with Some v => (ERR_NONE, v) | None => (ERR_VALUE, r) end.
Proof.
  destruct (parse_integer_cases s r) as [(v & Hv & Hr & ->)|[Hno ->]]; [by rewrite (number_complete s v)|].
  destruct (number s) as [v|] eqn:E; [|done]. apply number_sound in E as [Hv Hr]. by destruct (Hno v).
Qed.

(** C29: [parse_integer] and [parse_long_long] store the value and return
    [ERR_NONE] exactly on the decimal texts (leading spaces, optional sign,
    digits) of integers a [long] can hold; on every other string they return
    [ERR_VALUE] and leave the caller's variable untouched. *)
Theorem parse_integer_correct s r :
  parse_long_long s r = parse_integer s r ∧
  ((∃ v, int_text s v ∧ LONG_MIN ≤ v ≤ LONG_MAX ∧ parse_integer s r = (ERR_NONE, v)) ∨
   ((∀ v, int_text s v → ¬ LONG_MIN ≤ v ≤ LONG_MAX) ∧ parse_integer s r = (ERR_VALUE, r))).
Proof. split; [done|]. apply parse_integer_cases. Qed.

(** What the server itself prints is read back. *)
Lemma parse_integer_fmt z r :
  LONG_MIN ≤ z ≤ LONG_MAX → parse_integer (fmt_ld z) r = (ERR_NONE, z).
Proof.
  intros Hz. unfold parse_integer. rewrite strtol_fmt_ld_nil by done. cbn [st_end st_erange st_value].
  pose proof (fmt_ld_length z Hz). rewrite (proj2 (Z.eqb_neq _ _)), Z.eqb_refl by lia. done.
Qed.

(** The trailing-slash test of [construct_file_path] reads the terminator,
    so the path is always directory, slash, file name, and the buffer is
    large enough for it. *)
Theorem construct_file_path_always_inserts_slash dir filename :
  no_nul dir → no_nul filename →
  construct_file_path true dir filename = Some (dir ++ byte_of 47 :: filename).
Proof.
  intros Hd Hf. unfold construct_file_path, c_index. cbn [negb].
  rewrite bool_decide_eq_false_2.
  - rewrite snprintf_fits by (rewrite zlen_app; simpl length; lia).
    rewrite cstr_term; [done|]. unfold no_nul in *.
    rewrite not_elem_of_app, not_elem_of_cons. done.
  - rewrite Z.sub_0_r, Nat2Z.id, lookup_app_r, Nat.sub_diag by lia. done.
Qed.

Lemma construct_file_path_witness :
  construct_file_path true (lit "/tmp/data/") (lit "dump.rdb") = Some (lit "/tmp/data//dump.rdb").
Proof.
  apply (construct_file_path_always_inserts_slash (lit "/tmp/data/") (lit "dump.rdb"));
    by apply (bool_decide_unpack _); vm_compute.
Defined.
