(* ===== verification/RingBuffer.v ===== *)
(** * [src/src/ring_buffer.c]

    A byte queue in shared memory.  The same [size] physical bytes are mapped
    twice in a row, so a region that starts before [size] and runs past it is
    contiguous in memory: virtual offset [o] of the mapping is physical byte
    [o mod size].  The two indices are 64-bit counters that only grow. *)

From S2P Require Import Prelude CLib.

Record ring_buffer := RingBuffer {
  read_index : Z;
  write_index : Z;
  region : option bytes;   (* NULL, or the physical bytes behind both mappings *)
  size : Z;
  fd : Z
}.

#[export] Instance ring_buffer_eq_dec : EqDecision ring_buffer.
Proof. solve_decision. Defined.

(** ** The doubly mapped memory *)

#[export] Instance byte_inhabited : Inhabited byte := populate NUL.

Definition ring_get (W : bytes) (i : Z) : byte := W !!! Z.to_nat (i mod zlen W).
Definition ring_set (W : bytes) (i : Z) (b : byte) : bytes := <[Z.to_nat (i mod zlen W) := b]> W.

Definition ring_slice (W : bytes) (i n : Z) : bytes := ring_get W <$> seqZ i n.

Fixpoint ring_write (W : bytes) (i : Z) (data : bytes) : bytes :=
  match data with
  | [] => W
  | b :: data' => ring_write (ring_set W i b) (i + 1) data'
  end.

(** [memcpy] from and to the mapping at virtual offset [off]; the mapping ends
    at [2 * size]. *)
Definition rb_load (rb : ring_buffer) (off len : Z) : res bytes :=
  match region rb with
  | Some W =>
      if (0 <=? off) && (0 <=? len) && (off + len <=? 2 * size rb)
      then Ok (ring_slice W off len) else Stop BadAccess
  | None => Stop BadAccess
  end.

Definition rb_store (rb : ring_buffer) (off : Z) (data : bytes) : res ring_buffer :=
  match region rb with
  | Some W =>
      if (0 <=? off) && (off + zlen data <=? 2 * size rb)
      then Ok (RingBuffer (read_index rb) (write_index rb) (Some (ring_write W off data))
                 (size rb) (fd rb))
      else Stop BadAccess
  | None => Stop BadAccess
  end.

(** ** The operations *)

(** [ASSERT_STATE]: the build type is Debug, so a failed assertion aborts. *)
Definition assert_state (rb : ring_buffer) : bool :=
  negb (fd rb =? -1) && bool_decide (is_Some (region rb)) &&
  (read_index rb <=? write_index rb) &&
  (u64 (write_index rb - read_index rb) <=? size rb).

Definition ASSERT_STATE (rb : ring_buffer) : res unit :=
  if assert_state rb then Ok tt else Stop AssertFailed.

Definition readable_len (rb : ring_buffer) : Z := u64 (write_index rb - read_index rb).
Definition writable_len (rb : ring_buffer) : Z := u64 (size rb - readable_len rb).

(** Pointer (as an offset into the mapping) and length. *)
Definition rb_readable (rb : ring_buffer) : res (Z * Z) :=
  _ ← ASSERT_STATE rb;
  if size rb =? 0 then Stop BadAccess
  else Ok (read_index rb mod size rb, readable_len rb).

Definition rb_writable (rb : ring_buffer) : res (Z * Z) :=
  _ ← ASSERT_STATE rb;
  if size rb =? 0 then Stop BadAccess
  else Ok (write_index rb mod size rb, writable_len rb).

Definition set_read_index (i : Z) (rb : ring_buffer) : ring_buffer :=
  RingBuffer i (write_index rb) (region rb) (size rb) (fd rb).
Definition set_write_index (i : Z) (rb : ring_buffer) : ring_buffer :=
  RingBuffer (read_index rb) i (region rb) (size rb) (fd rb).

(** Returned code and the new state. *)
Definition rb_read (rb : ring_buffer) (len : Z) : res (Z * ring_buffer) :=
  _ ← ASSERT_STATE rb;
  if readable_len rb <? len then Ok (-1, rb)
  else
    let rb' := set_read_index (u64 (read_index rb + len)) rb in
    _ ← ASSERT_STATE rb';
    Ok (0, rb').

Definition rb_write (rb : ring_buffer) (len : Z) : res (Z * ring_buffer) :=
  _ ← ASSERT_STATE rb;
  if writable_len rb <? len then Ok (-1, rb)
  else
    let rb' := set_write_index (u64 (write_index rb + len)) rb in
    _ ← ASSERT_STATE rb';
    Ok (0, rb').

(** ** Creation and destruction

    What the operating system answers is an argument; what is released is
    recorded, in order. *)
Inductive os_release := Close (fd : Z) | Munmap (len : Z) | Free.

#[export] Instance os_release_eq_dec : EqDecision os_release.
Proof. solve_decision. Defined.

Definition rb_destroy (rb : option ring_buffer) : Z * list os_release :=
  match rb with
  | None => (-1, [])
  | Some rb =>
      (0, (if fd rb =? -1 then [] else [Close (fd rb)]) ++
          match region rb with Some _ => [Munmap (u64 (size rb * 2))] | None => [] end ++ [Free])
  end.

Record rb_os := RbOs {
  page_size : Z;
  malloc_ok : bool;
  shm_name : bytes;        (* what "rb.%d.%p" formats to *)
  shm_open_fd : Z;
  shm_unlink_rc : Z;
  ftruncate_rc : Z;
  mmap1_ok : bool;
  mmap2_ok : bool
}.

Definition rb_create (os : rb_os) (sz : Z) : res (Z * option ring_buffer * list os_release) :=
  let fail rb := Ok (-1, None, snd (rb_destroy (Some rb))) in
  if negb (sz mod page_size os =? 0) then Ok (-1, None, [])
  else if negb (malloc_ok os) then Ok (-1, None, [])
  else
    let rb := RingBuffer 0 0 None sz (-1) in
    if 64 <=? zlen (shm_name os) then fail rb
    else
      let rb := RingBuffer 0 0 None sz (shm_open_fd os) in
      if fd rb =? -1 then fail rb
      else if shm_unlink_rc os =? -1 then fail rb
      else if ftruncate_rc os =? -1 then fail rb
      else if negb (mmap1_ok os) then fail rb
      else
        (* a truncated-up file reads as zeros *)
        let rb := RingBuffer 0 0 (Some (replicate (Z.to_nat sz) NUL)) sz (shm_open_fd os) in
        if negb (mmap2_ok os) then fail rb
        else _ ← ASSERT_STATE rb; Ok (0, Some rb, []).

(** ** Invariant and abstraction *)

(** Bytes written and not yet read, oldest first. *)
Definition contents (rb : ring_buffer) : bytes :=
  match region rb with
  | Some W => ring_slice W (read_index rb) (write_index rb - read_index rb)
  | None => []
  end.

Record rb_wf (rb : ring_buffer) : Prop := {
  wf_fd : fd rb ≠ -1;
  wf_region : ∃ W, region rb = Some W ∧ zlen W = size rb;
  wf_size : 0 < size rb < 2 ^ 62;
  wf_order : 0 ≤ read_index rb ≤ write_index rb;
  wf_fill : write_index rb - read_index rb ≤ size rb;
  wf_u64 : write_index rb < 2 ^ 64
}.

(** ** The doubly mapped memory: lemmas *)

Lemma length_ring_set W i b : length (ring_set W i b) = length W.
Proof. apply length_insert. Qed.

Lemma length_ring_write W i data : length (ring_write W i data) = length W.
Proof.
  revert W i. induction data as [|b data IH]; intros W i; simpl; [done|].
  by rewrite IH, length_ring_set.
Qed.

Lemma zlen_ring_slice W i n : 0 ≤ n → zlen (ring_slice W i n) = n.
Proof. intros. unfold ring_slice. rewrite length_fmap, length_seqZ. lia. Qed.

Lemma ring_get_set W i j b :
  (0 < length W)%nat →
  ring_get (ring_set W i b) j =
    if decide (i mod zlen W = j mod zlen W) then b else ring_get W j.
Proof.
  intros HW. unfold ring_get, ring_set. rewrite length_insert.
  pose proof (Z.mod_pos_bound i (zlen W)). pose proof (Z.mod_pos_bound j (zlen W)).
  case_decide as E.
  - rewrite E. apply list_lookup_total_insert_eq. lia.
  - apply list_lookup_total_insert_ne. lia.
Qed.

Lemma ring_get_mod W i j : i mod zlen W = j mod zlen W → ring_get W i = ring_get W j.
Proof. unfold ring_get. by intros ->. Qed.

(** Indices closer than the size are different physical bytes. *)
Lemma mod_close n i j : 0 < n → i ≠ j → - n < i - j < n → i mod n ≠ j mod n.
Proof.
  intros Hn Hij Hd E. apply Hij.
  pose proof (Z.div_mod i n). pose proof (Z.div_mod j n).
  assert (i / n = j / n); nia.
Qed.

Lemma ring_write_out W i data j :
  (0 < length W)%nat →
  (∀ k, 0 ≤ k < zlen data → (i + k) mod zlen W ≠ j mod zlen W) →
  ring_get (ring_write W i data) j = ring_get W j.
Proof.
  revert W i. induction data as [|b data IH]; intros W i HW Hk; simpl; [done|].
  simpl length in Hk. rewrite IH; rewrite ?length_ring_set; [|done|].
  - rewrite ring_get_set by done. rewrite decide_False; [done|].
    specialize (Hk 0). rewrite Z.add_0_r in Hk. apply Hk. lia.
  - intros k ?. replace (i + 1 + k) with (i + (k + 1)) by lia. apply Hk. lia.
Qed.

Lemma ring_write_in W i data k :
  (0 < length W)%nat → zlen data ≤ zlen W → 0 ≤ k < zlen data →
  ring_get (ring_write W i data) (i + k) = data !!! Z.to_nat k.
Proof.
  revert W i k. induction data as [|b data IH]; intros W i k HW Hl Hk; simpl length in *; [lia|].
  simpl. destruct (decide (k = 0)) as [->|].
  - rewrite ring_write_out; rewrite ?length_ring_set; [|done|].
    + rewrite Z.add_0_r, ring_get_set, decide_True by done. done.
    + intros k ?. apply mod_close; lia.
  - replace (i + k) with (i + 1 + (k - 1)) by lia.
    rewrite IH by (rewrite ?length_ring_set; lia).
    replace (Z.to_nat k) with (S (Z.to_nat (k - 1))) by lia. done.
Qed.

Lemma ring_write_mod W i j data :
  i mod zlen W = j mod zlen W → (0 < length W)%nat → ring_write W i data = ring_write W j data.
Proof.
  revert W i j. induction data as [|b data IH]; intros W i j E HW; simpl; [done|].
  assert (ring_set W i b = ring_set W j b) as -> by (unfold ring_set; by rewrite E).
  apply IH; rewrite length_ring_set; [|done].
  rewrite <- (Z.add_mod_idemp_l i), <- (Z.add_mod_idemp_l j) by lia. by rewrite E.
Qed.

Lemma ring_slice_ext W W' i n :
  (∀ k, i ≤ k < i + n → ring_get W' k = ring_get W k) → ring_slice W' i n = ring_slice W i n.
Proof.
  intros H. unfold ring_slice. apply list_fmap_ext. intros k x Hx.
  apply lookup_seqZ in Hx as [-> ?]. apply H. lia.
Qed.

Lemma ring_slice_mod W i j n :
  i mod zlen W = j mod zlen W → (0 < length W)%nat → ring_slice W i n = ring_slice W j n.
Proof.
  intros E HW. unfold ring_slice. apply list_eq. intros k. rewrite !list_lookup_fmap.
  destruct (decide (Z.of_nat k < n)).
  - rewrite !lookup_seqZ_lt by lia. simpl. f_equal. apply ring_get_mod.
    rewrite <- (Z.add_mod_idemp_l i), <- (Z.add_mod_idemp_l j) by lia. by rewrite E.
  - rewrite !lookup_seqZ_ge by lia. done.
Qed.

Lemma ring_slice_app W i n m :
  0 ≤ n → 0 ≤ m → ring_slice W i (n + m) = ring_slice W i n ++ ring_slice W (i + n) m.
Proof. intros. unfold ring_slice. rewrite seqZ_app by lia. by rewrite fmap_app. Qed.

Lemma ring_slice_written W i data :
  (0 < length W)%nat → zlen data ≤ zlen W →
  ring_slice (ring_write W i data) i (zlen data) = data.
Proof.
  intros HW Hl. apply list_eq. intros k. unfold ring_slice. rewrite list_lookup_fmap.
  destruct (decide (k < length data)%nat).
  - rewrite lookup_seqZ_lt by lia. simpl. rewrite ring_write_in by lia.
    rewrite Nat2Z.id. symmetry. by apply list_lookup_lookup_total_lt.
  - rewrite lookup_seqZ_ge by lia. simpl. symmetry. apply lookup_ge_None. lia.
Qed.

(** Writing behind [n] live bytes keeps them. *)
Lemma ring_slice_write_behind W i n data :
  (0 < length W)%nat → 0 ≤ n → n + zlen data ≤ zlen W →
  ring_slice (ring_write W (i + n) data) i n = ring_slice W i n.
Proof.
  intros HW Hn Hl. apply ring_slice_ext. intros k Hk.
  apply ring_write_out; [done|]. intros j ?. apply mod_close; lia.
Qed.

(** ** Well-formed buffers: what each operation does *)

Lemma rb_wf_assert rb : rb_wf rb → assert_state rb = true.
Proof.
  intros [Hfd (W & HW & _) Hs Ho Hf H64]. unfold assert_state.
  rewrite HW, bool_decide_eq_true_2 by eauto.
  rewrite uwrap_small by lia.
  repeat (apply andb_true_iff; split); [|done|apply Z.leb_le; lia..].
  apply negb_true_iff, Z.eqb_neq. done.
Qed.

Lemma rb_wf_ASSERT rb : rb_wf rb → ASSERT_STATE rb = Ok tt.
Proof. intros. unfold ASSERT_STATE. by rewrite rb_wf_assert. Qed.

Lemma readable_len_wf rb : rb_wf rb → readable_len rb = write_index rb - read_index rb.
Proof. intros [_ _ ? ? ? ?]. unfold readable_len. by rewrite uwrap_small by lia. Qed.

Lemma writable_len_wf rb :
  rb_wf rb → writable_len rb = size rb - (write_index rb - read_index rb).
Proof.
  intros Hwf. unfold writable_len. rewrite readable_len_wf by done.
  destruct Hwf. by rewrite uwrap_small by lia.
Qed.

Lemma contents_length rb : rb_wf rb → zlen (contents rb) = write_index rb - read_index rb.
Proof.
  intros [_ (W & HW & _) _ ? _ _]. unfold contents. rewrite HW.
  rewrite zlen_ring_slice; lia.
Qed.

Lemma rb_readable_wf rb :
  rb_wf rb → rb_readable rb = Ok (read_index rb mod size rb, zlen (contents rb)).
Proof.
  intros Hwf. unfold rb_readable. rewrite (rb_wf_ASSERT rb) by done. simpl.
  rewrite readable_len_wf, contents_length by done.
  destruct Hwf. by rewrite (proj2 (Z.eqb_neq _ _)) by lia.
Qed.

Lemma rb_writable_wf rb :
  rb_wf rb → rb_writable rb = Ok (write_index rb mod size rb, size rb - zlen (contents rb)).
Proof.
  intros Hwf. unfold rb_writable. rewrite (rb_wf_ASSERT rb) by done. simpl.
  rewrite writable_len_wf, contents_length by done.
  destruct Hwf. by rewrite (proj2 (Z.eqb_neq _ _)) by lia.
Qed.

(** The readable pointer gives access to the queued bytes. *)
Lemma rb_load_contents rb :
  rb_wf rb → rb_load rb (read_index rb mod size rb) (zlen (contents rb)) = Ok (contents rb).
Proof.
  intros Hwf. pose proof (contents_length rb Hwf) as Hl. rewrite Hl.
  destruct Hwf as [_ (W & HW & HlW) Hs Ho Hf _].
  unfold rb_load, contents. rewrite HW.
  pose proof (Z.mod_pos_bound (read_index rb) (size rb)).
  rewrite !(proj2 (Z.leb_le _ _)) by lia. simpl. f_equal.
  apply ring_slice_mod; [|lia]. rewrite HlW. by rewrite Z.mod_mod by lia.
Qed.

Definition rb_with_region (rb : ring_buffer) (W : bytes) : ring_buffer :=
  RingBuffer (read_index rb) (write_index rb) (Some W) (size rb) (fd rb).

(** Storing at the writable pointer: the queue is unchanged, and the bytes are
    found behind it. *)
Lemma rb_store_wf rb data :
  rb_wf rb → zlen data ≤ size rb - zlen (contents rb) →
  ∃ rb', rb_store rb (write_index rb mod size rb) data = Ok rb' ∧ rb_wf rb' ∧
    contents rb' = contents rb ∧
    read_index rb' = read_index rb ∧ write_index rb' = write_index rb ∧ size rb' = size rb ∧
    ∀ W, region rb' = Some W → ring_slice W (write_index rb) (zlen data) = data.
Proof.
  intros Hwf Hfit. pose proof (contents_length rb Hwf) as Hl. rewrite Hl in Hfit.
  pose proof Hwf as [Hfd (W & HW & HlW) Hs Ho Hf H64].
  pose proof (Z.mod_pos_bound (write_index rb) (size rb)).
  set (W' := ring_write W (write_index rb) data).
  assert (zlen W' = size rb) as HlW' by (unfold W'; by rewrite length_ring_write).
  exists (rb_with_region rb W'). unfold rb_store. rewrite HW.
  rewrite !(proj2 (Z.leb_le _ _)) by lia. simpl. split_and!; try done.
  - unfold rb_with_region, W'. do 3 f_equal. apply ring_write_mod; [|lia].
    rewrite HlW. by rewrite Z.mod_mod by lia.
  - constructor; simpl; eauto.
  - unfold contents. simpl. rewrite HW. unfold W'.
    replace (write_index rb) with (read_index rb + (write_index rb - read_index rb)) at 1 by lia.
    apply ring_slice_write_behind; lia.
  - intros W'' [= <-]. unfold W'. apply ring_slice_written; lia.
Qed.

Lemma rb_write_wf rb len :
  rb_wf rb → 0 ≤ len ≤ size rb - zlen (contents rb) → write_index rb + len < 2 ^ 64 →
  ∃ rb', rb_write rb len = Ok (0, rb') ∧ rb' = set_write_index (write_index rb + len) rb ∧
    rb_wf rb' ∧
    ∀ W, region rb = Some W →
      contents rb' = contents rb ++ ring_slice W (write_index rb) len.
Proof.
  intros Hwf Hlen H64. pose proof (contents_length rb Hwf) as Hl. rewrite Hl in Hlen.
  eexists. split; [|split; [reflexivity|]].
  - unfold rb_write. rewrite (rb_wf_ASSERT rb) by done. simpl.
    rewrite writable_len_wf by done. rewrite (proj2 (Z.ltb_ge _ _)) by lia.
    destruct Hwf as [Hfd (W & HW & HlW) Hs Ho Hf H64'].
    rewrite (uwrap_small 64) by lia. rewrite rb_wf_ASSERT; [done|].
    constructor; simpl; eauto; lia.
  - destruct Hwf as [Hfd (W & HW & HlW) Hs Ho Hf H64']. split.
    + constructor; simpl; eauto; lia.
    + intros W' HW'. unfold contents. simpl. rewrite HW'.
      replace (write_index rb + len - read_index rb)
        with (write_index rb - read_index rb + len) by lia.
      rewrite ring_slice_app by lia. do 2 f_equal. lia.
Qed.

Lemma rb_read_wf rb len :
  rb_wf rb → 0 ≤ len ≤ zlen (contents rb) →
  ∃ rb', rb_read rb len = Ok (0, rb') ∧ rb' = set_read_index (read_index rb + len) rb ∧
    rb_wf rb' ∧ contents rb' = drop (Z.to_nat len) (contents rb).
Proof.
  intros Hwf Hlen. pose proof (contents_length rb Hwf) as Hl. rewrite Hl in Hlen.
  pose proof Hwf as [Hfd (W & HW & HlW) Hs Ho Hf H64'].
  assert (rb_wf (set_read_index (read_index rb + len) rb)) by (constructor; simpl; eauto; lia).
  eexists. split; [|split; [reflexivity|split; [done|]]].
  - unfold rb_read. rewrite (rb_wf_ASSERT rb) by done. simpl.
    rewrite readable_len_wf by done. rewrite (proj2 (Z.ltb_ge _ _)) by lia.
    rewrite (uwrap_small 64) by lia. by rewrite rb_wf_ASSERT.
  - unfold contents. simpl. rewrite HW.
    replace (write_index rb - read_index rb) with (len + (write_index rb - read_index rb - len)) by lia.
    rewrite ring_slice_app by lia. rewrite drop_app_ge; rewrite <- (Nat2Z.id (length (ring_slice _ _ len))), zlen_ring_slice by lia; [|lia].
    rewrite Nat.sub_diag, drop_0. f_equal; lia.
Qed.

Lemma rb_read_too_much rb len :
  rb_wf rb → zlen (contents rb) < len → rb_read rb len = Ok (-1, rb).
Proof.
  intros Hwf Hlen. unfold rb_read. rewrite (rb_wf_ASSERT rb) by done. simpl.
  rewrite readable_len_wf, <- contents_length by done. by rewrite (proj2 (Z.ltb_lt _ _)).
Qed.

Lemma rb_write_too_much rb len :
  rb_wf rb → size rb - zlen (contents rb) < len → rb_write rb len = Ok (-1, rb).
Proof.
  intros Hwf Hlen. unfold rb_write. rewrite (rb_wf_ASSERT rb) by done. simpl.
  rewrite writable_len_wf, <- contents_length by done. by rewrite (proj2 (Z.ltb_lt _ _)).
Qed.

(** Storing and advancing. *)
Lemma rb_fill rb d :
  rb_wf rb → zlen d ≤ size rb - zlen (contents rb) → write_index rb + zlen d < 2 ^ 64 →
  ∃ rb1 rb2, rb_store rb (write_index rb mod size rb) d = Ok rb1 ∧ rb_write rb1 (zlen d) = Ok (0, rb2) ∧
    rb_wf rb2 ∧ contents rb2 = contents rb ++ d ∧ size rb2 = size rb ∧ write_index rb2 = write_index rb + zlen d.
Proof.
  intros Hwf Hfit H64.
  destruct (rb_store_wf rb d Hwf Hfit) as (rb1 & Hs & Hwf1 & Hc1 & Hr1 & Hw1 & Hz1 & HW).
  destruct (rb_write_wf rb1 (zlen d)) as (rb2 & Hw & -> & Hwf2 & Hc2); [done|rewrite Hc1, Hz1; lia|rewrite Hw1; lia|].
  exists rb1, (set_write_index (write_index rb1 + zlen d) rb1). split_and!; [done|done|done| |done|cbn; lia].
  destruct Hwf1 as [_ (W & HW1 & _) _ _ _ _]. rewrite (Hc2 W HW1), Hc1, Hw1. by rewrite (HW W HW1).
Qed.

(** Whatever the arguments, an operation that ends normally keeps the buffer well
    formed and its size. *)
Lemma assert_state_wf rb :
  assert_state rb = true → (∀ W, region rb = Some W → zlen W = size rb) → 0 < size rb < 2 ^ 62 →
  0 ≤ read_index rb < 2 ^ 64 → 0 ≤ write_index rb < 2 ^ 64 → rb_wf rb.
Proof.
  unfold assert_state. intros Ha HW Hs Hr Hw. zbool. match goal with H : is_Some _ |- _ => destruct H as [W HW'] end.
  rewrite (uwrap_small 64) in * by lia. constructor; try done; try lia. exists W. split; [done|by apply HW].
Qed.

Lemma rb_move_wf rb rb' :
  rb_wf rb → region rb' = region rb → size rb' = size rb → fd rb' = fd rb → 0 ≤ read_index rb' < 2 ^ 64 →
  0 ≤ write_index rb' < 2 ^ 64 → ∀ (rc : Z) r, (_ ← ASSERT_STATE rb'; Ok (rc, rb')) = Ok r → rb_wf r.2 ∧ size r.2 = size rb.
Proof.
  intros [_ (W & HW & Hl) Hs _ _ _] Hreg Hsz _ Hr Hw rc r. unfold ASSERT_STATE.
  destruct (assert_state rb') eqn:Ea; [|done]. intros [= <-]. cbn [snd]. split; [|done].
  apply assert_state_wf; rewrite ?Hsz; try done. intros W' HW'. rewrite Hreg, HW in HW'. by injection HW' as <-.
Qed.

Lemma rb_read_keeps rb n rc rb' : rb_wf rb → rb_read rb n = Ok (rc, rb') → rb_wf rb' ∧ size rb' = size rb.
Proof.
  intros Hwf. unfold rb_read. rewrite (rb_wf_ASSERT rb Hwf). cbn [mbind res_bind].
  destruct (_ <? n); [by intros [= <- <-]|]. pose proof (uwrap_range 64 (read_index rb + n) ltac:(lia)).
  pose proof Hwf as [_ _ _ ? _ ?].
  intros E. apply (rb_move_wf rb (set_read_index (u64 (read_index rb + n)) rb) Hwf) in E; cbn; done || lia.
Qed.

Lemma rb_write_keeps rb n rc rb' : rb_wf rb → rb_write rb n = Ok (rc, rb') → rb_wf rb' ∧ size rb' = size rb.
Proof.
  intros Hwf. unfold rb_write. rewrite (rb_wf_ASSERT rb Hwf). cbn [mbind res_bind].
  destruct (_ <? n); [by intros [= <- <-]|]. pose proof (uwrap_range 64 (write_index rb + n) ltac:(lia)).
  pose proof Hwf as [_ _ _ ? _ ?].
  intros E. apply (rb_move_wf rb (set_write_index (u64 (write_index rb + n)) rb) Hwf) in E; cbn; done || lia.
Qed.

Lemma rb_store_keeps rb off d rb' : rb_wf rb → rb_store rb off d = Ok rb' → rb_wf rb' ∧ size rb' = size rb.
Proof.
  intros [Hfd (W & HW & Hl) Hs Ho Hf H64]. unfold rb_store. rewrite HW. destruct (_ && _); [|done].
  intros [= <-]. split; [|done]. constructor; cbn; try done. eexists. split; [done|]. by rewrite length_ring_write.
Qed.

Lemma rb_load_length rb off len d : rb_load rb off len = Ok d → zlen d = len.
Proof.
  unfold rb_load. destruct (region rb); [|done]. destruct (_ && _) eqn:E; [|done]. intros [= <-]. zbool.
  by apply zlen_ring_slice.
Qed.

(** The memory from the read pointer on starts with the bytes of the queue. *)
Lemma rb_load_tail rb :
  rb_wf rb → ∃ rest,
    rb_load rb (read_index rb mod size rb) (2 * size rb - read_index rb mod size rb) =
      Ok (contents rb ++ rest).
Proof.
  intros Hwf. pose proof (rb_load_contents rb Hwf) as Hc. pose proof (contents_length rb Hwf) as Hl.
  destruct Hwf as [_ (W & HW & HlW) Hs Ho Hf _]. unfold rb_load in *. rewrite HW in *.
  pose proof (Z.mod_pos_bound (read_index rb) (size rb)).
  rewrite !(proj2 (Z.leb_le _ _)) in Hc by lia. rewrite !(proj2 (Z.leb_le _ _)) by lia. cbn [andb] in *.
  injection Hc as Hc.
  replace (2 * size rb - read_index rb mod size rb) with
    (zlen (contents rb) + (2 * size rb - read_index rb mod size rb - zlen (contents rb))) by lia.
  rewrite ring_slice_app by lia. rewrite Hc. eauto.
Qed.

(** ** The protocol of the callers, as one operation

    Get the writable pointer, give up if the data does not fit, copy, advance;
    get the readable pointer, look at [n] bytes, advance. *)
Definition rb_put (rb : ring_buffer) (data : bytes) : res (Z * ring_buffer) :=
  '(off, len) ← rb_writable rb;
  if len <? zlen data then Ok (-1, rb)
  else rb' ← rb_store rb off data; rb_write rb' (zlen data).

Definition rb_take (rb : ring_buffer) (n : Z) : res (option bytes * ring_buffer) :=
  '(off, len) ← rb_readable rb;
  if len <? n then Ok (None, rb)
  else
    data ← rb_load rb off n;
    '(_, rb') ← rb_read rb n;
    Ok (Some data, rb').

Lemma rb_put_wf rb data :
  rb_wf rb → zlen data ≤ size rb - zlen (contents rb) → write_index rb + zlen data < 2 ^ 64 →
  ∃ rb', rb_put rb data = Ok (0, rb') ∧ rb_wf rb' ∧ contents rb' = contents rb ++ data ∧
    size rb' = size rb ∧ write_index rb' = write_index rb + zlen data.
Proof.
  intros Hwf Hfit H64. unfold rb_put. rewrite rb_writable_wf by done. simpl.
  rewrite (proj2 (Z.ltb_ge _ _)) by lia.
  destruct (rb_fill rb data Hwf Hfit H64) as (rb1 & rb2 & -> & Hw & ? & ? & ? & ?). eauto 10.
Qed.

Lemma rb_put_full rb data :
  rb_wf rb → size rb - zlen (contents rb) < zlen data → rb_put rb data = Ok (-1, rb).
Proof.
  intros Hwf Hfit. unfold rb_put. rewrite rb_writable_wf by done. simpl.
  by rewrite (proj2 (Z.ltb_lt _ _)).
Qed.

Lemma rb_load_prefix rb n :
  rb_wf rb → 0 ≤ n ≤ zlen (contents rb) →
  rb_load rb (read_index rb mod size rb) n = Ok (take (Z.to_nat n) (contents rb)).
Proof.
  intros Hwf Hn. pose proof (contents_length rb Hwf) as Hl. rewrite Hl in Hn.
  destruct Hwf as [_ (W & HW & HlW) Hs Ho Hf _].
  unfold rb_load, contents. rewrite HW.
  pose proof (Z.mod_pos_bound (read_index rb) (size rb)).
  rewrite !(proj2 (Z.leb_le _ _)) by lia. simpl. f_equal.
  replace (write_index rb - read_index rb) with (n + (write_index rb - read_index rb - n)) by lia.
  rewrite ring_slice_app by lia. rewrite take_app_length'.
  - apply ring_slice_mod; [|lia]. rewrite HlW. by rewrite Z.mod_mod by lia.
  - rewrite <- (Nat2Z.id (length _)), zlen_ring_slice; lia.
Qed.

Lemma rb_take_wf rb n :
  rb_wf rb → 0 ≤ n ≤ zlen (contents rb) →
  ∃ rb', rb_take rb n = Ok (Some (take (Z.to_nat n) (contents rb)), rb') ∧ rb_wf rb' ∧
    contents rb' = drop (Z.to_nat n) (contents rb) ∧
    size rb' = size rb ∧ write_index rb' = write_index rb.
Proof.
  intros Hwf Hn. unfold rb_take. rewrite rb_readable_wf by done. simpl.
  rewrite (proj2 (Z.ltb_ge _ _)) by lia. rewrite rb_load_prefix by done. simpl.
  destruct (rb_read_wf rb n Hwf Hn) as (rb' & -> & -> & Hwf' & Hc). simpl. eauto 10.
Qed.

(** ** Refinement: a ring buffer is a bounded FIFO queue of bytes *)

Inductive rb_op := Put (data : bytes) | Take (n : nat).
Inductive rb_reply := PutReply (rc : Z) | TakeReply (data : option bytes).

Definition rb_step (rb : ring_buffer) (op : rb_op) : res (rb_reply * ring_buffer) :=
  match op with
  | Put data => '(rc, rb') ← rb_put rb data; Ok (PutReply rc, rb')
  | Take n => '(d, rb') ← rb_take rb (Z.of_nat n); Ok (TakeReply d, rb')
  end.

Definition fifo_step (cap : Z) (q : bytes) (op : rb_op) : rb_reply * bytes :=
  match op with
  | Put data => if cap - zlen q <? zlen data then (PutReply (-1), q) else (PutReply 0, q ++ data)
  | Take n => if zlen q <? Z.of_nat n then (TakeReply None, q)
              else (TakeReply (Some (take n q)), drop n q)
  end.

Fixpoint rb_run (rb : ring_buffer) (ops : list rb_op) : res (list rb_reply * ring_buffer) :=
  match ops with
  | [] => Ok ([], rb)
  | op :: ops' =>
      '(r, rb1) ← rb_step rb op;
      '(rs, rb2) ← rb_run rb1 ops';
      Ok (r :: rs, rb2)
  end.

Fixpoint fifo_run (cap : Z) (q : bytes) (ops : list rb_op) : list rb_reply * bytes :=
  match ops with
  | [] => ([], q)
  | op :: ops' =>
      let '(r, q1) := fifo_step cap q op in
      let '(rs, q2) := fifo_run cap q1 ops' in (r :: rs, q2)
  end.

Definition op_bytes (op : rb_op) : Z := match op with Put d => zlen d | Take _ => 0 end.
Definition put_bytes (ops : list rb_op) : Z := foldr (λ op n, op_bytes op + n) 0 ops.

Lemma put_bytes_nonneg ops : 0 ≤ put_bytes ops.
Proof. induction ops as [|[d|n] ops IH]; simpl; lia. Qed.

Lemma rb_step_refines rb op :
  rb_wf rb → write_index rb + op_bytes op < 2 ^ 64 →
  ∃ rb', rb_step rb op = Ok ((fifo_step (size rb) (contents rb) op).1, rb') ∧ rb_wf rb' ∧
    contents rb' = (fifo_step (size rb) (contents rb) op).2 ∧ size rb' = size rb ∧
    write_index rb' ≤ write_index rb + op_bytes op.
Proof.
  intros Hwf H64. destruct op as [data|n]; simpl in *.
  - destruct (size rb - zlen (contents rb) <? zlen data) eqn:E; zbool.
    + rewrite rb_put_full by done. simpl. exists rb. split_and!; auto. lia.
    + destruct (rb_put_wf rb data) as (rb' & -> & ? & ? & ? & ?); [done..|]. simpl.
      exists rb'. split_and!; auto. lia.
  - destruct (zlen (contents rb) <? Z.of_nat n) eqn:E; zbool.
    + unfold rb_take. rewrite rb_readable_wf by done. simpl.
      rewrite (proj2 (Z.ltb_lt _ _)) by lia. simpl. exists rb. split_and!; auto. lia.
    + destruct (rb_take_wf rb (Z.of_nat n)) as (rb' & -> & ? & ? & ? & ?); [done|lia|].
      rewrite Nat2Z.id in *. simpl. exists rb'. split_and!; auto. lia.
Qed.

(** C13: any sequence of put and take operations on a well-formed ring buffer
    runs without an assertion failure or an access outside the mapping, and
    gives the replies and the final queue of a bounded FIFO of the same
    capacity, as long as fewer than 2^64 bytes have gone through it. *)
Theorem ring_buffer_refines_fifo rb ops :
  rb_wf rb → write_index rb + put_bytes ops < 2 ^ 64 →
  ∃ rb', rb_run rb ops = Ok ((fifo_run (size rb) (contents rb) ops).1, rb') ∧ rb_wf rb' ∧
    contents rb' = (fifo_run (size rb) (contents rb) ops).2.
Proof.
  revert rb. induction ops as [|op ops IH]; intros rb Hwf H64; simpl in *; [by eauto|].
  pose proof (put_bytes_nonneg ops).
  destruct (rb_step_refines rb op) as (rb1 & -> & Hwf1 & Hc1 & Hs1 & Hw1); [done|lia|].
  rewrite <- Hs1 in *. destruct (fifo_step (size rb1) (contents rb) op) as [r q1]. simpl in *.
  destruct (IH rb1) as (rb2 & -> & Hwf2 & Hc2); [done|lia|]. rewrite Hc1 in *.
  destruct (fifo_run (size rb1) q1 ops) as [rs q2]. simpl in *. eauto.
Qed.

(** ** Creation *)

Lemma rb_fresh_wf sz d :
  0 < sz < 2 ^ 62 → d ≠ -1 → rb_wf (RingBuffer 0 0 (Some (replicate (Z.to_nat sz) NUL)) sz d).
Proof.
  intros Hsz Hd. constructor; simpl; try lia.
  eexists. split; [done|]. rewrite length_replicate. lia.
Qed.

(** How far a creation gets: structure allocated, descriptor open, first
    mapping in place, second mapping in place. *)
Definition got_struct (os : rb_os) (sz : Z) : bool :=
  (sz mod page_size os =? 0) && malloc_ok os.
Definition got_fd (os : rb_os) (sz : Z) : bool :=
  got_struct os sz && (zlen (shm_name os) <? 64) && negb (shm_open_fd os =? -1).
Definition got_map (os : rb_os) (sz : Z) : bool :=
  got_fd os sz && negb (shm_unlink_rc os =? -1) && negb (ftruncate_rc os =? -1) && mmap1_ok os.

(** What a creation has acquired when it ends, as the releases that give it back. *)
Definition rb_acquired (os : rb_os) (sz : Z) : list os_release :=
  (if got_fd os sz then [Close (shm_open_fd os)] else []) ++
  (if got_map os sz then [Munmap (2 * sz)] else []) ++ (if got_struct os sz then [Free] else []).
Definition rb_created (os : rb_os) (sz : Z) : bool := got_map os sz && mmap2_ok os.

(** Creation succeeds, with an empty well-formed buffer and nothing
    released, exactly when every system call does; when it fails it hands back
    no buffer and releases, in order and once each, exactly what it had
    acquired until then. *)
Theorem rb_create_total os sz :
  0 < page_size os → 0 < sz < 2 ^ 62 →
  if rb_created os sz
  then ∃ rb, rb_create os sz = Ok (0, Some rb, []) ∧ rb_wf rb ∧ contents rb = [] ∧ size rb = sz ∧
         write_index rb = 0 ∧ (rb_destroy (Some rb)).2 = rb_acquired os sz
  else rb_create os sz = Ok (-1, None, rb_acquired os sz).
Proof.
  intros Hp Hsz. unfold rb_create, rb_created, rb_acquired, got_map, got_fd, got_struct.
  destruct (sz mod page_size os =? 0); [|done]. destruct (malloc_ok os); [|done].
  rewrite Z.ltb_antisym. destruct (64 <=? zlen (shm_name os)); [done|]. simpl.
  destruct (shm_open_fd os =? -1) eqn:Efd; [done|].
  destruct (shm_unlink_rc os =? -1); [done|].
  destruct (ftruncate_rc os =? -1); [done|].
  destruct (mmap1_ok os); [|done]. destruct (mmap2_ok os); simpl.
  - zbool. pose proof (rb_fresh_wf sz (shm_open_fd os) Hsz Efd) as Hwf.
    rewrite (rb_wf_ASSERT _ Hwf). eexists. split_and!; try done. cbn.
    rewrite (proj2 (Z.eqb_neq _ _)) by done. rewrite (uwrap_small 64) by lia. by rewrite Z.mul_comm.
  - rewrite (uwrap_small 64) by lia. by rewrite Z.mul_comm.
Qed.

(** When the 64-bit write counter would pass 2^64 the wrapped value is
    below the read counter, and the assertion after the update stops the
    server rather than let it run with a corrupt queue. *)
Theorem rb_write_index_overflow rb len :
  rb_wf rb → 0 ≤ len ≤ size rb - zlen (contents rb) → 2 ^ 64 ≤ write_index rb + len →
  rb_write rb len = Stop AssertFailed.
Proof.
  intros Hwf Hlen H64. pose proof (contents_length rb Hwf) as Hl. rewrite Hl in Hlen.
  unfold rb_write. rewrite (rb_wf_ASSERT rb) by done. simpl.
  rewrite writable_len_wf by done. rewrite (proj2 (Z.ltb_ge _ _)) by lia.
  destruct Hwf as [Hfd (W & HW & HlW) Hs Ho Hf H64'].
  assert (u64 (write_index rb + len) = write_index rb + len - 2 ^ 64) as ->.
  { unfold uwrap. symmetry. apply (Z.mod_unique_pos _ _ 1); lia. }
  unfold ASSERT_STATE, assert_state. simpl.
  rewrite (proj2 (Z.leb_gt (read_index rb) _)) by lia.
  by rewrite andb_false_r.
Qed.

(** ** Witnesses *)

(** Four bytes, three of them queued, wrapping around the end. *)
Definition rb_example : ring_buffer := RingBuffer 3 6 (Some (lit "cdab")) 4 5.

Lemma rb_example_wf : rb_wf rb_example.
Proof. constructor; simpl; try lia. by eexists. Qed.

Lemma ring_buffer_refines_fifo_witness :
  ∃ rb', rb_run rb_example [Take 1; Put (lit "ef"); Put (lit "g"); Take 4] =
           Ok ([TakeReply (Some (lit "b")); PutReply 0; PutReply (-1);
                TakeReply (Some (lit "cdef"))], rb') ∧ contents rb' = [].
Proof.
  destruct (ring_buffer_refines_fifo rb_example
              [Take 1; Put (lit "ef"); Put (lit "g"); Take 4]) as (rb' & H1 & _ & H2);
    [apply rb_example_wf|vm_compute; reflexivity|].
  exists rb'. split; [exact H1|exact H2].
Defined.

Definition rb_os_example : rb_os := RbOs 4096 true (lit "rb.1.0x5581") 7 0 0 true false.

Lemma rb_create_total_witness :
  rb_create rb_os_example 65536 = Ok (-1, None, [Close 7; Munmap 131072; Free]).
Proof.
  exact (rb_create_total rb_os_example 65536 ltac:(vm_compute; reflexivity)
           ltac:(split; vm_compute; reflexivity)).
Defined.

Definition rb_example_full_counter : ring_buffer :=
  RingBuffer (2 ^ 64 - 2) (2 ^ 64 - 1) (Some (lit "abcd")) 4 5.

Lemma rb_write_index_overflow_witness :
  rb_write rb_example_full_counter 3 = Stop AssertFailed.
Proof.
  apply rb_write_index_overflow; [|vm_compute; split; discriminate|vm_compute; discriminate].
  constructor; simpl; try lia. by eexists.
Defined.
