(* ===== verification/LinkedList.v ===== *)
(** * [src/src/linked_list.c]

    Doubly linked lists of strings, in a heap.  A [Node *] or [List] is a
    location or NULL ([None]); following one that is not live stops the run.
    Whether each [malloc]/[strdup] succeeds is an input of the model. *)

From S2P Require Import Prelude CLib.

Abbreviation loc := positive.

Record Node := MkNode { data : bytes; prev : option loc; next : option loc }.

(** [length] is indeterminate ([None]) until the first push: [create_list]
    does not set it. *)
Record list_struct := MkList { head : option loc; tail : option loc; llength : option Z }.

Record heap := MkHeap {
  nodes : gmap loc Node;
  lists : gmap loc list_struct;
  brk : loc;            (* every location from here on is unused *)
  alloc_answers : list bool   (* outcomes of the next allocations; then success *)
}.

Definition set_nodes (ns : gmap loc Node) (h : heap) : heap :=
  MkHeap ns (lists h) (brk h) (alloc_answers h).
Definition set_lists (ls : gmap loc list_struct) (h : heap) : heap :=
  MkHeap (nodes h) ls (brk h) (alloc_answers h).

Abbreviation heapM := (st heap).

(** ** Memory operations *)

Definition malloc : heapM bool := λ h,
  match alloc_answers h with
  | [] => Ok (true, h)
  | b :: bs => Ok (b, MkHeap (nodes h) (lists h) (brk h) bs)
  end.

Definition load_node (p : option loc) : heapM Node := λ h,
  match p ≫= (nodes h !!.) with Some n => Ok (n, h) | None => Stop BadAccess end.
Definition store_node (p : option loc) (n : Node) : heapM unit := λ h,
  match p with
  | Some a => if decide (is_Some (nodes h !! a)) then Ok (tt, set_nodes (<[a := n]> (nodes h)) h)
              else Stop BadAccess
  | None => Stop BadAccess
  end.
Definition new_node (n : Node) : heapM loc := λ h,
  Ok (brk h, MkHeap (<[brk h := n]> (nodes h)) (lists h) (Pos.succ (brk h)) (alloc_answers h)).
Definition free_node (p : option loc) : heapM unit := λ h,
  match p with
  | Some a => if decide (is_Some (nodes h !! a)) then Ok (tt, set_nodes (delete a (nodes h)) h)
              else Stop BadAccess
  | None => Stop BadAccess
  end.

Definition load_list (l : loc) : heapM list_struct := λ h,
  match lists h !! l with Some s => Ok (s, h) | None => Stop BadAccess end.
Definition store_list (l : loc) (s : list_struct) : heapM unit := λ h,
  if decide (is_Some (lists h !! l)) then Ok (tt, set_lists (<[l := s]> (lists h)) h)
  else Stop BadAccess.

(** Reading a [size_t] that may be indeterminate. *)
Definition read_length (s : list_struct) : heapM Z := lift (of_option Indeterminate (llength s)).

(** ** The operations *)

Definition create_list : heapM (option loc) :=
  ok ← malloc;
  if negb ok then mret None
  else λ h, Ok (Some (brk h),
    MkHeap (nodes h) (<[brk h := MkList None None None]> (lists h)) (Pos.succ (brk h))
      (alloc_answers h)).

Fixpoint destroy_nodes (fuel : nat) (cur : option loc) : heapM unit :=
  match cur with
  | None => mret tt
  | Some _ =>
      match fuel with
      | O => stop OutOfFuel
      | S fuel' =>
          n ← load_node cur;
          let temp := next n in
          _ ← store_node cur (MkNode (data n) None None);
          _ ← free_node cur;
          destroy_nodes fuel' temp
      end
  end.

Definition destroy_list (lst : option loc) : heapM unit :=
  match lst with
  | None => mret tt
  | Some l =>
      s ← load_list l;
      fuel ← gets (λ h, base.size (nodes h));
      _ ← destroy_nodes (S fuel) (head s);
      modify (λ h, set_lists (delete l (lists h)) h)
  end.

(** Returned code and the content of [*length] afterwards. *)
Definition lpush (lst : option loc) (item : option bytes) (length : Z) : heapM (Z * Z) :=
  match lst, item with
  | Some l, Some item =>
      ok ← malloc;
      if negb ok then mret (0, length)
      else
        ok ← malloc;
        if negb ok then mret (0, length)
        else
          a ← new_node (MkNode item None None);
          s ← load_list l;
          if bool_decide (head s = None) && bool_decide (tail s = None) then
            _ ← store_list l (MkList (Some a) (Some a) (Some 1));
            mret (0, s32 1)
          else
            _ ← store_node (Some a) (MkNode item None (head s));
            n ← load_node (head s);
            _ ← store_node (head s) (MkNode (data n) (Some a) (next n));
            len ← read_length s;
            _ ← store_list l (MkList (Some a) (tail s) (Some (u64 (len + 1))));
            mret (0, s32 (u64 (len + 1)))
  | _, _ => mret (0, length)
  end.

Definition rpush (lst : option loc) (item : option bytes) (length : Z) : heapM (Z * Z) :=
  match lst, item with
  | Some l, Some item =>
      ok ← malloc;
      if negb ok then mret (0, length)
      else
        ok ← malloc;
        if negb ok then mret (0, length)
        else
          a ← new_node (MkNode item None None);
          s ← load_list l;
          if bool_decide (head s = None) && bool_decide (tail s = None) then
            _ ← store_list l (MkList (Some a) (Some a) (Some 1));
            mret (0, s32 1)
          else
            _ ← store_node (Some a) (MkNode item (tail s) None);
            n ← load_node (tail s);
            _ ← store_node (tail s) (MkNode (data n) (prev n) (Some a));
            len ← read_length s;
            _ ← store_list l (MkList (head s) (Some a) (Some (u64 (len + 1))));
            mret (0, s32 (u64 (len + 1)))
  | _, _ => mret (0, length)
  end.

(** [for (int i = 0; i < start && cur != NULL; i++) cur = cur->next;] *)
Fixpoint skip_nodes (n : nat) (cur : option loc) : heapM (option loc) :=
  match n, cur with
  | S n', Some _ => nd ← load_node cur; skip_nodes n' (next nd)
  | _, _ => mret cur
  end.

(** The copying loop: [None] when a [strdup] failed, else the copies made and
    the node reached. *)
Fixpoint copy_nodes (n : nat) (cur : option loc) : heapM (option (list bytes * option loc)) :=
  match n, cur with
  | S n', Some _ =>
      nd ← load_node cur;
      ok ← malloc;
      if negb ok then mret None
      else
        r ← copy_nodes n' (next nd);
        mret (match r with Some (xs, cur') => Some (data nd :: xs, cur') | None => None end)
  | _, _ => mret (Some ([], cur))
  end.

(** The returned array (NULL is [None]) and the content of [*range_length]. *)
Definition lrange (lst : option loc) (start end_ : Z) : heapM (option (list bytes) * Z) :=
  match lst with
  | None => mret (None, 0)
  | Some l =>
      s ← load_list l;
      len ← read_length s;
      let start := if start <? 0 then s32 (u64 (len + start)) else start in
      let end_ := if end_ <? 0 then s32 (u64 (len + end_)) else end_ in
      if (start <? 0) || (len <=? u64 start) || (end_ <? start) then mret (None, 0)
      else
        let end_ := if len <=? u64 end_ then s32 (u64 (len - 1)) else end_ in
        let count := end_ - start + 1 in
        ok ← malloc;
        if negb ok then mret (None, 0)
        else
          cur ← skip_nodes (Z.to_nat start) (head s);
          r ← copy_nodes (Z.to_nat count) cur;
          match r with
          | None => mret (None, count)
          | Some (xs, cur) =>
              let i := zlen xs in
              mret (Some xs, if bool_decide (cur = None) && (i <? count) then i else count)
          end
  end.

Definition get_list_length (lst : option loc) : heapM Z :=
  match lst with
  | None => mret 0
  | Some l => s ← load_list l; read_length s
  end.

(** Only frees; a NULL array with a positive length is followed. *)
Definition cleanup_lrange_result (range : option (list bytes)) (range_length : Z) : res unit :=
  match range with
  | None => if 0 <? range_length then Stop BadAccess else Ok tt
  | Some _ => Ok tt
  end.

(** ** Representation *)

(** [ps] lists the nodes from [p] up to [nx], with their strings; [pv] precedes
    the first one and [lst] is the last one. *)
Fixpoint dlseg (ns : gmap loc Node) (pv p lst nx : option loc) (ps : list (loc * bytes)) : Prop :=
  match ps with
  | [] => p = nx ∧ lst = pv
  | (a, x) :: ps' =>
      p = Some a ∧ ∃ r, ns !! a = Some (MkNode x pv r) ∧ dlseg ns (Some a) r lst nx ps'
  end.

Definition list_rep (h : heap) (l : loc) (ps : list (loc * bytes)) : Prop :=
  ∃ s, lists h !! l = Some s ∧ dlseg (nodes h) None (head s) (tail s) None ps ∧
       NoDup ps.*1 ∧ (ps ≠ [] → llength s = Some (zlen ps)).

Record heap_wf (h : heap) : Prop := {
  wf_nodes : ∀ a n, nodes h !! a = Some n → (a < brk h)%positive;
  wf_lists : ∀ l s, lists h !! l = Some s → (l < brk h)%positive
}.

(** What an operation on the list [l] with nodes [fp] may touch. *)
Record heap_frame (h h' : heap) (l : loc) (fp : list loc) : Prop := {
  frame_lists : ∀ l', l' ≠ l → lists h' !! l' = lists h !! l';
  frame_nodes : ∀ a, a ∉ fp → a ≠ brk h → nodes h' !! a = nodes h !! a;
  frame_brk : (brk h ≤ brk h')%positive
}.

Lemma dlseg_ext ns ns' pv p lst nx ps :
  (∀ a, a ∈ ps.*1 → ns' !! a = ns !! a) → dlseg ns pv p lst nx ps → dlseg ns' pv p lst nx ps.
Proof.
  revert pv p. induction ps as [|[a x] ps IH]; intros pv p Hext; simpl; [done|].
  intros (-> & r & Ha & Hps). split; [done|]. exists r.
  rewrite Hext by (simpl; set_solver). split; [done|].
  apply IH; [|done]. intros b Hb. apply Hext. simpl. set_solver.
Qed.

Lemma dlseg_live ns pv p lst nx ps a :
  dlseg ns pv p lst nx ps → a ∈ ps.*1 → is_Some (ns !! a).
Proof.
  revert pv p. induction ps as [|[b x] ps IH]; intros pv p; simpl; [set_solver|].
  intros (_ & r & Hb & Hps) [->|Ha]%elem_of_cons; [by eauto|]. by eapply IH.
Qed.

Lemma dlseg_snoc ns pv p lst nx ps a x :
  dlseg ns pv p lst nx (ps ++ [(a, x)]) ↔
  lst = Some a ∧ ∃ r, ns !! a = Some (MkNode x r nx) ∧ dlseg ns pv p r (Some a) ps.
Proof.
  revert pv p. induction ps as [|[b y] ps IH]; intros pv p; simpl.
  - split.
    + intros (-> & r & Ha & -> & ->). eauto 10.
    + intros (-> & r & Ha & -> & ->). eauto 10.
  - split.
    + intros (-> & r & Hb & (-> & r' & Ha & Hps)%IH). eauto 10.
    + intros (-> & r & Ha & -> & r' & Hb & Hps). split; [done|]. exists r'.
      split; [done|]. apply IH. eauto.
Qed.

Lemma list_rep_live h l ps : list_rep h l ps → is_Some (lists h !! l).
Proof. intros (s & Hs & _). eauto. Qed.

(** A list whose nodes an operation does not touch keeps its contents. *)
Lemma list_rep_frame h h' l fp l' ps' :
  heap_wf h → heap_frame h h' l fp → list_rep h l' ps' → l' ≠ l → ps'.*1 ## fp →
  list_rep h' l' ps'.
Proof.
  intros Hwf Hf (s & Hs & Hd & Hnd & Hlen) Hne Hdisj. exists s.
  rewrite (frame_lists _ _ _ _ Hf) by done. split_and!; auto.
  eapply dlseg_ext; [|done]. intros a Ha. apply Hf.
  - set_solver.
  - intros ->. destruct (dlseg_live _ _ _ _ _ _ _ Hd Ha) as [n Hn].
    apply (wf_nodes _ Hwf) in Hn. lia.
Qed.

(** ** Allocation *)

Lemma malloc_ok h : alloc_answers h = [] → malloc h = Ok (true, h).
Proof. unfold malloc. by intros ->. Qed.

Lemma malloc_fails h bs :
  alloc_answers h = false :: bs → malloc h = Ok (false, MkHeap (nodes h) (lists h) (brk h) bs).
Proof. unfold malloc. by intros ->. Qed.

Lemma create_list_rep h :
  heap_wf h → alloc_answers h = [] →
  ∃ h', create_list h = Ok (Some (brk h), h') ∧ heap_wf h' ∧ alloc_answers h' = [] ∧
    list_rep h' (brk h) [] ∧ heap_frame h h' (brk h) [] ∧ lists h !! brk h = None.
Proof.
  intros Hwf Ha. unfold create_list, mbind, st_bind. rewrite malloc_ok by done. simpl.
  eexists. split; [done|].
  assert (lists h !! brk h = None) as Hnone.
  { destruct (lists h !! brk h) eqn:E; [|done]. apply (wf_lists _ Hwf) in E. lia. }
  split_and!; try done.
  - constructor; simpl.
    + intros a n Hn. apply (wf_nodes _ Hwf) in Hn. lia.
    + intros l s [[<- _]|[_ Hl]]%lookup_insert_Some; [lia|]. apply (wf_lists _ Hwf) in Hl. lia.
  - exists (MkList None None None). simpl. rewrite lookup_insert_eq.
    split_and!; try done. constructor.
  - constructor; simpl; [|done|lia]. intros. by rewrite lookup_insert_ne.
Qed.

(** ** Pushing *)

Lemma new_node_ok h n :
  new_node n h =
    Ok (brk h, MkHeap (<[brk h := n]> (nodes h)) (lists h) (Pos.succ (brk h)) (alloc_answers h)).
Proof. done. Qed.

Lemma load_node_ok h a n : nodes h !! a = Some n → load_node (Some a) h = Ok (n, h).
Proof. intros E. unfold load_node. simpl. by rewrite E. Qed.

Lemma store_node_ok h a n n' :
  nodes h !! a = Some n → store_node (Some a) n' h = Ok (tt, set_nodes (<[a := n']> (nodes h)) h).
Proof. intros E. unfold store_node. rewrite decide_True; [done|]. by rewrite E; eexists. Qed.

Lemma load_list_ok h l s : lists h !! l = Some s → load_list l h = Ok (s, h).
Proof. intros E. unfold load_list. by rewrite E. Qed.

Lemma store_list_ok h l s s' :
  lists h !! l = Some s → store_list l s' h = Ok (tt, set_lists (<[l := s']> (lists h)) h).
Proof. intros E. unfold store_list. rewrite decide_True; [done|]. by rewrite E; eexists. Qed.

(** The heap after both kinds of push: a new node [a], possibly the old end
    node [b] relinked, and the header rewritten. *)
Definition push_heap (h : heap) (l : loc) (s' : list_struct) (n : Node)
    (relink : option (loc * Node)) : heap :=
  MkHeap (match relink with
          | Some (b, nb) => <[b := nb]> (<[brk h := n]> (nodes h))
          | None => <[brk h := n]> (nodes h)
          end)
    (<[l := s']> (lists h)) (Pos.succ (brk h)) (alloc_answers h).

Lemma push_heap_ok h l s s' n relink fp :
  heap_wf h → lists h !! l = Some s →
  (∀ b nb, relink = Some (b, nb) → b ∈ fp ∧ is_Some (nodes h !! b)) →
  heap_wf (push_heap h l s' n relink) ∧ heap_frame h (push_heap h l s' n relink) l fp.
Proof.
  intros Hwf Hs Hre. split; constructor; simpl.
  - intros a n' Ha. destruct (decide (a = brk h)) as [->|]; [lia|].
    destruct relink as [[b nb]|].
    + destruct (Hre b nb eq_refl) as [_ [m Hm]]. apply (wf_nodes _ Hwf) in Hm.
      apply lookup_insert_Some in Ha as [[<- _]|[_ Ha]]; [lia|].
      rewrite lookup_insert_ne in Ha by done. apply (wf_nodes _ Hwf) in Ha. lia.
    + rewrite lookup_insert_ne in Ha by done. apply (wf_nodes _ Hwf) in Ha. lia.
  - intros l' s'' [[<- _]|[_ Hl]]%lookup_insert_Some.
    + apply (wf_lists _ Hwf) in Hs. lia.
    + apply (wf_lists _ Hwf) in Hl. lia.
  - intros. by rewrite lookup_insert_ne.
  - intros a Hfp Hne. destruct relink as [[b nb]|].
    + destruct (Hre b nb eq_refl). rewrite !lookup_insert_ne by set_solver. done.
    + by rewrite lookup_insert_ne.
  - lia.
Qed.

Lemma push_heap_none h l s s' n :
  heap_wf h → lists h !! l = Some s →
  heap_wf (push_heap h l s' n None) ∧ heap_frame h (push_heap h l s' n None) l [].
Proof. intros. by eapply push_heap_ok. Qed.

Lemma brk_fresh h a : heap_wf h → is_Some (nodes h !! a) → a ≠ brk h.
Proof. intros Hwf [n Hn] ->. apply (wf_nodes _ Hwf) in Hn. lia. Qed.

(** Run a memory operation whose target the last updates decide. *)
Ltac heap_step lem :=
  erewrite st_bind_ok
    by (eapply lem; simpl; rewrite ?lookup_insert_eq, ?lookup_insert_ne by done; eauto);
  cbv beta.

(** First push on an empty list, from either side. *)
Lemma push_empty_run h l s x len0 :
  alloc_answers h = [] → lists h !! l = Some s → head s = None → tail s = None →
  let h' := push_heap h l (MkList (Some (brk h)) (Some (brk h)) (Some 1)) (MkNode x None None) None in
  lpush (Some l) (Some x) len0 h = Ok ((0, 1), h') ∧
  rpush (Some l) (Some x) len0 h = Ok ((0, 1), h').
Proof.
  intros Ha Hs Hh Ht. split; unfold lpush, rpush;
    (do 2 st_step malloc_ok; st_step new_node_ok; st_step load_list_ok);
    rewrite Hh, Ht, !bool_decide_eq_true_2 by done; cbn [andb]; by st_step store_list_ok.
Qed.

Lemma lpush_run h l s x len0 b y r n :
  heap_wf h → alloc_answers h = [] → lists h !! l = Some s → llength s = Some n →
  0 < n < INT_MAX → head s = Some b → nodes h !! b = Some (MkNode y None r) →
  lpush (Some l) (Some x) len0 h =
    Ok ((0, n + 1), push_heap h l (MkList (Some (brk h)) (tail s) (Some (n + 1)))
                      (MkNode x None (Some b)) (Some (b, MkNode y (Some (brk h)) r))).
Proof.
  intros Hwf Ha Hs Hlen Hn Hh Hb. unfold INT_MAX in Hn.
  assert (b ≠ brk h) as Hne by (apply brk_fresh; eauto).
  unfold lpush. do 2 st_step malloc_ok. st_step new_node_ok. st_step load_list_ok.
  rewrite Hh, (bool_decide_eq_false_2 (Some b = None)) by done. cbn [andb].
  do 3 (first [heap_step store_node_ok | heap_step load_node_ok]).
  unfold read_length. rewrite Hlen. erewrite st_bind_ok by reflexivity. cbv beta.
  heap_step store_list_ok. rewrite (uwrap_small 64), swrap_small by lia.
  rewrite st_ret_eq. unfold push_heap, set_nodes, set_lists. simpl. by rewrite insert_insert_eq.
Qed.

Lemma rpush_run h l s x len0 b y r n :
  heap_wf h → alloc_answers h = [] → lists h !! l = Some s → llength s = Some n →
  0 < n < INT_MAX → tail s = Some b → nodes h !! b = Some (MkNode y r None) →
  rpush (Some l) (Some x) len0 h =
    Ok ((0, n + 1), push_heap h l (MkList (head s) (Some (brk h)) (Some (n + 1)))
                      (MkNode x (Some b) None) (Some (b, MkNode y r (Some (brk h))))).
Proof.
  intros Hwf Ha Hs Hlen Hn Ht Hb. unfold INT_MAX in Hn.
  assert (b ≠ brk h) as Hne by (apply brk_fresh; eauto).
  unfold rpush. do 2 st_step malloc_ok. st_step new_node_ok. st_step load_list_ok.
  rewrite Ht, (bool_decide_eq_false_2 (Some b = None)), andb_false_r by done.
  do 3 (first [heap_step store_node_ok | heap_step load_node_ok]).
  unfold read_length. rewrite Hlen. erewrite st_bind_ok by reflexivity. cbv beta.
  heap_step store_list_ok. rewrite (uwrap_small 64), swrap_small by lia.
  rewrite st_ret_eq. unfold push_heap, set_nodes, set_lists. simpl. by rewrite insert_insert_eq.
Qed.

Lemma dlseg_fresh h pv p lst nx ps :
  heap_wf h → dlseg (nodes h) pv p lst nx ps → brk h ∉ ps.*1.
Proof.
  intros Hwf Hd Hin. destruct (dlseg_live _ _ _ _ _ _ _ Hd Hin) as [n Hn].
  apply (wf_nodes _ Hwf) in Hn. lia.
Qed.

(** Nodes other than the new one and the relinked one are as before. *)
Lemma dlseg_push_heap h l s' n b nb pv p lst nx ps :
  heap_wf h → b ∉ ps.*1 → dlseg (nodes h) pv p lst nx ps →
  dlseg (nodes (push_heap h l s' n (Some (b, nb)))) pv p lst nx ps.
Proof.
  intros Hwf Hb Hd. eapply dlseg_ext; [|exact Hd]. intros c Hc. simpl.
  rewrite !lookup_insert_ne; [done| |set_solver].
  intros <-. by eapply dlseg_fresh in Hc.
Qed.

(** Pushing on the left puts the string in front and reports the new length. *)
Lemma lpush_rep h l ps x len0 :
  heap_wf h → alloc_answers h = [] → list_rep h l ps → zlen ps < INT_MAX →
  ∃ h', lpush (Some l) (Some x) len0 h = Ok ((0, zlen ps + 1), h') ∧ heap_wf h' ∧
    alloc_answers h' = [] ∧ list_rep h' l ((brk h, x) :: ps) ∧ heap_frame h h' l ps.*1.
Proof.
  intros Hwf Ha (s & Hs & Hd & Hnd & Hlen) Hmax. pose proof (dlseg_fresh _ _ _ _ _ _ Hwf Hd) as Hfr.
  destruct ps as [|[b y] ps].
  - destruct Hd as [Hh Ht]. destruct (push_empty_run h l s x len0) as [-> _]; [done..|].
    eexists. split; [done|].
    split_and!; [by eapply push_heap_none|done| |by eapply push_heap_none]. eexists. simpl. rewrite lookup_insert_eq.
    split_and!; try done; [|apply NoDup_singleton]. eexists. by rewrite lookup_insert_eq.
  - destruct Hd as (Hh & r & Hb & Hps). specialize (Hlen ltac:(done)). simpl in Hnd, Hfr.
    rewrite (lpush_run h l s x len0 b y r (zlen ((b, y) :: ps))) by (done || simpl length in *; lia).
    eexists. split; [done|]. pose proof Hs as [Hw Hf]%(push_heap_ok h l s
      (MkList (Some (brk h)) (tail s) (Some (zlen ((b, y) :: ps) + 1))) (MkNode x None (Some b))
      (Some (b, MkNode y (Some (brk h)) r)) (b :: ps.*1)); [|done|].
    2:{ intros ? ? [= <- <-]. split; [set_solver|eauto]. }
    split_and!; [done|done| |done]. pose proof Hnd as [Hbps _]%NoDup_cons.
    eexists. split; [apply lookup_insert_eq|]. split_and!.
    + split; [done|]. exists (Some b). simpl nodes.
      rewrite lookup_insert_ne, lookup_insert_eq by set_solver.
      split; [done|]. split; [done|]. exists r. rewrite lookup_insert_eq. split; [done|].
      apply (dlseg_push_heap h l (MkList None None None) (MkNode x None (Some b)) b
               (MkNode y (Some (brk h)) r)); done.
    + by apply NoDup_cons.
    + intros _. simpl. f_equal. lia.
Qed.

(** Pushing on the right puts the string at the end. *)
Lemma rpush_rep h l ps x len0 :
  heap_wf h → alloc_answers h = [] → list_rep h l ps → zlen ps < INT_MAX →
  ∃ h', rpush (Some l) (Some x) len0 h = Ok ((0, zlen ps + 1), h') ∧ heap_wf h' ∧
    alloc_answers h' = [] ∧ list_rep h' l (ps ++ [(brk h, x)]) ∧ heap_frame h h' l ps.*1.
Proof.
  intros Hwf Ha (s & Hs & Hd & Hnd & Hlen) Hmax. pose proof (dlseg_fresh _ _ _ _ _ _ Hwf Hd) as Hfr.
  destruct ps as [|[b y] ps _] using rev_ind.
  - destruct Hd as [Hh Ht]. destruct (push_empty_run h l s x len0) as [_ ->]; [done..|].
    eexists. split; [done|].
    split_and!; [by eapply push_heap_none|done| |by eapply push_heap_none]. eexists. simpl. rewrite lookup_insert_eq.
    split_and!; try done; [|apply NoDup_singleton]. eexists. by rewrite lookup_insert_eq.
  - apply dlseg_snoc in Hd as (Ht & r & Hb & Hps). specialize (Hlen ltac:(by destruct ps)).
    rewrite fmap_app in Hnd, Hfr. simpl in Hnd, Hfr.
    rewrite (rpush_run h l s x len0 b y r (zlen (ps ++ [(b, y)])))
      by (done || rewrite ?zlen_app in *; simpl length in *; lia).
    eexists. split; [done|]. pose proof Hs as [Hw Hf]%(push_heap_ok h l s
      (MkList (head s) (Some (brk h)) (Some (zlen (ps ++ [(b, y)]) + 1))) (MkNode x (Some b) None)
      (Some (b, MkNode y r (Some (brk h)))) (ps ++ [(b, y)]).*1); [|done|].
    2:{ intros ? ? [= <- <-]. rewrite fmap_app. split; [set_solver|eauto]. }
    split_and!; [done|done| |done].
    assert (b ∉ ps.*1) as Hbps by (apply NoDup_app in Hnd; set_solver).
    eexists. split; [apply lookup_insert_eq|]. split_and!.
    + apply dlseg_snoc. split; [done|]. exists (Some b). simpl nodes.
      rewrite lookup_insert_ne, lookup_insert_eq by set_solver. split; [done|].
      apply dlseg_snoc. split; [done|]. exists r. rewrite lookup_insert_eq. split; [done|].
      apply (dlseg_push_heap h l (MkList None None None) (MkNode x (Some b) None) b
               (MkNode y r (Some (brk h)))); done.
    + rewrite !fmap_app. apply NoDup_app. split_and!; [done| |apply NoDup_singleton].
      simpl. set_solver.
    + intros _. simpl. f_equal. rewrite !zlen_app. simpl. lia.
Qed.

(** A failed allocation leaves the list and [*length] alone, with the same
    return code as a push. *)
Lemma push_alloc_fails h l x len0 bs :
  alloc_answers h = false :: bs ∨ alloc_answers h = true :: false :: bs →
  let h' := MkHeap (nodes h) (lists h) (brk h) bs in
  lpush (Some l) (Some x) len0 h = Ok ((0, len0), h') ∧
  rpush (Some l) (Some x) len0 h = Ok ((0, len0), h').
Proof.
  intros [Ha|Ha]; unfold lpush, rpush, malloc, mbind, st_bind; rewrite Ha; simpl; done.
Qed.

(** ** Ranges *)

(** What a range of a sequence is, with the indices the command takes. *)
Definition range_spec (xs : list bytes) (start end_ : Z) : option (list bytes) * Z :=
  let n := zlen xs in
  let s := if start <? 0 then n + start else start in
  let e := if end_ <? 0 then n + end_ else end_ in
  if (s <? 0) || (n <=? s) || (e <? s) then (None, 0)
  else let e := Z.min e (n - 1) in (Some (slice s (e - s + 1) xs), e - s + 1).

Lemma skip_nodes_rep h pv p lst ps n :
  dlseg (nodes h) pv p lst None ps → (n ≤ length ps)%nat →
  ∃ pv' p', skip_nodes n p h = Ok (p', h) ∧ dlseg (nodes h) pv' p' lst None (drop n ps).
Proof.
  revert pv p ps. induction n as [|n IH]; intros pv p ps Hd Hn; simpl.
  - rewrite drop_0. by exists pv, p; destruct p.
  - destruct ps as [|[a x] ps]; simpl in *; [lia|].
    destruct Hd as (-> & r & Ha & Hps).
    destruct (IH (Some a) r ps) as (pv' & p' & Hs & Hd'); [done|lia|].
    exists pv', p'. split; [|done]. st_step load_node_ok. done.
Qed.

Lemma copy_nodes_rep h pv p lst ps n :
  alloc_answers h = [] → dlseg (nodes h) pv p lst None ps → (n ≤ length ps)%nat →
  ∃ p', copy_nodes n p h = Ok (Some (take n ps.*2, p'), h).
Proof.
  intros Ha. revert pv p ps. induction n as [|n IH]; intros pv p ps Hd Hn; simpl.
  - by exists p; destruct p.
  - destruct ps as [|[a x] ps]; simpl in *; [lia|].
    destruct Hd as (-> & r & Hx & Hps).
    destruct (IH (Some a) r ps) as (p' & Hs); [done|lia|]. exists p'.
    st_step load_node_ok. st_step malloc_ok. erewrite st_bind_ok by exact Hs. done.
Qed.

Lemma index_from_end n i :
  0 < n ≤ INT_MAX → INT_MIN ≤ i ≤ INT_MAX →
  (if i <? 0 then s32 (u64 (n + i)) else i) = if i <? 0 then n + i else i.
Proof.
  intros Hn Hi. destruct (i <? 0) eqn:E; [|done]. zbool.
  apply s32_u64. unfold INT_MIN, INT_MAX in *. lia.
Qed.

Lemma lrange_rep h l ps start end_ :
  alloc_answers h = [] → list_rep h l ps → ps ≠ [] → zlen ps ≤ INT_MAX →
  INT_MIN ≤ start ≤ INT_MAX → INT_MIN ≤ end_ ≤ INT_MAX →
  lrange (Some l) start end_ h = Ok (range_spec ps.*2 start end_, h).
Proof.
  intros Ha (s & Hs & Hd & Hnd & Hlen) Hne Hmax Hst Hen.
  unfold lrange. st_step load_list_ok. unfold read_length. rewrite (Hlen Hne).
  erewrite st_bind_ok by reflexivity. cbv beta zeta.
  unfold range_spec. rewrite length_fmap. set (n := zlen ps) in *.
  assert (0 < n) by (unfold n; destruct ps; [done|simpl; lia]).
  rewrite !index_from_end by lia. rewrite (s32_u64 (n - 1)) by (unfold INT_MIN; lia).
  unfold INT_MIN, INT_MAX in *.
  set (s1 := if start <? 0 then n + start else start).
  assert (s1 < 2 ^ 32) by (unfold s1; destruct (start <? 0) eqn:E; zbool; lia).
  set (e1 := if end_ <? 0 then n + end_ else end_).
  assert (e1 < 2 ^ 32) by (unfold e1; destruct (end_ <? 0) eqn:E; zbool; lia).
  destruct (s1 <? 0) eqn:Es; [done|]. zbool. rewrite (uwrap_small 64 s1) by lia.
  destruct (n <=? s1) eqn:En; [done|]. destruct (e1 <? s1) eqn:Ee; [done|]. zbool. cbn [orb].
  rewrite (uwrap_small 64 e1) by lia.
  assert ((if n <=? e1 then n - 1 else e1) = Z.min e1 (n - 1)) as ->.
  { destruct (n <=? e1) eqn:E; zbool; lia. }
  st_step malloc_ok. destruct (skip_nodes_rep h None (head s) (tail s) ps (Z.to_nat s1))
    as (pv' & p' & Hsk & Hd'); [done|lia|].
  erewrite st_bind_ok by exact Hsk. cbv beta.
  destruct (copy_nodes_rep h pv' p' (tail s) (drop (Z.to_nat s1) ps)
    (Z.to_nat (Z.min e1 (n - 1) - s1 + 1))) as (p2 & Hcp); [done..| |].
  { rewrite length_drop. lia. }
  erewrite st_bind_ok by exact Hcp. cbv beta iota.
  rewrite length_take, length_fmap, length_drop.
  rewrite (proj2 (Z.ltb_ge _ _)) by lia. rewrite andb_false_r.
  unfold slice. by rewrite fmap_drop.
Qed.

(** ** Refinement: a list in the heap is a sequence of strings *)

Inductive list_op := LPush (x : bytes) | RPush (x : bytes) | LRange (start end_ : Z).
Inductive list_reply := LenReply (n : Z) | RangeReply (r : option (list bytes)) (n : Z).

Definition list_step (l : loc) (op : list_op) : heapM list_reply :=
  match op with
  | LPush x => r ← lpush (Some l) (Some x) 0; mret (LenReply r.2)
  | RPush x => r ← rpush (Some l) (Some x) 0; mret (LenReply r.2)
  | LRange s e => r ← lrange (Some l) s e; mret (RangeReply r.1 r.2)
  end.

Definition seq_step (op : list_op) (xs : list bytes) : list_reply * list bytes :=
  match op with
  | LPush x => (LenReply (zlen xs + 1), x :: xs)
  | RPush x => (LenReply (zlen xs + 1), xs ++ [x])
  | LRange s e => (RangeReply (range_spec xs s e).1 (range_spec xs s e).2, xs)
  end.

Fixpoint list_run (l : loc) (ops : list list_op) : heapM (list list_reply) :=
  match ops with
  | [] => mret []
  | op :: ops' => r ← list_step l op; rs ← list_run l ops'; mret (r :: rs)
  end.

Fixpoint seq_run (ops : list list_op) (xs : list bytes) : list list_reply * list bytes :=
  match ops with
  | [] => ([], xs)
  | op :: ops' => let '(r, xs1) := seq_step op xs in
                  let '(rs, xs2) := seq_run ops' xs1 in (r :: rs, xs2)
  end.

Definition op_ok (op : list_op) : Prop :=
  match op with
  | LRange s e => INT_MIN ≤ s ≤ INT_MAX ∧ INT_MIN ≤ e ≤ INT_MAX
  | _ => True
  end.
Definition is_push (op : list_op) : Prop := match op with LRange _ _ => False | _ => True end.

Definition starts_with_push (ops : list list_op) : Prop :=
  match ops with [] => True | op :: _ => is_push op end.

Lemma list_step_refines h l ps op :
  heap_wf h → alloc_answers h = [] → list_rep h l ps → op_ok op → ps ≠ [] ∨ is_push op →
  zlen ps < INT_MAX →
  ∃ h' ps', list_step l op h = Ok ((seq_step op ps.*2).1, h') ∧ heap_wf h' ∧
    alloc_answers h' = [] ∧ list_rep h' l ps' ∧ ps' ≠ [] ∧ ps'.*2 = (seq_step op ps.*2).2 ∧
    zlen ps' ≤ zlen ps + 1.
Proof.
  intros Hwf Ha Hr Hok Hne Hmax. destruct op as [x|x|s e]; unfold list_step, seq_step; simpl.
  - destruct (lpush_rep h l ps x 0) as (h' & Hp & ? & ? & ? & _); [done..|].
    exists h', ((brk h, x) :: ps). erewrite st_bind_ok by exact Hp. cbv beta.
    rewrite length_fmap, st_ret_eq. split_and!; simpl length; auto. lia.
  - destruct (rpush_rep h l ps x 0) as (h' & Hp & ? & ? & ? & _); [done..|].
    exists h', (ps ++ [(brk h, x)]). erewrite st_bind_ok by exact Hp. cbv beta.
    rewrite length_fmap, st_ret_eq, fmap_app, zlen_app. split_and!; simpl length; auto; [|lia].
    by destruct ps.
  - destruct Hne as [Hne|[]]. destruct Hok. exists h, ps.
    erewrite st_bind_ok by (apply (lrange_rep h l ps); auto; lia). split_and!; auto. lia.
Qed.

(** C22: a linked list, driven by any sequence of pushes on either side and
    range queries starting with a push, behaves as the sequence of its strings:
    same reported lengths, same ranges, and the final list is the final
    sequence, with every pointer followed live. *)
Theorem linked_list_refines_sequence h l ps ops :
  heap_wf h → alloc_answers h = [] → list_rep h l ps →
  Forall op_ok ops → ps ≠ [] ∨ starts_with_push ops →
  zlen ps + zlen ops ≤ INT_MAX →
  ∃ h' ps', list_run l ops h = Ok ((seq_run ops ps.*2).1, h') ∧
    heap_wf h' ∧ list_rep h' l ps' ∧ ps'.*2 = (seq_run ops ps.*2).2.
Proof.
  revert h ps. induction ops as [|op ops IH]; intros h ps Hwf Ha Hr Hok Hne Hmax; [by eauto 10|].
  apply Forall_cons in Hok as [Ho Hok]. rewrite length_cons in Hmax.
  destruct (list_step_refines h l ps op)
    as (h1 & ps1 & Hst & Hwf1 & Ha1 & Hr1 & Hne1 & Hps1 & Hl1); [done..|lia|].
  destruct (IH h1 ps1) as (h2 & ps2 & Hrun & ? & ? & Hps2); [done..|by left|lia|].
  exists h2, ps2. simpl. erewrite st_bind_ok by exact Hst. cbv beta.
  erewrite st_bind_ok by exact Hrun. cbv beta. rewrite st_ret_eq. rewrite Hps1 in *.
  destruct (seq_step op ps.*2) as [r xs1]. simpl in *.
  destruct (seq_run ops xs1) as [rs xs2]. simpl in *. auto.
Qed.

(** [create_list] leaves the length of the new list indeterminate: until
    the first push, asking for the length or for a range reads it. *)
Theorem create_list_length_indeterminate h start end_ :
  heap_wf h → alloc_answers h = [] →
  ∃ l h', create_list h = Ok (Some l, h') ∧ list_rep h' l [] ∧
    get_list_length (Some l) h' = Stop Indeterminate ∧
    lrange (Some l) start end_ h' = Stop Indeterminate.
Proof.
  intros Hwf Ha. unfold create_list, mbind, st_bind. rewrite malloc_ok by done. simpl.
  eexists _, _. split; [done|].
  assert (lists (MkHeap (nodes h) (<[brk h := MkList None None None]> (lists h))
            (Pos.succ (brk h)) (alloc_answers h)) !! brk h = Some (MkList None None None)) as Hl
    by apply lookup_insert_eq.
  split_and!.
  - eexists. split; [exact Hl|]. by split_and!; [..|constructor|].
  - unfold get_list_length. st_step load_list_ok. done.
  - unfold lrange. st_step load_list_ok. done.
Qed.

(** ** Destruction *)

Definition free_nodes (ns : gmap loc Node) (as_ : list loc) : gmap loc Node :=
  foldl (λ m a, delete a m) ns as_.

Lemma lookup_free_nodes ns as_ a :
  free_nodes ns as_ !! a = if bool_decide (a ∈ as_) then None else ns !! a.
Proof.
  revert ns. induction as_ as [|b as_ IH]; intros ns; simpl.
  - done.
  - unfold free_nodes in *. simpl. rewrite IH. destruct (decide (a = b)) as [->|].
    + rewrite lookup_delete_eq. rewrite (bool_decide_eq_true_2 (b ∈ b :: as_)) by set_solver.
      by destruct (bool_decide _).
    + rewrite lookup_delete_ne by done.
      by rewrite (bool_decide_ext (a ∈ b :: as_) (a ∈ as_)) by set_solver.
Qed.

Lemma destroy_nodes_rep fuel h pv p lst ps :
  dlseg (nodes h) pv p lst None ps → NoDup ps.*1 → (length ps ≤ fuel)%nat →
  destroy_nodes fuel p h = Ok (tt, set_nodes (free_nodes (nodes h) ps.*1) h).
Proof.
  revert h pv p ps. induction fuel as [|fuel IH]; intros h pv p ps Hd Hnd Hf;
    destruct ps as [|[a x] ps]; simpl in Hf; try lia; simpl in Hd.
  1,2: destruct Hd as [-> _]; by destruct h.
  destruct Hd as (-> & r & Ha & Hps). apply NoDup_cons in Hnd as [Hna Hnd]. cbn [destroy_nodes].
  st_step load_node_ok. st_step store_node_ok.
  erewrite st_bind_ok; last first.
  { unfold free_node. simpl. rewrite decide_True; [done|]. rewrite lookup_insert_eq. eauto. }
  cbv beta. simpl. rewrite (IH _ (Some a) r ps); [|..|done|lia].
  - unfold set_nodes. simpl. by rewrite delete_insert_eq.
  - eapply dlseg_ext; [|done]. intros b Hb. simpl.
    rewrite delete_insert_eq, lookup_delete_ne; [done|set_solver].
Qed.

Lemma dlseg_size ns pv p lst nx ps :
  dlseg ns pv p lst nx ps → NoDup ps.*1 → (length ps ≤ base.size ns)%nat.
Proof.
  intros Hd Hnd. rewrite <- (length_fmap fst ps), <- (size_list_to_set (C := gset loc)) by done.
  rewrite <- size_dom. apply subseteq_size. intros a Ha%elem_of_list_to_set.
  apply elem_of_dom. by eapply dlseg_live.
Qed.

Lemma destroy_list_run h l ps :
  list_rep h l ps →
  destroy_list (Some l) h =
    Ok (tt, MkHeap (free_nodes (nodes h) ps.*1) (delete l (lists h)) (brk h) (alloc_answers h)).
Proof.
  intros (s & Hs & Hd & Hnd & _). unfold destroy_list. st_step load_list_ok.
  erewrite st_bind_ok by reflexivity. cbv beta.
  erewrite st_bind_ok.
  2:{ eapply destroy_nodes_rep; eauto. etrans; [by eapply dlseg_size|]. lia. }
  done.
Qed.

(** Destroying a list touches that list only. *)
Lemma destroy_list_rep h l ps :
  heap_wf h → list_rep h l ps →
  ∃ h', destroy_list (Some l) h = Ok (tt, h') ∧ heap_wf h' ∧ alloc_answers h' = alloc_answers h ∧
    heap_frame h h' l ps.*1.
Proof.
  intros Hwf Hr. rewrite (destroy_list_run h l ps Hr). eexists. split; [done|].
  split_and!; [|done|].
  - constructor; simpl.
    + intros a n. rewrite lookup_free_nodes. case_bool_decide; [done|]. apply (wf_nodes _ Hwf).
    + intros l' s [_ Hl']%lookup_delete_Some. by eapply (wf_lists _ Hwf).
  - constructor; simpl; [by intros; rewrite lookup_delete_ne| |done].
    intros a Ha _. rewrite lookup_free_nodes. by rewrite bool_decide_eq_false_2.
Qed.

(** Destroying a list visits every node once, frees exactly its nodes and
    its header, and terminates within the fuel the model allows. *)
Theorem destroy_list_frees h l ps :
  list_rep h l ps →
  ∃ h', destroy_list (Some l) h = Ok (tt, h') ∧ lists h' = delete l (lists h) ∧
    ∀ a, nodes h' !! a = if bool_decide (a ∈ ps.*1) then None else nodes h !! a.
Proof.
  intros Hr. rewrite (destroy_list_run h l ps Hr). eexists. split; [done|]. simpl.
  split; [done|]. apply lookup_free_nodes.
Qed.

(** The loop frees one node per turn, so it stops on every heap, cyclic or
    damaged ones included. *)
Lemma destroy_nodes_fine X fuel p h :
  (base.size (nodes h) < fuel)%nat → fine X (destroy_nodes fuel p h).
Proof.
  revert p h. induction fuel as [|fuel IH]; intros p h Hf; [lia|].
  destruct p as [a|]; [|done]. cbn [destroy_nodes].
  destruct (nodes h !! a) as [n|] eqn:E.
  - st_step load_node_ok. st_step store_node_ok.
    erewrite st_bind_ok; last first.
    { unfold free_node. simpl. rewrite decide_True; [done|]. rewrite lookup_insert_eq. eauto. }
    cbv beta. apply IH. simpl. rewrite delete_insert_eq.
    rewrite map_size_delete_Some by eauto. assert (base.size (nodes h) ≠ 0)%nat; [|lia].
    intros Hempty%map_size_empty_iff. by rewrite Hempty, lookup_empty in E.
  - rewrite (st_bind_stop _ _ _ BadAccess); [done|]. unfold load_node. simpl. by rewrite E.
Qed.

(** ** Witnesses *)

Definition heap0 : heap := MkHeap ∅ ∅ 1 [].

Lemma heap0_wf : heap_wf heap0.
Proof. constructor; simpl; intros ? ?; by rewrite lookup_empty. Qed.

Definition heap1 : heap := MkHeap ∅ {[1%positive := MkList None None None]} 2 [].

Lemma heap1_wf : heap_wf heap1.
Proof.
  constructor; simpl; intros ? ?; [by rewrite lookup_empty|].
  intros [<- _]%lookup_singleton_Some. lia.
Qed.

Lemma heap1_rep : list_rep heap1 1 [].
Proof. eexists. split; [apply lookup_singleton_eq|]. by split_and!; [..|constructor|]. Qed.

Definition list_ops_example : list list_op :=
  [RPush (lit "b"); LPush (lit "a"); RPush (lit "c"); LRange (-2) 7].

Lemma linked_list_refines_sequence_witness :
  ∃ h' ps', list_run 1 list_ops_example heap1 =
      Ok ([LenReply 1; LenReply 2; LenReply 3; RangeReply (Some [lit "b"; lit "c"]) 2], h') ∧
    list_rep h' 1 ps' ∧ ps'.*2 = [lit "a"; lit "b"; lit "c"].
Proof.
  destruct (linked_list_refines_sequence heap1 1 [] list_ops_example)
    as (h' & ps' & Hrun & _ & Hrep & Hps);
    [apply heap1_wf|done|apply heap1_rep|repeat constructor; vm_compute; discriminate
    |by right|vm_compute; discriminate|].
  exists h', ps'. split; [exact Hrun|]. split; [exact Hrep|exact Hps].
Defined.

Lemma create_list_length_indeterminate_witness :
  ∃ l h', create_list heap0 = Ok (Some l, h') ∧ get_list_length (Some l) h' = Stop Indeterminate.
Proof.
  destruct (create_list_length_indeterminate heap0 0 (-1)) as (l & h' & H1 & _ & H2 & _);
    [apply heap0_wf|done|]. exists l, h'. split; [exact H1|exact H2].
Defined.

Lemma destroy_list_frees_witness :
  ∃ h', destroy_list (Some 1%positive) heap1 = Ok (tt, h') ∧ lists h' = ∅.
Proof.
  destruct (destroy_list_frees heap1 1 [] heap1_rep) as (h' & H1 & H2 & _).
  exists h'. split; [exact H1|]. rewrite H2. reflexivity.
Defined.
