(* ===== verification/Khash.v ===== *)
(** * [src/src/khash.h], instantiated by [KHASH_MAP_INIT_STR(redis_hash, _)]

    An open-addressing hash table over three parallel arrays: two flag bits
    per bucket packed sixteen to a word, the keys and the values.  Probing is
    quadratic, deletion leaves a mark, and resizing rehashes in place by
    kicking out the elements it finds in its way. *)

From S2P Require Import Prelude CLib.

(** ** Flag words: bit 1 of a pair says empty, bit 0 says deleted *)

(** The word of bucket [i] is inside the array; [check] is a fault unless [b].  The
    loops check every bucket they come to before they look at its flags. *)
Definition flag_inb (flag : list Z) (i : Z) : bool := (0 <=? i) && (Z.shiftr i 4 <? zlen flag).
Definition check (b : bool) : res unit := if b then Ok tt else Stop BadAccess.

Definition flag_word (flag : list Z) (i : Z) : Z := flag !!! Z.to_nat (Z.shiftr i 4).
Definition flag_shift (i : Z) : Z := Z.shiftl (Z.land i 15) 1.

Definition flag_test (flag : list Z) (i bits : Z) : bool :=
  negb (Z.land (Z.shiftr (flag_word flag i) (flag_shift i)) bits =? 0).
Definition flag_update (f : Z → Z) (flag : list Z) (i : Z) : list Z :=
  <[Z.to_nat (Z.shiftr i 4) := f (flag_word flag i)]> flag.

Definition ac_isempty (flag : list Z) (i : Z) : bool := flag_test flag i 2.
Definition ac_isdel (flag : list Z) (i : Z) : bool := flag_test flag i 1.
Definition ac_iseither (flag : list Z) (i : Z) : bool := flag_test flag i 3.
Definition ac_set_isempty_false (flag : list Z) (i : Z) : list Z :=
  flag_update (λ w, Z.land w (Z.lnot (Z.shiftl 2 (flag_shift i)))) flag i.
Definition ac_set_isboth_false (flag : list Z) (i : Z) : list Z :=
  flag_update (λ w, Z.land w (Z.lnot (Z.shiftl 3 (flag_shift i)))) flag i.
Definition ac_set_isdel_true (flag : list Z) (i : Z) : list Z :=
  flag_update (λ w, Z.lor w (Z.shiftl 1 (flag_shift i))) flag i.

Definition ac_fsize (m : Z) : Z := if m <? 16 then 1 else Z.shiftr m 4.

(** [memset(flags, 0xaa, ...)]: every bucket empty. *)
Definition fresh_flags (m : Z) : list Z := replicate (Z.to_nat (ac_fsize m)) 2863311530.

(** [kroundup32] on a 32-bit word. *)
Definition kroundup32 (x : Z) : Z :=
  let x := u32 (x - 1) in
  let x := Z.lor x (Z.shiftr x 1) in
  let x := Z.lor x (Z.shiftr x 2) in
  let x := Z.lor x (Z.shiftr x 4) in
  let x := Z.lor x (Z.shiftr x 8) in
  let x := Z.lor x (Z.shiftr x 16) in
  u32 (x + 1).

(** [(khint_t)(n * 0.77 + 0.5)] for a power of two [n]: the product is at
    least 1/50 away from the next half, far more than the rounding error of the
    double, so it is the exact integer part. *)
Definition ac_upper (n : Z) : Z := (77 * n + 50) / 100.

(** [__ac_X31_hash_string]: [char] is signed, and is widened as such. *)
Definition hash_char (c : byte) : Z := u32 (s8 (byte_val c)).
Definition hash_string (s : bytes) : Z :=
  match s with
  | [] => 0
  | c :: s' => foldl (λ h c, u32 (u32 (Z.shiftl h 5) - h + hash_char c)) (hash_char c) s'
  end.

(** ** The table *)

Record khash (V : Type) := KHash {
  n_buckets : Z;
  h_size : Z;
  n_occupied : Z;
  upper_bound : Z;
  flags : list Z;
  keys : list (option bytes);   (* [None]: memory never written *)
  vals : list (option V)
}.
Arguments KHash {V}.
Arguments n_buckets {V}.
Arguments h_size {V}.
Arguments n_occupied {V}.
Arguments upper_bound {V}.
Arguments flags {V}.
Arguments keys {V}.
Arguments vals {V}.

Definition kh_end {V} (h : khash V) : Z := n_buckets h.
Definition kh_exist {V} (h : khash V) (x : Z) : bool := negb (ac_iseither (flags h) x).

Definition kh_init {V} : khash V := KHash 0 0 0 0 [] [] [].

(** [kh_destroy]: what it frees, in order; [free] does nothing with an array that
    was never allocated. *)
Inductive kh_block := KeysArray | FlagsArray | ValsArray | TableStruct.

Definition kh_destroy {V} (h : option (khash V)) : list kh_block :=
  match h with
  | Some _ => [KeysArray; FlagsArray; ValsArray; TableStruct]
  | None => []
  end.

(** [kh_clear], which nothing calls: the arrays are kept. *)
Definition kh_clear {V} (h : khash V) : khash V :=
  match flags h with
  | [] => h
  | _ => KHash (n_buckets h) 0 0 (upper_bound h) (fresh_flags (n_buckets h)) (keys h) (vals h)
  end.

(** [kh_key(h, x)] and [kh_value(h, x)], read and assigned. *)
Definition kh_key {V} (h : khash V) (x : Z) : res bytes :=
  if (0 <=? x) && (x <? n_buckets h)
  then of_option Indeterminate (keys h !! Z.to_nat x ≫= id) else Stop BadAccess.
Definition kh_value {V} (h : khash V) (x : Z) : res V :=
  if (0 <=? x) && (x <? n_buckets h)
  then of_option Indeterminate (vals h !! Z.to_nat x ≫= id) else Stop BadAccess.
Definition kh_set_key {V} (h : khash V) (x : Z) (k : bytes) : res (khash V) :=
  if (0 <=? x) && (x <? n_buckets h)
  then Ok (KHash (n_buckets h) (h_size h) (n_occupied h) (upper_bound h) (flags h)
             (<[Z.to_nat x := Some k]> (keys h)) (vals h))
  else Stop BadAccess.
Definition kh_set_value {V} (h : khash V) (x : Z) (v : V) : res (khash V) :=
  if (0 <=? x) && (x <? n_buckets h)
  then Ok (KHash (n_buckets h) (h_size h) (n_occupied h) (upper_bound h) (flags h)
             (keys h) (<[Z.to_nat x := Some v]> (vals h)))
  else Stop BadAccess.

(** [strcmp(h->keys[i], key) == 0]. *)
Definition key_equal (ks : list (option bytes)) (i : Z) (key : bytes) : res bool :=
  match ks !! Z.to_nat i with
  | Some (Some k) => Ok (bool_decide (k = key))
  | _ => Stop Indeterminate
  end.

(** The condition of the probing loops:
    [!isempty(i) && (isdel(i) || !equal(keys[i], key))]. *)
Definition keep_probing (flag : list Z) (ks : list (option bytes)) (key : bytes) (i : Z) : res bool :=
  _ ← check (flag_inb flag i);
  if ac_isempty flag i then Ok false
  else if ac_isdel flag i then Ok true
  else e ← key_equal ks i key; Ok (negb e).

Fixpoint get_loop {V} (fuel : nat) (h : khash V) (key : bytes) (mask last i step : Z) : res Z :=
  match fuel with
  | O => Stop EndlessProbe
  | S fuel' =>
      go ← keep_probing (flags h) (keys h) key i;
      if (go : bool) then
        let step := u32 (step + 1) in
        let i := Z.land (u32 (i + step)) mask in
        if i =? last then Ok (n_buckets h) else get_loop fuel' h key mask last i step
      else Ok (if ac_iseither (flags h) i then n_buckets h else i)
  end.

Definition kh_get {V} (h : khash V) (key : bytes) : res Z :=
  if n_buckets h =? 0 then Ok 0
  else
    let mask := n_buckets h - 1 in
    let i := Z.land (hash_string key) mask in
    get_loop (S (Z.to_nat (2 * n_buckets h))) h key mask i i 0.

(** ** Resizing *)

(** [while (!isempty(new_flags, i)) i = (i + (++step)) & new_mask;] *)
Fixpoint free_slot (fuel : nat) (new_flags : list Z) (new_mask i step : Z) : res Z :=
  _ ← check (flag_inb new_flags i);
  if ac_isempty new_flags i then Ok i
  else match fuel with
       | O => Stop EndlessProbe
       | S fuel' => let step := u32 (step + 1) in
                    free_slot fuel' new_flags new_mask (Z.land (u32 (i + step)) new_mask) step
       end.

Record rehash_state (V : Type) := Rehash {
  r_flags : list Z;
  r_keys : list (option bytes);
  r_vals : list (option V);
  r_new : list Z
}.
Arguments Rehash {V}.
Arguments r_flags {V}.
Arguments r_keys {V}.
Arguments r_vals {V}.
Arguments r_new {V}.

(** The kick-out loop, with the element in hand. *)
Fixpoint kick_out {V} (fuel : nat) (n_b new_n : Z) (key : option bytes) (val : option V)
    (r : rehash_state V) : res (rehash_state V) :=
  match fuel with
  | O => Stop EndlessProbe
  | S fuel' =>
      key' ← of_option Indeterminate key;
      let new_mask := new_n - 1 in
      i ← free_slot (Z.to_nat new_n) (r_new r) new_mask (Z.land (hash_string key') new_mask) 0;
      let new_flags := ac_set_isempty_false (r_new r) i in
      let keys' := <[Z.to_nat i := key]> (r_keys r) in
      let vals' := <[Z.to_nat i := val]> (r_vals r) in
      _ ← check ((i <? zlen (r_keys r)) && (i <? zlen (r_vals r)) && ((n_b <=? i) || flag_inb (r_flags r) i));
      if (i <? n_b) && negb (ac_iseither (r_flags r) i) then
        kick_out fuel' n_b new_n (r_keys r !!! Z.to_nat i) (r_vals r !!! Z.to_nat i)
          (Rehash (ac_set_isdel_true (r_flags r) i) keys' vals' new_flags)
      else Ok (Rehash (r_flags r) keys' vals' new_flags)
  end.

(** The outer loop, over the old buckets from [j] on. *)
Fixpoint rehash_loop {V} (n_left : nat) (j n_b new_n : Z) (r : rehash_state V) :
    res (rehash_state V) :=
  match n_left with
  | O => Ok r
  | S n_left' =>
      _ ← check (flag_inb (r_flags r) j && (j <? zlen (r_keys r)) && (j <? zlen (r_vals r)));
      r' ← (if negb (ac_iseither (r_flags r) j)
            then kick_out (S (Z.to_nat n_b)) n_b new_n (r_keys r !!! Z.to_nat j)
                   (r_vals r !!! Z.to_nat j)
                   (Rehash (ac_set_isdel_true (r_flags r) j) (r_keys r) (r_vals r) (r_new r))
            else Ok r);
      rehash_loop n_left' (j + 1) n_b new_n r'
  end.

(** [realloc]: a longer array has indeterminate tail. *)
Definition resize_array {A} (n : Z) (l : list (option A)) : list (option A) :=
  take (Z.to_nat n) l ++ replicate (Z.to_nat n - length l) None.

(** [allocs] says which of the allocations (flags, keys, values) succeed.
    Returns the table and 0, or -1 on an allocation failure. *)
Definition kh_resize {V} (allocs : bool * bool * bool) (h : khash V) (want : Z) : res (khash V * Z) :=
  let '(ok_flags, ok_keys, ok_vals) := allocs in
  let new_n := let x := kroundup32 want in if x <? 4 then 4 else x in
  if ac_upper new_n <=? h_size h then Ok (h, 0)   (* requested size is too small *)
  else if negb ok_flags then Ok (h, -1)
  else
    let expand := n_buckets h <? new_n in
    if expand && negb ok_keys then Ok (h, -1)
    else
      let keys1 := if expand then resize_array new_n (keys h) else keys h in
      if expand && negb ok_vals
      then Ok (KHash (n_buckets h) (h_size h) (n_occupied h) (upper_bound h) (flags h) keys1 (vals h), -1)
      else
        let vals1 := if expand then resize_array new_n (vals h) else vals h in
        r ← rehash_loop (Z.to_nat (n_buckets h)) 0 (n_buckets h) new_n
              (Rehash (flags h) keys1 vals1 (fresh_flags new_n));
        let shrink := new_n <? n_buckets h in
        Ok (KHash new_n (h_size h) (h_size h) (ac_upper new_n) (r_new r)
              (if shrink then resize_array new_n (r_keys r) else r_keys r)
              (if shrink then resize_array new_n (r_vals r) else r_vals r), 0).

(** ** Insertion and deletion *)

(** The probing loop of [kh_put]: the slot reached, the last deleted slot seen
    (or [n_buckets]), and whether the probe came back to its start. *)
Fixpoint put_loop {V} (fuel : nat) (h : khash V) (key : bytes) (mask last i step site : Z) :
    res (Z * Z * bool) :=
  match fuel with
  | O => Stop EndlessProbe
  | S fuel' =>
      go ← keep_probing (flags h) (keys h) key i;
      if (go : bool) then
        let site := if ac_isdel (flags h) i then i else site in
        let step := u32 (step + 1) in
        let i := Z.land (u32 (i + step)) mask in
        if i =? last then Ok (i, site, true) else put_loop fuel' h key mask last i step site
      else Ok (i, site, false)
  end.

Definition put_slot {V} (h : khash V) (key : bytes) : res Z :=
  let mask := u32 (n_buckets h - 1) in
  let site := n_buckets h in
  let i := Z.land (hash_string key) mask in
  _ ← check (flag_inb (flags h) i);
  if ac_isempty (flags h) i then Ok i
  else
    '(i, site, wrapped) ← put_loop (S (Z.to_nat (2 * n_buckets h))) h key mask i i 0 site;
    let x := if (wrapped : bool) then site else n_buckets h in
    if x =? n_buckets h
    then Ok (if ac_isempty (flags h) i && negb (site =? n_buckets h) then site else i)
    else Ok x.

(** Store a key in the slot [put_slot] found; returns [*ret]. *)
Definition put_at {V} (h : khash V) (key : bytes) (x : Z) : khash V * Z :=
  let set d_occ ret :=
    (KHash (n_buckets h) (u32 (h_size h + 1)) (u32 (n_occupied h + d_occ)) (upper_bound h)
       (ac_set_isboth_false (flags h) x) (<[Z.to_nat x := Some key]> (keys h)) (vals h), ret) in
  if ac_isempty (flags h) x then set 1 1
  else if ac_isdel (flags h) x then set 0 2
  else (h, 0).

(** Table, iterator and [*ret]. *)
Definition kh_put {V} (allocs : bool * bool * bool) (h : khash V) (key : bytes) :
    res (khash V * Z * Z) :=
  '(h, rc) ← (if upper_bound h <=? n_occupied h
              then if u32 (Z.shiftl (h_size h) 1) <? n_buckets h
                   then kh_resize allocs h (u32 (n_buckets h - 1))
                   else kh_resize allocs h (u32 (n_buckets h + 1))
              else Ok (h, 0));
  if rc <? 0 then Ok (h, n_buckets h, -1)
  else
    x ← put_slot h key;
    let '(h', ret) := put_at h key x in
    Ok (h', x, ret).

Definition kh_del {V} (h : khash V) (x : Z) : khash V :=
  if negb (x =? n_buckets h) && negb (ac_iseither (flags h) x)
  then KHash (n_buckets h) (u32 (h_size h - 1)) (n_occupied h) (upper_bound h)
         (ac_set_isdel_true (flags h) x) (keys h) (vals h)
  else h.

(** The entries a [for (k = kh_begin(h); k != kh_end(h); k++)] loop with a
    [kh_exist] test visits, in its order. *)
Definition kh_entries {V} (h : khash V) : list (option bytes * option V) :=
  omap (λ i, if kh_exist h i
             then Some (keys h !!! Z.to_nat i, vals h !!! Z.to_nat i) else None)
    (seqZ 0 (n_buckets h)).
