(* ===== verification/KhashArith.v ===== *)
(** * The arithmetic of [src/src/khash.h]

    What the shifts of [kroundup32] and of the string hash compute. *)

From S2P Require Import Prelude CLib Khash.

(** ** [kroundup32] *)

(** Bit [i] of [z] says whether one of the [w] bits of [y] from [i] on is set. *)
Definition smeared (w y z : Z) : Prop :=
  ∀ i, 0 ≤ i → Z.testbit z i = true ↔ ∃ j, 0 ≤ j < w ∧ Z.testbit y (i + j) = true.

Lemma smear_start y : smeared 1 y y.
Proof.
  intros i Hi. split.
  - intros Hb. exists 0. by rewrite Z.add_0_r.
  - intros (j & Hj & Hb). by replace (i + j) with i in Hb by lia.
Qed.

(** One turn doubles the window. *)
Lemma smear_step w y z : 0 < w → smeared w y z → smeared (2 * w) y (Z.lor z (Z.shiftr z w)).
Proof.
  intros Hw Hz i Hi. rewrite Z.lor_spec, Z.shiftr_spec, orb_true_iff, (Hz i), (Hz (i + w)) by lia. split.
  - intros [(j & Hj & Hb)|(j & Hj & Hb)]; [exists j; split; [lia|done]|].
    exists (w + j). split; [lia|]. by replace (i + (w + j)) with (i + w + j) by lia.
  - intros (j & Hj & Hb). destruct (decide (j < w)); [left; exists j; split; [lia|done]|].
    right. exists (j - w). split; [lia|]. by replace (i + w + (j - w)) with (i + j) by lia.
Qed.

(** With a window as wide as [y], all bits up to the highest one are set. *)
Lemma smear_ones w y z : 0 < y < 2 ^ w → smeared w y z → 0 ≤ z → z = Z.ones (Z.log2 y + 1).
Proof.
  intros [Hy Hyw] Hz Hz0. pose proof (Z.log2_nonneg y) as Hl.
  assert (Z.log2 y < w) as Hlw by (apply Z.log2_lt_pow2; lia).
  apply Z.bits_inj'. intros i Hi. rewrite Z.testbit_ones_nonneg by lia. apply eq_true_iff_eq. rewrite (Hz i Hi), Z.ltb_lt. split.
  - intros (j & Hj & Hb). destruct (decide (Z.log2 y < i + j)); [|lia]. by rewrite Z.bits_above_log2 in Hb by lia.
  - intros Hil. exists (Z.log2 y - i). split; [lia|]. replace (i + (Z.log2 y - i)) with (Z.log2 y) by lia. by apply Z.bit_log2.
Qed.

(** C31: [kroundup32] rounds up to the next power of two, on every 32-bit word
    for which there is one. *)
Theorem kroundup32_next_power x : 1 ≤ x ≤ 2 ^ 31 → kroundup32 x = 2 ^ Z.log2_up x.
Proof.
  intros Hx. unfold kroundup32. rewrite (uwrap_small 32 (x - 1)) by lia. set (y := x - 1).
  destruct (decide (x = 1)) as [->|Hne]; [reflexivity|].
  pose proof (smear_step 1 y _ ltac:(lia) (smear_start y)) as H1.
  pose proof (smear_step 2 y _ ltac:(lia) H1) as H2. pose proof (smear_step 4 y _ ltac:(lia) H2) as H3.
  pose proof (smear_step 8 y _ ltac:(lia) H3) as H4. pose proof (smear_step 16 y _ ltac:(lia) H4) as H5.
  cbv zeta. change (2 * 16) with 32 in H5.
  match type of H5 with smeared _ _ ?z => assert (z = Z.ones (Z.log2 y + 1)) as -> end.
  - apply (smear_ones 32 y _ ltac:(unfold y; lia) H5).
    repeat first [apply Z.lor_nonneg; split|apply Z.shiftr_nonneg]; unfold y; lia.
  - assert (Z.log2_up x = Z.log2 y + 1) as -> by (unfold Z.log2_up; rewrite (proj2 (Z.compare_lt_iff 1 x)) by lia; unfold y; by rewrite Z.sub_1_r).
    pose proof (Z.log2_nonneg y). assert (Z.log2 y < 31) by (apply Z.log2_lt_pow2; unfold y; lia).
    rewrite Z.ones_equiv. pose proof (Z.pow_le_mono_r 2 (Z.log2 y + 1) 31 ltac:(lia) ltac:(lia)).
    pose proof (Z.pow_pos_nonneg 2 (Z.log2 y + 1) ltac:(lia) ltac:(lia)).
    rewrite uwrap_small by lia. lia.
Qed.

(** ** The string hash *)

(** The polynomial in 31 with the signed characters for its coefficients. *)
Fixpoint polynomial (s : bytes) : Z :=
  match s with
  | [] => 0
  | c :: s' => s8 (byte_val c) * 31 ^ zlen s' + polynomial s'
  end.

(** Words are equal when the numbers differ by a multiple. *)
Lemma u32_shift a b k : a = b + k * 2 ^ 32 → u32 a = u32 b.
Proof. intros ->. unfold uwrap. apply Z_mod_plus_full. Qed.

Lemma u32_rest a : u32 a = a + - (a / 2 ^ 32) * 2 ^ 32.
Proof. unfold uwrap. rewrite Z.mod_eq by lia. lia. Qed.

Lemma hash_fold s h :
  foldl (λ h c, u32 (u32 (Z.shiftl h 5) - h + hash_char c)) (u32 h) s = u32 (h * 31 ^ zlen s + polynomial s).
Proof.
  revert h. induction s as [|c s IH]; intros h; [cbn; f_equal; lia|]. cbn [foldl polynomial].
  assert (u32 (u32 (Z.shiftl (u32 h) 5) - u32 h + hash_char c) = u32 (31 * h + s8 (byte_val c))) as ->.
  - rewrite Z.shiftl_mul_pow2 by lia. unfold hash_char. rewrite (u32_rest (_ * _)), (u32_rest (s8 _)), (u32_rest h).
    eapply u32_shift. instantiate (1 := - ((h + - (h / 2 ^ 32) * 2 ^ 32) * 2 ^ 5 / 2 ^ 32) - 31 * (h / 2 ^ 32) - s8 (byte_val c) / 2 ^ 32).
    generalize (h / 2 ^ 32). intros q. generalize ((h + - q * 2 ^ 32) * 2 ^ 5 / 2 ^ 32). intros r.
    change (2 ^ 5) with 32. change (2 ^ 32) with 4294967296. lia.
  - rewrite IH. f_equal. rewrite length_cons, Nat2Z.inj_succ, Z.pow_succ_r by lia. lia.
Qed.

(** The hash of a string is the value of the polynomial in 31 whose
    coefficients are its characters, as signed 8-bit numbers, modulo 2^32. *)
Theorem hash_string_polynomial s : hash_string s = u32 (polynomial s).
Proof.
  destruct s as [|c s]; [done|]. cbn [hash_string polynomial].
  change (hash_char c) with (u32 (s8 (byte_val c))). by rewrite hash_fold.
Qed.

Lemma kroundup32_next_power_witness : kroundup32 1000 = 1024.
Proof. rewrite (kroundup32_next_power 1000); [reflexivity|lia]. Defined.
