(* ===== verification/KhashFlags.v ===== *)
(** * The flag words of [src/src/khash.h]

    The packed two-bit flags behave as two independent booleans per bucket. *)

From S2P Require Import Prelude CLib Khash.

(** ** Bit tests *)

Lemma land_pow2_zero x k : 0 ≤ k → (Z.land x (2 ^ k) =? 0) = negb (Z.testbit x k).
Proof.
  intros Hk. apply eq_true_iff_eq. rewrite Z.eqb_eq, negb_true_iff. split.
  - intros E. apply (f_equal (λ z, Z.testbit z k)) in E.
    rewrite Z.land_spec, Z.pow2_bits_true, Z.bits_0, andb_true_r in E by lia. done.
  - intros E. apply Z.bits_inj'. intros n Hn. rewrite Z.land_spec, Z.bits_0.
    rewrite Z.pow2_bits_eqb by lia. destruct (Z.eqb_spec k n) as [->|]; [by rewrite E|].
    apply andb_false_r.
Qed.

Definition flag_bit (flag : list Z) (i b : Z) : bool :=
  Z.testbit (flag_word flag i) (flag_shift i + b).

Lemma flag_shift_mod i : 0 ≤ i → flag_shift i = 2 * (i mod 16).
Proof.
  intros. unfold flag_shift. change 15 with (Z.ones 4). rewrite Z.land_ones by lia.
  rewrite Z.shiftl_mul_pow2 by lia. change (2 ^ 4) with 16. lia.
Qed.

Lemma flag_shift_range i : 0 ≤ i → 0 ≤ flag_shift i ≤ 30.
Proof. intros. rewrite flag_shift_mod by done. pose proof (Z.mod_pos_bound i 16). lia. Qed.

Lemma isempty_bit flag i : 0 ≤ i → ac_isempty flag i = flag_bit flag i 1.
Proof.
  intros Hi. pose proof (flag_shift_range i Hi). unfold ac_isempty, flag_test, flag_bit.
  change 2 with (2 ^ 1). rewrite land_pow2_zero, negb_involutive by lia.
  rewrite Z.shiftr_spec by lia. f_equal. lia.
Qed.

Lemma isdel_bit flag i : 0 ≤ i → ac_isdel flag i = flag_bit flag i 0.
Proof.
  intros Hi. pose proof (flag_shift_range i Hi). unfold ac_isdel, flag_test, flag_bit.
  change 1 with (2 ^ 0). rewrite land_pow2_zero, negb_involutive by lia.
  rewrite Z.shiftr_spec by lia. f_equal. lia.
Qed.

Lemma iseither_or flag i : ac_iseither flag i = ac_isempty flag i || ac_isdel flag i.
Proof.
  unfold ac_iseither, ac_isempty, ac_isdel, flag_test.
  generalize (Z.shiftr (flag_word flag i) (flag_shift i)). intros x.
  change 3 with (Z.lor 2 1). rewrite Z.land_lor_distr_r.
  rewrite <- negb_andb. f_equal. apply eq_true_iff_eq.
  rewrite andb_true_iff, !Z.eqb_eq. apply Z.lor_eq_0_iff.
Qed.

(** ** Updates *)

(** Bucket [i] has its flag word inside the array. *)
Definition flag_in (flag : list Z) (i : Z) : Prop := 0 ≤ i ∧ i / 16 < zlen flag.

Lemma check_flag flag i : flag_in flag i → check (flag_inb flag i) = Ok tt.
Proof.
  intros [Hi Hw]. unfold check, flag_inb. rewrite Z.shiftr_div_pow2 by lia. change (2 ^ 4) with 16.
  by rewrite (proj2 (Z.leb_le _ _)), (proj2 (Z.ltb_lt _ _)) by lia.
Qed.

Lemma flag_word_update f flag i j :
  flag_in flag i → 0 ≤ j →
  flag_word (flag_update f flag i) j =
    if decide (i / 16 = j / 16) then f (flag_word flag i) else flag_word flag j.
Proof.
  intros [Hi Hl] Hj. unfold flag_update, flag_word.
  rewrite !Z.shiftr_div_pow2 by lia. change (2 ^ 4) with 16.
  pose proof (Z.div_pos i 16). pose proof (Z.div_pos j 16).
  case_decide as E.
  - rewrite <- E. apply list_lookup_total_insert_eq. lia.
  - apply list_lookup_total_insert_ne. lia.
Qed.

(** A word update that acts on the pair of bits of bucket [i] only. *)
Lemma flag_bit_update f g flag i j b :
  (∀ w p, 0 ≤ p → Z.testbit (f w) p = g (Z.testbit w p) (p - flag_shift i)) →
  (∀ x q, q ≠ 0 → q ≠ 1 → g x q = x) →
  flag_in flag i → 0 ≤ j → 0 ≤ b ≤ 1 →
  flag_bit (flag_update f flag i) j b = if decide (i = j) then g (flag_bit flag i b) b else flag_bit flag j b.
Proof.
  intros Hf Hg Hi Hj Hb. pose proof Hi as [Hi0 _]. unfold flag_bit.
  rewrite flag_word_update by done. pose proof (flag_shift_range j Hj).
  destruct (decide (i = j)) as [<-|Hne].
  - rewrite decide_True by done. rewrite Hf by lia. f_equal. lia.
  - case_decide as E; [|done]. rewrite Hf by lia.
    assert (flag_word flag i = flag_word flag j) as ->.
    { unfold flag_word. rewrite !Z.shiftr_div_pow2 by lia. change (2 ^ 4) with 16. by rewrite E. }
    apply Hg; rewrite !flag_shift_mod by lia;
      pose proof (Z.div_mod i 16); pose proof (Z.div_mod j 16); lia.
Qed.

Lemma testbit_small c q : 0 ≤ c < 4 → q ≠ 0 → q ≠ 1 → Z.testbit c q = false.
Proof.
  intros Hc H0 H1. destruct (decide (q < 0)); [by apply Z.testbit_neg_r|].
  apply Z.bits_above_log2; [lia|].
  destruct (decide (c = 0)) as [->|]; [simpl; lia|].
  apply Z.log2_lt_pow2; [lia|]. pose proof (Z.pow_le_mono_r 2 2 q). lia.
Qed.

Lemma flag_bit_clear c flag i j b :
  0 ≤ c < 4 → flag_in flag i → 0 ≤ j → 0 ≤ b ≤ 1 →
  flag_bit (flag_update (λ w, Z.land w (Z.lnot (Z.shiftl c (flag_shift i)))) flag i) j b =
    if decide (i = j) then flag_bit flag i b && negb (Z.testbit c b) else flag_bit flag j b.
Proof.
  intros Hc Hi Hj Hb.
  rewrite (flag_bit_update _ (λ x q, x && negb (Z.testbit c q))); try done.
  - intros w p Hp. rewrite Z.land_spec, Z.lnot_spec by lia. by rewrite Z.shiftl_spec by lia.
  - intros x q H0 H1. rewrite testbit_small by done. apply andb_true_r.
Qed.

Lemma flag_bit_set c flag i j b :
  0 ≤ c < 4 → flag_in flag i → 0 ≤ j → 0 ≤ b ≤ 1 →
  flag_bit (flag_update (λ w, Z.lor w (Z.shiftl c (flag_shift i))) flag i) j b =
    if decide (i = j) then flag_bit flag i b || Z.testbit c b else flag_bit flag j b.
Proof.
  intros Hc Hi Hj Hb.
  rewrite (flag_bit_update _ (λ x q, x || Z.testbit c q)); try done.
  - intros w p Hp. rewrite Z.lor_spec. by rewrite Z.shiftl_spec by lia.
  - intros x q H0 H1. rewrite testbit_small by done. apply orb_false_r.
Qed.

(** ** The macros, as operations on two booleans per bucket *)

Ltac flag_solve :=
  intros; pose proof (ltac:(eassumption) : flag_in _ _) as [? ?];
  rewrite ?isempty_bit, ?isdel_bit by done;
  unfold ac_set_isempty_false, ac_set_isboth_false, ac_set_isdel_true;
  rewrite ?flag_bit_clear, ?flag_bit_set by (done || lia);
  case_decide; subst; rewrite ?andb_false_r, ?andb_true_r, ?orb_true_r, ?orb_false_r; done.

Lemma isempty_set_isempty_false flag i j : flag_in flag i → 0 ≤ j →
  ac_isempty (ac_set_isempty_false flag i) j = if decide (i = j) then false else ac_isempty flag j.
Proof. flag_solve. Qed.
Lemma isdel_set_isempty_false flag i j : flag_in flag i → 0 ≤ j →
  ac_isdel (ac_set_isempty_false flag i) j = if decide (i = j) then ac_isdel flag i else ac_isdel flag j.
Proof. flag_solve. Qed.
Lemma isempty_set_isboth_false flag i j : flag_in flag i → 0 ≤ j →
  ac_isempty (ac_set_isboth_false flag i) j = if decide (i = j) then false else ac_isempty flag j.
Proof. flag_solve. Qed.
Lemma isdel_set_isboth_false flag i j : flag_in flag i → 0 ≤ j →
  ac_isdel (ac_set_isboth_false flag i) j = if decide (i = j) then false else ac_isdel flag j.
Proof. flag_solve. Qed.
Lemma isempty_set_isdel_true flag i j : flag_in flag i → 0 ≤ j →
  ac_isempty (ac_set_isdel_true flag i) j = if decide (i = j) then ac_isempty flag i else ac_isempty flag j.
Proof. flag_solve. Qed.
Lemma isdel_set_isdel_true flag i j : flag_in flag i → 0 ≤ j →
  ac_isdel (ac_set_isdel_true flag i) j = if decide (i = j) then true else ac_isdel flag j.
Proof. flag_solve. Qed.

Lemma length_flag_update f flag i : length (flag_update f flag i) = length flag.
Proof. apply length_insert. Qed.

(** Every word of a fresh array has its sixteen buckets empty. *)
Lemma fresh_word_bits k : 0 ≤ k < 16 →
  Z.testbit 2863311530 (2 * k + 1) = true ∧ Z.testbit 2863311530 (2 * k + 0) = false.
Proof.
  intros Hk.
  assert (Forall (λ k, Z.testbit 2863311530 (2 * k + 1) = true ∧
                       Z.testbit 2863311530 (2 * k + 0) = false) (seqZ 0 16)) as HF
    by (vm_compute; repeat constructor).
  rewrite Forall_forall in HF. apply HF, elem_of_seqZ. lia.
Qed.

(** The flag array of a table of [n] buckets. *)
Lemma fsize_in flag n i :
  zlen flag = ac_fsize n → (n < 16 ∨ n mod 16 = 0) → 0 ≤ i < n → flag_in flag i.
Proof.
  unfold ac_fsize, flag_in. intros -> Hn Hi. split; [lia|].
  destruct (n <? 16) eqn:E; zbool; [apply Z.div_lt_upper_bound; lia|].
  rewrite Z.shiftr_div_pow2 by lia. change (2 ^ 4) with 16.
  destruct Hn as [?|Hn]; [lia|]. apply Z.div_lt_upper_bound; [lia|].
  pose proof (Z.div_mod n 16). lia.
Qed.

Lemma fresh_flags_length n : 0 ≤ n → zlen (fresh_flags n) = ac_fsize n.
Proof.
  intros. unfold fresh_flags. rewrite length_replicate. unfold ac_fsize.
  destruct (n <? 16); [done|]. rewrite Z2Nat.id; [done|]. apply Z.shiftr_nonneg. lia.
Qed.

Lemma fresh_flags_spec n i :
  flag_in (fresh_flags n) i → ac_isempty (fresh_flags n) i = true ∧ ac_isdel (fresh_flags n) i = false.
Proof.
  intros [Hi Hl]. rewrite isempty_bit, isdel_bit by done. unfold flag_bit.
  rewrite flag_shift_mod by done.
  assert (flag_word (fresh_flags n) i = 2863311530) as ->.
  { unfold flag_word, fresh_flags in *. rewrite length_replicate in Hl.
    rewrite Z.shiftr_div_pow2 by lia. change (2 ^ 4) with 16.
    pose proof (Z.div_pos i 16). apply lookup_total_replicate_2. apply Nat2Z.inj_lt. rewrite Z2Nat.id by lia. exact Hl. }
  apply fresh_word_bits. apply Z.mod_pos_bound. lia.
Qed.
