(* ===== verification/KhashProbe.v ===== *)
(** * Quadratic probing in [src/src/khash.h]

    With a power-of-two number of buckets the probe sequence visits every
    bucket once in its first [n_buckets] steps; this is why a search stops. *)

From S2P Require Import Prelude CLib Khash.

Definition tri (t : Z) : Z := t * (t + 1) / 2.
Definition probe (n hk t : Z) : Z := (hk + tri t) mod n.

Lemma tri_double t : 2 * tri t = t * (t + 1).
Proof.
  unfold tri. rewrite <- Z.divide_div_mul_exact; [by rewrite Z.mul_comm, Z.div_mul|lia|].
  destruct (Z.Even_or_Odd t) as [[k ->]|[k ->]].
  - exists (k * (2 * k + 1)). lia.
  - exists ((2 * k + 1) * (k + 1)). lia.
Qed.

Lemma tri_succ t : tri (t + 1) = tri t + (t + 1).
Proof. pose proof (tri_double t). pose proof (tri_double (t + 1)). nia. Qed.

Lemma tri_0 : tri 0 = 0.
Proof. done. Qed.

(** An odd factor does not help divisibility by a power of two. *)
Lemma pow2_divide_odd (p : nat) x y :
  Z.odd x = true → (2 ^ Z.of_nat p | x * y) → (2 ^ Z.of_nat p | y).
Proof.
  intros Hx. revert y. induction p as [|p IH]; intros y Hd; [apply Z.divide_1_l|].
  rewrite Nat2Z.inj_succ, Z.pow_succ_r in * by lia.
  assert (Z.even y = true) as [y' ->]%Z.even_spec.
  { destruct Hd as [q Hq]. apply (f_equal Z.even) in Hq.
    rewrite !Z.even_mul in Hq. rewrite <- Z.negb_odd, Hx in Hq. simpl in Hq.
    rewrite Hq. by rewrite orb_true_r. }
  apply Z.mul_divide_mono_l, IH.
  apply (Z.mul_divide_cancel_l _ _ 2); [lia|].
  by replace (2 * (x * y')) with (x * (2 * y')) by lia.
Qed.

Section probing.
Context (m n : Z) (Hm : 2 ≤ m ≤ 30) (Hn : n = 2 ^ m).

Lemma n_pos : 4 ≤ n ≤ 2 ^ 30.
Proof. subst n. split; [apply (Z.pow_le_mono_r 2 2)|apply Z.pow_le_mono_r]; lia. Qed.

Lemma land_mask x : Z.land x (n - 1) = x mod n.
Proof.
  replace (n - 1) with (Z.ones m) by (rewrite Z.ones_equiv; subst n; lia).
  subst n. apply Z.land_ones. lia.
Qed.

Lemma mod_u32 x : u32 x mod n = x mod n.
Proof.
  unfold uwrap. subst n. symmetry. apply Znumtheory.Zmod_div_mod; [lia|lia|].
  exists (2 ^ (32 - m)). rewrite <- Z.pow_add_r by lia. f_equal. lia.
Qed.

Lemma probe_range hk t : 0 ≤ probe n hk t < n.
Proof. apply Z.mod_pos_bound. pose proof n_pos. lia. Qed.

(** The first position and the step of the probing loops. *)
Lemma probe_start hk : Z.land hk (n - 1) = probe n hk 0.
Proof. rewrite land_mask. unfold probe. by rewrite tri_0, Z.add_0_r. Qed.

Lemma probe_step hk t :
  0 ≤ t < 2 ^ 31 → Z.land (u32 (probe n hk t + u32 (t + 1))) (n - 1) = probe n hk (t + 1).
Proof.
  intros Ht. rewrite land_mask, mod_u32, (uwrap_small 32) by lia.
  unfold probe. pose proof n_pos. rewrite Z.add_mod_idemp_l by lia. f_equal.
  rewrite tri_succ. lia.
Qed.

Lemma probe_inj hk a b :
  0 ≤ a < n → 0 ≤ b < n → probe n hk a = probe n hk b → a = b.
Proof.
  intros Ha Hb E. pose proof n_pos as Hpos.
  assert (2 ^ Z.of_nat (S (Z.to_nat m)) = 2 * n) as Hp.
  { rewrite Nat2Z.inj_succ, Z2Nat.id, Z.pow_succ_r by lia. by subst n. }
  assert (2 * n | (b - a) * (a + b + 1)) as Hd.
  { replace ((b - a) * (a + b + 1)) with (2 * ((hk + tri b) - (hk + tri a)))
      by (pose proof (tri_double a); pose proof (tri_double b); lia).
    apply Z.mul_divide_mono_l. apply Z.mod_divide; [lia|].
    unfold probe in E. by rewrite Zminus_mod, E, Z.sub_diag, Z.mod_0_l by lia. }
  rewrite <- Hp in Hd.
  destruct (Z.odd (b - a)) eqn:Eodd.
  - apply pow2_divide_odd in Hd; [|done]. rewrite Hp in Hd.
    apply Z.divide_pos_le in Hd; lia.
  - rewrite Z.mul_comm in Hd. apply pow2_divide_odd in Hd.
    2:{ replace (a + b + 1) with ((b - a) + 1 + 2 * a) by lia.
        rewrite Z.odd_add_mul_2, Z.odd_add, Eodd. done. }
    rewrite Hp in Hd. destruct Hd as [q Hq]. assert (q = 0); nia.
Qed.

Lemma probe_cover hk i : 0 ≤ i < n → ∃ t, 0 ≤ t < n ∧ probe n hk t = i.
Proof.
  intros Hi. set (l := probe n hk <$> seqZ 0 n).
  assert (i ∈ l) as Hin.
  2:{ apply list_elem_of_fmap in Hin as (t & -> & Ht%elem_of_seqZ). exists t. split; [lia|done]. }
  assert (l ≡ₚ seqZ 0 n) as ->; [|apply elem_of_seqZ; lia].
  apply submseteq_length_Permutation.
  - apply NoDup_submseteq.
    + apply NoDup_alt. intros a b x Ha Hb. unfold l in *.
      apply list_lookup_fmap_Some in Ha as (ta & -> & Ha).
      apply list_lookup_fmap_Some in Hb as (tb & E & Hb).
      apply lookup_seqZ in Ha as [-> ?]. apply lookup_seqZ in Hb as [-> ?].
      apply probe_inj in E; lia.
    + intros x (t & -> & _)%list_elem_of_fmap. apply elem_of_seqZ.
      pose proof (probe_range hk t). lia.
  - unfold l. by rewrite length_fmap.
Qed.
End probing.

(** The least index satisfying a test, below one that does. *)
Lemma least_index (P : Z → bool) t0 :
  0 ≤ t0 → P t0 = true →
  ∃ T, 0 ≤ T ≤ t0 ∧ P T = true ∧ ∀ s, 0 ≤ s < T → P s = false.
Proof.
  intros Ht0. revert P. pattern t0. apply natlike_ind; [| |done]; clear t0 Ht0.
  - intros P HP. exists 0. split_and!; [lia..|done|]. intros; lia.
  - intros t0 Ht0 IH P HP. destruct (P 0) eqn:E0.
    + exists 0. split_and!; [lia..|done|]. intros; lia.
    + destruct (IH (λ s, P (s + 1))) as (T & HT & HPT & Hs); [by rewrite Z.add_1_r|].
      exists (T + 1). split_and!; [lia..|done|]. intros s Hs'.
      destruct (decide (s = 0)) as [->|]; [done|].
      specialize (Hs (s - 1)). replace (s - 1 + 1) with s in Hs by lia. apply Hs. lia.
Qed.

(** ** Table sizes: [kroundup32] on the sizes [kh_put] asks for *)

Lemma kroundup32_pow2 m :
  2 ≤ m ≤ 30 → kroundup32 (u32 (2 ^ m - 1)) = 2 ^ m ∧ kroundup32 (u32 (2 ^ m + 1)) = 2 ^ (m + 1).
Proof.
  intros Hm.
  assert (forallb (λ m, (kroundup32 (u32 (2 ^ m - 1)) =? 2 ^ m) &&
                        (kroundup32 (u32 (2 ^ m + 1)) =? 2 ^ (m + 1))) (seqZ 2 29) = true) as HF
    by (vm_compute; reflexivity).
  rewrite forallb_forall in HF. specialize (HF m). rewrite <- list_elem_of_In, elem_of_seqZ in HF.
  specialize (HF ltac:(lia)). by zbool.
Qed.

Lemma ac_upper_bounds n : 4 ≤ n → n / 2 < ac_upper n < n.
Proof.
  intros Hn. unfold ac_upper. split.
  - apply Z.le_succ_l, Z.div_le_lower_bound; [lia|]. pose proof (Z.mul_div_le n 2). lia.
  - apply Z.div_lt_upper_bound; lia.
Qed.

Lemma pow2_flags m : 2 ≤ m → 2 ^ m < 16 ∨ 2 ^ m mod 16 = 0.
Proof.
  intros Hm. destruct (decide (m < 4)).
  - left. apply Z.lt_le_trans with (2 ^ 4); [apply Z.pow_lt_mono_r; lia|lia].
  - right. replace m with (4 + (m - 4)) by lia. rewrite Z.pow_add_r by lia.
    change (2 ^ 4) with 16. rewrite Z.mul_comm. apply Z.mod_mul. lia.
Qed.
