(* ===== verification/KhashProof.v ===== *)
(** * [src/src/khash.h] implements a finite map

    The representation invariant of the table, and what lookup, insertion and
    deletion do to it. *)

From S2P Require Import Prelude CLib Khash KhashFlags KhashProbe.

(** ** Representation

    [e] gives the live buckets with their key and (possibly indeterminate)
    value, [O] the buckets that are not empty. *)
Record kh_rep {V} (h : khash V) (e : gmap Z (bytes * option V)) (O : gset Z) : Prop := {
  rep_pow : ∃ m, 2 ≤ m ≤ 30 ∧ n_buckets h = 2 ^ m;
  rep_flags : zlen (flags h) = ac_fsize (n_buckets h);
  rep_keys : zlen (keys h) = n_buckets h;
  rep_vals : zlen (vals h) = n_buckets h;
  rep_occ : ∀ i, i ∈ O ↔ 0 ≤ i < n_buckets h ∧ ac_isempty (flags h) i = false;
  rep_excl : ∀ i, 0 ≤ i < n_buckets h → ac_isempty (flags h) i = true → ac_isdel (flags h) i = false;
  rep_ent : ∀ i k v, e !! i = Some (k, v) ↔
    0 ≤ i < n_buckets h ∧ ac_iseither (flags h) i = false ∧
    keys h !! Z.to_nat i = Some (Some k) ∧ vals h !! Z.to_nat i = Some v;
  rep_live : ∀ i, 0 ≤ i < n_buckets h → ac_iseither (flags h) i = false → is_Some (e !! i);
  rep_probe : ∀ i k v, e !! i = Some (k, v) →
    ∃ t, 0 ≤ t < n_buckets h ∧ i = probe (n_buckets h) (hash_string k) t ∧
      ∀ s, 0 ≤ s < t → probe (n_buckets h) (hash_string k) s ∈ O;
  rep_inj : ∀ i j k v v', e !! i = Some (k, v) → e !! j = Some (k, v') → i = j;
  rep_size : h_size h = Z.of_nat (size e);
  rep_nocc : n_occupied h = Z.of_nat (size O);
  rep_ub : upper_bound h = ac_upper (n_buckets h);
  rep_load : n_occupied h ≤ upper_bound h
}.

(** The key is in no live bucket. *)
Definition absent {V} (e : gmap Z (bytes * option V)) (k : bytes) : Prop :=
  ∀ i v, e !! i ≠ Some (k, v).

Section search.
Context {V : Type} (h : khash V) (e : gmap Z (bytes * option V)) (O : gset Z).
Context (Hrep : kh_rep h e O).

Lemma rep_flag_in i : 0 ≤ i < n_buckets h → flag_in (flags h) i.
Proof.
  intros Hi. destruct (rep_pow _ _ _ Hrep) as (m & Hm & Hn).
  apply (fsize_in _ (n_buckets h)); [apply Hrep| |done]. rewrite Hn. apply pow2_flags. lia.
Qed.

Lemma rep_dom i : is_Some (e !! i) → 0 ≤ i < n_buckets h.
Proof. intros [[k v] Hi]. by apply (rep_ent _ _ _ Hrep) in Hi as [? _]. Qed.

Lemma rep_dom_occ i : is_Some (e !! i) → i ∈ O.
Proof.
  intros [[k v] Hi]. apply (rep_ent _ _ _ Hrep) in Hi as (? & Hf & _).
  apply (rep_occ _ _ _ Hrep). rewrite iseither_or in Hf. by apply orb_false_iff in Hf as [? _].
Qed.

(** Some bucket is empty. *)
Lemma empty_bucket : ∃ i, 0 ≤ i < n_buckets h ∧ ac_isempty (flags h) i = true.
Proof.
  destruct (rep_pow _ _ _ Hrep) as (m & Hm & Hn). pose proof (n_pos m _ Hm Hn).
  pose proof (ac_upper_bounds (n_buckets h)) as Hub.
  pose proof (rep_load _ _ _ Hrep). rewrite (rep_ub _ _ _ Hrep), (rep_nocc _ _ _ Hrep) in *.
  set (all := list_to_set (seqZ 0 (n_buckets h)) : gset Z).
  assert (size all = Z.to_nat (n_buckets h)) as Hall.
  { unfold all. rewrite size_list_to_set by apply NoDup_seqZ. apply length_seqZ. }
  destruct (set_choose_or_empty (all ∖ O)) as [[i Hi]|Hemp].
  - exists i. unfold all in Hi. apply elem_of_difference in Hi as [Hi HO].
    apply elem_of_list_to_set, elem_of_seqZ in Hi. split; [lia|].
    destruct (ac_isempty (flags h) i) eqn:E; [done|].
    exfalso. apply HO, (rep_occ _ _ _ Hrep). split; [lia|done].
  - assert (all ⊆ O) as Hsub%subseteq_size by set_solver. lia.
Qed.

(** What the probing loops see in one bucket. *)
Lemma keep_probing_spec key i :
  0 ≤ i < n_buckets h →
  ∃ b, keep_probing (flags h) (keys h) key i = Ok b ∧
    (b = false → ac_isempty (flags h) i = true ∨ ∃ v, e !! i = Some (key, v)) ∧
    (b = true → ac_isempty (flags h) i = false ∧ ∀ v, e !! i ≠ Some (key, v)).
Proof.
  intros Hi. unfold keep_probing. rewrite check_flag by (by apply rep_flag_in). cbn [mbind res_bind].
  destruct (ac_isempty (flags h) i) eqn:Ee.
  { exists false. split_and!; [done|by left|done]. }
  destruct (ac_isdel (flags h) i) eqn:Ed.
  { exists true. split_and!; [done|done|]. intros _. split; [done|]. intros v Hv.
    apply (rep_ent _ _ _ Hrep) in Hv as (_ & Hf & _). rewrite iseither_or, Ed, orb_true_r in Hf. done. }
  assert (ac_iseither (flags h) i = false) as Hl by (by rewrite iseither_or, Ee, Ed).
  destruct (rep_live _ _ _ Hrep i Hi Hl) as [[k v] Hkv].
  pose proof Hkv as Hk. apply (rep_ent _ _ _ Hrep) in Hk as (_ & _ & Hk & _).
  unfold key_equal. rewrite Hk. cbn. eexists. split; [done|].
  case_bool_decide as E; simpl; split; try done.
  - intros _. right. subst k. eauto.
  - intros _. split; [done|]. intros v' Hv'. rewrite Hv' in Hkv. by injection Hkv as -> ->.
Qed.

(** A search for [key] runs through occupied buckets up to step [T], where
    it meets the key or an empty bucket; in the latter case the key is
    nowhere. *)
Lemma search_stops key :
  let n := n_buckets h in let hk := hash_string key in
  ∃ T, 0 ≤ T < n ∧
    keep_probing (flags h) (keys h) key (probe n hk T) = Ok false ∧
    (∀ s, 0 ≤ s < T → keep_probing (flags h) (keys h) key (probe n hk s) = Ok true ∧
                      probe n hk s ∈ O) ∧
    ((∃ v, e !! probe n hk T = Some (key, v)) ∨
     (ac_isempty (flags h) (probe n hk T) = true ∧ absent e key)).
Proof.
  intros n hk. destruct (rep_pow _ _ _ Hrep) as (m & Hm & Hn). fold n in Hn.
  set (P := λ t, match keep_probing (flags h) (keys h) key (probe n hk t) with
                 | Ok b => negb b | Stop _ => false end).
  assert (∀ t, ∃ b, keep_probing (flags h) (keys h) key (probe n hk t) = Ok b ∧ P t = negb b ∧
     (b = false → ac_isempty (flags h) (probe n hk t) = true ∨ ∃ v, e !! probe n hk t = Some (key, v)) ∧
     (b = true → ac_isempty (flags h) (probe n hk t) = false ∧ ∀ v, e !! probe n hk t ≠ Some (key, v)))
    as HP.
  { intros t. destruct (keep_probing_spec key (probe n hk t)) as (b & Hb & H1 & H2);
      [by apply (probe_range m)|]. exists b. unfold P. by rewrite Hb. }
  destruct empty_bucket as (i0 & Hi0 & Hempty).
  destruct (probe_cover m n Hm Hn hk i0 Hi0) as (t0 & Ht0 & Hp0).
  destruct (least_index P t0) as (T & HT & HPT & Hmin); [lia| |].
  { destruct (HP t0) as (b & _ & -> & _ & H2). destruct b; [|done].
    destruct (H2 eq_refl) as [? _]. by rewrite Hp0, Hempty in *. }
  exists T. split; [lia|]. destruct (HP T) as (b & Hb & HPb & H1 & _).
  assert (b = false) as -> by (destruct b; [by rewrite HPT in HPb|done]).
  split; [done|]. split.
  { intros s Hs. destruct (HP s) as (b' & Hb' & HPb' & _ & H2).
    rewrite Hmin in HPb' by done. destruct b'; [|done].
    split; [done|]. apply (rep_occ _ _ _ Hrep). split; [by apply (probe_range m)|].
    by apply H2. }
  destruct (H1 eq_refl) as [He|Hv]; [|by left]. right. split; [done|]. intros i v Hi.
  destruct (rep_probe _ _ _ Hrep i key v Hi) as (t & Ht & -> & Hbefore).
  fold n hk in Hi, Ht, Hbefore.
  destruct (Z.lt_total t T) as [Hlt|[->|Hgt]].
  - destruct (HP t) as (b' & _ & HPb' & _ & H2). rewrite Hmin in HPb' by lia.
    destruct b'; [|done]. destruct (H2 eq_refl) as [_ H3]. by apply (H3 v).
  - apply (rep_ent _ _ _ Hrep) in Hi as (_ & Hf & _). by rewrite iseither_or, He in Hf.
  - specialize (Hbefore T). apply (rep_occ _ _ _ Hrep) in Hbefore as [_ Hne]; [|lia].
    by rewrite He in Hne.
Qed.

(** ** Lookup *)

Lemma get_loop_spec key T fuel t :
  let n := n_buckets h in let hk := hash_string key in
  0 ≤ t ≤ T → T < n → T - t < Z.of_nat fuel →
  keep_probing (flags h) (keys h) key (probe n hk T) = Ok false →
  (∀ s, 0 ≤ s < T → keep_probing (flags h) (keys h) key (probe n hk s) = Ok true) →
  get_loop fuel h key (n - 1) (probe n hk 0) (probe n hk t) t =
    Ok (if ac_iseither (flags h) (probe n hk T) then n else probe n hk T).
Proof.
  intros n hk Ht HT Hf Hstop Hgo. destruct (rep_pow _ _ _ Hrep) as (m & Hm & Hn). fold n in Hn.
  pose proof (n_pos m n Hm Hn).
  revert t Ht Hf. induction fuel as [|fuel IH]; intros t Ht Hf; [lia|]. simpl.
  destruct (decide (t = T)) as [->|].
  - by rewrite Hstop.
  - rewrite Hgo by lia. simpl. rewrite (probe_step m) by (done || lia).
    rewrite (uwrap_small 32) by lia. rewrite (proj2 (Z.eqb_neq _ _)).
    + apply IH; lia.
    + intros E. apply (probe_inj m n Hm Hn) in E; lia.
Qed.

(** [kh_get] finds the bucket of a present key, and the end otherwise. *)
Lemma kh_get_rep key :
  (∃ i v, kh_get h key = Ok i ∧ e !! i = Some (key, v)) ∨
  (kh_get h key = Ok (n_buckets h) ∧ absent e key).
Proof.
  destruct (rep_pow _ _ _ Hrep) as (m & Hm & Hn). pose proof (n_pos m _ Hm Hn).
  destruct (search_stops key) as (T & HT & Hstop & Hgo & Hres).
  unfold kh_get. rewrite (proj2 (Z.eqb_neq _ _)) by lia.
  rewrite (probe_start m) by done.
  rewrite (get_loop_spec key T); [|lia|lia|lia|done|by intros; apply Hgo].
  destruct Hres as [[v Hv]|[He Habs]].
  - left. eexists _, v. split; [|done].
    apply (rep_ent _ _ _ Hrep) in Hv as (_ & -> & _). done.
  - right. rewrite iseither_or, He. done.
Qed.

(** ** Insertion *)

Lemma put_loop_spec key T fuel t site :
  let n := n_buckets h in let hk := hash_string key in
  0 ≤ t ≤ T → T < n → T - t < Z.of_nat fuel →
  keep_probing (flags h) (keys h) key (probe n hk T) = Ok false →
  (∀ s, 0 ≤ s < T → keep_probing (flags h) (keys h) key (probe n hk s) = Ok true) →
  ∃ site', put_loop fuel h key (n - 1) (probe n hk 0) (probe n hk t) t site =
      Ok (probe n hk T, site', false) ∧
    (site' = site ∨ ∃ s, t ≤ s < T ∧ site' = probe n hk s ∧ ac_isdel (flags h) site' = true).
Proof.
  intros n hk Ht HT Hf Hstop Hgo. destruct (rep_pow _ _ _ Hrep) as (m & Hm & Hn). fold n in Hn.
  pose proof (n_pos m n Hm Hn).
  revert t site Ht Hf. induction fuel as [|fuel IH]; intros t site Ht Hf; [lia|]. simpl.
  destruct (decide (t = T)) as [->|].
  - rewrite Hstop. simpl. eauto.
  - rewrite Hgo by lia. simpl. rewrite (probe_step m) by (done || lia).
    rewrite (uwrap_small 32) by lia. rewrite (proj2 (Z.eqb_neq _ _)).
    2:{ intros E. apply (probe_inj m n Hm Hn) in E; lia. }
    destruct (IH (t + 1) (if ac_isdel (flags h) (probe n hk t) then probe n hk t else site))
      as (site' & -> & Hs); [lia..|]. exists site'. split; [done|].
    destruct Hs as [->|(s & ? & -> & ?)]; [|right; exists s; split_and!; auto; lia].
    destruct (ac_isdel (flags h) (probe n hk t)) eqn:E; [|by left].
    right. exists t. split_and!; auto; lia.
Qed.

(** The slot [kh_put] chooses: the key's own bucket if it is there, else a
    bucket that is empty or deleted, reached through occupied ones. *)
Lemma put_slot_rep key :
  let n := n_buckets h in let hk := hash_string key in
  (∃ i v, put_slot h key = Ok i ∧ e !! i = Some (key, v)) ∨
  (absent e key ∧ ∃ t, put_slot h key = Ok (probe n hk t) ∧ 0 ≤ t < n ∧
     (ac_isempty (flags h) (probe n hk t) = true ∨ ac_isdel (flags h) (probe n hk t) = true) ∧
     ∀ s, 0 ≤ s < t → probe n hk s ∈ O).
Proof.
  intros n hk. destruct (rep_pow _ _ _ Hrep) as (m & Hm & Hn). fold n in Hn.
  pose proof (n_pos m n Hm Hn).
  destruct (search_stops key) as (T & HT & Hstop & Hgo & Hres). fold n hk in HT, Hstop, Hgo, Hres.
  unfold put_slot. fold n. rewrite (uwrap_small 32) by lia. fold hk.
  rewrite (probe_start m n Hm Hn). cbv zeta.
  rewrite check_flag by (apply rep_flag_in, (probe_range m); done). cbn [mbind res_bind].
  destruct (ac_isempty (flags h) (probe n hk 0)) eqn:E0.
  { assert (T = 0) as ->.
    { destruct (decide (T = 0)); [done|]. destruct (Hgo 0) as [_ Hocc]; [lia|].
      apply (rep_occ _ _ _ Hrep) in Hocc as [_ Hocc]. by rewrite E0 in Hocc. }
    right. destruct Hres as [[v Hv]|[_ Habs]].
    - apply (rep_ent _ _ _ Hrep) in Hv as (_ & Hf & _). by rewrite iseither_or, E0 in Hf.
    - split; [done|]. exists 0. split_and!; auto; [lia..|]. intros; lia. }
  destruct (put_loop_spec key T (S (Z.to_nat (2 * n))) 0 n) as (site & Hloop & Hsite);
    [lia|lia|lia|done|by intros; apply Hgo|].
  fold n hk in Hloop. rewrite Hloop. simpl. rewrite Z.eqb_refl.
  destruct Hres as [[v Hv]|[He Habs]].
  - left. exists (probe n hk T), v. split; [|done].
    apply (rep_ent _ _ _ Hrep) in Hv as (_ & Hf & _). rewrite iseither_or in Hf.
    by apply orb_false_iff in Hf as [-> _].
  - right. split; [done|]. rewrite He. simpl.
    destruct Hsite as [->|(s & Hs & -> & Hdel)].
    + rewrite Z.eqb_refl. simpl. exists T. split_and!; auto; [lia..|]. intros. by apply Hgo.
    + fold n hk in Hdel |- *. pose proof (probe_range m n Hm Hn hk s).
      rewrite (proj2 (Z.eqb_neq _ _)) by lia. simpl. exists s. split_and!; auto; [lia..|].
      intros. apply Hgo. lia.
Qed.
End search.

Lemma insert_lookup_Z {A} (l : list A) (i j : Z) (x : A) :
  0 ≤ i < zlen l → 0 ≤ j →
  <[Z.to_nat i := x]> l !! Z.to_nat j = if decide (i = j) then Some x else l !! Z.to_nat j.
Proof.
  intros Hi Hj. case_decide as E.
  - subst. apply list_lookup_insert_eq. lia.
  - apply list_lookup_insert_ne. lia.
Qed.

(** A bucket that is empty or deleted holds no entry. *)
Lemma free_no_entry {V} (h : khash V) e O x :
  kh_rep h e O → ac_isempty (flags h) x = true ∨ ac_isdel (flags h) x = true → e !! x = None.
Proof.
  intros Hrep Hfree. destruct (e !! x) as [[k v]|] eqn:E; [|done].
  apply (rep_ent _ _ _ Hrep) in E as (_ & Hf & _). rewrite iseither_or in Hf.
  destruct Hfree as [Hf'|Hf']; rewrite Hf' in Hf; [done|]. by rewrite orb_true_r in Hf.
Qed.

(** The occupied buckets when one more is used. *)
Lemma occupied_add {V} (h : khash V) e O x :
  kh_rep h e O → 0 ≤ x < n_buckets h →
  size (O ∪ {[x]}) = (size O + if ac_isempty (flags h) x then 1 else 0)%nat.
Proof.
  intros Hrep Hx. destruct (ac_isempty (flags h) x) eqn:E.
  - assert (x ∉ O). { intros [_ Hc]%(rep_occ _ _ _ Hrep). by rewrite E in Hc. }
    rewrite size_union by set_solver. by rewrite size_singleton.
  - assert (x ∈ O) by (apply (rep_occ _ _ _ Hrep); done).
    replace (O ∪ {[x]}) with O by set_solver. lia.
Qed.

Lemma entries_occupied {V} (h : khash V) e O : kh_rep h e O → (size e ≤ size O)%nat.
Proof.
  intros Hrep. rewrite <- size_dom. apply subseteq_size. intros i Hi%elem_of_dom. by eapply rep_dom_occ.
Qed.

(** The new entry among the flags and arrays after a store. *)
Lemma put_entry_iff {V} (h : khash V) e O x key v i k w :
  kh_rep h e O → 0 ≤ x < n_buckets h → vals h !! Z.to_nat x = Some v →
  <[x := (key, v)]> e !! i = Some (k, w) ↔
    0 ≤ i < n_buckets h ∧ ac_iseither (ac_set_isboth_false (flags h) x) i = false ∧
    <[Z.to_nat x := Some key]> (keys h) !! Z.to_nat i = Some (Some k) ∧ vals h !! Z.to_nat i = Some w.
Proof.
  intros Hrep Hx Hv. pose proof (rep_keys _ _ _ Hrep) as Hkl.
  pose proof (rep_flag_in _ _ _ Hrep x Hx) as Hin.
  destruct (decide (0 ≤ i < n_buckets h)) as [Hi|].
  2:{ rewrite lookup_insert_ne by lia. rewrite (rep_ent _ _ _ Hrep). naive_solver lia. }
  rewrite iseither_or, isempty_set_isboth_false, isdel_set_isboth_false by (done || lia).
  rewrite insert_lookup_Z by lia. destruct (decide (x = i)) as [<-|].
  - rewrite lookup_insert_eq, Hv. naive_solver.
  - rewrite lookup_insert_ne by done. rewrite (rep_ent _ _ _ Hrep), <- iseither_or. naive_solver.
Qed.

(** Every key lies on its probe path, and in one bucket only. *)
Lemma put_paths {V} (h : khash V) e O key t v :
  let x := probe (n_buckets h) (hash_string key) t in
  kh_rep h e O → 0 ≤ t < n_buckets h → (∀ s, 0 ≤ s < t → probe (n_buckets h) (hash_string key) s ∈ O) →
  ∀ i k w, <[x := (key, v)]> e !! i = Some (k, w) →
    ∃ t', 0 ≤ t' < n_buckets h ∧ i = probe (n_buckets h) (hash_string k) t' ∧
      ∀ s, 0 ≤ s < t' → probe (n_buckets h) (hash_string k) s ∈ O ∪ {[x]}.
Proof.
  intros x Hrep Ht Hpath i k w [[<- [= <- <-]]|[Hne Hi]]%lookup_insert_Some.
  - exists t. split_and!; [lia..|done|]. set_solver.
  - destruct (rep_probe _ _ _ Hrep i k w Hi) as (t' & ? & ? & ?). exists t'. set_solver.
Qed.

Lemma put_inj {V} (h : khash V) e O key x v :
  kh_rep h e O → absent e key →
  ∀ i j k w w', <[x := (key, v)]> e !! i = Some (k, w) → <[x := (key, v)]> e !! j = Some (k, w') → i = j.
Proof.
  intros Hrep Habs i j k w w' [[<- [= <- <-]]|[Hne Hi]]%lookup_insert_Some
    [[<- Hj]|[Hne' Hj]]%lookup_insert_Some; try done.
  - by apply Habs in Hj.
  - injection Hj as -> ->. by apply Habs in Hi.
  - by eapply (rep_inj _ _ _ Hrep).
Qed.

(** Storing a new key in a bucket that is empty or deleted and lies on the
    key's probe path keeps the invariant. *)
Lemma put_at_rep {V} (h : khash V) e O key t :
  kh_rep h e O → absent e key →
  n_occupied h < upper_bound h ∨ ac_isempty (flags h) (probe (n_buckets h) (hash_string key) t) = false →
  let x := probe (n_buckets h) (hash_string key) t in
  0 ≤ t < n_buckets h →
  ac_isempty (flags h) x = true ∨ ac_isdel (flags h) x = true →
  (∀ s, 0 ≤ s < t → probe (n_buckets h) (hash_string key) s ∈ O) →
  ∃ h' ret v, put_at h key x = (h', ret) ∧ ret ≠ 0 ∧ n_buckets h' = n_buckets h ∧
    kh_rep h' (<[x := (key, v)]> e) (O ∪ {[x]}).
Proof.
  intros Hrep Habs Hroom x Ht Hfree Hpath.
  pose proof (rep_pow _ _ _ Hrep) as (m & Hm & Hn). pose proof (n_pos m _ Hm Hn).
  assert (0 ≤ x < n_buckets h) as Hx by (by apply (probe_range m)).
  pose proof (rep_flag_in _ _ _ Hrep x Hx) as Hin.
  pose proof (rep_keys _ _ _ Hrep) as Hkl. pose proof (rep_vals _ _ _ Hrep) as Hvl.
  pose proof (free_no_entry _ _ _ x Hrep Hfree) as Hex.
  destruct (lookup_lt_is_Some_2 (vals h) (Z.to_nat x)) as [v Hv]; [lia|].
  set (h1 := λ d, KHash (n_buckets h) (u32 (h_size h + 1)) (u32 (n_occupied h + d)) (upper_bound h)
       (ac_set_isboth_false (flags h) x) (<[Z.to_nat x := Some key]> (keys h)) (vals h)).
  set (d := if ac_isempty (flags h) x then 1 else 0).
  assert (∃ ret, put_at h key x = (h1 d, ret) ∧ ret ≠ 0) as (ret & Hput & Hret).
  { unfold put_at, d, h1. destruct (ac_isempty (flags h) x); [by eexists|].
    destruct Hfree as [?|Hd]; [done|]. rewrite Hd. by eexists. }
  exists (h1 d), ret, v. split_and!; [done..|].
  pose proof (ac_upper_bounds (n_buckets h)) as Hub.
  pose proof (rep_load _ _ _ Hrep) as Hload. rewrite (rep_ub _ _ _ Hrep) in Hload, Hroom.
  assert (size (O ∪ {[x]}) = size O + Z.to_nat d)%nat as HsO.
  { unfold d. rewrite (occupied_add _ _ _ x Hrep Hx). by destruct (ac_isempty (flags h) x). }
  pose proof (entries_occupied _ _ _ Hrep) as HeO.
  pose proof (rep_nocc _ _ _ Hrep) as Hnocc. pose proof (rep_size _ _ _ Hrep) as Hsize.
  assert (n_occupied h + d ≤ ac_upper (n_buckets h)) as Hload'.
  { unfold d. destruct Hroom as [?|Hroom]; [destruct (ac_isempty _ _); lia|].
    fold x in Hroom. rewrite Hroom. lia. }
  assert (0 ≤ d ≤ 1) by (unfold d; destruct (ac_isempty _ _); lia).
  constructor; simpl.
  - eauto.
  - unfold ac_set_isboth_false. rewrite length_flag_update. apply Hrep.
  - by rewrite length_insert.
  - done.
  - intros i. rewrite elem_of_union, elem_of_singleton, (rep_occ _ _ _ Hrep).
    destruct (decide (0 ≤ i < n_buckets h)); [|naive_solver lia].
    rewrite isempty_set_isboth_false by (done || lia). case_decide; naive_solver lia.
  - intros i Hi. rewrite isempty_set_isboth_false, isdel_set_isboth_false by (done || lia).
    case_decide; [done|]. by apply (rep_excl _ _ _ Hrep).
  - intros i k w. by eapply put_entry_iff.
  - intros i Hi. rewrite iseither_or, isempty_set_isboth_false, isdel_set_isboth_false by (done || lia).
    destruct (decide (x = i)) as [<-|]; [rewrite lookup_insert_eq; eauto|].
    rewrite lookup_insert_ne, <- iseither_or by done. by apply (rep_live _ _ _ Hrep).
  - by apply put_paths.
  - by eapply put_inj.
  - rewrite map_size_insert_None by done. rewrite uwrap_small; lia.
  - rewrite HsO. rewrite uwrap_small; lia.
  - apply Hrep.
  - rewrite (rep_ub _ _ _ Hrep), uwrap_small; lia.
Qed.

(** ** Deletion and assignment through an iterator *)

Lemma kh_del_rep {V} (h : khash V) e O x k v :
  kh_rep h e O → e !! x = Some (k, v) → kh_rep (kh_del h x) (delete x e) O.
Proof.
  intros Hrep Hx. pose proof Hx as Hx'. apply (rep_ent _ _ _ Hrep) in Hx' as (Hxn & Hf & _ & _).
  pose proof (rep_flag_in _ _ _ Hrep x Hxn) as Hin. pose proof Hf as Hf'.
  rewrite iseither_or in Hf'. apply orb_false_iff in Hf' as [Hxe Hxd].
  pose proof (rep_pow _ _ _ Hrep) as (m & Hm & Hn). pose proof (n_pos m _ Hm Hn).
  pose proof (ac_upper_bounds (n_buckets h)) as Hub.
  pose proof (rep_load _ _ _ Hrep) as Hload. rewrite (rep_ub _ _ _ Hrep), (rep_nocc _ _ _ Hrep) in Hload.
  assert (size e ≤ size O)%nat as HeO.
  { rewrite <- size_dom. apply subseteq_size. intros i Hi%elem_of_dom. by eapply rep_dom_occ. }
  assert (size (delete x e) + 1 = size e)%nat as Hsz.
  { rewrite map_size_delete_Some by eauto. assert (size e ≠ 0)%nat; [|lia].
    intros He%map_size_empty_iff. by rewrite He, lookup_empty in Hx. }
  unfold kh_del. rewrite (proj2 (Z.eqb_neq _ _)), Hf by lia. simpl.
  constructor; simpl; try apply Hrep.
  - unfold ac_set_isdel_true. rewrite length_flag_update. apply Hrep.
  - intros i. rewrite (rep_occ _ _ _ Hrep).
    destruct (decide (0 ≤ i < n_buckets h)); [|naive_solver lia].
    rewrite isempty_set_isdel_true by (done || lia). case_decide; naive_solver.
  - intros i Hi. rewrite isempty_set_isdel_true, isdel_set_isdel_true by (done || lia).
    case_decide; [subst; congruence|]. by apply (rep_excl _ _ _ Hrep).
  - intros i k' w. destruct (decide (0 ≤ i < n_buckets h)) as [Hi|].
    2:{ rewrite lookup_delete_ne by lia. rewrite (rep_ent _ _ _ Hrep). naive_solver lia. }
    rewrite iseither_or, isempty_set_isdel_true, isdel_set_isdel_true by (done || lia).
    destruct (decide (x = i)) as [<-|].
    + rewrite lookup_delete_eq, orb_true_r. naive_solver.
    + rewrite lookup_delete_ne, <- iseither_or by done. apply (rep_ent _ _ _ Hrep).
  - intros i Hi. rewrite iseither_or, isempty_set_isdel_true, isdel_set_isdel_true by (done || lia).
    destruct (decide (x = i)) as [<-|]; [by rewrite orb_true_r|].
    rewrite lookup_delete_ne, <- iseither_or by done. by apply (rep_live _ _ _ Hrep).
  - intros i k' w [_ Hi]%lookup_delete_Some. by apply (rep_probe _ _ _ Hrep i k' w).
  - intros i j k' w w' [_ Hi]%lookup_delete_Some [_ Hj]%lookup_delete_Some.
    by eapply (rep_inj _ _ _ Hrep).
  - rewrite (rep_size _ _ _ Hrep), uwrap_small by lia. lia.
Qed.

Lemma kh_value_rep {V} (h : khash V) e O x k v :
  kh_rep h e O → e !! x = Some (k, Some v) → kh_value h x = Ok v.
Proof.
  intros Hrep Hx. apply (rep_ent _ _ _ Hrep) in Hx as (Hxn & _ & _ & Hv).
  unfold kh_value. rewrite (proj2 (Z.leb_le _ _)), (proj2 (Z.ltb_lt _ _)) by lia. simpl.
  by rewrite Hv.
Qed.

Lemma kh_key_rep {V} (h : khash V) e O x k v :
  kh_rep h e O → e !! x = Some (k, v) → kh_key h x = Ok k.
Proof.
  intros Hrep Hx. apply (rep_ent _ _ _ Hrep) in Hx as (Hxn & _ & Hk & _).
  unfold kh_key. rewrite (proj2 (Z.leb_le _ _)), (proj2 (Z.ltb_lt _ _)) by lia. simpl.
  by rewrite Hk.
Qed.

(** Writing back an equal key changes nothing. *)
Lemma kh_set_key_rep {V} (h : khash V) e O x k v :
  kh_rep h e O → e !! x = Some (k, v) → kh_set_key h x k = Ok h.
Proof.
  intros Hrep Hx. apply (rep_ent _ _ _ Hrep) in Hx as (Hxn & _ & Hk & _).
  unfold kh_set_key. rewrite (proj2 (Z.leb_le _ _)), (proj2 (Z.ltb_lt _ _)) by lia. simpl.
  rewrite list_insert_id by done. by destruct h.
Qed.

Lemma kh_set_value_rep {V} (h : khash V) e O x k ov v :
  kh_rep h e O → e !! x = Some (k, ov) →
  ∃ h', kh_set_value h x v = Ok h' ∧ kh_rep h' (<[x := (k, Some v)]> e) O ∧
    n_buckets h' = n_buckets h.
Proof.
  intros Hrep Hx. pose proof Hx as Hx'. apply (rep_ent _ _ _ Hrep) in Hx' as (Hxn & Hf & Hk & _).
  pose proof (rep_vals _ _ _ Hrep) as Hvl.
  unfold kh_set_value. rewrite (proj2 (Z.leb_le _ _)), (proj2 (Z.ltb_lt _ _)) by lia. simpl.
  eexists. split_and!; [done| |done]. constructor; simpl; try apply Hrep.
  - rewrite length_insert. apply Hrep.
  - intros i k' w. destruct (decide (0 ≤ i < n_buckets h)) as [Hi|].
    2:{ rewrite lookup_insert_ne by lia. rewrite (rep_ent _ _ _ Hrep). naive_solver lia. }
    rewrite insert_lookup_Z by lia. destruct (decide (x = i)) as [<-|].
    + rewrite lookup_insert_eq, Hk. naive_solver.
    + rewrite lookup_insert_ne by done. apply (rep_ent _ _ _ Hrep).
  - intros i Hi Hl. destruct (decide (x = i)) as [<-|]; [rewrite lookup_insert_eq; eauto|].
    rewrite lookup_insert_ne by done. by apply (rep_live _ _ _ Hrep).
  - intros i k' w [[<- [= <- <-]]|[Hne Hi]]%lookup_insert_Some.
    + by apply (rep_probe _ _ _ Hrep x k ov).
    + by apply (rep_probe _ _ _ Hrep i k' w).
  - intros i j k' w w' Hi Hj.
    assert (∀ a k1 w1, <[x:=(k, Some v)]> e !! a = Some (k1, w1) → ∃ w2, e !! a = Some (k1, w2)) as Hback.
    { intros a k1 w1 [[<- [= <- <-]]|[_ Ha]]%lookup_insert_Some; eauto. }
    apply Hback in Hi as [? Hi]. apply Hback in Hj as [? Hj]. by eapply (rep_inj _ _ _ Hrep).
  - rewrite map_size_insert_Some by eauto. apply Hrep.
Qed.
