(* ===== verification/KhashResize.v ===== *)
(** * Resizing and insertion in [src/src/khash.h]

    The in-place rehash moves every entry to a bucket of the new table, each
    one once, whatever it has to kick out on the way. *)

From S2P Require Import Prelude CLib Khash KhashFlags KhashProbe KhashProof.

(** The entries of the live buckets, in some order. *)
Definition entries {V} (e : gmap Z (bytes * option V)) : list (bytes * option V) :=
  (map_to_list e).*2.

Lemma entries_empty {V} : entries (∅ : gmap Z (bytes * option V)) = [].
Proof. unfold entries. by rewrite map_to_list_empty. Qed.

Lemma entries_insert {V} (e : gmap Z (bytes * option V)) i kv :
  e !! i = None → entries (<[i := kv]> e) ≡ₚ kv :: entries e.
Proof. intros Hi. unfold entries. by rewrite map_to_list_insert. Qed.

Lemma entries_delete {V} (e : gmap Z (bytes * option V)) i kv :
  e !! i = Some kv → entries e ≡ₚ kv :: entries (delete i e).
Proof.
  intros Hi. rewrite <- entries_insert by apply lookup_delete_eq.
  by rewrite insert_delete_id.
Qed.

Lemma entries_lookup {V} (e : gmap Z (bytes * option V)) kv :
  kv ∈ entries e ↔ ∃ i, e !! i = Some kv.
Proof.
  unfold entries. rewrite list_elem_of_fmap. split.
  - intros ([i kv'] & -> & Hi%elem_of_map_to_list). eauto.
  - intros [i Hi]. exists (i, kv). split; [done|]. by apply elem_of_map_to_list.
Qed.

Lemma length_entries {V} (e : gmap Z (bytes * option V)) : length (entries e) = size e.
Proof. unfold entries. rewrite length_fmap. apply length_map_to_list. Qed.

(** Buckets have different keys exactly when the entries do. *)
Lemma entries_keys_NoDup {V} (e : gmap Z (bytes * option V)) :
  (∀ i j k v v', e !! i = Some (k, v) → e !! j = Some (k, v') → i = j) ↔ NoDup (entries e).*1.
Proof.
  unfold entries. rewrite <- !list_fmap_compose. split.
  - intros Hinj. apply NoDup_fmap_2_strong; [|apply NoDup_map_to_list].
    intros [i [k v]] [j [k' v']] Hi%elem_of_map_to_list Hj%elem_of_map_to_list. simpl. intros ->.
    assert (i = j) as -> by eauto. congruence.
  - intros Hnd i j k v v' Hi%elem_of_map_to_list Hj%elem_of_map_to_list.
    apply list_elem_of_lookup in Hi as [a Ha]. apply list_elem_of_lookup in Hj as [b Hb].
    assert (a = b) as <-; [|congruence].
    eapply NoDup_lookup; [exact Hnd|rewrite list_lookup_fmap, Ha; done|].
    by rewrite list_lookup_fmap, Hb.
Qed.

(** A map whose keys lie in an interval is no larger than it. *)
Lemma size_in_range {A} (e : gmap Z A) n :
  0 ≤ n → (∀ i, is_Some (e !! i) → 0 ≤ i < n) → Z.of_nat (size e) ≤ n.
Proof.
  intros Hn He. assert (dom e ⊆ list_to_set (seqZ 0 n)) as Hsub%subseteq_size.
  { intros i Hi%elem_of_dom%He. apply elem_of_list_to_set, elem_of_seqZ. lia. }
  rewrite size_dom, size_list_to_set, length_seqZ in Hsub by apply NoDup_seqZ. lia.
Qed.

(** ** The state of a rehash: [oe] still to move, [pe] already placed *)
Record rh_rep {V} (n_b new_n : Z) (r : rehash_state V)
    (oe pe : gmap Z (bytes * option V)) : Prop := {
  rh_flags : ∀ i, 0 ≤ i < n_b → flag_in (r_flags r) i;
  rh_new : zlen (r_new r) = ac_fsize new_n;
  rh_keys : zlen (r_keys r) = new_n;
  rh_vals : zlen (r_vals r) = new_n;
  rh_old : ∀ i k v, oe !! i = Some (k, v) ↔
    0 ≤ i < n_b ∧ ac_iseither (r_flags r) i = false ∧
    r_keys r !! Z.to_nat i = Some (Some k) ∧ r_vals r !! Z.to_nat i = Some v;
  rh_old_live : ∀ i, 0 ≤ i < n_b → ac_iseither (r_flags r) i = false → is_Some (oe !! i);
  rh_placed : ∀ i k v, pe !! i = Some (k, v) ↔
    0 ≤ i < new_n ∧ ac_isempty (r_new r) i = false ∧
    r_keys r !! Z.to_nat i = Some (Some k) ∧ r_vals r !! Z.to_nat i = Some v;
  rh_placed_live : ∀ i, 0 ≤ i < new_n → ac_isempty (r_new r) i = false → is_Some (pe !! i);
  rh_nodel : ∀ i, 0 ≤ i < new_n → ac_isdel (r_new r) i = false;
  rh_disj : ∀ i, oe !! i = None ∨ pe !! i = None;
  rh_probe : ∀ i k v, pe !! i = Some (k, v) →
    ∃ t, 0 ≤ t < new_n ∧ i = probe new_n (hash_string k) t ∧
      ∀ s, 0 ≤ s < t → is_Some (pe !! probe new_n (hash_string k) s)
}.

Section rehash.
Context {V : Type} (n_b m new_n : Z) (Hm : 2 ≤ m ≤ 30) (Hn : new_n = 2 ^ m) (Hle : 0 ≤ n_b ≤ new_n).
Implicit Types (r : rehash_state V) (oe pe : gmap Z (bytes * option V)).

Lemma rh_new_in r oe pe i : rh_rep n_b new_n r oe pe → 0 ≤ i < new_n → flag_in (r_new r) i.
Proof.
  intros Hr Hi. apply (fsize_in _ new_n); [apply Hr| |done].
  rewrite Hn. apply pow2_flags. lia.
Qed.

(** Fewer placed entries than buckets: some bucket of the new table is empty. *)
Lemma rh_empty_bucket r oe pe :
  rh_rep n_b new_n r oe pe → Z.of_nat (size pe) < new_n →
  ∃ i, 0 ≤ i < new_n ∧ ac_isempty (r_new r) i = true.
Proof.
  intros Hr Hsz. set (all := list_to_set (seqZ 0 new_n) : gset Z).
  assert (size all = Z.to_nat new_n) as Hall.
  { unfold all. rewrite size_list_to_set by apply NoDup_seqZ. apply length_seqZ. }
  destruct (set_choose_or_empty (all ∖ dom pe)) as [[i Hi]|Hemp].
  - exists i. unfold all in Hi. apply elem_of_difference in Hi as [Hi Hd].
    apply elem_of_list_to_set, elem_of_seqZ in Hi. split; [lia|].
    destruct (ac_isempty (r_new r) i) eqn:E; [done|].
    exfalso. apply Hd, elem_of_dom. eapply (rh_placed_live _ _ _ _ _ Hr); [lia|done].
  - assert (all ⊆ dom pe) as Hsub%subseteq_size by set_solver.
    rewrite size_dom in Hsub. lia.
Qed.

Lemma free_slot_loop flag hk T fuel t :
  0 ≤ t ≤ T → T < new_n → T - t ≤ Z.of_nat fuel →
  (∀ i, 0 ≤ i < new_n → flag_in flag i) →
  ac_isempty flag (probe new_n hk T) = true →
  (∀ s, 0 ≤ s < T → ac_isempty flag (probe new_n hk s) = false) →
  free_slot fuel flag (new_n - 1) (probe new_n hk t) t = Ok (probe new_n hk T).
Proof.
  intros Ht HT Hf Hin Hstop Hgo. pose proof (n_pos m new_n Hm Hn).
  assert (∀ s, check (flag_inb flag (probe new_n hk s)) = Ok tt) as Hc
    by (intros s; apply check_flag, Hin, (probe_range m); done).
  revert t Ht Hf. induction fuel as [|fuel IH]; intros t Ht Hf; simpl; rewrite Hc; simpl.
  - replace t with T by lia. by rewrite Hstop.
  - destruct (decide (t = T)) as [->|]; [by rewrite Hstop|].
    rewrite Hgo by lia. rewrite (probe_step m) by (done || lia).
    rewrite (uwrap_small 32) by lia. apply IH; lia.
Qed.

Lemma free_slot_spec r oe pe k :
  rh_rep n_b new_n r oe pe → Z.of_nat (size pe) < new_n →
  let hk := hash_string k in
  ∃ T, 0 ≤ T < new_n ∧
    free_slot (Z.to_nat new_n) (r_new r) (new_n - 1) (Z.land hk (new_n - 1)) 0 =
      Ok (probe new_n hk T) ∧
    ac_isempty (r_new r) (probe new_n hk T) = true ∧
    ∀ s, 0 ≤ s < T → is_Some (pe !! probe new_n hk s).
Proof.
  intros Hr Hsz hk. destruct (rh_empty_bucket r oe pe Hr Hsz) as (i & Hi & He).
  destruct (probe_cover m new_n Hm Hn hk i Hi) as (t0 & Ht0 & Hp0).
  destruct (least_index (λ t, ac_isempty (r_new r) (probe new_n hk t)) t0) as (T & HT & HPT & Hmin);
    [lia|by rewrite Hp0|].
  exists T. split; [lia|]. rewrite (probe_start m new_n Hm Hn).
  split; [apply free_slot_loop; [lia|lia|lia|intros j; by eapply rh_new_in|done|done]|]. split; [done|].
  intros s Hs. eapply (rh_placed_live _ _ _ _ _ Hr); [by apply (probe_range m)|]. by apply Hmin.
Qed.

(** Taking an element of the old table out of it, by marking its bucket. *)
Lemma rh_take r oe pe j :
  rh_rep n_b new_n r oe pe → 0 ≤ j < n_b →
  rh_rep n_b new_n (Rehash (ac_set_isdel_true (r_flags r) j) (r_keys r) (r_vals r) (r_new r))
    (delete j oe) pe.
Proof.
  intros Hr Hj. pose proof (rh_flags _ _ _ _ _ Hr j Hj) as Hin.
  constructor; simpl; try apply Hr.
  - intros i Hi. destruct (rh_flags _ _ _ _ _ Hr i Hi). split; [done|].
    unfold ac_set_isdel_true. by rewrite length_flag_update.
  - intros i k v. destruct (decide (0 ≤ i < n_b)) as [Hi|].
    2:{ rewrite lookup_delete_ne by lia. rewrite (rh_old _ _ _ _ _ Hr). naive_solver lia. }
    rewrite iseither_or, isempty_set_isdel_true, isdel_set_isdel_true by (done || lia).
    destruct (decide (j = i)) as [<-|].
    + rewrite lookup_delete_eq, orb_true_r. naive_solver.
    + rewrite lookup_delete_ne, <- iseither_or by done. apply (rh_old _ _ _ _ _ Hr).
  - intros i Hi. rewrite iseither_or, isempty_set_isdel_true, isdel_set_isdel_true by (done || lia).
    destruct (decide (j = i)) as [<-|]; [by rewrite orb_true_r|].
    rewrite lookup_delete_ne, <- iseither_or by done. by apply (rh_old_live _ _ _ _ _ Hr).
  - intros i. destruct (decide (j = i)) as [<-|]; [left; apply lookup_delete_eq|].
    rewrite lookup_delete_ne by done. apply Hr.
Qed.

(** Writing an element into an empty bucket of the new table that holds no
    element of the old one any more. *)
Lemma rh_place r oe pe k v T :
  let i := probe new_n (hash_string k) T in
  rh_rep n_b new_n r oe pe → 0 ≤ T < new_n → oe !! i = None →
  ac_isempty (r_new r) i = true →
  (∀ s, 0 ≤ s < T → is_Some (pe !! probe new_n (hash_string k) s)) →
  rh_rep n_b new_n
    (Rehash (r_flags r) (<[Z.to_nat i := Some k]> (r_keys r)) (<[Z.to_nat i := v]> (r_vals r))
       (ac_set_isempty_false (r_new r) i))
    oe (<[i := (k, v)]> pe).
Proof.
  intros i Hr HT Hoe He Hpath.
  assert (0 ≤ i < new_n) as Hi by (by apply (probe_range m)).
  pose proof (rh_new_in r oe pe i Hr Hi) as Hin.
  pose proof (rh_keys _ _ _ _ _ Hr) as Hkl. pose proof (rh_vals _ _ _ _ _ Hr) as Hvl.
  constructor; simpl.
  - apply Hr.
  - unfold ac_set_isempty_false. rewrite length_flag_update. apply Hr.
  - by rewrite length_insert.
  - by rewrite length_insert.
  - intros j k' v'. destruct (decide (i = j)) as [<-|Hne].
    + rewrite Hoe. split; [done|]. intros (Hj & Hf & _).
      destruct (rh_old_live _ _ _ _ _ Hr i Hj Hf) as [? Hc]. by rewrite Hoe in Hc.
    + rewrite (rh_old _ _ _ _ _ Hr). destruct (decide (0 ≤ j)); [|naive_solver lia].
      rewrite !insert_lookup_Z by lia. rewrite !decide_False by done. done.
  - apply Hr.
  - intros j k' v'. destruct (decide (0 ≤ j < new_n)) as [Hj|].
    2:{ rewrite lookup_insert_ne by lia. rewrite (rh_placed _ _ _ _ _ Hr). naive_solver lia. }
    rewrite isempty_set_isempty_false, !insert_lookup_Z by (done || lia).
    destruct (decide (i = j)) as [<-|].
    + rewrite lookup_insert_eq. naive_solver.
    + rewrite lookup_insert_ne by done. apply (rh_placed _ _ _ _ _ Hr).
  - intros j Hj. rewrite isempty_set_isempty_false by (done || lia).
    destruct (decide (i = j)) as [<-|]; [rewrite lookup_insert_eq; eauto|].
    rewrite lookup_insert_ne by done. by apply (rh_placed_live _ _ _ _ _ Hr).
  - intros j Hj. rewrite isdel_set_isempty_false by (done || lia).
    case_decide; by apply (rh_nodel _ _ _ _ _ Hr).
  - intros j. destruct (decide (i = j)) as [<-|]; [by left|].
    rewrite lookup_insert_ne by done. apply Hr.
  - assert (∀ j, is_Some (pe !! j) → is_Some (<[i := (k, v)]> pe !! j)) as Hmono.
    { intros j Hj. destruct (decide (i = j)) as [<-|]; [rewrite lookup_insert_eq; eauto|].
      by rewrite lookup_insert_ne. }
    intros j k' v' [[<- [= <- <-]]|[Hne Hj]]%lookup_insert_Some.
    + exists T. split_and!; [lia..|done|]. intros. by apply Hmono, Hpath.
    + destruct (rh_probe _ _ _ _ _ Hr j k' v' Hj) as (t & Ht & Hjt & Hb). exists t. eauto.
Qed.

(** The kick-out loop places the element in hand and every element it
    displaces, and ends: each round takes one element out of the old table. *)
Lemma kick_out_spec fuel r oe pe k v :
  rh_rep n_b new_n r oe pe → (size oe < fuel)%nat →
  Z.of_nat (size oe + size pe) < new_n →
  ∃ r' oe' pe', kick_out fuel n_b new_n (Some k) v r = Ok r' ∧
    rh_rep n_b new_n r' oe' pe' ∧ oe' ⊆ oe ∧
    entries oe' ++ entries pe' ≡ₚ (k, v) :: entries oe ++ entries pe.
Proof.
  revert r oe pe k v. induction fuel as [|fuel IH]; intros r oe pe k v Hr Hf Hsz; [lia|].
  simpl. destruct (free_slot_spec r oe pe k Hr) as (T & HT & Hfs & He & Hpath); [lia|].
  rewrite Hfs. simpl. set (i := probe new_n (hash_string k) T) in *.
  assert (0 ≤ i < new_n) as Hi by (by apply (probe_range m)).
  assert (pe !! i = None) as Hpi.
  { destruct (pe !! i) as [[k' v']|] eqn:E; [|done].
    apply (rh_placed _ _ _ _ _ Hr) in E as (_ & E & _). congruence. }
  assert (check ((i <? zlen (r_keys r)) && (i <? zlen (r_vals r)) && ((n_b <=? i) || flag_inb (r_flags r) i)) = Ok tt) as ->.
  { rewrite (rh_keys _ _ _ _ _ Hr), (rh_vals _ _ _ _ _ Hr), !(proj2 (Z.ltb_lt _ _)) by lia. cbn [andb].
    destruct (Z.leb_spec n_b i); [done|]. apply check_flag, (rh_flags _ _ _ _ _ Hr). lia. }
  simpl. destruct (oe !! i) as [[k2 v2]|] eqn:Eo.
  - pose proof Eo as (Hin & Hlive & Hk2 & Hv2)%(rh_old _ _ _ _ _ Hr).
    rewrite (proj2 (Z.ltb_lt _ _)), Hlive by lia. simpl.
    rewrite (list_lookup_total_correct _ _ _ Hk2), (list_lookup_total_correct _ _ _ Hv2).
    pose proof (rh_take r oe pe i Hr Hin) as Hr1.
    eapply (rh_place _ _ _ k v T) in Hr1; [|lia|apply lookup_delete_eq|done|done]. simpl in Hr1. fold i in Hr1.
    pose proof (map_size_delete_Some _ oe (mk_is_Some _ _ Eo)) as Hds.
    assert (size (<[i := (k, v)]> pe) = S (size pe)) as Hps by (by rewrite map_size_insert_None).
    assert (size oe ≠ 0%nat) by (intros ->%map_size_empty_iff; done).
    destruct (IH _ _ _ k2 v2 Hr1) as (r' & oe' & pe' & Hk & Hr' & Hsub & Hperm); [lia..|].
    exists r', oe', pe'. split_and!; [done|done| |].
    + etrans; [done|]. apply delete_subseteq.
    + rewrite Hperm, entries_insert by done. rewrite (entries_delete oe i (k2, v2)) by done.
      simpl. rewrite Permutation_app_comm. simpl. solve_Permutation.
  - exists (Rehash (r_flags r) (<[Z.to_nat i := Some k]> (r_keys r))
              (<[Z.to_nat i := v]> (r_vals r)) (ac_set_isempty_false (r_new r) i)),
      oe, (<[i := (k, v)]> pe).
    split_and!; [|by eapply rh_place|done|].
    + destruct (Z.ltb_spec i n_b); simpl; [|done].
      destruct (ac_iseither (r_flags r) i) eqn:Ei; [done|]. exfalso.
      destruct (rh_old_live _ _ _ _ _ Hr i) as [? ?]; [lia|done|]. congruence.
    + rewrite entries_insert by done. by rewrite <- Permutation_middle.
Qed.

(** The outer loop empties the old table. *)
Lemma rehash_loop_spec n_left j r oe pe :
  rh_rep n_b new_n r oe pe → 0 ≤ j → j + Z.of_nat n_left = n_b →
  (∀ i, i < j → oe !! i = None) → Z.of_nat (size oe + size pe) ≤ new_n →
  ∃ r' pe', rehash_loop n_left j n_b new_n r = Ok r' ∧
    rh_rep n_b new_n r' ∅ pe' ∧ entries pe' ≡ₚ entries oe ++ entries pe.
Proof.
  revert j r oe pe. induction n_left as [|n_left IH]; intros j r oe pe Hr Hj Hn' Hdone Hsz; cbn [rehash_loop].
  - assert (oe = ∅) as ->.
    { apply map_empty. intros i. destruct (decide (i < j)); [by apply Hdone|].
      destruct (oe !! i) as [[k v]|] eqn:E; [|done].
      apply (rh_old _ _ _ _ _ Hr) in E as [? _]. lia. }
    eauto.
  - assert (check (flag_inb (r_flags r) j && (j <? zlen (r_keys r)) && (j <? zlen (r_vals r))) = Ok tt) as ->.
    { rewrite (rh_keys _ _ _ _ _ Hr), (rh_vals _ _ _ _ _ Hr), !(proj2 (Z.ltb_lt j _)), !andb_true_r by lia.
      apply check_flag, (rh_flags _ _ _ _ _ Hr). lia. }
    cbn [mbind res_bind]. destruct (oe !! j) as [[k v]|] eqn:Eo.
    + pose proof Eo as (Hin & Hlive & Hk & Hv)%(rh_old _ _ _ _ _ Hr).
      rewrite Hlive, (list_lookup_total_correct _ _ _ Hk), (list_lookup_total_correct _ _ _ Hv).
      pose proof (map_size_delete_Some _ oe (mk_is_Some _ _ Eo)) as Hds.
      assert (size oe ≠ 0%nat) by (intros ->%map_size_empty_iff; done).
      assert (Z.of_nat (size (delete j oe)) < n_b) as Hlt.
      { rewrite Hds. cut (Z.of_nat (size oe) ≤ n_b); [lia|]. apply size_in_range; [lia|].
        intros i [[k' v'] Hi]. by apply (rh_old _ _ _ _ _ Hr) in Hi as [? _]. }
      destruct (kick_out_spec (S (Z.to_nat n_b)) _ _ _ k v (rh_take r oe pe j Hr Hin))
        as (r1 & oe1 & pe1 & Hko & Hr1 & Hsub & Hperm); [lia..|].
      cbn [negb]. rewrite Hko. cbn -[rehash_loop].
      destruct (IH (j + 1) r1 oe1 pe1) as (r' & pe' & Hl & Hr' & Hp'); [done|lia|lia| | |].
      * intros i Hi. destruct (oe1 !! i) eqn:E; [|done].
        eapply lookup_weaken in E; [|done]. apply lookup_delete_Some in E as [? E].
        rewrite Hdone in E by lia. done.
      * apply Permutation_length in Hperm. simpl in Hperm.
        rewrite !length_app, !length_entries in Hperm. lia.
      * exists r', pe'. split_and!; [done..|]. rewrite Hp', Hperm.
        by rewrite (entries_delete oe j (k, v)).
    + assert (ac_iseither (r_flags r) j = true) as ->.
      { destruct (ac_iseither (r_flags r) j) eqn:E; [done|].
        destruct (rh_old_live _ _ _ _ _ Hr j) as [? ?]; [lia|done|]. congruence. }
      simpl. apply IH; [done|lia|lia| |done].
      intros i Hi. destruct (decide (i = j)) as [->|]; [done|]. apply Hdone. lia.
Qed.
End rehash.

(** ** The whole of [kh_resize] *)

(** A table that was just initialised, or one with buckets. *)
Definition kh_inv {V} (h : khash V) (e : gmap Z (bytes * option V)) : Prop :=
  (h = kh_init ∧ e = ∅) ∨ ∃ O, kh_rep h e O.

Definition grow_array {A} (n new_n : Z) (l : list (option A)) : list (option A) :=
  if n <? new_n then resize_array new_n l else l.

Lemma grow_array_length {A} n new_n (l : list (option A)) :
  zlen l = n → n ≤ new_n → zlen (grow_array n new_n l) = new_n.
Proof.
  intros Hl Hn. unfold grow_array, resize_array. destruct (Z.ltb_spec n new_n); [|lia].
  rewrite length_app, length_take, length_replicate. lia.
Qed.

Lemma grow_array_lookup {A} n new_n (l : list (option A)) i :
  zlen l = n → n ≤ new_n → 0 ≤ i < n → grow_array n new_n l !! Z.to_nat i = l !! Z.to_nat i.
Proof.
  intros Hl Hn Hi. unfold grow_array, resize_array. destruct (Z.ltb_spec n new_n); [|done].
  rewrite lookup_app_l by (rewrite length_take; lia). apply lookup_take_lt. lia.
Qed.

Lemma kh_inv_size {V} (h : khash V) e : kh_inv h e → h_size h = Z.of_nat (size e).
Proof. intros [[-> ->]|[O Hrep]]; [done|]. apply Hrep. Qed.

Lemma kh_inv_inj {V} (h : khash V) e i j k v v' :
  kh_inv h e → e !! i = Some (k, v) → e !! j = Some (k, v') → i = j.
Proof. intros [[-> ->]|[O Hrep]]; [done|]. apply Hrep. Qed.

(** The start of the rehash: everything is still in the old table. *)
Lemma rh_start {V} (h : khash V) e m new_n :
  kh_inv h e → 2 ≤ m ≤ 30 → new_n = 2 ^ m → n_buckets h ≤ new_n →
  rh_rep (n_buckets h) new_n
    (Rehash (flags h) (grow_array (n_buckets h) new_n (keys h))
       (grow_array (n_buckets h) new_n (vals h)) (fresh_flags new_n)) e ∅.
Proof.
  intros Hinv Hm Hn Hle. pose proof (n_pos m new_n Hm Hn) as Hpos.
  pose proof (fresh_flags_length new_n ltac:(lia)) as Hfl.
  assert (∀ i, 0 ≤ i < new_n → ac_isempty (fresh_flags new_n) i = true ∧
    ac_isdel (fresh_flags new_n) i = false) as Hfresh.
  { intros i Hi. apply fresh_flags_spec. apply (fsize_in _ new_n); [done| |done].
    rewrite Hn. apply pow2_flags. lia. }
  assert (zlen (keys h) = n_buckets h ∧ zlen (vals h) = n_buckets h) as [Hk Hv]
    by (destruct Hinv as [[-> ->]|[O Hrep]]; [done|]; split; apply Hrep).
  constructor; simpl; try done.
  - destruct Hinv as [[-> ->]|[O Hrep]]; [simpl; lia|]. by apply rep_flag_in with e O.
  - by apply grow_array_length.
  - by apply grow_array_length.
  - intros i k v. destruct (decide (0 ≤ i < n_buckets h)) as [Hi|].
    + rewrite !grow_array_lookup by done.
      destruct Hinv as [[-> ->]|[O Hrep]]; [simpl in Hi; lia|]. apply Hrep.
    + split; [|naive_solver lia]. intros He.
      destruct Hinv as [[-> ->]|[O Hrep]]; [done|]. apply Hrep in He as [? _]. lia.
  - intros i Hi. destruct Hinv as [[-> ->]|[O Hrep]]; [simpl in Hi; lia|]. by apply Hrep.
  - intros i k v. split; [done|]. intros (Hi & He & _). destruct (Hfresh i Hi). congruence.
  - intros i Hi He. destruct (Hfresh i Hi). congruence.
  - intros i Hi. by apply Hfresh.
  - intros i. by right.
Qed.

(** The end of it: the table the new arrays make represents the placed entries. *)
Lemma rh_finish {V} (h : khash V) (r : rehash_state V) n_b pe m new_n :
  rh_rep n_b new_n r ∅ pe → 2 ≤ m ≤ 30 → new_n = 2 ^ m →
  h_size h = Z.of_nat (size pe) → h_size h < ac_upper new_n → NoDup (entries pe).*1 →
  kh_rep (KHash new_n (h_size h) (h_size h) (ac_upper new_n) (r_new r) (r_keys r) (r_vals r))
    pe (dom pe).
Proof.
  intros Hr Hm Hn Hsz Hub Hnd.
  assert (∀ i, 0 ≤ i < new_n → ac_iseither (r_new r) i = ac_isempty (r_new r) i) as Heither.
  { intros i Hi. rewrite iseither_or. by rewrite (rh_nodel _ _ _ _ _ Hr i Hi), orb_false_r. }
  constructor; simpl; try apply Hr; try done; eauto.
  - intros i. rewrite elem_of_dom. split.
    + intros [[k v] Hi]. apply (rh_placed _ _ _ _ _ Hr) in Hi. tauto.
    + intros [Hi He]. by apply (rh_placed_live _ _ _ _ _ Hr).
  - intros i Hi _. by apply (rh_nodel _ _ _ _ _ Hr).
  - intros i k v. destruct (decide (0 ≤ i < new_n)) as [Hi|].
    + rewrite Heither by done. apply Hr.
    + rewrite (rh_placed _ _ _ _ _ Hr). naive_solver lia.
  - intros i Hi. rewrite Heither by done. by apply (rh_placed_live _ _ _ _ _ Hr).
  - intros i k v Hi. destruct (rh_probe _ _ _ _ _ Hr i k v Hi) as (t & Ht & Hit & Hs).
    exists t. split_and!; [lia..|done|]. intros. by apply elem_of_dom, Hs.
  - by apply entries_keys_NoDup.
  - by rewrite size_dom.
  - lia.
Qed.

(** Growing a table, or rehashing it at its own size to drop the deletion
    marks, keeps its entries. *)
Lemma kh_resize_rep {V} (h : khash V) e m want :
  kh_inv h e → 2 ≤ m ≤ 30 →
  (let x := kroundup32 want in if x <? 4 then 4 else x) = 2 ^ m →
  n_buckets h ≤ 2 ^ m → h_size h < ac_upper (2 ^ m) →
  ∃ h' e', kh_resize (true, true, true) h want = Ok (h', 0) ∧
    kh_rep h' e' (dom e') ∧ entries e' ≡ₚ entries e ∧ n_occupied h' < upper_bound h'.
Proof.
  intros Hinv Hm Hnew Hle Hub. pose proof (n_pos m _ Hm eq_refl) as Hpos.
  pose proof (kh_inv_size h e Hinv) as Hsz.
  pose proof (ac_upper_bounds (2 ^ m)) as Hup.
  assert (0 ≤ n_buckets h) as Hnb.
  { destruct Hinv as [[-> ->]|[O Hrep]]; [done|]. pose proof (rep_keys _ _ _ Hrep). lia. }
  pose proof (rh_start h e m _ Hinv Hm eq_refl Hle) as Hr0.
  destruct (rehash_loop_spec (n_buckets h) m (2 ^ m) Hm eq_refl ltac:(lia) (Z.to_nat (n_buckets h))
    0 _ e ∅ Hr0) as (r & pe & Hloop & Hr & Hperm); [lia|lia| |rewrite map_size_empty; lia|].
  { intros i Hi. destruct (e !! i) as [[k v]|] eqn:E; [|done].
    apply (rh_old _ _ _ _ _ Hr0) in E as [? _]. lia. }
  rewrite entries_empty, app_nil_r in Hperm.
  cbn zeta in Hnew. unfold kh_resize. rewrite Hnew. rewrite (proj2 (Z.leb_gt _ _)) by lia.
  rewrite !andb_false_r. cbn [negb]. fold (grow_array (n_buckets h) (2 ^ m) (keys h)).
  fold (grow_array (n_buckets h) (2 ^ m) (vals h)). rewrite Hloop. cbn -[Z.pow].
  rewrite (proj2 (Z.ltb_ge _ _)) by lia.
  eexists _, pe. split_and!; [done| |done|done]. eapply rh_finish; eauto.
  - rewrite Hsz, <- !length_entries. by rewrite Hperm.
  - rewrite Hperm. apply entries_keys_NoDup. intros. by eapply kh_inv_inj.
Qed.
