(* ===== verification/KhashMap.v ===== *)
(** * The hash table of [src/src/khash.h] as a finite map

    What a client of the table may rely on: a table represents a finite map
    from keys to values, and looking up, inserting and deleting are the
    operations of that map. *)

From S2P Require Import Prelude CLib Khash KhashFlags KhashProbe KhashProof KhashResize.

Abbreviation all_ok := (true, true, true).

(** ** Insertion, with the resize that may precede it *)

Lemma absent_entries {V} (e : gmap Z (bytes * option V)) k :
  absent e k ↔ k ∉ (entries e).*1.
Proof.
  unfold absent. rewrite list_elem_of_fmap. split.
  - intros Ha ([k' v] & -> & (i & Hi)%entries_lookup). by eapply Ha.
  - intros Hn i v Hi. apply Hn. exists (k, v). split; [done|]. apply entries_lookup. eauto.
Qed.

(** Making room: after the first step of [kh_put] the table has a bucket to
    spare and the same entries. *)
Lemma put_makes_room {V} (h : khash V) e :
  kh_inv h e → h_size h < 2 ^ 28 →
  ∃ h1 e1 O1,
    (if upper_bound h <=? n_occupied h
     then if u32 (Z.shiftl (h_size h) 1) <? n_buckets h
          then kh_resize all_ok h (u32 (n_buckets h - 1))
          else kh_resize all_ok h (u32 (n_buckets h + 1))
     else Ok (h, 0)) = Ok (h1, 0) ∧
    kh_rep h1 e1 O1 ∧ entries e1 ≡ₚ entries e ∧ n_occupied h1 < upper_bound h1.
Proof.
  intros Hinv Hsz. destruct Hinv as [[-> ->]|[O Hrep]].
  { destruct (kh_resize_rep (@kh_init V) ∅ 2 (u32 1)) as (h' & e' & Hr & Hrep & Hp & Hocc);
      [by left|lia|reflexivity|simpl; lia|reflexivity|]. eauto 10. }
  destruct (Z.leb_spec (upper_bound h) (n_occupied h)); [|eauto 10].
  destruct (rep_pow _ _ _ Hrep) as (m & Hm & Hn). pose proof (n_pos m _ Hm Hn) as Hpos.
  pose proof (rep_load _ _ _ Hrep) as Hload. pose proof (rep_ub _ _ _ Hrep) as Hub.
  assert (h_size h ≤ n_occupied h) as Hle.
  { rewrite (rep_size _ _ _ Hrep), (rep_nocc _ _ _ Hrep), <- size_dom.
    apply Nat2Z.inj_le, subseteq_size. intros i Hi%elem_of_dom. by eapply rep_dom_occ. }
  pose proof (kroundup32_pow2 m Hm) as [Hdown Hup].
  pose proof (ac_upper_bounds (n_buckets h) ltac:(lia)) as Hb.
  assert (0 ≤ h_size h) by (rewrite (rep_size _ _ _ Hrep); lia).
  rewrite Z.shiftl_mul_pow2, (uwrap_small 32) by lia.
  destruct (Z.ltb_spec (h_size h * 2 ^ 1) (n_buckets h)) as [Hlt|Hge].
  - destruct (kh_resize_rep h e m (u32 (n_buckets h - 1)))
      as (h' & e' & Hr & Hrep' & Hp & Hocc); [by right; eauto|done| |lia| |eauto 10].
    + rewrite Hn, Hdown. cbn zeta. by rewrite (proj2 (Z.ltb_ge _ _)) by lia.
    + rewrite <- Hn. pose proof (Z.div_le_lower_bound (n_buckets h) 2 (h_size h)). lia.
  - assert (2 ^ (m + 1) = 2 * n_buckets h) as Hdbl by (rewrite Z.pow_add_r by lia; lia).
    pose proof (ac_upper_bounds (2 ^ (m + 1)) ltac:(lia)) as Hb2.
    rewrite Hdbl, Z.mul_comm, Z.div_mul in Hb2 by lia.
    assert (m ≠ 30) by (intros ->; lia).
    destruct (kh_resize_rep h e (m + 1) (u32 (n_buckets h + 1)))
      as (h' & e' & Hr & Hrep' & Hp & Hocc); [by right; eauto|lia| |lia| |eauto 10].
    + rewrite Hn, Hup. cbn zeta. by rewrite (proj2 (Z.ltb_ge _ _)) by lia.
    + rewrite Hdbl, Z.mul_comm. lia.
Qed.

Lemma kh_put_rep {V} (h : khash V) e key :
  kh_inv h e → h_size h < 2 ^ 28 →
  ∃ h' x ret e' O' v, kh_put all_ok h key = Ok (h', x, ret) ∧ kh_rep h' e' O' ∧
    e' !! x = Some (key, v) ∧
    ((ret = 0 ∧ entries e' ≡ₚ entries e) ∨
     (0 < ret ∧ absent e key ∧ entries e' ≡ₚ (key, v) :: entries e)).
Proof.
  intros Hinv Hsz. destruct (put_makes_room h e Hinv Hsz) as (h1 & e1 & O1 & Hmk & Hrep & Hp & Hocc).
  unfold kh_put. rewrite Hmk. cbn [mbind res_bind].
  change (0 <? 0) with false. cbn match.
  destruct (put_slot_rep h1 e1 O1 Hrep key) as [(x & v & Hs & Hx)|(Habs & t & Hs & Ht & Hfree & Hpath)].
  - rewrite Hs. simpl.
    assert (put_at h1 key x = (h1, 0)) as ->.
    { unfold put_at. pose proof Hx as (_ & Hf & _)%(rep_ent _ _ _ Hrep).
      rewrite iseither_or in Hf. apply orb_false_iff in Hf as [-> ->]. done. }
    eexists _, _, _, e1, O1, v. split_and!; eauto.
  - destruct (put_at_rep h1 e1 O1 key t Hrep Habs (or_introl Hocc) Ht Hfree Hpath)
      as (h' & ret & v & Hat & Hret & _ & Hrep').
    rewrite Hs. simpl. rewrite Hat.
    assert (e1 !! probe (n_buckets h1) (hash_string key) t = None) as Hnone.
    { destruct (e1 !! _) as [[k' v']|] eqn:E; [|done].
      apply (rep_ent _ _ _ Hrep) in E as (_ & Hf & _). rewrite iseither_or in Hf.
      apply orb_false_iff in Hf as [He Hd]. destruct Hfree; congruence. }
    eexists _, _, ret, _, _, v. split_and!; [done|exact Hrep'|apply lookup_insert_eq|].
    right. split_and!.
    + assert (0 ≤ ret); [|lia]. clear - Hat. unfold put_at in Hat.
      repeat case_match; simplify_eq; lia.
    + rewrite absent_entries, <- Hp. by apply absent_entries.
    + by rewrite entries_insert, Hp.
Qed.

(** ** The represented map *)

Definition kv_list {V} (M : gmap bytes V) : list (bytes * option V) :=
  prod_map id Some <$> map_to_list M.

Definition kh_repr {V} (h : khash V) (M : gmap bytes V) : Prop :=
  ∃ e, kh_inv h e ∧ entries e ≡ₚ kv_list M.

Lemma kv_list_elem {V} (M : gmap bytes V) k ov :
  (k, ov) ∈ kv_list M ↔ ∃ v, ov = Some v ∧ M !! k = Some v.
Proof.
  unfold kv_list. rewrite list_elem_of_fmap. split.
  - intros ([k' v] & [= -> ->] & Hv%elem_of_map_to_list). eauto.
  - intros (v & -> & Hv). exists (k, v). split; [done|]. by apply elem_of_map_to_list.
Qed.

Lemma kv_list_insert {V} (M : gmap bytes V) k v :
  M !! k = None → kv_list (<[k := v]> M) ≡ₚ (k, Some v) :: kv_list M.
Proof. intros Hk. unfold kv_list. by rewrite map_to_list_insert. Qed.

Lemma kv_list_delete {V} (M : gmap bytes V) k v :
  M !! k = Some v → kv_list M ≡ₚ (k, Some v) :: kv_list (delete k M).
Proof.
  intros Hk. rewrite <- kv_list_insert by apply lookup_delete_eq. by rewrite insert_delete_id.
Qed.

Lemma kh_init_repr {V} : kh_repr (@kh_init V) ∅.
Proof.
  exists ∅. split; [by left|]. rewrite entries_empty. unfold kv_list. by rewrite map_to_list_empty.
Qed.

(** A cleared table is empty, whatever it held. *)
Lemma kh_clear_repr {V} (h : khash V) M : kh_repr h M → kh_repr (kh_clear h) ∅.
Proof.
  intros (e & Hinv & _). exists ∅. split; [|rewrite entries_empty; unfold kv_list; by rewrite map_to_list_empty].
  destruct Hinv as [[-> ->]|[O Hrep]]; [by left|]. right. exists ∅.
  destruct (rep_pow _ _ _ Hrep) as (m & Hm & Hn). pose proof (n_pos m _ Hm Hn) as Hpos.
  assert (∀ i, 0 ≤ i < n_buckets h → ac_isempty (fresh_flags (n_buckets h)) i = true ∧
    ac_isdel (fresh_flags (n_buckets h)) i = false) as Hfresh.
  { intros i Hi. apply fresh_flags_spec. apply (fsize_in _ (n_buckets h)); [apply fresh_flags_length; lia| |done].
    rewrite Hn. apply pow2_flags. lia. }
  assert (∀ i, 0 ≤ i < n_buckets h → ac_iseither (fresh_flags (n_buckets h)) i = true) as Heither.
  { intros i Hi. rewrite iseither_or. by destruct (Hfresh i Hi) as [-> _]. }
  assert (kh_clear h = KHash (n_buckets h) 0 0 (upper_bound h) (fresh_flags (n_buckets h)) (keys h) (vals h)) as ->.
  { unfold kh_clear. destruct (flags h) eqn:E; [|done]. pose proof (rep_flags _ _ _ Hrep) as Hfl. rewrite E in Hfl.
    unfold ac_fsize in Hfl. cbn in Hfl. destruct (n_buckets h <? 16) eqn:E16; [lia|]. zbool.
    rewrite Z.shiftr_div_pow2 in Hfl by lia. pose proof (Z.div_le_lower_bound (n_buckets h) (2 ^ 4) 1). lia. }
  pose proof (ac_upper_bounds (n_buckets h)) as Hub.
  constructor; cbn [n_buckets flags keys vals h_size n_occupied upper_bound];
    try solve [done|by eexists|apply (rep_keys _ _ _ Hrep)|apply (rep_vals _ _ _ Hrep)|apply (rep_ub _ _ _ Hrep)].
  - apply fresh_flags_length. lia.
  - intros i. split; [set_solver|]. intros [Hi E]. destruct (Hfresh i Hi). congruence.
  - intros i Hi _. by apply Hfresh.
  - intros i k v. rewrite lookup_empty. split; [done|]. intros (Hi & E & _). by rewrite Heither in E.
  - intros i Hi E. by rewrite Heither in E.
  - rewrite (rep_ub _ _ _ Hrep). pose proof (Z.div_pos (n_buckets h) 2 ltac:(lia) ltac:(lia)). lia.
Qed.

Lemma kh_repr_size {V} (h : khash V) M : kh_repr h M → h_size h = Z.of_nat (size M).
Proof.
  intros (e & Hinv & Hp). rewrite (kh_inv_size h e Hinv), <- length_entries, Hp.
  unfold kv_list. by rewrite length_fmap, length_map_to_list.
Qed.

Lemma entry_of_key {V} (e : gmap Z (bytes * option V)) M i k ov :
  entries e ≡ₚ kv_list M → e !! i = Some (k, ov) → ∃ v, ov = Some v ∧ M !! k = Some v.
Proof. intros Hp Hi. apply kv_list_elem. rewrite <- Hp. apply entries_lookup. eauto. Qed.

Lemma absent_key {V} (e : gmap Z (bytes * option V)) M k :
  entries e ≡ₚ kv_list M → absent e k → M !! k = None.
Proof.
  intros Hp Ha. destruct (M !! k) as [v|] eqn:E; [|done]. exfalso.
  assert ((k, Some v) ∈ entries e) as (i & Hi)%entries_lookup
    by (rewrite Hp; apply kv_list_elem; eauto).
  by eapply Ha.
Qed.

(** A bucket that holds [k] with value [v]. *)
Definition at_bucket {V} (h : khash V) (x : Z) (k : bytes) (v : V) : Prop :=
  0 ≤ x < kh_end h ∧ kh_exist h x = true ∧ kh_key h x = Ok k ∧ kh_value h x = Ok v ∧
  kh_set_key h x k = Ok h.

Lemma rep_at_bucket {V} (h : khash V) e O x k v :
  kh_rep h e O → e !! x = Some (k, Some v) → at_bucket h x k v.
Proof.
  intros Hrep Hx. pose proof Hx as (Hr & Hf & _)%(rep_ent _ _ _ Hrep).
  split_and!; [lia|unfold kh_end; lia|unfold kh_exist; by rewrite Hf|..].
  - by eapply kh_key_rep.
  - by eapply kh_value_rep.
  - by eapply kh_set_key_rep.
Qed.

Lemma kh_get_repr {V} (h : khash V) M key :
  kh_repr h M →
  match M !! key with
  | Some v => ∃ x, kh_get h key = Ok x ∧ at_bucket h x key v
  | None => kh_get h key = Ok (kh_end h)
  end.
Proof.
  intros (e & [[-> ->]|[O Hrep]] & Hp).
  - rewrite (absent_key ∅ M key) by done. done.
  - destruct (kh_get_rep h e O Hrep key) as [(i & ov & Hg & Hi)|[Hg Ha]].
    + destruct (entry_of_key e M i key ov Hp Hi) as (v & -> & ->).
      exists i. split; [done|]. by eapply rep_at_bucket.
    + by rewrite (absent_key e M key).
Qed.

Lemma kh_put_repr {V} (h : khash V) M key :
  kh_repr h M → Z.of_nat (size M) < 2 ^ 28 →
  ∃ h' x ret, kh_put all_ok h key = Ok (h', x, ret) ∧
    match M !! key with
    | Some v => ret = 0 ∧ at_bucket h' x key v
    | None => 0 < ret
    end ∧
    kh_set_key h' x key = Ok h' ∧
    ∀ v', ∃ h'', kh_set_value h' x v' = Ok h'' ∧ kh_repr h'' (<[key := v']> M).
Proof.
  intros Hrepr Hsz. pose proof (kh_repr_size h M Hrepr) as Hhs. destruct Hrepr as (e & Hinv & Hp).
  destruct (kh_put_rep h e key Hinv) as (h' & x & ret & e' & O' & ov & Hput & Hrep & Hx & Hcase);
    [lia|].
  exists h', x, ret. split; [done|].
  assert (∀ v', ∃ h'', kh_set_value h' x v' = Ok h'' ∧
    kh_inv h'' (<[x := (key, Some v')]> e')) as Hset.
  { intros v'. destruct (kh_set_value_rep h' e' O' x key ov v' Hrep Hx) as (h'' & ? & ? & _).
    exists h''. split; [done|]. right. eauto. }
  assert (∀ v', entries (<[x := (key, Some v')]> e') ≡ₚ (key, Some v') :: entries (delete x e')) as He'.
  { intros v'. rewrite <- insert_delete_eq. by rewrite entries_insert by apply lookup_delete_eq. }
  split; [|split; [by eapply kh_set_key_rep|]].
  - destruct Hcase as [[-> Hperm]|(Hret & Habs & Hperm)].
    + destruct (entry_of_key e' M x key ov) as (v & -> & ->); [by rewrite Hperm|done|].
      split; [done|]. by eapply rep_at_bucket.
    + by rewrite (absent_key e M key).
  - intros v'. destruct (Hset v') as (h'' & Hs & Hinv''). exists h''. split; [done|].
    exists (<[x := (key, Some v')]> e'). split; [done|]. rewrite He'.
    destruct Hcase as [[-> Hperm]|(Hret & Habs & Hperm)].
    + destruct (entry_of_key e' M x key ov) as (v & -> & HM); [by rewrite Hperm|done|].
      rewrite <- insert_delete_eq, kv_list_insert by apply lookup_delete_eq.
      f_equiv. apply (Permutation_cons_inv (a := (key, Some v))).
      rewrite <- entries_delete, <- kv_list_delete by done. by rewrite Hperm.
    + rewrite kv_list_insert by (by apply (absent_key e)). f_equiv. rewrite <- Hp.
      apply (Permutation_cons_inv (a := (key, ov))). by rewrite <- entries_delete.
Qed.

Lemma kh_del_repr {V} (h : khash V) M x key v :
  kh_repr h M → M !! key = Some v → kh_get h key = Ok x → kh_repr (kh_del h x) (delete key M).
Proof.
  intros Hrepr HM Hg. destruct Hrepr as (e & [[-> ->]|[O Hrep]] & Hp).
  { rewrite (absent_key ∅ M key) in HM by done. done. }
  destruct (kh_get_rep h e O Hrep key) as [(i & ov & Hg' & Hi)|[Hg' Ha]].
  2:{ rewrite (absent_key e M key) in HM by done. done. }
  assert (i = x) as -> by congruence.
  destruct (entry_of_key e M x key ov Hp Hi) as (v' & -> & HM').
  exists (delete x e). split; [right; exists O; by eapply kh_del_rep|].
  apply (Permutation_cons_inv (a := (key, Some v'))).
  by rewrite <- entries_delete, <- kv_list_delete.
Qed.

(** Visiting the buckets in order visits every entry once. *)
Lemma bucket_scan {A} (e : gmap Z A) n :
  (∀ i, is_Some (e !! i) → 0 ≤ i < n) → omap (e !!.) (seqZ 0 n) ≡ₚ (map_to_list e).*2.
Proof.
  revert n. induction e as [|i x e Hi IH] using map_ind; intros n Hdom.
  - rewrite map_to_list_empty. simpl. induction (seqZ 0 n); [done|]. by rewrite omap_cons, lookup_empty.
  - rewrite map_to_list_insert by done. simpl.
    assert (0 ≤ i < n) as Hin by (apply Hdom; rewrite lookup_insert_eq; eauto).
    rewrite <- (IH n).
    2:{ intros j Hj. destruct (decide (i = j)) as [<-|]; [done|]. apply Hdom.
        by rewrite lookup_insert_ne. }
    assert (seqZ 0 n = seqZ 0 i ++ i :: seqZ (i + 1) (n - i - 1)) as ->.
    { replace n with (i + (1 + (n - i - 1))) at 1 by lia. rewrite seqZ_app by lia.
      f_equal. rewrite seqZ_cons by lia. rewrite Z.add_0_l. f_equal. f_equal; lia. }
    assert (∀ l : list Z, (∀ j, j ∈ l → i ≠ j) →
      omap (<[i := x]> e !!.) l = omap (e !!.) l) as Hne.
    { intros l Hl. induction l as [|j l IHl]; [done|]. rewrite !omap_cons.
      rewrite lookup_insert_ne by (apply Hl; left). rewrite IHl; [done|].
      intros k Hk. apply Hl. by right. }
    rewrite !omap_app, !omap_cons, lookup_insert_eq, Hi.
    rewrite !Hne by (intros j Hj%elem_of_seqZ; lia). by rewrite <- Permutation_middle.
Qed.

Lemma kh_entries_repr {V} (h : khash V) M :
  kh_repr h M → kh_entries h ≡ₚ prod_map Some Some <$> map_to_list M.
Proof.
  intros (e & Hinv & Hp).
  assert (kh_entries h = prod_map Some id <$> omap (e !!.) (seqZ 0 (n_buckets h))) as ->.
  { unfold kh_entries. destruct Hinv as [[-> ->]|[O Hrep]]; [done|].
    assert (∀ i, i ∈ seqZ 0 (n_buckets h) →
      (if kh_exist h i then Some (keys h !!! Z.to_nat i, vals h !!! Z.to_nat i) else None) =
      prod_map Some id <$> e !! i) as Hone.
    { intros i Hi%elem_of_seqZ. unfold kh_exist. destruct (e !! i) as [[k v]|] eqn:E; simpl.
      - apply (rep_ent _ _ _ Hrep) in E as (_ & -> & Hk & Hv). simpl.
        by rewrite (list_lookup_total_correct _ _ _ Hk), (list_lookup_total_correct _ _ _ Hv).
      - destruct (ac_iseither (flags h) i) eqn:Ef; [done|].
        destruct (rep_live _ _ _ Hrep i ltac:(lia) Ef) as [? ?]. congruence. }
    induction (seqZ 0 (n_buckets h)) as [|i l IH]; [done|]. rewrite !omap_cons.
    rewrite Hone by left. rewrite IH by (intros; apply Hone; by right). by destruct (e !! i). }
  rewrite bucket_scan.
  2:{ destruct Hinv as [[-> ->]|[O Hrep]]; [intros i [? Hc]; done|]. by apply rep_dom with O. }
  change ((map_to_list e).*2) with (entries e). rewrite Hp. unfold kv_list.
  by rewrite <- list_fmap_compose.
Qed.

(** The buckets in order: each is empty or holds an entry, and the entries
    found are those of the map. *)
Lemma buckets_repr {V} (h : khash V) M :
  kh_repr h M → ∃ f : Z → option (bytes * V),
    (∀ i, 0 ≤ i < kh_end h →
       match f i with Some (k, v) => at_bucket h i k v | None => kh_exist h i = false end) ∧
    omap f (seqZ 0 (kh_end h)) ≡ₚ map_to_list M.
Proof.
  intros (e & Hinv & Hp). set (f i := '(k, ov) ← e !! i; pair k <$> ov). exists f.
  assert (∀ i k ov, e !! i = Some (k, ov) → ∃ v, ov = Some v) as Hdef.
  { intros i k ov Hi. destruct (entry_of_key e M i k ov Hp Hi) as (v & -> & _). eauto. }
  split.
  - intros i Hi. unfold f. destruct Hinv as [[-> ->]|[O Hrep]]; [simpl in Hi; lia|].
    destruct (e !! i) as [[k ov]|] eqn:E; simpl.
    + destruct (Hdef i k ov E) as [v ->]. simpl. by eapply rep_at_bucket.
    + unfold kh_exist. destruct (ac_iseither (flags h) i) eqn:Ef; [done|].
      destruct (rep_live _ _ _ Hrep i Hi Ef) as [? ?]. congruence.
  - assert (∀ l : list Z, prod_map id Some <$> omap f l = omap (e !!.) l) as Hf.
    { intros l. induction l as [|i l IH]; [done|]. rewrite !omap_cons. unfold f at 1.
      destruct (e !! i) as [[k ov]|] eqn:E; [|exact IH].
      destruct (Hdef i k ov E) as [v ->]. cbn. f_equal. exact IH. }
    assert (prod_map id Some <$> omap f (seqZ 0 (kh_end h)) ≡ₚ prod_map id Some <$> map_to_list M) as Hpp.
    { rewrite Hf, bucket_scan; [exact Hp|].
      destruct Hinv as [[-> ->]|[O Hrep]]; [intros i [? Hc]; done|]. by apply rep_dom with O. }
    set (g := λ p : bytes * option V, pair p.1 <$> p.2).
    assert (∀ l : list (bytes * V), omap g (prod_map id Some <$> l) = l) as Hg.
    { intros l. induction l as [|[k v] l IH]; [done|]. cbn [fmap list_fmap]. rewrite omap_cons. simpl.
      f_equal. exact IH. }
    rewrite <- (Hg (omap f _)), <- (Hg (map_to_list M)). by rewrite Hpp.
Qed.

(** ** The operations a client composes, and the refinement *)

(** [k = kh_put(h, key, &ret); kh_key(h, k) = key; kh_value(h, k) = v]. *)
Definition table_put {V} (key : bytes) (v : V) (h : khash V) : res (khash V) :=
  '(h, x, _) ← kh_put all_ok h key;
  h ← kh_set_key h x key;
  kh_set_value h x v.

(** [k = kh_get(h, key); k == kh_end(h) ? nothing : kh_value(h, k)]. *)
Definition table_get {V} (key : bytes) (h : khash V) : res (option V) :=
  x ← kh_get h key;
  if x =? kh_end h then Ok None else Some <$> kh_value h x.

(** [k = kh_get(h, key); if (k != kh_end(h)) kh_del(h, k)]. *)
Definition table_del {V} (key : bytes) (h : khash V) : res (khash V) :=
  x ← kh_get h key;
  Ok (if x =? kh_end h then h else kh_del h x).

Inductive table_op (V : Type) :=
| TPut (key : bytes) (v : V)
| TDel (key : bytes).
Arguments TPut {V}.
Arguments TDel {V}.

Definition table_step {V} (h : khash V) (op : table_op V) : res (khash V) :=
  match op with TPut key v => table_put key v h | TDel key => table_del key h end.
Fixpoint table_run {V} (ops : list (table_op V)) (h : khash V) : res (khash V) :=
  match ops with [] => Ok h | op :: ops => h ← table_step h op; table_run ops h end.

Definition map_step {V} (M : gmap bytes V) (op : table_op V) : gmap bytes V :=
  match op with TPut key v => <[key := v]> M | TDel key => delete key M end.

Lemma table_get_repr {V} (h : khash V) M key :
  kh_repr h M → table_get key h = Ok (M !! key).
Proof.
  intros Hr. pose proof (kh_get_repr h M key Hr) as Hg. unfold table_get.
  destruct (M !! key) as [v|].
  - destruct Hg as (x & -> & Hx & _ & _ & Hv & _). simpl.
    rewrite (proj2 (Z.eqb_neq _ _)) by lia. by rewrite Hv.
  - rewrite Hg. simpl. by rewrite Z.eqb_refl.
Qed.

Lemma table_step_repr {V} (h : khash V) M op :
  kh_repr h M → Z.of_nat (size M) < 2 ^ 28 →
  ∃ h', table_step h op = Ok h' ∧ kh_repr h' (map_step M op).
Proof.
  intros Hr Hsz. destruct op as [key v|key]; simpl.
  - destruct (kh_put_repr h M key Hr Hsz) as (h' & x & ret & Hp & _ & Hk & Hv).
    destruct (Hv v) as (h'' & Hv' & Hr'). exists h''. split; [|done].
    unfold table_put. rewrite Hp. simpl. rewrite Hk. simpl. done.
  - pose proof (kh_get_repr h M key Hr) as Hg. unfold table_del. destruct (M !! key) as [v|] eqn:E.
    + destruct Hg as (x & Hg & Hx & _). rewrite Hg. simpl.
      rewrite (proj2 (Z.eqb_neq _ _)) by lia. eexists. split; [done|]. by eapply kh_del_repr.
    + rewrite Hg. simpl. rewrite Z.eqb_refl. exists h. split; [done|]. by rewrite delete_id.
Qed.

Lemma map_step_size {V} (M : gmap bytes V) op : (size (map_step M op) ≤ S (size M))%nat.
Proof.
  destruct op as [key v|key]; simpl.
  - rewrite map_size_insert. case_match; unfold id; lia.
  - rewrite map_size_delete. case_match; unfold id; lia.
Qed.

(** C11: the hash table is a finite map.  From a new table, any sequence of
    insertions, overwrites and deletions of up to 2^28 operations runs without
    a fault or an endless probe, through every resize and in-place rehash; a
    lookup then finds exactly the value the map holds for the key, the size
    field counts the keys, and the scan over the buckets meets every key with
    its value exactly once. *)
Theorem khash_refines_map {V} (ops : list (table_op V)) :
  zlen ops ≤ 2 ^ 28 →
  let M := foldl map_step ∅ ops in
  ∃ h, table_run ops kh_init = Ok h ∧
    (∀ key, table_get key h = Ok (M !! key)) ∧
    h_size h = Z.of_nat (size M) ∧
    kh_entries h ≡ₚ prod_map Some Some <$> map_to_list M.
Proof.
  intros Hlen. cbv zeta.
  assert (∀ h M, kh_repr h M → Z.of_nat (size M) + zlen ops ≤ 2 ^ 28 →
    ∃ h', table_run ops h = Ok h' ∧ kh_repr h' (foldl map_step M ops)) as Hrun.
  { clear Hlen. induction ops as [|op ops IH]; intros h M Hr Hsz; [by eauto|].
    rewrite length_cons in Hsz. cbn [table_run foldl].
    destruct (table_step_repr h M op Hr) as (h1 & -> & Hr1); [lia|]. cbn [mbind res_bind].
    apply IH; [done|]. pose proof (map_step_size M op). lia. }
  destruct (Hrun kh_init ∅ kh_init_repr) as (h & Hh & Hr); [rewrite map_size_empty; lia|].
  exists h. split_and!; [done| |by apply kh_repr_size|by apply kh_entries_repr].
  intros key. by apply table_get_repr.
Qed.

Definition khash_sample : list (table_op Z) :=
  (λ i, TPut (lit "key" ++ fmt_ld i) i) <$> seqZ 0 40.

Lemma khash_refines_map_witness :
  ∃ h, table_run (khash_sample ++ [TDel (lit "key7")]) kh_init = Ok h ∧
    table_get (lit "key31") h = Ok (Some 31) ∧ table_get (lit "key7") h = Ok None ∧ h_size h = 39.
Proof.
  destruct (khash_refines_map (khash_sample ++ [TDel (lit "key7")])) as (h & Hrun & Hget & Hsz & _);
    [vm_compute; discriminate|].
  exists h. split; [exact Hrun|]. rewrite !Hget, Hsz. vm_compute. repeat split; reflexivity.
Defined.
