(* ===== verification/Database.v ===== *)
(** * [src/src/database.c], [src/src/database.h]

    The keyspace: a hash table of values with an expiration time, strings or
    linked lists, with lazy expiry on access.  The header of the development
    says how the memory, the clock and the allocator enter the model. *)

From Stdlib Require Import Sorting.Sorted.
From S2P Require Import Prelude CLib Util LinkedList Khash KhashMap.

(** ** Data *)

(** The [type] tag with the member of the union it selects. *)
Inductive RedisData :=
| TYPE_STRING (str : bytes)
| TYPE_LIST (list : option loc).

Record RedisValue := MkValue { rv_data : RedisData; expiration : Z }.

Record redis_db_t := MkDb { db_h : khash RedisValue; key_count : Z; expiry_count : Z }.

(** The process around one database: the list heap, the outcomes of the
    allocations of the next [kh_put]s (then success) and the answers of
    [gettimeofday], of which [ticks] were already read. *)
Record mem := MkMem {
  db : redis_db_t;
  hp : heap;
  kh_allocs : list (bool * bool * bool);
  clock : nat → Z * Z;
  ticks : nat
}.

Abbreviation dbM := (st mem).

Definition set_db (d : redis_db_t) (m : mem) : mem :=
  MkMem d (hp m) (kh_allocs m) (clock m) (ticks m).
Definition set_hp (h : heap) (m : mem) : mem :=
  MkMem (db m) h (kh_allocs m) (clock m) (ticks m).

(** The table of the database replaced. *)
Definition set_table (h : khash RedisValue) (m : mem) : mem :=
  set_db (MkDb h (key_count (db m)) (expiry_count (db m))) m.

Definition on_heap {A} (f : heapM A) : dbM A := λ m,
  match f (hp m) with Ok (a, h) => Ok (a, set_hp h m) | Stop e => Stop e end.

Definition time_at (m : mem) : Z := current_time_millis (clock m (ticks m)).1 (clock m (ticks m)).2.
Definition read_clock : dbM Z := λ m,
  Ok (time_at m, MkMem (db m) (hp m) (kh_allocs m) (clock m) (S (ticks m))).

Definition table : dbM (khash RedisValue) := gets (λ m, db_h (db m)).

(** The answers of the allocator for one [kh_put]. *)
Definition next_allocs : dbM (bool * bool * bool) := λ m,
  match kh_allocs m with
  | [] => Ok (all_ok, m)
  | b :: bs => Ok (b, MkMem (db m) (hp m) bs (clock m) (ticks m))
  end.

Definition bump_counts (d_key d_exp : Z) (m : mem) : mem :=
  set_db (MkDb (db_h (db m)) (u64 (key_count (db m) + d_key)) (u64 (expiry_count (db m) + d_exp))) m.

(** ** Operations *)

Module Keyspace.

(** [static set]: the value is given with its type.  The old value and key are
    freed on an update; a list it held is not. *)
Definition set (key : bytes) (value : RedisData) (exp : Z) : dbM unit :=
  h ← table;
  k ← lift (kh_get h key);
  _ ← (if negb (k =? kh_end h) then _ ← lift (kh_key h k); mret tt else mret tt);
  allocs ← next_allocs;
  '(h, k, ret) ← lift (kh_put allocs h key);
  _ ← (if ret =? 0 then _ ← lift (kh_value h k); mret tt
       else modify (bump_counts 1 (if 0 <? exp then 1 else 0)));
  h ← lift (kh_set_key h k key);
  h ← lift (kh_set_value h k (MkValue value exp));
  modify (set_table h).

Definition get (key : bytes) : dbM (option RedisValue) :=
  h ← table;
  k ← lift (kh_get h key);
  if negb (k =? kh_end h) then
    value ← lift (kh_value h k);
    expired ← (if 0 <? expiration value
               then now ← read_clock; mret (expiration value <? now) else mret false);
    if (expired : bool) then
      _ ← modify (bump_counts (-1) (-1));
      _ ← modify (set_table (kh_del h k));
      mret None
    else mret (Some value)
  else mret None.

Definition exist (key : bytes) : dbM bool :=
  h ← table;
  k ← lift (kh_get h key);
  mret (negb (k =? kh_end h) && kh_exist h k).

Definition delete (key : bytes) : dbM unit :=
  h ← table;
  k ← lift (kh_get h key);
  when (negb (k =? kh_end h)) (
    rv ← lift (kh_value h k);
    _ ← match rv_data rv with
        | TYPE_STRING _ => mret tt
        | TYPE_LIST l => on_heap (destroy_list l)
        end;
    _ ← lift (kh_key h k);
    _ ← modify (set_table (kh_del h k));
    modify (bump_counts (-1) 0)).

End Keyspace.

Definition redis_db_create : redis_db_t := MkDb kh_init 0 0.

(** [destroy_redis_hash]: the buckets in order, each list destroyed, then the
    table; what of the table is freed. *)
Definition destroy_bucket (h : khash RedisValue) (k : Z) : dbM unit :=
  when (kh_exist h k) (
    _ ← lift (kh_key h k);
    rv ← lift (kh_value h k);
    match rv_data rv with
    | TYPE_STRING _ => mret tt
    | TYPE_LIST l => on_heap (destroy_list l)
    end).
Definition destroy_redis_hash : dbM (list kh_block) :=
  h ← table;
  _ ← for_each (destroy_bucket h) (seqZ 0 (kh_end h));
  mret (kh_destroy (Some h)).
Definition redis_db_destroy : dbM (list kh_block) := destroy_redis_hash.

Definition redis_db_set := Keyspace.set.
Definition redis_db_get := Keyspace.get.
Definition redis_db_exist := Keyspace.exist.
Definition redis_db_delete := Keyspace.delete.

(** The code returned and the content of [*length] afterwards. *)
Definition redis_db_lpush (key item : bytes) (length : Z) : dbM (Z * Z) :=
  existing_value ← redis_db_get key;
  match existing_value with
  | Some v =>
      match rv_data v with
      | TYPE_STRING _ => mret (ERR_TYPE_MISMATCH, length)
      | TYPE_LIST l => r ← on_heap (lpush l (Some item) length); mret (0, r.2)
      end
  | None =>
      l ← on_heap create_list;
      _ ← Keyspace.set key (TYPE_LIST l) (-1);
      r ← on_heap (lpush l (Some item) length); mret (0, r.2)
  end.

Definition redis_db_rpush (key item : bytes) (length : Z) : dbM (Z * Z) :=
  existing_value ← redis_db_get key;
  match existing_value with
  | Some v =>
      match rv_data v with
      | TYPE_STRING _ => mret (ERR_TYPE_MISMATCH, length)
      | TYPE_LIST l => r ← on_heap (rpush l (Some item) length); mret (0, r.2)
      end
  | None =>
      l ← on_heap create_list;
      _ ← Keyspace.set key (TYPE_LIST l) 0;
      r ← on_heap (rpush l (Some item) length); mret (0, r.2)
  end.

(** The code, and [*range] and [*range_length] where they were assigned. *)
Definition redis_db_lrange (key : bytes) (start end_ : Z) :
    dbM (Z * option (option (list bytes)) * option Z) :=
  existing_value ← Keyspace.get key;
  match existing_value with
  | Some v =>
      match rv_data v with
      | TYPE_STRING _ => mret (ERR_TYPE_MISMATCH, None, None)
      | TYPE_LIST l =>
          r ← on_heap (lrange l start end_);
          mret (0, Some r.1, Some r.2)
      end
  | None => mret (ERR_KEY_NOT_FOUND, None, Some 0)
  end.

Definition redis_db_dbsize : dbM Z := gets (λ m, key_count (db m)).
Definition redis_db_expiry_count : dbM Z := gets (λ m, expiry_count (db m)).

(** ** The abstract keyspace *)

Inductive aval := AStr (s : bytes) | AList (xs : list bytes).
Abbreviation adb := (gmap bytes (aval * Z)).

Definition expired (now e : Z) : bool := (0 <? e) && (e <? now).

(** Lookup, which drops an entry whose time has passed. *)
Definition a_get (now : Z) (key : bytes) (A : adb) : option (aval * Z) * adb :=
  match A !! key with
  | Some (v, e) => if expired now e then (None, delete key A) else (Some (v, e), A)
  | None => (None, A)
  end.

(** The clock is read for an entry that may expire only. *)
Definition get_ticks (key : bytes) (A : adb) : nat :=
  match A !! key with Some (_, e) => if 0 <? e then 1%nat else 0%nat | None => 0%nat end.

Definition a_push (left : bool) (now : Z) (key item : bytes) (len0 : Z) (A : adb) : (Z * Z) * adb :=
  let '(r, A') := a_get now key A in
  match r with
  | Some (AStr _, _) => ((ERR_TYPE_MISMATCH, len0), A')
  | Some (AList xs, e) =>
      ((0, zlen xs + 1), <[key := (AList (if left then item :: xs else xs ++ [item]), e)]> A')
  | None => ((0, 1), <[key := (AList [item], if left then -1 else 0)]> A')
  end.

Definition a_lrange (now : Z) (key : bytes) (start end_ : Z) (A : adb) :
    (Z * option (option (list bytes)) * option Z) * adb :=
  let '(r, A') := a_get now key A in
  match r with
  | Some (AStr _, _) => ((ERR_TYPE_MISMATCH, None, None), A')
  | Some (AList xs, _) =>
      ((0, Some (range_spec xs start end_).1, Some (range_spec xs start end_).2), A')
  | None => ((ERR_KEY_NOT_FOUND, None, Some 0), A')
  end.

(** ** Representation *)

Inductive val_rep (h : heap) : RedisValue → list (loc * bytes) → aval * Z → Prop :=
| VStr s e : val_rep h (MkValue (TYPE_STRING s) e) [] (AStr s, e)
| VList l ps e : list_rep h l ps →
    val_rep h (MkValue (TYPE_LIST (Some l)) e) ps (AList ps.*2, e).

(** Two values share no list and no node. *)
Definition val_sep (v v' : RedisValue) (ps ps' : list (loc * bytes)) : Prop :=
  (∀ l l', rv_data v = TYPE_LIST (Some l) → rv_data v' = TYPE_LIST (Some l') → l ≠ l') ∧
  ps.*1 ## ps'.*1.

(** The table holds [M]; the list at key [k] has the nodes [P k]; no node or
    list is shared between keys, and the abstract keyspace is [A]. *)
Record db_own (m : mem) (M : gmap bytes RedisValue) (P : bytes → list (loc * bytes)) (A : adb) :
    Prop := {
  own_table : kh_repr (db_h (db m)) M;
  own_heap : heap_wf (hp m);
  own_alloc : alloc_answers (hp m) = [] ∧ kh_allocs m = [];
  own_val : ∀ k v, M !! k = Some v → ∃ a, A !! k = Some a ∧ val_rep (hp m) v (P k) a;
  own_none : ∀ k, M !! k = None → A !! k = None;
  own_sep : ∀ k k' v v', k ≠ k' → M !! k = Some v → M !! k' = Some v' →
    val_sep v v' (P k) (P k');
  own_count : key_count (db m) = Z.of_nat (size M)
}.

(** What a reachable keyspace satisfies: no list is empty or has an expiration
    time, and [n] more operations stay below what the counters and [int] lengths hold. *)
Record adb_room (n : Z) (A : adb) : Prop := {
  ok_size : Z.of_nat (size A) + n < 2 ^ 28;
  ok_lists : ∀ k xs e, A !! k = Some (AList xs, e) → xs ≠ [] ∧ e ≤ 0 ∧ zlen xs + n < INT_MAX
}.
Abbreviation adb_ok := (adb_room 0).

Lemma room_weaken n n' A : n' ≤ n → adb_room n A → adb_room n' A.
Proof.
  intros Hn [Hs Hl]. constructor; [lia|]. intros k xs e Hk.
  destruct (Hl k xs e Hk) as (? & ? & ?). split_and!; [done|lia|lia].
Qed.

Definition db_rep (m : mem) (A : adb) : Prop := ∃ M P, db_own m M P A.

Lemma own_size m M P A : db_own m M P A → size M = size A.
Proof.
  intros Ho. rewrite <- !size_dom. f_equal. apply set_eq. intros k. rewrite !elem_of_dom.
  destruct (M !! k) as [v|] eqn:E.
  - destruct (own_val _ _ _ _ Ho k v E) as (a & -> & _). split; eauto.
  - rewrite (own_none _ _ _ _ Ho k E). split; by intros [? ?].
Qed.

Definition upd (P : bytes → list (loc * bytes)) (key : bytes) (ps : list (loc * bytes)) :
    bytes → list (loc * bytes) := λ k, if decide (k = key) then ps else P k.

Lemma upd_eq P key ps : upd P key ps key = ps.
Proof. unfold upd. by rewrite decide_True. Qed.
Lemma upd_ne P key ps k : k ≠ key → upd P key ps k = P k.
Proof. intros. unfold upd. by rewrite decide_False. Qed.

Lemma val_sep_sym v v' ps ps' : val_sep v v' ps ps' → val_sep v' v ps' ps.
Proof.
  intros [Hl Hp]. split.
  - intros l l' Hl1 Hl2 Heq. by eapply (Hl l' l).
  - intros a Ha Ha'. by eapply Hp.
Qed.

Lemma lift_ok {S A} (r : res A) (a : A) (s : S) : r = Ok a → lift r s = Ok (a, s).
Proof. by intros ->. Qed.

(** ** Lookup with lazy expiry *)

(** Clock reads change nothing but the number of reads. *)
Lemma own_same m m' M P A :
  db m' = db m → hp m' = hp m → kh_allocs m' = kh_allocs m → db_own m M P A → db_own m' M P A.
Proof. intros Hd Hh Hk Ho. constructor; rewrite ?Hd, ?Hh, ?Hk; apply Ho. Qed.

(** Removing a key from table and counter. *)
Lemma own_remove m M P A key v x d_exp h' :
  db_own m M P A → adb_ok A → M !! key = Some v → kh_get (db_h (db m)) key = Ok x →
  heap_wf h' → alloc_answers h' = [] →
  (∀ k v' a, k ≠ key → M !! k = Some v' → val_rep (hp m) v' (P k) a → val_rep h' v' (P k) a) →
  db_own (bump_counts (-1) d_exp (set_table (kh_del (db_h (db m)) x) (set_hp h' m)))
    (delete key M) P (delete key A).
Proof.
  intros Ho HA E Hg Hwf Hal Hkeep. constructor; simpl; try done.
  - eapply kh_del_repr; [apply Ho|done|done].
  - split; [done|apply Ho].
  - intros k v' [Hne Hk]%lookup_delete_Some.
    destruct (own_val _ _ _ _ Ho k v' Hk) as (a & Ha & Hr).
    exists a. rewrite lookup_delete_ne by done. split; [done|]. apply Hkeep; auto.
  - intros k. rewrite !lookup_delete_None. intros [->|Hk]; [by left|]. right. by apply Ho.
  - intros k k' v1 v2 Hkk [_ Hk]%lookup_delete_Some [_ Hk']%lookup_delete_Some.
    by eapply (own_sep _ _ _ _ Ho k k').
  - rewrite (own_count _ _ _ _ Ho). rewrite map_size_delete_Some by eauto.
    assert (size M ≠ 0%nat) by (intros Hz%map_size_empty_iff; by rewrite Hz, lookup_empty in E).
    pose proof (own_size _ _ _ _ Ho). pose proof (ok_size _ _ HA). rewrite uwrap_small; lia.
Qed.

Lemma get_own m M P A key :
  db_own m M P A → adb_ok A →
  match M !! key with
  | Some v =>
      ∃ m', Keyspace.get key m = Ok (if expired (time_at m) (expiration v) then None else Some v, m') ∧
        hp m' = hp m ∧ clock m' = clock m ∧
        ticks m' = (ticks m + if (0 <? expiration v)%Z then 1 else 0)%nat ∧
        if expired (time_at m) (expiration v) then db_own m' (delete key M) P (delete key A)
        else db_own m' M P A
  | None => Keyspace.get key m = Ok (None, m)
  end.
Proof.
  intros Ho HA. pose proof (kh_get_repr _ M key (own_table _ _ _ _ Ho)) as Hg.
  unfold Keyspace.get, table. erewrite st_bind_ok by reflexivity. cbv beta.
  destruct (M !! key) as [v|] eqn:E.
  - destruct Hg as (x & Hg & Hx & Hex & Hk & Hv & _).
    erewrite st_bind_ok by (by apply lift_ok). cbv beta.
    rewrite (proj2 (Z.eqb_neq x _)) by lia. cbn [negb].
    erewrite st_bind_ok by (by apply lift_ok). cbv beta. unfold expired.
    destruct (0 <? expiration v) eqn:Epos; cbn [andb].
    + erewrite (st_bind_ok (read_clock ≫= _)) by (erewrite st_bind_ok by reflexivity; reflexivity).
      cbv beta. destruct (expiration v <? time_at m).
      * eexists. split; [done|]. split_and!; [done|done|simpl; lia|].
        change (db_own (bump_counts (-1) (-1) (set_table (kh_del (db_h (db m)) x)
          (set_hp (hp m) (MkMem (db m) (hp m) (kh_allocs m) (clock m) (S (ticks m))))))
          (delete key M) P (delete key A)).
        eapply (own_remove (MkMem (db m) (hp m) (kh_allocs m) (clock m) (S (ticks m)))); eauto.
        all: try apply Ho. by apply (own_same m).
      * eexists. split; [done|]. split_and!; [done|done|simpl; lia|]. by apply (own_same m).
    + erewrite st_bind_ok by reflexivity. cbv beta. exists m. split_and!; auto.
  - erewrite st_bind_ok by (by apply lift_ok). cbv beta. by rewrite Z.eqb_refl.
Qed.

(** ** Assignment *)

(** Storing a value that shares nothing with the other keys. *)
(** What an assignment does, as a run: the table is updated, and a new key is
    counted. *)
Definition counted (new : bool) (e : Z) (m : mem) : mem :=
  if new then bump_counts 1 (if 0 <? e then 1 else 0) m else m.

Lemma set_run m M P A key d e :
  db_own m M P A → adb_ok A →
  ∃ h, Keyspace.set key d e m =
      Ok (tt, set_table h (counted (bool_decide (M !! key = None)) e m)) ∧
    kh_repr h (<[key := MkValue d e]> M).
Proof.
  intros Ho HA. pose proof (own_size _ _ _ _ Ho) as Hsz. pose proof (ok_size _ _ HA) as Hlim.
  destruct (own_alloc _ _ _ _ Ho) as [Hal Hka].
  destruct (kh_put_repr _ M key (own_table _ _ _ _ Ho)) as (h' & x & ret & Hp & Hret & Hsk & Hsv); [lia|].
  destruct (Hsv (MkValue d e)) as (h'' & Hsv' & Hrep). exists h''. split; [|done].
  pose proof (kh_get_repr _ M key (own_table _ _ _ _ Ho)) as Hg.
  unfold Keyspace.set, table. erewrite st_bind_ok by reflexivity. cbv beta.
  assert (∃ k, kh_get (db_h (db m)) key = Ok k ∧
    ((if negb (k =? kh_end (db_h (db m))) then _ ← lift (kh_key (db_h (db m)) k); mret tt
      else mret tt) : dbM unit) m = Ok (tt, m)) as (k & Hk & Hold).
  { destruct (M !! key) as [old|].
    - destruct Hg as (k & Hk & Hx & _ & Hkey & _). exists k. split; [done|].
      rewrite (proj2 (Z.eqb_neq k _)) by lia. cbn [negb].
      by erewrite st_bind_ok by (by apply lift_ok).
    - exists (kh_end (db_h (db m))). split; [done|]. by rewrite Z.eqb_refl. }
  erewrite st_bind_ok by (by apply lift_ok). cbv beta.
  erewrite st_bind_ok by exact Hold. cbv beta.
  erewrite st_bind_ok by (unfold next_allocs; rewrite Hka; done). cbv beta.
  erewrite st_bind_ok by (by apply lift_ok). cbv beta iota.
  assert (((if ret =? 0 then _ ← lift (kh_value h' x); mret tt
      else modify (bump_counts 1 (if 0 <? e then 1 else 0))) : dbM unit) m =
    Ok (tt, counted (bool_decide (M !! key = None)) e m)) as Hcnt.
  { destruct (M !! key) as [old|].
    - destruct Hret as [-> (_ & _ & _ & Hval & _)]. rewrite Z.eqb_refl.
      by erewrite st_bind_ok by (by apply lift_ok).
    - by rewrite (proj2 (Z.eqb_neq ret 0)) by lia. }
  erewrite st_bind_ok by exact Hcnt. cbv beta.
  erewrite st_bind_ok by (by apply lift_ok). cbv beta.
  by erewrite st_bind_ok by (by apply lift_ok).
Qed.

Lemma set_own m M P A key d e ps a :
  let v := MkValue d e in
  db_own m M P A → adb_ok A → val_rep (hp m) v ps a →
  (∀ k v', k ≠ key → M !! k = Some v' → val_sep v v' ps (P k)) →
  ∃ m', Keyspace.set key d e m = Ok (tt, m') ∧ hp m' = hp m ∧ ticks m' = ticks m ∧ clock m' = clock m ∧
    db_own m' (<[key := v]> M) (upd P key ps) (<[key := a]> A).
Proof.
  intros v Ho HA Hv Hsep. destruct (set_run m M P A key d e Ho HA) as (h & Hrun & Hrep).
  pose proof (own_size _ _ _ _ Ho) as Hsz. pose proof (ok_size _ _ HA) as Hlim.
  set (m1 := counted (bool_decide (M !! key = None)) e m) in *.
  assert (hp m1 = hp m ∧ kh_allocs m1 = kh_allocs m ∧ ticks m1 = ticks m ∧ clock m1 = clock m)
    as (Hh1 & Hk1 & Ht1 & Hc1) by (unfold m1; by destruct (bool_decide _)).
  exists (set_table h m1). split_and!; [done..|].
  constructor; simpl; rewrite ?Hh1, ?Hk1; [done|apply Ho|apply Ho|..].
  - intros k v' [[<- <-]|[Hne Hk]]%lookup_insert_Some.
    + exists a. by rewrite lookup_insert_eq, upd_eq.
    + rewrite lookup_insert_ne, upd_ne by done. by apply (own_val _ _ _ _ Ho).
  - intros k. rewrite !lookup_insert_None. intros [Hk ?]. split; [by apply (own_none _ _ _ _ Ho)|done].
  - intros k k' v1 v2 Hkk [[<- <-]|[Hne Hk]]%lookup_insert_Some [[<- <-]|[Hne' Hk']]%lookup_insert_Some.
    + done.
    + rewrite upd_eq, upd_ne by done. by apply Hsep.
    + rewrite upd_eq, upd_ne by done. by apply val_sep_sym, Hsep.
    + rewrite !upd_ne by done. by eapply (own_sep _ _ _ _ Ho k k').
  - rewrite map_size_insert. pose proof (own_count _ _ _ _ Ho) as Hc.
    unfold m1. destruct (M !! key) as [old|]; [done|]. simpl. rewrite Hc, uwrap_small; lia.
Qed.

Lemma set_str_own m M P A key s e :
  db_own m M P A → adb_ok A →
  ∃ m', Keyspace.set key (TYPE_STRING s) e m = Ok (tt, m') ∧
    ticks m' = ticks m ∧ clock m' = clock m ∧ db_rep m' (<[key := (AStr s, e)]> A).
Proof.
  intros Ho HA.
  destruct (set_own m M P A key (TYPE_STRING s) e [] (AStr s, e) Ho HA)
    as (m' & ? & ? & ? & ? & Ho'); [constructor|..|].
  - intros. split; [done|]. intros b Hb. by apply elem_of_nil in Hb.
  - exists m'. split_and!; [done..|]. eexists _, _. done.
Qed.

(** ** Pushing on a list *)

Lemma val_rep_fresh h v ps a : heap_wf h → val_rep h v ps a → brk h ∉ ps.*1.
Proof.
  intros Hwf [s e|l qs e (s & _ & Hd & _)]; [apply not_elem_of_nil|]. by eapply dlseg_fresh.
Qed.

(** An operation that rewrites one list, possibly taking a new node, leaves
    the others alone. *)
Lemma list_update_own m M P A key l e ps' h' :
  db_own m M P A → M !! key = Some (MkValue (TYPE_LIST (Some l)) e) →
  heap_wf h' → alloc_answers h' = [] → list_rep h' l ps' →
  heap_frame (hp m) h' l (P key).*1 → (∀ a, a ∈ ps'.*1 → a ∈ (P key).*1 ∨ a = brk (hp m)) →
  db_own (set_hp h' m) M (upd P key ps') (<[key := (AList ps'.*2, e)]> A).
Proof.
  intros Ho E Hwf Hal Hrep Hfr Hnew.
  assert (∀ k v, k ≠ key → M !! k = Some v →
    (∀ l', rv_data v = TYPE_LIST (Some l') → l' ≠ l) ∧ (P k).*1 ## (P key).*1 ∧ brk (hp m) ∉ (P k).*1)
    as Hother.
  { intros k v Hne Hk. destruct (own_sep _ _ _ _ Ho k key v _ Hne Hk E) as [Hl Hd].
    split_and!; [intros l' Hl'; by eapply Hl|done|].
    intros Hb. destruct (own_val _ _ _ _ Ho k v Hk) as (a & _ & Hr).
    by eapply val_rep_fresh, Hb; [apply Ho|]. }
  constructor; simpl; try apply Ho; try done.
  - split; [done|apply Ho].
  - intros k v Hk. destruct (decide (k = key)) as [->|Hne].
    + rewrite lookup_insert_eq, upd_eq. eexists. split; [done|].
      rewrite E in Hk. injection Hk as <-. by constructor.
    + rewrite lookup_insert_ne, upd_ne by done.
      destruct (own_val _ _ _ _ Ho k v Hk) as (a & Ha & Hr). exists a. split; [done|].
      destruct (Hother k v Hne Hk) as (Hl & Hd & _).
      destruct Hr as [s e'|l' ps e' Hr]; constructor.
      eapply list_rep_frame; [apply Ho|done|done|by apply Hl|done].
  - intros k Hk. rewrite lookup_insert_None. split; [by apply Ho|]. intros ->. congruence.
  - intros k k' v v' Hkk Hk Hk'.
    assert (∀ k v, k ≠ key → M !! k = Some v →
      val_sep (MkValue (TYPE_LIST (Some l)) e) v ps' (P k)) as Hnewsep.
    { intros j w Hj Hjw. destruct (Hother j w Hj Hjw) as (Hl & Hd & Hb). split.
      - intros l1 l2 [= <-] Hl2. by apply not_eq_sym, Hl.
      - intros a Ha Ha'. destruct (Hnew a Ha) as [?| ->]; [by eapply Hd|done]. }
    destruct (decide (k = key)) as [->|]; destruct (decide (k' = key)) as [->|]; [done|..].
    + rewrite upd_eq, upd_ne by done. rewrite E in Hk. injection Hk as <-. by apply Hnewsep.
    + rewrite upd_eq, upd_ne by done. rewrite E in Hk'. injection Hk' as <-.
      by apply val_sep_sym, Hnewsep.
    + rewrite !upd_ne by done. by eapply (own_sep _ _ _ _ Ho k k').
Qed.

Lemma own_val_abs m M P A key :
  db_own m M P A →
  match A !! key with
  | Some (AStr s, e) => M !! key = Some (MkValue (TYPE_STRING s) e)
  | Some (AList xs, e) =>
      ∃ l, M !! key = Some (MkValue (TYPE_LIST (Some l)) e) ∧ list_rep (hp m) l (P key) ∧ (P key).*2 = xs
  | None => M !! key = None
  end.
Proof.
  intros Ho. destruct (M !! key) as [v|] eqn:E.
  - destruct (own_val _ _ _ _ Ho key v E) as (a & -> & Hr). destruct Hr; eauto.
  - by rewrite (own_none _ _ _ _ Ho key E).
Qed.

(** Lookup at the level of the abstract keyspace: what it returns, and that
    the clock only moves on. *)
Lemma get_rep m M P A key :
  db_own m M P A → adb_ok A →
  ∃ r m' M', Keyspace.get key m = Ok (r, m') ∧ hp m' = hp m ∧
    db_own m' M' P (a_get (time_at m) key A).2 ∧
    clock m' = clock m ∧ ticks m' = (ticks m + get_ticks key A)%nat ∧
    match (a_get (time_at m) key A).1 with
    | Some (AStr s, e) => r = Some (MkValue (TYPE_STRING s) e)
    | Some (AList xs, e) => ∃ l, r = Some (MkValue (TYPE_LIST (Some l)) e) ∧
        M' !! key = r ∧ list_rep (hp m') l (P key) ∧ (P key).*2 = xs
    | None => r = None ∧ M' !! key = None
    end.
Proof.
  intros Ho HA. pose proof (get_own m M P A key Ho HA) as Hg.
  pose proof (own_val_abs m M P A key Ho) as Hv. unfold a_get, get_ticks.
  destruct (A !! key) as [[[s|xs] e]|].
  - rewrite Hv in Hg. destruct Hg as (m' & Hg & Hh & Hc & Ht & Ho'). simpl in *.
    destruct (expired (time_at m) e); eexists _, m', _; simpl; (split_and!; [done..|]); [|done].
    apply lookup_delete_eq.
  - destruct Hv as (l & Hv & Hl & Hxs). rewrite Hv in Hg.
    destruct Hg as (m' & Hg & Hh & Hc & Ht & Ho'). simpl in *.
    destruct (expired (time_at m) e); eexists _, m', _; simpl; (split_and!; [done..|]).
    + apply lookup_delete_eq.
    + exists l. rewrite Hh. auto.
  - rewrite Hv in Hg. exists None, m, M. simpl. split_and!; done || lia.
Qed.

Lemma a_get_room n now key A : adb_room n A → adb_room n (a_get now key A).2.
Proof.
  intros [Hs Hl]. unfold a_get. destruct (A !! key) as [[v e]|]; [|by constructor].
  destruct (expired now e); [|by constructor]. constructor; simpl.
  - rewrite map_size_delete. destruct (A !! key); unfold id; lia.
  - intros k xs e' [_ Hk]%lookup_delete_Some. by eapply Hl.
Qed.

Lemma a_get_list n now key A xs e :
  adb_room n A → (a_get now key A).1 = Some (AList xs, e) → xs ≠ [] ∧ e ≤ 0 ∧ zlen xs + n < INT_MAX.
Proof.
  intros HA. unfold a_get. destruct (A !! key) as [[a e']|] eqn:E; [|done].
  destruct (expired _ _); [done|]. intros [= -> ->]. by eapply ok_lists.
Qed.

Lemma insert_room n key a A :
  adb_room (n + 1) A →
  match a.1 with AStr _ => True | AList xs => xs ≠ [] ∧ a.2 ≤ 0 ∧ zlen xs + n < INT_MAX end →
  adb_room n (<[key := a]> A).
Proof.
  intros [Hs Hl] Ha. constructor.
  - rewrite map_size_insert. destruct (A !! key); unfold id; lia.
  - intros k xs e [[<- ->]|[_ Hk]]%lookup_insert_Some; [done|].
    destruct (Hl _ _ _ Hk) as (? & ? & ?). split_and!; [done|lia|lia].
Qed.

Lemma on_heap_ok {B} (f : heapM B) m b h' : f (hp m) = Ok (b, h') → on_heap f m = Ok (b, set_hp h' m).
Proof. intros E. unfold on_heap. by rewrite E. Qed.

(** Both pushes, by what they share: a list operation that puts the item at
    one end. *)
Lemma push_list_own (left : bool) m M P A key l e item len0 :
  let push := if left then lpush else rpush in
  let ps' := if left then (brk (hp m), item) :: P key else P key ++ [(brk (hp m), item)] in
  db_own m M P A → M !! key = Some (MkValue (TYPE_LIST (Some l)) e) →
  list_rep (hp m) l (P key) → zlen (P key) < INT_MAX →
  ∃ m', on_heap (push (Some l) (Some item) len0) m = Ok ((0, zlen (P key) + 1), m') ∧
    clock m' = clock m ∧ ticks m' = ticks m ∧
    db_own m' M (upd P key ps') (<[key := (AList ps'.*2, e)]> A).
Proof.
  intros push ps' Ho E Hrep Hlen. destruct (own_alloc _ _ _ _ Ho) as [Hal _].
  assert (∃ h', push (Some l) (Some item) len0 (hp m) = Ok ((0, zlen (P key) + 1), h') ∧ heap_wf h' ∧
    alloc_answers h' = [] ∧ list_rep h' l ps' ∧ heap_frame (hp m) h' l (P key).*1)
    as (h' & Hp & Hwf & Hal' & Hrep' & Hfr)
    by (unfold push, ps'; destruct left; [apply lpush_rep|apply rpush_rep]; auto; apply Ho).
  exists (set_hp h' m). split_and!; [by apply on_heap_ok|done|done|].
  eapply list_update_own; eauto. intros a. unfold ps'. destruct left; [|rewrite fmap_app]; set_solver.
Qed.

(** ** Every operation refines the abstract keyspace *)

(** Freeing the value of a key leaves the values of the other keys alone. *)
Lemma free_value_own m M P A key v :
  db_own m M P A → M !! key = Some v →
  ∃ h', (match rv_data v with
         | TYPE_STRING _ => mret tt
         | TYPE_LIST l => on_heap (destroy_list l)
         end : dbM unit) m = Ok (tt, set_hp h' m) ∧ heap_wf h' ∧ alloc_answers h' = [] ∧
    ∀ k v' a, k ≠ key → M !! k = Some v' → val_rep (hp m) v' (P k) a → val_rep h' v' (P k) a.
Proof.
  intros Ho E. destruct (own_alloc _ _ _ _ Ho) as [Hal _].
  destruct (own_val _ _ _ _ Ho key v E) as ([[s|xs] e] & Ha & _);
    pose proof (own_val_abs m M P A key Ho) as Hv; rewrite Ha in Hv.
  - assert (v = MkValue (TYPE_STRING s) e) as -> by congruence.
    exists (hp m). split_and!; [by destruct m|apply Ho|done|done].
  - destruct Hv as (l & Hv & Hl & _).
    assert (v = MkValue (TYPE_LIST (Some l)) e) as -> by congruence.
    destruct (destroy_list_rep (hp m) l (P key)) as (h' & Hd & Hwf & Hal' & Hfr); [apply Ho|done|].
    exists h'. split_and!; [by apply on_heap_ok|done|congruence|].
    intros k v' a Hne Hk Hr. destruct (own_sep _ _ _ _ Ho k key v' _ Hne Hk Hv) as [Hsl Hsp].
    destruct Hr as [s e'|l' ps e' Hl']; constructor.
    eapply (list_rep_frame (hp m)); [apply Ho|done|done| |done]. by eapply Hsl.
Qed.

Lemma delete_rep m A key :
  db_rep m A → adb_ok A →
  ∃ m', Keyspace.delete key m = Ok (tt, m') ∧ clock m' = clock m ∧ ticks m' = ticks m ∧
    db_rep m' (delete key A).
Proof.
  intros (M & P & Ho) HA. pose proof (kh_get_repr _ M key (own_table _ _ _ _ Ho)) as Hg.
  unfold Keyspace.delete, table. erewrite st_bind_ok by reflexivity. cbv beta.
  destruct (M !! key) as [v|] eqn:E.
  - destruct Hg as (x & Hg & Hx & _ & Hk & Hv & _).
    erewrite st_bind_ok by (by apply lift_ok). cbv beta.
    rewrite (proj2 (Z.eqb_neq x _)) by lia. cbn [negb when].
    erewrite st_bind_ok by (by apply lift_ok). cbv beta.
    destruct (free_value_own m M P A key v Ho E) as (h' & Hd & Hwf & Hal' & Hkeep).
    erewrite st_bind_ok by exact Hd. cbv beta.
    erewrite st_bind_ok by (by apply lift_ok). cbv beta.
    eexists. split; [done|]. split_and!; [done|done|].
    exists (delete key M), P. by eapply own_remove.
  - erewrite st_bind_ok by (by apply lift_ok). cbv beta. rewrite Z.eqb_refl.
    exists m. split_and!; [done..|]. rewrite delete_id by (by apply (own_none _ _ _ _ Ho)). by exists M, P.
Qed.

Lemma exist_rep m A key :
  db_rep m A → Keyspace.exist key m = Ok (bool_decide (is_Some (A !! key)), m).
Proof.
  intros (M & P & Ho). pose proof (kh_get_repr _ M key (own_table _ _ _ _ Ho)) as Hg.
  unfold Keyspace.exist, table. erewrite st_bind_ok by reflexivity. cbv beta.
  destruct (M !! key) as [v|] eqn:E.
  - destruct Hg as (x & Hg & Hx & Hex & _). destruct (own_val _ _ _ _ Ho key v E) as (a & -> & _).
    erewrite st_bind_ok by (by apply lift_ok). cbv beta.
    rewrite (proj2 (Z.eqb_neq x _)), Hex by lia. by rewrite bool_decide_eq_true_2.
  - erewrite st_bind_ok by (by apply lift_ok). cbv beta. rewrite Z.eqb_refl.
    rewrite (own_none _ _ _ _ Ho key E). by rewrite bool_decide_eq_false_2 by (by intros [? ?]).
Qed.

(** A new list under a key. *)
Lemma new_list_own m M P A key e :
  db_own m M P A → adb_ok A → M !! key = None →
  ∃ l m1 m2 M2 P2, on_heap create_list m = Ok (Some l, m1) ∧
    Keyspace.set key (TYPE_LIST (Some l)) e m1 = Ok (tt, m2) ∧
    clock m2 = clock m ∧ ticks m2 = ticks m ∧
    M2 !! key = Some (MkValue (TYPE_LIST (Some l)) e) ∧ P2 key = [] ∧ list_rep (hp m2) l [] ∧
    db_own m2 M2 P2 (<[key := (AList [], e)]> A).
Proof.
  intros Ho HA E. destruct (own_alloc _ _ _ _ Ho) as [Hal Hka].
  destruct (create_list_rep (hp m)) as (h1 & Hc & Hwf1 & Hal1 & Hr1 & Hfr & Hnone); [apply Ho|done|].
  set (l := brk (hp m)) in *.
  assert (∀ k v a, M !! k = Some v → val_rep (hp m) v (P k) a →
    val_rep h1 v (P k) a ∧ val_sep (MkValue (TYPE_LIST (Some l)) e) v [] (P k)) as Hkeep.
  { intros k v a Hk Hr. destruct Hr as [s e'|l' ps e' Hl].
    - split; [constructor|]. split; [done|]. intros b Hb. by apply elem_of_nil in Hb.
    - assert (l' ≠ l) by (intros ->; destruct (list_rep_live _ _ _ Hl) as [? ?]; congruence).
      split; [constructor; eapply (list_rep_frame (hp m)); [apply Ho|done|done|done|set_solver]|].
      split; [|intros b Hb; by apply elem_of_nil in Hb]. intros l1 l2 [= <-] [= <-]. by apply not_eq_sym. }
  assert (db_own (set_hp h1 m) M P A) as Ho1.
  { constructor; simpl; try apply Ho; auto.
    intros k v Hk. destruct (own_val _ _ _ _ Ho k v Hk) as (a & Ha & Hr). exists a.
    split; [done|]. by eapply Hkeep. }
  destruct (set_own (set_hp h1 m) M P A key (TYPE_LIST (Some l)) e [] (AList [], e) Ho1 HA)
    as (m2 & Hs & Hh2 & Ht & Hcl & Ho2).
  - by apply (VList _ l []).
  - intros k v Hne Hk. destruct (own_val _ _ _ _ Ho k v Hk) as (a & Ha & Hr). by eapply Hkeep.
  - exists l, (set_hp h1 m), m2, (<[key := MkValue (TYPE_LIST (Some l)) e]> M), (upd P key []).
    split_and!; [by apply on_heap_ok|done|done|done|apply lookup_insert_eq|apply upd_eq| |done].
    by rewrite Hh2.
Qed.

Definition redis_db_push (left : bool) := if left then redis_db_lpush else redis_db_rpush.

(** Both pushes run the same steps on the list they find or make. *)
Lemma push_steps (left : bool) key item len0 m :
  redis_db_push left key item len0 m =
    (existing_value ← Keyspace.get key;
     match existing_value with
     | Some v =>
         match rv_data v with
         | TYPE_STRING _ => mret (ERR_TYPE_MISMATCH, len0)
         | TYPE_LIST l =>
             r ← on_heap ((if left then lpush else rpush) l (Some item) len0); mret (0, r.2)
         end
     | None =>
         l ← on_heap create_list;
         _ ← Keyspace.set key (TYPE_LIST l) (if left then -1 else 0);
         r ← on_heap ((if left then lpush else rpush) l (Some item) len0); mret (0, r.2)
     end) m.
Proof. by destruct left. Qed.

Lemma push_rep (left : bool) m A key item len0 :
  db_rep m A → adb_room 1 A →
  ∃ m', redis_db_push left key item len0 m = Ok ((a_push left (time_at m) key item len0 A).1, m') ∧
    clock m' = clock m ∧ ticks m' = (ticks m + get_ticks key A)%nat ∧
    db_rep m' (a_push left (time_at m) key item len0 A).2.
Proof.
  intros (M & P & Ho) HA.
  assert (adb_ok A) as HA0 by (eapply room_weaken; [|exact HA]; lia).
  destruct (get_rep m M P A key Ho HA0) as (r & m1 & M1 & Hg & Hh & Ho1 & Hc & Ht & Hr).
  rewrite push_steps. erewrite st_bind_ok by exact Hg. cbv beta.
  pose proof (a_get_room 0 (time_at m) key A HA0) as HA1. unfold a_push.
  pose proof (a_get_list 1 (time_at m) key A) as Hlim.
  destruct (a_get (time_at m) key A) as [[[[s|xs] e]|] A1]; simpl in *.
  - subst r. simpl. exists m1. split_and!; [done..|by exists M1, P].
  - destruct Hr as (l & -> & HM1 & Hl & Hxs). cbn [rv_data].
    destruct (push_list_own left m1 M1 P A1 key l e item len0) as (m2 & Hp & Hc2 & Ht2 & Ho2);
      [done..| |].
    { rewrite <- (length_fmap snd (P key)), Hxs. destruct (Hlim xs e HA eq_refl) as (_ & _ & ?). lia. }
    erewrite st_bind_ok by exact Hp. exists m2.
    rewrite <- Hxs, length_fmap. split_and!; [done|congruence|lia|].
    destruct left; eexists _, _; [exact Ho2|]. rewrite fmap_app in Ho2. exact Ho2.
  - destruct Hr as [-> HM1].
    destruct (new_list_own m1 M1 P A1 key (if left then -1 else 0) Ho1 HA1 HM1)
      as (l & m2 & m3 & M3 & P3 & Hcr & Hs & Hc3 & Ht3 & HM3 & HP3 & Hl & Ho3).
    erewrite st_bind_ok by exact Hcr. cbv beta. erewrite st_bind_ok by exact Hs. cbv beta.
    destruct (push_list_own left m3 M3 P3 _ key l (if left then -1 else 0) item len0 Ho3)
      as (m4 & Hp & Hc4 & Ht4 & Ho4); [done|by rewrite HP3|by rewrite HP3|].
    rewrite HP3 in Hp, Ho4. erewrite st_bind_ok by exact Hp. exists m4.
    split_and!; [done|congruence|lia|]. rewrite insert_insert_eq in Ho4.
    destruct left; eexists _, _; exact Ho4.
Qed.

Lemma lrange_db_rep m A key start end_ :
  db_rep m A → adb_ok A → INT_MIN ≤ start ≤ INT_MAX → INT_MIN ≤ end_ ≤ INT_MAX →
  ∃ m', redis_db_lrange key start end_ m = Ok ((a_lrange (time_at m) key start end_ A).1, m') ∧
    clock m' = clock m ∧ ticks m' = (ticks m + get_ticks key A)%nat ∧
    db_rep m' (a_lrange (time_at m) key start end_ A).2.
Proof.
  intros (M & P & Ho) HA Hst Hen.
  destruct (get_rep m M P A key Ho HA) as (r & m1 & M1 & Hg & Hh & Ho1 & Hc & Ht & Hr).
  unfold redis_db_lrange. erewrite st_bind_ok by exact Hg. cbv beta. unfold a_lrange.
  pose proof (a_get_list 0 (time_at m) key A) as Hlim.
  destruct (a_get (time_at m) key A) as [[[[s|xs] e]|] A1]; simpl in *.
  - subst r. exists m1. split_and!; [done..|by exists M1, P].
  - destruct Hr as (l & -> & HM1 & Hl & Hxs). cbn [rv_data].
    destruct (Hlim xs e HA eq_refl) as (Hne & _ & Hlen). rewrite <- Hxs, length_fmap in Hlen.
    destruct (own_alloc _ _ _ _ Ho1) as [Hal _].
    assert (on_heap (lrange (Some l) start end_) m1 = Ok (range_spec xs start end_, m1)) as Hlr.
    { rewrite <- Hxs. destruct m1. apply on_heap_ok. simpl in *. apply lrange_rep; auto; [|lia].
      intros Hnil. rewrite Hnil in Hxs. by subst xs. }
    erewrite st_bind_ok by exact Hlr. exists m1. split_and!; [done..|by exists M1, P].
  - destruct Hr as [-> _]. exists m1. split_and!; [done..|by exists M1, P].
Qed.

(** *** Sequences of operations *)

Inductive db_op :=
| OSet (key value : bytes) (exp : Z) | OGet (key : bytes) | OExist (key : bytes)
| ODelete (key : bytes) | OPush (at_head : bool) (key item : bytes)
| OLrange (key : bytes) (start end_ : Z) | ODbsize.

(** What the caller sees of a value: its string, or that it is a list. *)
Inductive db_reply :=
| Done | Value (v : option (option bytes * Z)) | Found (b : bool) | Pushed (code len : Z)
| Range (r : Z * option (option (list bytes)) * option Z) | Count (n : Z).

Definition view_value (v : RedisValue) : option bytes * Z :=
  (match rv_data v with TYPE_STRING s => Some s | TYPE_LIST _ => None end, expiration v).
Definition view_aval (a : aval * Z) : option bytes * Z :=
  (match a.1 with AStr s => Some s | AList _ => None end, a.2).

Definition db_step (op : db_op) : dbM db_reply :=
  match op with
  | OSet key value exp => _ ← redis_db_set key (TYPE_STRING value) exp; mret Done
  | OGet key => v ← redis_db_get key; mret (Value (view_value <$> v))
  | OExist key => b ← redis_db_exist key; mret (Found b)
  | ODelete key => _ ← redis_db_delete key; mret Done
  | OPush at_head key item =>
      r ← (if at_head then redis_db_lpush else redis_db_rpush) key item 0; mret (Pushed r.1 r.2)
  | OLrange key start end_ => r ← redis_db_lrange key start end_; mret (Range r)
  | ODbsize => n ← redis_db_dbsize; mret (Count n)
  end.

Definition a_step (now : Z) (op : db_op) (A : adb) : db_reply * adb :=
  match op with
  | OSet key value exp => (Done, <[key := (AStr value, exp)]> A)
  | OGet key => let '(v, A') := a_get now key A in (Value (view_aval <$> v), A')
  | OExist key => (Found (bool_decide (is_Some (A !! key))), A)
  | ODelete key => (Done, delete key A)
  | OPush at_head key item =>
      let '(r, A') := a_push at_head now key item 0 A in (Pushed r.1 r.2, A')
  | OLrange key start end_ => let '(r, A') := a_lrange now key start end_ A in (Range r, A')
  | ODbsize => (Count (Z.of_nat (size A)), A)
  end.

Definition db_op_ok (op : db_op) : Prop :=
  match op with
  | OLrange _ s e => INT_MIN ≤ s ≤ INT_MAX ∧ INT_MIN ≤ e ≤ INT_MAX
  | _ => True
  end.

Fixpoint db_run (ops : list db_op) : dbM (list db_reply) :=
  match ops with
  | [] => mret []
  | op :: ops' => r ← db_step op; rs ← db_run ops'; mret (r :: rs)
  end.

(** Each operation comes with the time at which it runs. *)
Fixpoint a_run (ops : list (db_op * Z)) (A : adb) : list db_reply * adb :=
  match ops with
  | [] => ([], A)
  | (op, now) :: ops' => let '(r, A1) := a_step now op A in
                         let '(rs, A2) := a_run ops' A1 in (r :: rs, A2)
  end.

Lemma db_step_refines m A op :
  db_rep m A → adb_room 1 A → db_op_ok op →
  ∃ m', db_step op m = Ok ((a_step (time_at m) op A).1, m') ∧ clock m' = clock m ∧
    (ticks m ≤ ticks m')%nat ∧ db_rep m' (a_step (time_at m) op A).2.
Proof.
  intros Hrep HA Hok.
  assert (adb_ok A) as HA0 by (eapply room_weaken; [|exact HA]; lia).
  pose proof Hrep as (M & P & Ho). destruct op as [key s e|key|key|key|left key item|key st en|]; simpl.
  - destruct (set_str_own m M P A key s e Ho HA0) as (m' & Hs & Ht & Hc & Hr).
    erewrite st_bind_ok by exact Hs. exists m'. split_and!; [done..|lia|done].
  - destruct (get_rep m M P A key Ho HA0) as (r & m1 & M1 & Hg & Hh & Ho1 & Hc & Ht & Hr).
    erewrite st_bind_ok by exact Hg. exists m1.
    destruct (a_get (time_at m) key A) as [[[[s|xs] e]|] A1]; simpl in *.
    + subst r. split_and!; [done|done|lia|by exists M1, P].
    + destruct Hr as (l & -> & _). split_and!; [done|done|lia|by exists M1, P].
    + destruct Hr as [-> _]. split_and!; [done|done|lia|by exists M1, P].
  - erewrite st_bind_ok by (by apply exist_rep). by exists m.
  - destruct (delete_rep m A key Hrep HA0) as (m' & Hd & Hc & Ht & Hr).
    erewrite st_bind_ok by exact Hd. exists m'. split_and!; [done..|lia|done].
  - destruct (push_rep left m A key item 0 Hrep HA) as (m' & Hp & Hc & Ht & Hr).
    erewrite st_bind_ok by (exact Hp || (destruct left; exact Hp)). exists m'.
    destruct (a_push left (time_at m) key item 0 A) as [r A1]. split_and!; [done|done|lia|done].
  - destruct Hok. destruct (lrange_db_rep m A key st en Hrep HA0) as (m' & Hp & Hc & Ht & Hr); [done..|].
    erewrite st_bind_ok by exact Hp. exists m'.
    destruct (a_lrange (time_at m) key st en A) as [r A1]. split_and!; [done|done|lia|done].
  - exists m. rewrite <- (own_size _ _ _ _ Ho). split_and!; [|done..].
    unfold redis_db_dbsize. erewrite st_bind_ok by reflexivity. by rewrite (own_count _ _ _ _ Ho).
Qed.

Lemma a_push_room n at_head now key item len0 A :
  adb_room (n + 1) A → 0 ≤ n < 2 ^ 28 → adb_room n (a_push at_head now key item len0 A).2.
Proof.
  intros HA Hn. unfold a_push. pose proof (a_get_room _ now key A HA) as HA1.
  pose proof (a_get_list (n + 1) now key A) as Hlim.
  destruct (a_get now key A) as [[[[s|xs] e]|] A1]; simpl in *.
  - eapply room_weaken; [|exact HA1]. lia.
  - apply insert_room; [done|]. destruct (Hlim xs e HA eq_refl) as (? & ? & ?). simpl.
    destruct at_head; simpl length; [split_and!; [done|lia|lia]|]. rewrite length_app. simpl.
    split_and!; [by destruct xs|lia|lia].
  - apply insert_room; [done|]. simpl. unfold INT_MAX. split_and!; [done|by destruct at_head|lia].
Qed.

Lemma a_step_room n now op A :
  adb_room (n + 1) A → 0 ≤ n < 2 ^ 28 → adb_room n (a_step now op A).2.
Proof.
  intros HA Hn. assert (adb_room n A) as HA' by (eapply room_weaken; [|done]; lia).
  destruct op as [key s e|key|key|key|at_head key item|key st en|]; simpl; try done.
  - by apply insert_room.
  - pose proof (a_get_room n now key A HA') as Hg. by destruct (a_get now key A).
  - destruct HA' as [Hs Hl]. constructor.
    + rewrite map_size_delete. destruct (A !! key); unfold id; lia.
    + intros k xs e [_ Hk]%lookup_delete_Some. by eapply Hl.
  - pose proof (a_push_room n at_head now key item 0 A HA Hn) as Hp.
    by destruct (a_push at_head now key item 0 A).
  - unfold a_lrange. pose proof (a_get_room n now key A HA') as Hg.
    by destruct (a_get now key A) as [[[[s|xs] e]|] A1].
Qed.

(** A process that has just called [redis_db_create]. *)
Definition mem_init (clk : nat → Z * Z) : mem :=
  MkMem redis_db_create (MkHeap ∅ ∅ 1 []) [] clk 0.

Lemma mem_init_rep clk : db_rep (mem_init clk) ∅.
Proof.
  exists ∅, (λ _, []). constructor; simpl; try done. apply kh_init_repr.
Qed.

Definition clock_ms (clk : nat → Z * Z) (t : nat) : Z := current_time_millis (clk t).1 (clk t).2.

Lemma db_run_refines ops m A :
  db_rep m A → adb_room (zlen ops) A → zlen ops < 2 ^ 28 → Forall db_op_ok ops →
  ∃ m' ts, length ts = length ops ∧ Sorted le (ticks m :: ts) ∧
    let run := a_run (zip ops (clock_ms (clock m) <$> ts)) A in
    db_run ops m = Ok (run.1, m') ∧ db_rep m' run.2.
Proof.
  revert m A. induction ops as [|op ops IH]; intros m A Hrep HA Hlim Hok.
  - exists m, []. split_and!; [done|by repeat constructor|by split].
  - apply Forall_cons in Hok as [Ho Hok]. rewrite length_cons in HA, Hlim.
    destruct (db_step_refines m A op Hrep) as (m1 & Hs & Hc & Ht & Hr1); [|done|].
    { eapply room_weaken; [|exact HA]. lia. }
    destruct (IH m1 _ Hr1) as (m' & ts & Hlen & Hsort & Hrun); [|lia|done|].
    { apply a_step_room; [|lia]. eapply room_weaken; [|exact HA]. lia. }
    exists m', (ticks m :: ts). split; [by rewrite !length_cons, Hlen|]. split.
    { inversion Hsort as [|? ? Hs1 Hh]; subst. repeat constructor; [done|].
      destruct Hh as [|t ts' Hle]; constructor. lia. }
    rewrite Hc in Hrun. destruct Hrun as [Hrun Hr']. cbv zeta. simpl.
    change (clock_ms (clock m) (ticks m)) with (time_at m).
    erewrite st_bind_ok by exact Hs. cbv beta. erewrite st_bind_ok by exact Hrun.
    destruct (a_step (time_at m) op A) as [r A1]. simpl in *.
    change (list_fmap nat Z (clock_ms (clock m)) ts) with (clock_ms (clock m) <$> ts) in *.
    by destruct (a_run (zip ops (clock_ms (clock m) <$> ts)) A1).
Qed.

(** C10: the database is a keyspace with lazy expiry.  After [redis_db_create],
    any sequence of assignments, lookups, existence tests, deletions, list
    pushes, range queries and size queries runs without a fault (no endless
    probe, no dangling list, no double free), and answers as a finite map from
    keys to strings and lists does in which a lookup drops an entry whose
    expiration has passed at the time the clock shows; the times are the
    answers of the clock, read in order. *)
Theorem database_refines_keyspace clk ops :
  zlen ops < 2 ^ 27 → Forall db_op_ok ops →
  ∃ m' ts, length ts = length ops ∧ Sorted le ts ∧
    let run := a_run (zip ops (clock_ms clk <$> ts)) ∅ in
    db_run ops (mem_init clk) = Ok (run.1, m') ∧
    db_rep m' run.2 ∧ key_count (db m') = Z.of_nat (size run.2).
Proof.
  intros Hlim Hok.
  destruct (db_run_refines ops (mem_init clk) ∅ (mem_init_rep clk)) as (m' & ts & Hlen & Hsort & Hrun & Hr).
  - constructor; [rewrite map_size_empty; lia|]. intros k xs e Hk. by rewrite lookup_empty in Hk.
  - lia.
  - done.
  - exists m', ts. split; [done|]. split; [by inversion Hsort|]. cbv zeta. split_and!; [done..|].
    destruct Hr as (M & P & Ho). rewrite (own_count _ _ _ _ Ho). by rewrite (own_size _ _ _ _ Ho).
Qed.

Definition database_sample : list db_op :=
  [OSet (lit "s") (lit "v") 500; OPush true (lit "l") (lit "b"); OPush true (lit "l") (lit "a");
   OPush false (lit "s") (lit "x"); ODelete (lit "s"); OLrange (lit "l") 0 (-1); ODbsize].

(** The clock at second [t] on read [t]. *)
Definition tick_clock (t : nat) : Z * Z := (Z.of_nat t, 0).

Lemma database_refines_keyspace_witness :
  ∃ m' ts, length ts = 7%nat ∧
    db_run database_sample (mem_init tick_clock) =
      Ok ((a_run (zip database_sample (clock_ms tick_clock <$> ts)) ∅).1, m').
Proof.
  destruct (database_refines_keyspace tick_clock database_sample) as (m' & ts & Hl & _ & Hrun & _);
    [vm_compute; reflexivity|repeat constructor; vm_compute; discriminate|].
  exists m', ts. split; [exact Hl|exact Hrun].
Defined.

(** ** Destroying the database *)

Definition value_list (v : RedisValue) : option loc :=
  match rv_data v with TYPE_LIST l => l | TYPE_STRING _ => None end.

(** The heap without the lists and the nodes of these entries. *)
Fixpoint free_entries (P : bytes → list (loc * bytes)) (kvs : list (bytes * RedisValue)) (h : heap) : heap :=
  match kvs with
  | [] => h
  | (k, v) :: kvs' =>
      free_entries P kvs' (MkHeap (free_nodes (nodes h) (P k).*1)
        match value_list v with Some l => delete l (lists h) | None => lists h end (brk h) (alloc_answers h))
  end.

(** Entries of a keyspace: each has a value, and they share nothing. *)
Definition entries_own (h : heap) (P : bytes → list (loc * bytes)) (kvs : list (bytes * RedisValue)) : Prop :=
  NoDup kvs.*1 ∧ (∀ k v, (k, v) ∈ kvs → ∃ a, val_rep h v (P k) a) ∧
  (∀ k k' v v', k ≠ k' → (k, v) ∈ kvs → (k', v') ∈ kvs → val_sep v v' (P k) (P k')).

Lemma val_rep_freed h v v' ps ps' a :
  val_rep h v' ps' a → val_sep v' v ps' ps →
  val_rep (MkHeap (free_nodes (nodes h) ps.*1)
    match value_list v with Some l => delete l (lists h) | None => lists h end (brk h) (alloc_answers h)) v' ps' a.
Proof.
  intros Hr [Hl Hn]. destruct Hr as [s e|l' ps' e (s & Hs & Hd & Hnd & Hlen)]; constructor.
  exists s. split_and!; [|eapply dlseg_ext; [|exact Hd]|done|done]; simpl.
  - destruct (value_list v) as [l|] eqn:E; [|done]. rewrite lookup_delete_ne; [done|].
    intros ->. apply (Hl l' l'); [done| |done]. unfold value_list in E. by destruct (rv_data v); simplify_eq.
  - intros b Hb. rewrite lookup_free_nodes, bool_decide_eq_false_2; [done|]. intros Hb'. by apply (Hn b).
Qed.

Lemma destroy_buckets_run h (f : Z → option (bytes * RedisValue)) P ks m :
  (∀ i, i ∈ ks → match f i with Some (k, v) => at_bucket h i k v | None => kh_exist h i = false end) →
  entries_own (hp m) P (omap f ks) →
  for_each (destroy_bucket h) ks m = Ok (tt, set_hp (free_entries P (omap f ks) (hp m)) m).
Proof.
  revert m. induction ks as [|i ks IH]; intros m Hf Hown; [by destruct m|].
  rewrite omap_cons in *. cbn [for_each].
  specialize (λ m, IH m (λ j Hj, Hf j (list_elem_of_further _ _ _ Hj))).
  pose proof (Hf i (list_elem_of_here _ _)) as Hi. destruct (f i) as [[k v]|].
  2:{ erewrite st_bind_ok by (unfold destroy_bucket; rewrite Hi; reflexivity). by apply IH. }
  destruct Hi as (_ & Hex & Hk & Hv & _). destruct Hown as (Hnd & Hval & Hsep).
  cbn [fmap list_fmap] in Hnd. apply NoDup_cons in Hnd as [Hnk Hnd].
  set (h' := MkHeap (free_nodes (nodes (hp m)) (P k).*1)
    match value_list v with Some l => delete l (lists (hp m)) | None => lists (hp m) end
    (brk (hp m)) (alloc_answers (hp m))).
  erewrite (st_bind_ok _ _ _ tt (set_hp h' m)).
  - cbv beta. rewrite IH; [done|]. split_and!; [done| |by intros; eapply Hsep; eauto using list_elem_of_further].
    intros k' v' Hin. destruct (Hval k' v' (list_elem_of_further _ _ _ Hin)) as [a Ha]. exists a.
    apply val_rep_freed; [done|]. apply (Hsep k' k); [|by right|by left].
    intros ->. apply Hnk. apply list_elem_of_fmap. by exists (k, v').
  - unfold destroy_bucket. rewrite Hex. cbn [when].
    erewrite st_bind_ok by (by apply lift_ok). cbv beta. erewrite st_bind_ok by (by apply lift_ok). cbv beta.
    destruct (Hval k v (list_elem_of_here _ _)) as [a Ha]. unfold h'.
    destruct Ha as [s e|l ps e Hl]; cbn [rv_data value_list].
    + by destruct m as [d [] c ? ?].
    + apply on_heap_ok. by apply destroy_list_run.
Qed.

(** What is freed, location by location. *)
Lemma lookup_free_entries P kvs h :
  (∀ l, lists (free_entries P kvs h) !! l =
     if bool_decide (l ∈ omap (value_list ∘ snd) kvs) then None else lists h !! l) ∧
  (∀ a, nodes (free_entries P kvs h) !! a =
     if bool_decide (a ∈ concat ((λ kv, (P kv.1).*1) <$> kvs)) then None else nodes h !! a).
Proof.
  revert h. induction kvs as [|[k v] kvs IH]; intros h; [done|]. cbn [free_entries].
  destruct (IH (MkHeap (free_nodes (nodes h) (P k).*1)
    match value_list v with Some l => delete l (lists h) | None => lists h end (brk h) (alloc_answers h))) as [IHl IHn].
  split; intros b; [rewrite IHl|rewrite IHn]; cbn [lists nodes].
  - rewrite omap_cons. cbn [compose snd]. change ((value_list ∘ snd) (k, v)) with (value_list v).
    destruct (value_list v) as [l|]; [|done]. destruct (decide (b = l)) as [->|Hne].
    + rewrite lookup_delete_eq, (bool_decide_eq_true_2 (l ∈ l :: _)) by set_solver. by case_bool_decide.
    + rewrite lookup_delete_ne by done. do 2 case_bool_decide; set_solver.
  - cbn [fmap list_fmap concat fst]. rewrite lookup_free_nodes. repeat case_bool_decide; set_solver.
Qed.

(** Shutting down relies on this. *)
Lemma destroy_own m M P A :
  db_own m M P A →
  ∃ h', redis_db_destroy m = Ok (kh_destroy (Some (db_h (db m))), set_hp h' m) ∧
    (∀ l, lists h' !! l =
       if bool_decide (l ∈ omap (value_list ∘ snd) (map_to_list M)) then None else lists (hp m) !! l) ∧
    (∀ a, nodes h' !! a =
       if bool_decide (a ∈ concat ((λ kv, (P kv.1).*1) <$> map_to_list M)) then None else nodes (hp m) !! a).
Proof.
  intros Ho. destruct (buckets_repr (db_h (db m)) M (own_table _ _ _ _ Ho)) as (f & Hf & Hp).
  set (kvs := omap f _) in Hp. exists (free_entries P kvs (hp m)).
  destruct (lookup_free_entries P kvs (hp m)) as [Hl Hn]. split_and!.
  - unfold redis_db_destroy, destroy_redis_hash, table. erewrite st_bind_ok by reflexivity. cbv beta.
    erewrite st_bind_ok; [reflexivity|].
    apply destroy_buckets_run; [intros i Hi%elem_of_seqZ; apply Hf; lia|]. fold kvs. split_and!.
    + rewrite Hp. apply NoDup_fst_map_to_list.
    + intros k v. rewrite Hp, elem_of_map_to_list. intros Hk.
      destruct (own_val _ _ _ _ Ho k v Hk) as (a & _ & Ha). by exists a.
    + intros k k' v v' Hne. rewrite Hp, !elem_of_map_to_list. by apply (own_sep _ _ _ _ Ho).
  - intros l. rewrite Hl. erewrite bool_decide_ext; [done|]. by rewrite Hp.
  - intros a. rewrite Hn. erewrite bool_decide_ext; [done|]. by rewrite Hp.
Qed.

(** C25: destroying the database succeeds and frees exactly the lists that are
    values of the keyspace and their nodes: none of them is freed twice or
    missed, and everything else on the heap is left as it was; then the arrays of
    the table and the table itself. *)
Theorem redis_db_destroy_frees m M P A :
  db_own m M P A →
  ∃ h', redis_db_destroy m = Ok (kh_destroy (Some (db_h (db m))), set_hp h' m) ∧
    (∀ l, lists h' !! l =
       if bool_decide (l ∈ omap (value_list ∘ snd) (map_to_list M)) then None else lists (hp m) !! l) ∧
    (∀ a, nodes h' !! a =
       if bool_decide (a ∈ concat ((λ kv, (P kv.1).*1) <$> map_to_list M)) then None else nodes (hp m) !! a).
Proof. apply destroy_own. Qed.

(** A keyspace with a list of two items: the list and both nodes are freed. *)
Lemma redis_db_destroy_frees_witness :
  ∃ m h', db_run [OPush true (lit "l") (lit "b"); OPush true (lit "l") (lit "a")] (mem_init tick_clock) =
      Ok ([Pushed 0 1; Pushed 0 2], m) ∧
    size (lists (hp m)) = 1%nat ∧ redis_db_destroy m = Ok (kh_destroy (Some (db_h (db m))), set_hp h' m) ∧ lists h' = ∅ ∧ nodes h' = ∅.
Proof.
  destruct (db_run_refines [OPush true (lit "l") (lit "b"); OPush true (lit "l") (lit "a")] (mem_init tick_clock) ∅
    (mem_init_rep tick_clock)) as (m & ts & _ & _ & Hrun & (M & P & Ho)).
  - constructor; [vm_compute; reflexivity|]. intros k xs e Hk. rewrite lookup_empty in Hk. discriminate.
  - vm_compute. reflexivity.
  - repeat constructor.
  - destruct (redis_db_destroy_frees m M P _ Ho) as (h' & E & _).
    vm_compute in Hrun. injection Hrun as _ <-. eexists _, h'.
    split; [vm_compute; reflexivity|]. split; [vm_compute; reflexivity|]. split; [exact E|].
    vm_compute in E. injection E as <-. split; reflexivity.
Defined.

(** [expiry_count] is not the number of keys with an expiration.  A key
    stored without one, overwritten with one (which is not counted) and then
    found expired leaves the database empty with the counter at its largest
    value, the unsigned 64-bit wrap of -1. *)
Theorem expiry_count_wraps :
  match db_run [OSet (lit "k") (lit "v") 0; OSet (lit "k") (lit "v") 5; OGet (lit "k")]
          (mem_init (λ _, (1, 0))) with
  | Ok (replies, m) => replies = [Done; Done; Value None] ∧ key_count (db m) = 0 ∧
                       expiry_count (db m) = 2 ^ 64 - 1
  | Stop _ => False
  end.
Proof. vm_compute. by split_and!. Qed.

(** The result of [kh_put] is not checked.  When the table cannot grow for
    lack of memory, assigning any key of a new database writes outside the
    arrays of the table. *)
Theorem set_ignores_failed_put clk key value exp bs :
  let m := MkMem redis_db_create (MkHeap ∅ ∅ 1 []) ((false, true, true) :: bs) clk 0 in
  redis_db_set key value exp m = Stop BadAccess.
Proof. done. Qed.
