(* ===== verification/RespWriter.v ===== *)
(** * The writers of [src/src/resp.c] and the reply helpers of
      [src/src/commands.c]

    Each function gets the writable region of the output buffer, gives up (or
    does not) when it is too small, copies bytes there and advances the write
    index.  A [char *] argument is the NUL-free string it points to. *)

From S2P Require Import Prelude CLib RingBuffer.

Abbreviation rbM := (st ring_buffer).

(** ** The writers *)

(** Check the space, copy, advance: the body of the fixed-size writers. *)
Definition put_or_drop (data : bytes) : rbM unit := λ rb,
  '(_, rb') ← rb_put rb data; Ok (tt, rb').

Definition write_begin_simple_string : rbM unit := put_or_drop (lit "+").
Definition write_end_simple_string : rbM unit := put_or_drop CRLF.
Definition write_begin_error : rbM unit := put_or_drop (lit "-").
Definition write_end_error : rbM unit := put_or_drop CRLF.
Definition write_begin_integer : rbM unit := put_or_drop (lit ":").
Definition write_end_integer : rbM unit := put_or_drop CRLF.
Definition write_end_bulk_string : rbM unit := put_or_drop CRLF.
Definition write_end_array : rbM unit := mret tt.

(** [rb_write], its code ignored. *)
Definition advance (n : Z) : rbM unit := λ rb, '(_, rb') ← rb_write rb n; Ok (tt, rb').
Definition copy_to (off : Z) (data : bytes) : rbM unit := λ rb,
  rb' ← rb_store rb off data; Ok (tt, rb').

Definition write_begin_bulk_string (len : Z) : rbM unit :=
  let text := lit "$" ++ fmt_ld len in
  let needed_length := zlen text in
  '(output_buf, writable_len) ← (λ rb, r ← rb_writable rb; Ok (r, rb));
  if writable_len <? needed_length + (if len =? -1 then 0 else 2) then mret tt
  else
    _ ← copy_to output_buf (snprintf writable_len text);
    _ ← advance needed_length;
    when (negb (len =? -1)) (
      _ ← copy_to (output_buf + needed_length) CRLF;
      advance 2).

Definition write_begin_array (len : Z) : rbM unit :=
  let text := lit "*" ++ fmt_ld len ++ CRLF in
  let needed_length := zlen text in
  '(output_buf, writable_len) ← (λ rb, r ← rb_writable rb; Ok (r, rb));
  if writable_len <? needed_length then mret tt
  else
    _ ← copy_to output_buf (snprintf writable_len text);
    advance needed_length.

(** A string that does not fit is reported and copied all the same. *)
Definition write_chars (str : bytes) : rbM unit :=
  '(output_buf, _) ← (λ rb, r ← rb_writable rb; Ok (r, rb));
  _ ← copy_to output_buf str;
  advance (zlen str).

(** ** The reply helpers *)

Definition add_simple_string_reply (str : bytes) : rbM unit :=
  _ ← write_begin_simple_string; _ ← write_chars str; write_end_simple_string.

Definition add_bulk_string_reply (str : bytes) : rbM unit :=
  _ ← write_begin_bulk_string (zlen str); _ ← write_chars str; write_end_bulk_string.

Definition add_array_item (array : list bytes) (i : Z) : rbM unit :=
  item ← lift (of_option BadAccess (array !! Z.to_nat i));
  add_bulk_string_reply item.

Definition add_array_reply (array : option (list bytes)) (length : Z) : rbM unit :=
  _ ← write_begin_array length;
  _ ← match array with
      | Some xs => for_each (add_array_item xs) (seqZ 0 length)
      | None => mret tt
      end;
  write_end_array.

Definition add_null_reply : rbM unit :=
  _ ← write_begin_bulk_string (-1); write_end_bulk_string.

Definition add_error_reply (str : bytes) : rbM unit :=
  _ ← write_begin_error; _ ← write_chars str; write_end_error.

(** [integer] is an [int]: the caller's value at that width. *)
Definition add_integer_reply (integer : Z) : rbM unit :=
  let number_str := cstr (snprintf 32 (fmt_ld integer)) in
  _ ← write_begin_integer; _ ← write_chars number_str; write_end_integer.

Definition add_fullresync_reply (master_replid : bytes) (master_repl_offset : Z) : rbM unit :=
  add_simple_string_reply
    (cstr (snprintf 80 (lit "FULLRESYNC " ++ master_replid ++ lit " " ++ fmt_ld master_repl_offset))).

(** ** The writers keep the buffer well formed *)

Lemma advance_keeps n : preserves rb_wf (advance n).
Proof.
  intros rb [] rb' Hwf. unfold advance. destruct (rb_write rb n) as [[rc rb1]|] eqn:E; [|done].
  intros [= <-]. by eapply rb_write_keeps.
Qed.
Lemma copy_to_keeps off d : preserves rb_wf (copy_to off d).
Proof.
  intros rb [] rb' Hwf. unfold copy_to. destruct (rb_store rb off d) as [rb1|] eqn:E; [|done].
  intros [= <-]. by eapply rb_store_keeps.
Qed.
Lemma writable_keeps : preserves rb_wf (λ rb, r ← rb_writable rb; Ok (r, rb)).
Proof. intros rb [] rb' Hwf. destruct (rb_writable rb); [|done]. by intros [= _ <-]. Qed.
Lemma put_or_drop_keeps d : preserves rb_wf (put_or_drop d).
Proof.
  intros rb [] rb' Hwf. unfold put_or_drop, rb_put. destruct (rb_writable rb) as [[off len]|]; [|done].
  cbn [mbind res_bind]. destruct (len <? zlen d); [by intros [= <-]|].
  destruct (rb_store rb off d) as [rb1|] eqn:E1; [|done]. cbn [mbind res_bind].
  destruct (rb_write rb1 (zlen d)) as [[rc rb2]|] eqn:E2; [|done]. intros [= <-].
  eapply rb_write_keeps; [|exact E2]. by eapply rb_store_keeps.
Qed.

#[export] Hint Resolve advance_keeps copy_to_keeps writable_keeps put_or_drop_keeps : keep.

Lemma write_begin_bulk_string_keeps len : preserves rb_wf (write_begin_bulk_string len).
Proof. unfold write_begin_bulk_string. preserve. Qed.
Lemma write_begin_array_keeps len : preserves rb_wf (write_begin_array len).
Proof. unfold write_begin_array. preserve. Qed.
Lemma write_chars_keeps s : preserves rb_wf (write_chars s).
Proof. unfold write_chars. preserve. Qed.

#[export] Hint Resolve write_begin_bulk_string_keeps write_begin_array_keeps write_chars_keeps : keep.

Lemma add_simple_string_keeps s : preserves rb_wf (add_simple_string_reply s).
Proof. unfold add_simple_string_reply, write_begin_simple_string, write_end_simple_string. preserve. Qed.
Lemma add_bulk_string_keeps s : preserves rb_wf (add_bulk_string_reply s).
Proof. unfold add_bulk_string_reply, write_end_bulk_string. preserve. Qed.
#[export] Hint Resolve add_simple_string_keeps add_bulk_string_keeps : keep.
Lemma add_array_item_keeps xs i : preserves rb_wf (add_array_item xs i).
Proof. unfold add_array_item. preserve. Qed.
#[export] Hint Resolve add_array_item_keeps : keep.
Lemma add_array_keeps xs n : preserves rb_wf (add_array_reply xs n).
Proof. unfold add_array_reply, write_end_array. preserve. Qed.
Lemma add_null_keeps : preserves rb_wf add_null_reply.
Proof. unfold add_null_reply, write_end_bulk_string. preserve. Qed.
Lemma add_error_keeps s : preserves rb_wf (add_error_reply s).
Proof. unfold add_error_reply, write_begin_error, write_end_error. preserve. Qed.
Lemma add_integer_keeps z : preserves rb_wf (add_integer_reply z).
Proof. unfold add_integer_reply, write_begin_integer, write_end_integer. preserve. Qed.
Lemma add_fullresync_keeps r o : preserves rb_wf (add_fullresync_reply r o).
Proof. apply add_simple_string_keeps. Qed.

#[export] Hint Resolve add_array_keeps add_null_keeps add_error_keeps add_integer_keeps add_fullresync_keeps : keep.

(** ** What the replies mean: the encodings of the protocol *)

Inductive resp :=
| RSimple (s : bytes) | RError (s : bytes) | RInteger (z : Z)
| RBulk (s : bytes) | RNull | RArray (xs : list bytes).

Definition encode_bulk (s : bytes) : bytes := lit "$" ++ fmt_ld (zlen s) ++ CRLF ++ s ++ CRLF.

Definition encode (r : resp) : bytes :=
  match r with
  | RSimple s => lit "+" ++ s ++ CRLF
  | RError s => lit "-" ++ s ++ CRLF
  | RInteger z => lit ":" ++ fmt_ld z ++ CRLF
  | RBulk s => encode_bulk s
  | RNull => lit "$-1" ++ CRLF
  | RArray xs => lit "*" ++ fmt_ld (zlen xs) ++ CRLF ++ concat (encode_bulk <$> xs)
  end.

Definition add_reply (r : resp) : rbM unit :=
  match r with
  | RSimple s => add_simple_string_reply s
  | RError s => add_error_reply s
  | RInteger z => add_integer_reply z
  | RBulk s => add_bulk_string_reply s
  | RNull => add_null_reply
  | RArray xs => add_array_reply (Some xs) (zlen xs)
  end.

(** ** Appending to the output buffer *)

(** [f] appends [data] to a buffer with room for it and [slack] more bytes. *)
Definition appends (slack : Z) (f : rbM unit) (data : bytes) : Prop :=
  ∀ rb, rb_wf rb → zlen data + slack ≤ size rb - zlen (contents rb) →
    write_index rb + zlen data < 2 ^ 64 →
    ∃ rb', f rb = Ok (tt, rb') ∧ rb_wf rb' ∧ contents rb' = contents rb ++ data ∧
      size rb' = size rb ∧ write_index rb' = write_index rb + zlen data.

Lemma put_or_drop_appends data : appends 0 (put_or_drop data) data.
Proof.
  intros rb Hwf Hfit H64. destruct (rb_put_wf rb data) as (rb' & Hp & ? & ? & ? & ?); [done|lia|done|].
  exists rb'. unfold put_or_drop. rewrite Hp. done.
Qed.

Lemma appends_seq k1 k2 f g d1 d2 :
  appends k1 f d1 → appends k2 g d2 → 0 ≤ k2 → k1 ≤ zlen d2 + k2 →
  appends k2 (f ≫= λ _, g) (d1 ++ d2).
Proof.
  intros Hf Hg Hk Hle rb Hwf Hfit H64. rewrite zlen_app in *.
  destruct (Hf rb) as (rb1 & Hf1 & Hwf1 & Hc1 & Hs1 & Hw1); [done|lia|lia|].
  erewrite st_bind_ok by exact Hf1. cbv beta.
  destruct (Hg rb1) as (rb2 & Hg2 & Hwf2 & Hc2 & Hs2 & Hw2);
    [done|rewrite Hc1, Hs1, zlen_app; lia|rewrite Hw1; lia|].
  exists rb2. split_and!; [done..| |congruence|lia]. by rewrite Hc2, Hc1, app_assoc.
Qed.

(** Both mappings show the same bytes: only the offset modulo the size counts. *)
Lemma rb_store_mod rb off off' data :
  rb_wf rb → off mod size rb = off' mod size rb →
  0 ≤ off → off + zlen data ≤ 2 * size rb → 0 ≤ off' → off' + zlen data ≤ 2 * size rb →
  rb_store rb off data = rb_store rb off' data.
Proof.
  intros [_ (W & HW & HlW) Hs _ _ _] Hmod ? ? ? ?. unfold rb_store. rewrite HW.
  rewrite !(proj2 (Z.leb_le _ _)) by lia. simpl. do 3 f_equal.
  apply ring_write_mod; [by rewrite HlW|lia].
Qed.

(** Copying [data] followed by other bytes to the writable region, then
    advancing over [data]. *)
Lemma copy_advance data rest rb off :
  rb_wf rb → zlen (data ++ rest) ≤ size rb - zlen (contents rb) →
  off mod size rb = write_index rb mod size rb → 0 ≤ off ≤ 2 * size rb - zlen (data ++ rest) →
  write_index rb + zlen data < 2 ^ 64 →
  ∃ rb', (_ ← copy_to off (data ++ rest); advance (zlen data)) rb = Ok (tt, rb') ∧ rb_wf rb' ∧
    contents rb' = contents rb ++ data ∧ size rb' = size rb ∧
    write_index rb' = write_index rb + zlen data.
Proof.
  intros Hwf Hfit Hmod Hoff H64. pose proof (Z.mod_pos_bound (write_index rb) (size rb)) as Hm.
  pose proof (wf_size _ Hwf) as Hsz. rewrite zlen_app in Hfit, Hoff.
  destruct (rb_store_wf rb (data ++ rest) Hwf) as (rb1 & Hst & Hwf1 & Hc & Hr & Hw & Hs1 & HW);
    [rewrite zlen_app; lia|].
  rewrite <- (rb_store_mod rb off) in Hst
    by (rewrite ?zlen_app, ?Z.mod_mod by lia; first [done|lia]).
  assert (copy_to off (data ++ rest) rb = Ok (tt, rb1)) as Hcp
    by (unfold copy_to; by rewrite Hst).
  erewrite st_bind_ok by exact Hcp. cbv beta.
  destruct (rb_write_wf rb1 (zlen data) Hwf1) as (rb2 & Hwr & -> & Hwf2 & Hc2);
    [rewrite Hc, Hs1; lia|rewrite Hw; lia|].
  eexists. split; [unfold advance; rewrite Hwr; done|]. split_and!; [done| |done|simpl; by rewrite Hw].
  pose proof (wf_region _ Hwf1) as (W & HW1 & _). rewrite (Hc2 W HW1), Hc, Hw. f_equal.
  specialize (HW W HW1). rewrite zlen_app, ring_slice_app in HW by lia.
  apply app_inj_1 in HW as [HW _]; [done|].
  apply Nat2Z.inj. by rewrite zlen_ring_slice by lia.
Qed.

Lemma writable_ok rb :
  rb_wf rb →
  ((λ rb, r ← rb_writable rb; Ok (r, rb)) : rbM (Z * Z)) rb =
    Ok ((write_index rb mod size rb, size rb - zlen (contents rb)), rb).
Proof. intros Hwf. cbv beta. by rewrite rb_writable_wf. Qed.

Lemma write_chars_appends s : appends 0 (write_chars s) s.
Proof.
  intros rb Hwf Hfit H64. pose proof (Z.mod_pos_bound (write_index rb) (size rb)) as Hm.
  pose proof (wf_size _ Hwf). unfold write_chars.
  erewrite st_bind_ok by (by apply writable_ok). cbv beta iota.
  pose proof (copy_advance s [] rb (write_index rb mod size rb)) as Hca. rewrite app_nil_r in Hca.
  apply Hca; try done; try lia. by rewrite Z.mod_mod by lia.
Qed.

Lemma write_begin_array_appends len :
  appends 1 (write_begin_array len) (lit "*" ++ fmt_ld len ++ CRLF).
Proof.
  set (text := lit "*" ++ fmt_ld len ++ CRLF).
  intros rb Hwf Hfit H64. pose proof (Z.mod_pos_bound (write_index rb) (size rb)) as Hm.
  pose proof (wf_size _ Hwf). unfold write_begin_array. fold text. clearbody text.
  erewrite st_bind_ok by (by apply writable_ok). cbv beta iota.
  rewrite (proj2 (Z.ltb_ge _ _)), snprintf_fits by lia.
  apply copy_advance; rewrite ?zlen_app; simpl length; try done; try lia.
  by rewrite Z.mod_mod by lia.
Qed.

Lemma write_begin_bulk_appends len :
  len ≠ -1 → appends 0 (write_begin_bulk_string len) (lit "$" ++ fmt_ld len ++ CRLF).
Proof.
  intros Hlen. rewrite app_assoc. unfold write_begin_bulk_string.
  set (text := lit "$" ++ fmt_ld len). clearbody text.
  intros rb Hwf Hfit H64. pose proof (Z.mod_pos_bound (write_index rb) (size rb)) as Hm.
  pose proof (wf_size _ Hwf). rewrite zlen_app in Hfit, H64. change (zlen CRLF) with 2 in *.
  erewrite st_bind_ok by (by apply writable_ok). cbv beta iota.
  rewrite (proj2 (Z.eqb_neq _ _) Hlen). cbn [negb when].
  rewrite (proj2 (Z.ltb_ge _ _)), snprintf_fits by lia.
  destruct (copy_advance text [NUL] rb (write_index rb mod size rb))
    as (rb1 & H1 & Hwf1 & Hc1 & Hs1 & Hw1); rewrite ?zlen_app; simpl length; try done; try lia.
  { by rewrite Z.mod_mod by lia. }
  destruct (copy_advance CRLF [] rb1 (write_index rb mod size rb + zlen text))
    as (rb2 & H2 & Hwf2 & Hc2 & Hs2 & Hw2); rewrite ?app_nil_r; change (zlen CRLF) with 2 in *.
  - done.
  - rewrite Hs1, Hc1, zlen_app. lia.
  - rewrite Hs1, Hw1. by rewrite Z.add_mod_idemp_l by lia.
  - rewrite Hs1. lia.
  - lia.
  - exists rb2. split; [|split_and!; [done| |congruence|lia]].
    + rewrite app_nil_r in H2. revert H1. unfold mbind, st_bind.
      destruct (copy_to _ _ rb) as [[[] ra]|]; [|done]. intros ->. exact H2.
    + by rewrite Hc2, Hc1, app_assoc.
Qed.

Lemma add_null_appends : appends 0 add_null_reply (encode RNull).
Proof.
  intros rb Hwf Hfit H64. pose proof (Z.mod_pos_bound (write_index rb) (size rb)) as Hm.
  pose proof (wf_size _ Hwf). simpl length in Hfit, H64.
  destruct (copy_advance (lit "$-1") [NUL] rb (write_index rb mod size rb))
    as (rb1 & H1 & Hwf1 & Hc1 & Hs1 & Hw1); rewrite ?zlen_app; simpl length; try done; try lia.
  { by rewrite Z.mod_mod by lia. }
  assert (write_begin_bulk_string (-1) rb = Ok (tt, rb1)) as Hb.
  { unfold write_begin_bulk_string. erewrite st_bind_ok by (by apply writable_ok). cbv beta iota.
    change (lit "$" ++ fmt_ld (-1)) with (lit "$-1"). change (zlen (lit "$-1")) with 3.
    rewrite Z.eqb_refl. cbn [negb when]. rewrite (proj2 (Z.ltb_ge _ _)), snprintf_fits by (simpl length; lia).
    revert H1. unfold mbind, st_bind. destruct (copy_to _ _ rb) as [[[] ra]|]; [|done].
    change (zlen (lit "$-1")) with 3. by intros ->. }
  unfold add_null_reply. erewrite st_bind_ok by exact Hb. cbv beta.
  change (zlen (lit "$-1")) with 3 in Hw1.
  destruct (put_or_drop_appends CRLF rb1) as (rb2 & H2 & Hwf2 & Hc2 & Hs2 & Hw2);
    [done|rewrite Hs1, Hc1, zlen_app; simpl length; lia|simpl length; lia|].
  exists rb2. split_and!; [done|done| |congruence|simpl length in *; lia].
  by rewrite Hc2, Hc1, <- app_assoc.
Qed.

Lemma add_bulk_appends s : appends 0 (add_bulk_string_reply s) (encode_bulk s).
Proof.
  unfold add_bulk_string_reply, encode_bulk.
  replace (lit "$" ++ fmt_ld (zlen s) ++ CRLF ++ s ++ CRLF)
    with ((lit "$" ++ fmt_ld (zlen s) ++ CRLF) ++ s ++ CRLF) by (by rewrite <- !app_assoc).
  apply (appends_seq 0); [apply write_begin_bulk_appends; lia| |done|lia].
  apply (appends_seq 0); [apply write_chars_appends|apply put_or_drop_appends|done|lia].
Qed.

Lemma delimited_appends b e s :
  appends 0 (_ ← put_or_drop b; _ ← write_chars s; put_or_drop e) (b ++ s ++ e).
Proof.
  apply (appends_seq 0); [apply put_or_drop_appends| |done|lia].
  apply (appends_seq 0); [apply write_chars_appends|apply put_or_drop_appends|done|lia].
Qed.

Lemma array_items_appends xs ys :
  appends 0 (for_each (add_array_item (ys ++ xs)) (seqZ (zlen ys) (zlen xs)))
    (concat (encode_bulk <$> xs)).
Proof.
  revert ys. induction xs as [|x xs IH]; intros ys.
  - intros rb Hwf _ _. exists rb. simpl. rewrite app_nil_r, Z.add_0_r. done.
  - rewrite seqZ_cons by (simpl length; lia). cbn [for_each fmap list_fmap concat].
    apply (appends_seq 0); [| |done|lia].
    + intros rb Hwf Hfit H64. unfold add_array_item.
      erewrite st_bind_ok; [by apply add_bulk_appends|].
      rewrite Nat2Z.id, lookup_app_r, Nat.sub_diag by lia. done.
    + specialize (IH (ys ++ [x])). rewrite <- app_assoc in IH. cbn [app] in IH.
      rewrite zlen_app in IH. replace (Z.succ (zlen ys)) with (zlen ys + zlen [x]) by (simpl length; lia).
      replace (Z.pred (zlen (x :: xs))) with (zlen xs) by (simpl length; lia). exact IH.
Qed.

Lemma add_integer_appends z :
  LONG_MIN ≤ z ≤ LONG_MAX → appends 0 (add_integer_reply z) (encode (RInteger z)).
Proof.
  intros Hz. unfold add_integer_reply. pose proof (fmt_ld_length z Hz).
  rewrite snprintf_fits by lia. rewrite cstr_term by apply fmt_ld_no_nul. apply delimited_appends.
Qed.

(** A reply is well formed when its integer is an [int]. *)
Definition resp_ok (r : resp) : Prop :=
  match r with RInteger z => INT_MIN ≤ z ≤ INT_MAX | _ => True end.

#[export] Instance resp_ok_dec r : Decision (resp_ok r).
Proof. destruct r; simpl; apply _. Defined.

(** The array header is the one write that needs a byte more than it adds. *)
Definition slack_of (r : resp) : Z := match r with RArray [] => 1 | _ => 0 end.

Lemma add_reply_appends r : resp_ok r → appends (slack_of r) (add_reply r) (encode r).
Proof.
  destruct r as [s|s|z|s| |xs]; intros Hok.
  - apply delimited_appends.
  - apply delimited_appends.
  - apply add_integer_appends. unfold resp_ok, INT_MIN, INT_MAX, LONG_MIN, LONG_MAX in *. lia.
  - apply add_bulk_appends.
  - apply add_null_appends.
  - cbn [add_reply encode]. unfold add_array_reply.
    replace (lit "*" ++ fmt_ld (zlen xs) ++ CRLF ++ concat (encode_bulk <$> xs))
      with ((lit "*" ++ fmt_ld (zlen xs) ++ CRLF) ++ concat (encode_bulk <$> xs) ++ [])
      by (by rewrite app_nil_r, <- !app_assoc).
    apply (appends_seq 1).
    + apply write_begin_array_appends.
    + apply (appends_seq 0).
      * apply (array_items_appends xs []).
      * intros rb Hwf Hfit H64. exists rb. simpl. by rewrite app_nil_r, Z.add_0_r.
      * destruct xs; simpl; lia.
      * destruct xs; simpl; lia.
    + destruct xs; simpl; lia.
    + rewrite app_nil_r. destruct xs as [|x xs]; simpl; [lia|]. lia.
Qed.

(** C21: a reply helper appends to the client's output buffer exactly the RESP
    encoding of the reply, for every kind of reply (simple string, error,
    integer, bulk string, null, array of bulk strings), when the buffer has
    room for it: nothing else in the queue changes, nothing is accessed outside
    the mapping, also when the encoding wraps around the end of the buffer. *)
Theorem add_reply_encodes r rb :
  resp_ok r → rb_wf rb → zlen (encode r) + slack_of r ≤ size rb - zlen (contents rb) →
  write_index rb + zlen (encode r) < 2 ^ 64 →
  ∃ rb', add_reply r rb = Ok (tt, rb') ∧ rb_wf rb' ∧ contents rb' = contents rb ++ encode r.
Proof.
  intros Hok Hwf Hfit H64.
  destruct (add_reply_appends r Hok rb Hwf Hfit H64) as (rb' & ? & ? & ? & _). eauto.
Qed.

(** A buffer of eight bytes holding [q], whose first byte is at index 6. *)
Definition small_rb (q : bytes) : ring_buffer :=
  RingBuffer 6 (6 + zlen q)
    (Some (ring_write (replicate 8 NUL) 6 q)) 8 3.

Lemma add_reply_encodes_witness :
  ∃ rb', add_reply (RSimple (lit "OK")) (small_rb (lit "abc")) = Ok (tt, rb') ∧
    contents rb' = lit "abc+OK" ++ CRLF.
Proof.
  destruct (add_reply_encodes (RSimple (lit "OK")) (small_rb (lit "abc"))) as (rb' & H1 & _ & H2).
  - exact I.
  - constructor; simpl; try lia. eexists. split; [reflexivity|reflexivity].
  - vm_compute. discriminate.
  - vm_compute. reflexivity.
  - exists rb'. split; [exact H1|exact H2].
Defined.

(** [write_chars] does not stop when the string does not fit.  On a full
    output buffer it overwrites the oldest queued bytes, which the client then
    receives in place of the reply they belonged to. *)
Theorem write_chars_overwrites_queue s rb :
  rb_wf rb → zlen (contents rb) = size rb → 0 < zlen s ≤ size rb →
  ∃ rb', write_chars s rb = Ok (tt, rb') ∧ contents rb' = s ++ drop (length s) (contents rb).
Proof.
  intros Hwf Hfull Hs. pose proof (contents_length rb Hwf) as Hcl.
  pose proof Hwf as [Hfd (W & HW & HlW) Hsz Ho Hf H64].
  pose proof (Z.mod_pos_bound (write_index rb) (size rb) ltac:(lia)) as Hm.
  assert (write_index rb mod size rb = read_index rb mod size rb) as Hmod.
  { replace (write_index rb) with (read_index rb + 1 * size rb) by lia. apply Z_mod_plus_full. }
  set (rb1 := rb_with_region rb (ring_write W (read_index rb) s)).
  assert (rb_wf rb1) as Hwf1.
  { constructor; simpl; auto. eexists. split; [done|]. by rewrite length_ring_write. }
  assert (contents rb1 = s ++ drop (length s) (contents rb)) as Hc1.
  { unfold contents, rb1. simpl. rewrite HW.
    replace (write_index rb - read_index rb) with (zlen s + (size rb - zlen s)) by lia.
    rewrite !ring_slice_app by lia. rewrite ring_slice_written by lia. f_equal.
    rewrite drop_app_length' by (apply Nat2Z.inj; by rewrite zlen_ring_slice by lia).
    apply ring_slice_ext. intros k Hk. apply ring_write_out; [lia|].
    intros j Hj. apply mod_close; lia. }
  exists rb1. split; [|done]. unfold write_chars.
  erewrite st_bind_ok by (by apply writable_ok). cbv beta iota.
  erewrite st_bind_ok; last first.
  { unfold copy_to, rb_store. rewrite HW. rewrite !(proj2 (Z.leb_le _ _)) by lia. simpl.
    rewrite (ring_write_mod W _ (read_index rb)) by (rewrite ?HlW, ?Z.mod_mod by lia; lia || done).
    reflexivity. }
  fold rb1. unfold advance. rewrite rb_write_too_much; [done|done|].
  change (size rb - zlen (contents rb1) < zlen s). rewrite Hc1, zlen_app, length_drop. simpl. lia.
Qed.

Lemma write_chars_overwrites_queue_witness :
  ∃ rb', write_chars (lit "XY") (small_rb (lit "abcdefgh")) = Ok (tt, rb') ∧
    contents rb' = lit "XYcdefgh".
Proof.
  destruct (write_chars_overwrites_queue (lit "XY") (small_rb (lit "abcdefgh"))) as (rb' & H1 & H2).
  - constructor; simpl; try lia. eexists. split; [reflexivity|reflexivity].
  - vm_compute. reflexivity.
  - simpl. lia.
  - exists rb'. split; [exact H1|exact H2].
Defined.

(** The header of an empty array, written into a region of exactly its
    size, loses its last byte to the terminator of [snprintf]: the client reads
    a NUL where the line feed should be. *)
Theorem write_begin_array_exact_fit :
  match write_begin_array 0 (small_rb (lit "abcd")) with
  | Ok (_, rb) => contents rb = lit "abcd" ++ lit "*0" ++ [CR; NUL]
  | Stop _ => False
  end.
Proof. vm_compute. reflexivity. Qed.
