(* ===== verification/Rdb.v ===== *)
(** * [src/src/rdb.c]

    The snapshot file: its strings, writing the keyspace and loading it back.
    A file open for reading is the bytes that are left; a file being written
    is the bytes so far.  Writes to an open file succeed. *)

From S2P Require Import Prelude CLib Util LinkedList Khash KhashMap Database.

Definition b_val (n : Z) : byte := byte_of (uwrap 8 n).

(** [fgetc]: [None] is EOF. *)
Definition fgetc (f : bytes) : option Z * bytes :=
  match f with [] => (None, []) | c :: f' => (Some (byte_val c), f') end.

(** [fread] of [n] bytes: what was read, less than [n] bytes at the end. *)
Definition fread (n : Z) (f : bytes) : bytes * bytes := (take (Z.to_nat n) f, drop (Z.to_nat n) f).

(** ** Strings *)

(** The big-endian length loop: [char byte = fgetc(file)] compared with EOF,
    which a byte 0xFF is equal to.  [None]: return NULL. *)
Fixpoint read_len32 (n : nat) (len : Z) (f : bytes) : option Z * bytes :=
  match n with
  | O => (Some len, f)
  | S n' =>
      let '(b, f) := fgetc f in
      match b with
      | None => (None, f)
      | Some b => if s8 b =? -1 then (None, f)
                  else read_len32 n' (s32 (Z.lor (Z.shiftl len 8) b)) f
      end
  end.

Fixpoint read_le (n : nat) (i val : Z) (f : bytes) : option Z * bytes :=
  match n with
  | O => (Some val, f)
  | S n' =>
      let '(b, f) := fgetc f in
      match b with
      | None => (None, f)
      | Some b => read_le n' (i + 1) (Z.lor val (u32 (Z.shiftl b (8 * i)))) f
      end
  end.

(** The end of the function: [malloc(len + 1)] (which a negative size fails)
    and the characters; the caller sees a C string. *)
Definition read_chars (len : Z) (f : bytes) : option bytes * bytes :=
  if len <? 0 then (None, f)
  else
    let '(str, f) := fread len f in
    if zlen str =? len then (Some (cstr str), f) else (None, f).

Definition int_string (v : Z) : option bytes := Some (cstr (snprintf 32 (fmt_ld v))).

Definition read_rdb_string (f : bytes) : option bytes * bytes :=
  let '(first, f) := fgetc f in
  match first with
  | None => (None, f)
  | Some first_byte =>
      let type := Z.shiftr first_byte 6 in
      let low := Z.land first_byte 63 in
      if type =? 0 then read_chars low f
      else if type =? 1 then
        let '(second, f) := fgetc f in
        match second with
        | None => (None, f)
        | Some second => read_chars (Z.lor (Z.shiftl low 8) second) f
        end
      else if type =? 2 then
        let '(len, f) := read_len32 4 0 f in
        match len with None => (None, f) | Some len => read_chars len f end
      else if low =? 0 then
        let '(val, f) := fgetc f in
        match val with None => (None, f) | Some val => (int_string (s8 val), f) end
      else if low =? 1 then
        let '(lo, f) := fgetc f in
        let '(hi, f) := fgetc f in
        match lo, hi with
        | Some lo, Some hi => (int_string (s16 (Z.lor (Z.shiftl hi 8) lo)), f)
        | _, _ => (None, f)
        end
      else if low =? 2 then
        let '(val, f) := read_le 4 0 0 f in
        match val with None => (None, f) | Some val => (int_string (s32 val), f) end
      else (None, f)
  end.

(** The bytes appended and the code returned. *)
Definition write_rdb_string (str : bytes) : bytes * Z :=
  let len := s32 (zlen str) in
  let r := strtol str in
  let value := st_value r in
  let is_int := st_end r =? zlen str in
  if is_int && (-128 <=? value) && (value <=? 127) then ([b_val 192; b_val value], 2)
  else if is_int && (-32768 <=? value) && (value <=? 32767)
  then ([b_val 193; b_val (Z.land value 255); b_val (Z.land (Z.shiftr value 8) 255)], 3)
  else if is_int && (INT_MIN <=? value) && (value <=? INT_MAX)
  then (b_val 194 :: ((λ i, b_val (Z.land (Z.shiftr value (8 * i)) 255)) <$> seqZ 0 4), 5)
  else if len <=? 63 then (b_val len :: str, 1 + len)
  else if len <=? 16383 then
    let header := Z.lor (Z.shiftl 1 14) len in
    (b_val (Z.land (Z.shiftr header 8) 255) :: b_val (Z.land header 255) :: str, 2 + len)
  else
    (b_val (Z.shiftl 2 6) ::
       ((λ i, b_val (Z.land (Z.shiftr (u32 len) (8 * i)) 255)) <$> [3; 2; 1; 0]) ++ str, 5 + len).

(** ** Saving *)

(** What the operating system answers, and the files it keeps. *)
Record os_files := OsFiles {
  files : gmap bytes bytes;
  mkdir_ok : bool;       (* created, or already there *)
  fopen_w_ok : bool;
  path_malloc_ok : bool
}.

Definition le_bytes (n : nat) (v : Z) : bytes :=
  (λ i, b_val (Z.land (Z.shiftr v (8 * i)) 255)) <$> seqZ 0 (Z.of_nat n).

Definition save_value (key : bytes) (val : RedisValue) : bytes :=
  (if 0 <? expiration val then b_val 252 :: le_bytes 8 (u64 (expiration val)) else []) ++
  match rv_data val with
  | TYPE_STRING str => b_val 0 :: (write_rdb_string key).1 ++ (write_rdb_string str).1
  | TYPE_LIST _ => []
  end.

(** The loop over the buckets, from the [k]-th on. *)
Fixpoint save_buckets (h : khash RedisValue) (ks : list Z) : res bytes :=
  match ks with
  | [] => Ok []
  | k :: ks' =>
      out ← (if negb (kh_exist h k) then Ok []
             else key ← kh_key h k; val ← kh_value h k; Ok (save_value key val));
      rest ← save_buckets h ks';
      Ok (out ++ rest)
  end.

Definition rdb_header : bytes := lit "REDIS0012".

Definition rdb_image (d : redis_db_t) : res bytes :=
  body ← save_buckets (db_h d) (seqZ 0 (kh_end (db_h d)));
  Ok (rdb_header ++ [b_val 250; b_val 254; b_val 251; b_val (key_count d); b_val (expiry_count d)] ++
      body ++ [b_val 255]).

Definition rdb_save_data_to_file (d : redis_db_t) (dir filename : bytes) (os : os_files) :
    res (bool * os_files) :=
  let path := construct_file_path (path_malloc_ok os) dir filename in
  if negb (mkdir_ok os) then Ok (false, os)
  else
    match path with
    | None => Stop BadAccess
    | Some path =>
        if negb (fopen_w_ok os) then Stop BadAccess   (* the NULL stream is written to *)
        else
          image ← rdb_image d;
          Ok (true, OsFiles (<[path := image]> (files os)) (mkdir_ok os) (fopen_w_ok os)
                      (path_malloc_ok os))
    end.

(** ** Loading *)

Abbreviation loadM := (st (mem * bytes)).

Definition rd {A} (f : bytes → A * bytes) : loadM A := λ '(m, b),
  let '(a, b') := f b in Ok (a, (m, b')).
Definition on_mem {A} (f : dbM A) : loadM A := λ '(m, b),
  match f m with Ok (a, m') => Ok (a, (m', b)) | Stop e => Stop e end.

(** How a part of the loader ends: go on, or return this code. *)
Abbreviation Go := None (only parsing).
Abbreviation Return rc := (Some rc) (only parsing).

(** The metadata section: pairs of strings up to 0xFE. *)
Fixpoint load_metadata (fuel : nat) : loadM (option Z) :=
  match fuel with
  | O => stop OutOfFuel
  | S fuel' =>
      f ← gets snd;
      next ← rd fgetc;
      match next with
      | None => mret (Return 1)
      | Some c =>
          if c =? 254 then mret Go
          else
            _ ← modify (λ '(m, _), (m, f));   (* ungetc *)
            key ← rd read_rdb_string;
            match key with
            | None => mret Go
            | Some _ =>
                value ← rd read_rdb_string;
                match value with None => mret Go | Some _ => load_metadata fuel' end
            end
      end
  end.

Definition le_val (b : bytes) : Z := foldr (λ c v, byte_val c + 256 * v) 0 b.

(** One key-value pair of the hash table section. *)
Definition load_pair : loadM (option Z) :=
  type ← rd fgetc;
  match type with
  | None => mret (Return 1)
  | Some t =>
      (* the expiration, if there is one, then the type byte *)
      r ← (if t =? 253 then
             seconds ← rd (fread 4);
             if zlen seconds =? 4 then
               type ← rd fgetc; mret (Some (u32 (le_val seconds * 1000), type))
             else mret None
           else if t =? 252 then
             milliseconds ← rd (fread 8);
             if zlen milliseconds =? 8 then
               type ← rd fgetc; mret (Some (le_val milliseconds, type))
             else mret None
           else mret (Some (0, Some t)));
      match r with
      | None => mret (Return 1)
      | Some (expire_time, type) =>
          if bool_decide (type = Some 0) then
            key ← rd read_rdb_string;
            match key with
            | None => mret (Return 1)
            | Some key =>
                value ← rd read_rdb_string;
                match value with
                | None => mret (Return 1)
                | Some value =>
                    _ ← on_mem (redis_db_set key (TYPE_STRING value) (s64 expire_time));
                    mret Go
                end
            end
          else mret Go
      end
  end.

Fixpoint load_pairs (n : nat) : loadM (option Z) :=
  match n with
  | O => mret Go
  | S n' => r ← load_pair; match r with Some rc => mret (Return rc) | None => load_pairs n' end
  end.

(** The section loop; every turn reads a byte. *)
Fixpoint load_sections (fuel : nat) : loadM Z :=
  match fuel with
  | O => stop OutOfFuel
  | S fuel' =>
      opcode ← rd fgetc;
      match opcode with
      | None => mret 0
      | Some op =>
          if op =? 250 then
            f ← gets snd;
            r ← load_metadata (S (length f));
            match r with Some rc => mret rc | None => load_sections fuel' end
          else if op =? 251 then
            kv_size ← rd fgetc;
            exp_size ← rd fgetc;
            match kv_size, exp_size with
            | Some n, Some _ =>
                r ← load_pairs (Z.to_nat n);
                match r with Some rc => mret rc | None => load_sections fuel' end
            | _, _ => mret 1
            end
          else if op =? 254 then
            db_index ← rd fgetc;
            mret (match db_index with None => 1 | Some _ => 0 end)
          else if op =? 255 then mret 0
          else load_sections fuel'
      end
  end.

Definition rdb_load_data_from_file (os : os_files) (dir filename : bytes) : dbM Z := λ m,
  match construct_file_path (path_malloc_ok os) dir filename with
  | None => Stop BadAccess
  | Some path =>
      match files os !! path with
      | None => Ok (-1, m)
      | Some f =>
          let '(buf, f) := fread 9 f in
          if negb (zlen buf =? 9) then Ok (1, m)
          else if negb (bool_decide (cstr buf = rdb_header)) then Ok (1, m)
          else match load_sections (S (length f)) (m, f) with
               | Ok (rc, (m', _)) => Ok (rc, m')
               | Stop e => Stop e
               end
      end
  end.

(** ** Bytes of integers *)

Lemma b_val_val n : byte_val (b_val n) = n mod 256.
Proof. unfold b_val, uwrap. rewrite byte_val_of. change (2 ^ 8) with 256. by rewrite Z.mod_mod. Qed.

Lemma lor_shift a b k : 0 ≤ k → 0 ≤ b < 2 ^ k → Z.lor (Z.shiftl a k) b = a * 2 ^ k + b.
Proof.
  intros Hk Hb. assert (Z.land (Z.shiftl a k) b = 0) as Hd.
  { apply Z.bits_inj'. intros i Hi. rewrite Z.land_spec, Z.bits_0, Z.shiftl_spec by done.
    destruct (decide (i < k)).
    - by rewrite (Z.testbit_neg_r a) by lia.
    - rewrite <- (Z.mod_small b (2 ^ k)) by lia. rewrite Z.mod_pow2_bits_high by lia.
      by rewrite andb_false_r. }
  rewrite <- Z.lxor_lor, <- Z.add_nocarry_lxor by done. by rewrite Z.shiftl_mul_pow2.
Qed.

Lemma land_255 x : Z.land x 255 = x mod 256.
Proof. change 255 with (Z.ones 8). by rewrite Z.land_ones. Qed.

(** The byte of weight [256^i] of [v], as both encoders write it. *)
Lemma byte_at_val v i : 0 ≤ i → byte_val (b_val (Z.land (Z.shiftr v (8 * i)) 255)) = v / 256 ^ i mod 256.
Proof.
  intros Hi. rewrite b_val_val, land_255, Z.mod_mod, Z.shiftr_div_pow2 by lia.
  rewrite Z.pow_mul_r by lia. done.
Qed.

Lemma fgetc_cons c f : fgetc (c :: f) = (Some (byte_val c), f).
Proof. done. Qed.

Lemma read_chars_app str rest :
  no_nul str → read_chars (zlen str) (str ++ rest) = (Some str, rest).
Proof.
  intros Hs. unfold read_chars, fread. rewrite (proj2 (Z.ltb_ge _ _)), Nat2Z.id by lia.
  rewrite take_app_length, drop_app_length, Z.eqb_refl. by rewrite cstr_id.
Qed.

Lemma int_string_eq v : LONG_MIN ≤ v ≤ LONG_MAX → int_string v = Some (fmt_ld v).
Proof.
  intros Hv. unfold int_string. pose proof (fmt_ld_length v Hv).
  rewrite snprintf_fits by lia. by rewrite cstr_term by apply fmt_ld_no_nul.
Qed.

(** The lowest byte of a number and the others. *)
Lemma low_byte x n : 0 ≤ n → x mod 256 ^ (n + 1) = x mod 256 + 256 * (x / 256 mod 256 ^ n).
Proof.
  intros Hn. rewrite Z.pow_add_r, Z.mul_comm by lia. change (256 ^ 1) with 256.
  apply Z.rem_mul_r; lia.
Qed.

(** Bytes, least significant first, make the number. *)
Lemma read_le_bytes n i v val f :
  0 ≤ i → i + Z.of_nat n ≤ 4 → 0 ≤ val < 256 ^ i →
  read_le n i val (((λ i, b_val (Z.land (Z.shiftr v (8 * i)) 255)) <$> seqZ i (Z.of_nat n)) ++ f) =
    (Some (val + v / 256 ^ i mod 256 ^ Z.of_nat n * 256 ^ i), f).
Proof.
  revert i val. induction n as [|n IH]; intros i val Hi Hn Hval.
  - change (256 ^ Z.of_nat 0) with 1. rewrite Z.mod_1_r, Z.mul_0_l, Z.add_0_r. done.
  - rewrite seqZ_cons by lia. cbn [fmap list_fmap app read_le]. rewrite fgetc_cons, byte_at_val by done.
    pose proof (Z.mod_pos_bound (v / 256 ^ i) 256 ltac:(lia)) as Hb.
    assert (2 ^ (8 * i) = 256 ^ i) as Hp by (by rewrite Z.pow_mul_r by lia).
    assert (256 ^ (i + 1) = 256 ^ i * 256) as Hp1 by (by rewrite Z.pow_add_r by lia).
    assert (256 ^ (i + 1) ≤ 2 ^ 32) as Hmax.
    { change (2 ^ 32) with (256 ^ 4). apply Z.pow_le_mono_r; lia. }
    assert (u32 (Z.shiftl (v / 256 ^ i mod 256) (8 * i)) = Z.shiftl (v / 256 ^ i mod 256) (8 * i)) as ->.
    { apply uwrap_small. rewrite Z.shiftl_mul_pow2 by lia. nia. }
    rewrite Z.lor_comm, lor_shift by lia. rewrite Hp.
    replace (Z.pred (Z.of_nat (S n))) with (Z.of_nat n) by lia.
    change (Z.succ i) with (i + 1). rewrite IH by nia. f_equal. f_equal.
    replace (Z.of_nat (S n)) with (Z.of_nat n + 1) by lia. rewrite low_byte by lia.
    rewrite Z.div_div, <- Hp1 by lia. nia.
Qed.

Lemma read_le_word v f :
  read_le 4 0 0 (((λ i, b_val (Z.land (Z.shiftr v (8 * i)) 255)) <$> seqZ 0 4) ++ f) =
    (Some (u32 v), f).
Proof.
  change (seqZ 0 4) with (seqZ 0 (Z.of_nat 4)). rewrite read_le_bytes by (simpl; lia). f_equal. f_equal.
  change (256 ^ 0) with 1. rewrite Z.div_1_r, Z.mul_1_r. done.
Qed.

(** Four bytes, most significant first, none of them 0xFF. *)
Lemma read_len32_word len f :
  0 ≤ len < 2 ^ 31 → (∀ i, 0 ≤ i < 4 → len / 256 ^ i mod 256 ≠ 255) →
  read_len32 4 0 (((λ i, b_val (Z.land (Z.shiftr (u32 len) (8 * i)) 255)) <$> [3; 2; 1; 0]) ++ f) =
    (Some len, f).
Proof.
  intros Hlen Hff. rewrite (uwrap_small 32) by lia.
  cbn [fmap list_fmap app read_len32]. rewrite !fgetc_cons, !byte_at_val by lia.
  assert (∀ i, 0 ≤ i < 4 → s8 (len / 256 ^ i mod 256) =? -1 = false) as Hs8.
  { intros i Hi. specialize (Hff i Hi). apply Z.eqb_neq.
    pose proof (Z.mod_pos_bound (len / 256 ^ i) 256 ltac:(lia)).
    unfold swrap. change (2 ^ 8) with 256. change (2 ^ (8 - 1)) with 128. intros Hc.
    destruct (decide (len / 256 ^ i mod 256 < 128)); [rewrite Z.mod_small in Hc by lia; lia|].
    rewrite <- (Z_mod_plus_full _ (-1)), Z.mod_small in Hc by lia. lia. }
  assert (∀ i, 0 ≤ i < 4 →
    s32 (Z.lor (Z.shiftl (len / 256 ^ (i + 1)) 8) (len / 256 ^ i mod 256)) = len / 256 ^ i) as Hstep.
  { intros i Hi. pose proof (Z.mod_pos_bound (len / 256 ^ i) 256 ltac:(lia)).
    rewrite lor_shift by lia. rewrite Z.pow_add_r, <- Z.div_div by lia.
    change (256 ^ 1) with 256. change (2 ^ 8) with 256. rewrite Z.mul_comm, <- Z.div_mod by lia.
    apply swrap_small; [|lia]. pose proof (Z.div_pos len (256 ^ i)).
    assert (len / 256 ^ i ≤ len) by (apply Z.div_le_upper_bound; nia).
    change (2 ^ (32 - 1)) with (2 ^ 31). lia. }
  rewrite !Hs8 by lia.
  assert (len / 256 ^ (3 + 1) = 0) as H4 by (apply Z.div_small; simpl; lia).
  rewrite <- H4 at 1. rewrite Hstep by lia. change 3 with (2 + 1) at 1. rewrite Hstep by lia.
  change 2 with (1 + 1) at 1. rewrite Hstep by lia. change 1 with (0 + 1) at 1. rewrite Hstep by lia.
  change (256 ^ 0) with 1. by rewrite Z.div_1_r.
Qed.

(** ** Strings: round trip *)

(** The strings written as integers, and what is read back for a string. *)
Definition rdb_int (str : bytes) : bool :=
  (st_end (strtol str) =? zlen str) &&
  (INT_MIN <=? st_value (strtol str)) && (st_value (strtol str) <=? INT_MAX).
Definition rdb_normal (str : bytes) : bytes :=
  if rdb_int str then fmt_ld (st_value (strtol str)) else str.

(** Lengths the loader reads: the 32-bit ones have no byte 0xFF. *)
Definition len_readable (n : Z) : bool :=
  (n <=? 16383) || forallb (λ i, negb (n / 256 ^ i mod 256 =? 255)) [0; 1; 2; 3].

Definition rdb_string_ok (str : bytes) : Prop :=
  no_nul str ∧ zlen str < 2 ^ 31 ∧ (rdb_int str = false → len_readable (zlen str) = true).

Lemma read_int str rest :
  rdb_int str = true →
  read_rdb_string ((write_rdb_string str).1 ++ rest) = (Some (fmt_ld (st_value (strtol str))), rest).
Proof.
  unfold rdb_int, write_rdb_string. set (v := st_value (strtol str)).
  destruct (st_end (strtol str) =? zlen str); [|done]. cbn [andb]. intros Hv. rewrite Hv.
  apply andb_true_iff in Hv as [H1%Z.leb_le H2%Z.leb_le]. unfold INT_MIN, INT_MAX in *.
  destruct ((-128 <=? v) && (v <=? 127)) eqn:E8; [zbool|clear E8;
    destruct ((-32768 <=? v) && (v <=? 32767)) eqn:E16; [zbool|clear E16]];
    unfold read_rdb_string; cbn [fst app]; rewrite fgetc_cons, b_val_val.
  - change (Z.shiftr (192 mod 256) 6 =? 0) with false. change (Z.shiftr (192 mod 256) 6 =? 1) with false.
    change (Z.shiftr (192 mod 256) 6 =? 2) with false. change (Z.land (192 mod 256) 63 =? 0) with true.
    cbn match zeta beta. rewrite fgetc_cons, b_val_val. change (v mod 256) with (uwrap 8 v).
    rewrite swrap_uwrap, swrap_small by lia. rewrite int_string_eq; [done|]. unfold LONG_MIN, LONG_MAX. lia.
  - change (Z.shiftr (193 mod 256) 6 =? 0) with false. change (Z.shiftr (193 mod 256) 6 =? 1) with false.
    change (Z.shiftr (193 mod 256) 6 =? 2) with false. change (Z.land (193 mod 256) 63 =? 0) with false.
    change (Z.land (193 mod 256) 63 =? 1) with true.
    cbn match zeta beta. cbn [fgetc].
    change 8 with (8 * 1) at 1. rewrite byte_at_val by lia.
    replace (byte_val (b_val (Z.land v 255))) with (v mod 256)
      by (by rewrite b_val_val, land_255, Z.mod_mod).
    rewrite lor_shift by (pose proof (Z.mod_pos_bound v 256); lia).
    change (2 ^ 8) with 256. change (256 ^ 1) with 256.
    replace (v / 256 mod 256 * 256 + v mod 256) with (uwrap 16 v).
    + rewrite swrap_uwrap, swrap_small by lia. rewrite int_string_eq; [done|].
      unfold LONG_MIN, LONG_MAX. lia.
    + unfold uwrap. change (2 ^ 16) with (256 ^ (1 + 1)). rewrite low_byte by lia.
      change (256 ^ 1) with 256. lia.
  - change (Z.shiftr (194 mod 256) 6 =? 0) with false. change (Z.shiftr (194 mod 256) 6 =? 1) with false.
    change (Z.shiftr (194 mod 256) 6 =? 2) with false. change (Z.land (194 mod 256) 63 =? 0) with false.
    change (Z.land (194 mod 256) 63 =? 1) with false. change (Z.land (194 mod 256) 63 =? 2) with true.
    cbn match zeta beta. rewrite read_le_word.
    rewrite swrap_uwrap, swrap_small by lia. rewrite int_string_eq; [done|].
    unfold LONG_MIN, LONG_MAX. lia.
Qed.

Lemma write_not_int str :
  rdb_int str = false → zlen str < 2 ^ 31 →
  write_rdb_string str =
    if zlen str <=? 63 then (b_val (zlen str) :: str, 1 + zlen str)
    else if zlen str <=? 16383 then
      (b_val (Z.land (Z.shiftr (Z.lor (Z.shiftl 1 14) (zlen str)) 8) 255) ::
       b_val (Z.land (Z.lor (Z.shiftl 1 14) (zlen str)) 255) :: str, 2 + zlen str)
    else
      (b_val (Z.shiftl 2 6) ::
         ((λ i, b_val (Z.land (Z.shiftr (u32 (zlen str)) (8 * i)) 255)) <$> [3; 2; 1; 0]) ++ str,
       5 + zlen str).
Proof.
  unfold rdb_int, write_rdb_string. set (v := st_value (strtol str)). intros Hi Hl.
  rewrite (swrap_small 32) by lia. unfold INT_MIN, INT_MAX in *.
  destruct (st_end (strtol str) =? zlen str); [|done]. cbn [andb] in *. rewrite Hi.
  apply andb_false_iff in Hi.
  assert ((-128 <=? v) && (v <=? 127) = false) as ->.
  { apply andb_false_iff. destruct Hi as [?%Z.leb_gt|?%Z.leb_gt]; [left|right]; apply Z.leb_gt; lia. }
  assert ((-32768 <=? v) && (v <=? 32767) = false) as ->; [|done].
  apply andb_false_iff. destruct Hi as [?%Z.leb_gt|?%Z.leb_gt]; [left|right]; apply Z.leb_gt; lia.
Qed.

Lemma read_write_string str rest :
  rdb_string_ok str →
  read_rdb_string ((write_rdb_string str).1 ++ rest) = (Some (rdb_normal str), rest).
Proof.
  intros (Hnul & Hlen & Hff). unfold rdb_normal. destruct (rdb_int str) eqn:Ei; [by apply read_int|].
  specialize (Hff eq_refl). rewrite write_not_int by done. set (n := zlen str) in *.
  destruct (Z.leb_spec n 63); [|destruct (Z.leb_spec n 16383)];
    unfold read_rdb_string; cbn [fst app]; rewrite fgetc_cons.
  - rewrite b_val_val, Z.mod_small by lia.
    assert (Z.shiftr n 6 = 0) as -> by (rewrite Z.shiftr_div_pow2 by lia; apply Z.div_small; lia).
    change 63 with (Z.ones 6). rewrite Z.land_ones, Z.mod_small by lia.
    by apply read_chars_app.
  - pose proof (Z.div_lt_upper_bound n 256 64 ltac:(lia) ltac:(lia)).
    pose proof (Z.div_pos n 256 ltac:(lia) ltac:(lia)).
    rewrite lor_shift by lia. change (1 * 2 ^ 14) with (64 * 256).
    assert (byte_val (b_val (Z.land (Z.shiftr (64 * 256 + n) 8) 255)) = 64 + n / 256) as ->.
    { pose proof (byte_at_val (64 * 256 + n) 1 ltac:(lia)) as Hb. change (8 * 1) with 8 in Hb.
      rewrite Hb. change (256 ^ 1) with 256. rewrite Z.div_add_l by lia. apply Z.mod_small. lia. }
    assert (Z.shiftr (64 + n / 256) 6 = 1) as ->.
    { rewrite Z.shiftr_div_pow2 by lia. symmetry. apply (Z.div_unique _ _ _ (n / 256)); lia. }
    change 63 with (Z.ones 6). rewrite Z.land_ones by lia.
    assert ((64 + n / 256) mod 2 ^ 6 = n / 256) as ->.
    { rewrite Z.add_comm. change 64 with (1 * 2 ^ 6). rewrite Z_mod_plus_full. apply Z.mod_small. lia. }
    cbn match zeta beta. rewrite fgetc_cons, b_val_val, land_255, Z.mod_mod by lia.
    rewrite Z.add_comm, Z_mod_plus_full. pose proof (Z.mod_pos_bound n 256).
    rewrite lor_shift by lia. change (2 ^ 8) with 256.
    rewrite Z.mul_comm, <- Z.div_mod by lia. by apply read_chars_app.
  - rewrite b_val_val. change (Z.shiftr (Z.shiftl 2 6 mod 256) 6 =? 0) with false.
    change (Z.shiftr (Z.shiftl 2 6 mod 256) 6 =? 1) with false.
    change (Z.shiftr (Z.shiftl 2 6 mod 256) 6 =? 2) with true. cbn match zeta beta.
    rewrite <- app_assoc, read_len32_word; [by apply read_chars_app|lia|].
    intros i Hi. unfold len_readable in Hff. rewrite (proj2 (Z.leb_gt _ _)) in Hff by lia. cbn [orb] in Hff.
    rewrite forallb_forall in Hff. specialize (Hff i). rewrite negb_true_iff, Z.eqb_neq in Hff.
    apply Hff. simpl. lia.
Qed.

Lemma write_rdb_length str :
  zlen str < 2 ^ 31 → (write_rdb_string str).2 = zlen (write_rdb_string str).1.
Proof.
  intros Hl. destruct (rdb_int str) eqn:Ei.
  - unfold rdb_int, write_rdb_string in *. destruct (_ =? zlen str); [|done]. cbn [andb] in *. rewrite Ei.
    set (v := st_value (strtol str)) in *. destruct ((-128 <=? v) && (v <=? 127)); [done|].
    by destruct ((-32768 <=? v) && (v <=? 32767)).
  - rewrite write_not_int by done. destruct (_ <=? 63); [simpl length; simpl; lia|].
    destruct (_ <=? 16383); simpl length; simpl; lia.
Qed.

(** A string written to the snapshot is read back, exactly its bytes of
    the file are consumed, and their number is the result of the writer.  A
    string that spells an integer of 32 bits comes back as the decimal text of
    its value, every other string unchanged. *)
Theorem rdb_string_roundtrip str rest :
  rdb_string_ok str →
  read_rdb_string ((write_rdb_string str).1 ++ rest) = (Some (rdb_normal str), rest) ∧
  (write_rdb_string str).2 = zlen (write_rdb_string str).1 ∧
  (rdb_int str = false ∨ canonical_int str = true → rdb_normal str = str).
Proof.
  intros Hok. split_and!; [by apply read_write_string|by apply write_rdb_length, Hok|].
  unfold rdb_normal. intros [->|Hc]; [done|]. destruct (rdb_int str); [|done].
  unfold canonical_int in Hc. by apply bool_decide_eq_true in Hc.
Qed.

Lemma rdb_string_roundtrip_witness :
  read_rdb_string ((write_rdb_string (lit "-12345")).1 ++ lit "rest") =
    (Some (lit "-12345"), lit "rest").
Proof.
  destruct (rdb_string_roundtrip (lit "-12345") (lit "rest")) as (H & _ & Hn).
  - split_and!; [unfold no_nul; set_solver|vm_compute; reflexivity|vm_compute; discriminate].
  - rewrite H, Hn; [reflexivity|]. right. vm_compute. reflexivity.
Defined.

(** The integer encoding changes strings that only look like integers: a
    leading zero, a sign or spaces are lost, and the empty string becomes 0. *)
Theorem rdb_integer_strings_change :
  (λ s, (read_rdb_string (write_rdb_string s).1).1) <$>
    [[]; lit "007"; lit "+5"; lit " 12"; lit "-0"] =
  [Some (lit "0"); Some (lit "7"); Some (lit "5"); Some (lit "12"); Some (lit "0")].
Proof. vm_compute. reflexivity. Qed.

(** The loader takes a length byte 0xFF for the end of the file.  A string
    of at least 16384 characters whose length has such a byte is written but
    cannot be read back. *)
Theorem rdb_long_string_unreadable str rest :
  rdb_int str = false → 16384 ≤ zlen str < 2 ^ 31 → zlen str mod 256 = 255 →
  (read_rdb_string ((write_rdb_string str).1 ++ rest)).1 = None.
Proof.
  intros Hi Hl Hff. rewrite write_not_int by (done || lia).
  rewrite !(proj2 (Z.leb_gt _ _)) by lia.
  unfold read_rdb_string. cbn [fst app]. rewrite fgetc_cons, b_val_val.
  change (Z.shiftr (Z.shiftl 2 6 mod 256) 6 =? 0) with false.
  change (Z.shiftr (Z.shiftl 2 6 mod 256) 6 =? 1) with false.
  change (Z.shiftr (Z.shiftl 2 6 mod 256) 6 =? 2) with true. cbn match zeta beta.
  rewrite (uwrap_small 32) by lia.
  assert (byte_val (b_val (Z.land (Z.shiftr (zlen str) (8 * 0)) 255)) = 255) as H0
    by (rewrite byte_at_val by lia; change (256 ^ 0) with 1; by rewrite Z.div_1_r).
  cbn [fmap list_fmap app read_len32 fgetc]. rewrite H0. change (s8 255 =? -1) with true. cbn match.
  by repeat case_match; simplify_eq.
Qed.

Lemma rdb_long_string_unreadable_witness :
  (read_rdb_string (write_rdb_string (replicate 16639 (byte_of 97))).1).1 = None.
Proof.
  rewrite <- (app_nil_r (write_rdb_string _).1).
  apply rdb_long_string_unreadable; vm_compute; [reflexivity|split; [discriminate|reflexivity]|reflexivity].
Defined.

(** ** The image of a keyspace *)

Lemma save_buckets_ok h (f : Z → option (bytes * RedisValue)) ks :
  (∀ i, i ∈ ks →
     match f i with Some (k, v) => at_bucket h i k v | None => kh_exist h i = false end) →
  save_buckets h ks = Ok (concat (uncurry save_value <$> omap f ks)).
Proof.
  induction ks as [|i ks IH]; intros Hf; [done|]. rewrite omap_cons. cbn [save_buckets].
  specialize (IH (λ j Hj, Hf j (list_elem_of_further _ _ _ Hj))).
  pose proof (Hf i (list_elem_of_here _ _)) as Hi. destruct (f i) as [[k v]|].
  - destruct Hi as (_ & -> & Hk & Hv & _). rewrite Hk. simpl. rewrite Hv. simpl. by rewrite IH.
  - rewrite Hi. simpl. by rewrite IH.
Qed.

Lemma rdb_image_ok d M :
  kh_repr (db_h d) M → ∃ kvs, kvs ≡ₚ map_to_list M ∧
    rdb_image d = Ok (rdb_header ++
      [b_val 250; b_val 254; b_val 251; b_val (key_count d); b_val (expiry_count d)] ++
      concat (uncurry save_value <$> kvs) ++ [b_val 255]).
Proof.
  intros Hr. destruct (buckets_repr (db_h d) M Hr) as (f & Hf & Hp).
  exists (omap f (seqZ 0 (kh_end (db_h d)))). split; [done|].
  unfold rdb_image. rewrite (save_buckets_ok _ f); [done|].
  intros i Hi%elem_of_seqZ. apply Hf. lia.
Qed.

(** ** Loading one pair back *)

Lemma rd_ok {A} (f : bytes → A * bytes) m b a b' : f b = (a, b') → rd f (m, b) = Ok (a, (m, b')).
Proof. intros E. unfold rd. by rewrite E. Qed.

Lemma on_mem_ok {A} (f : dbM A) m m' b a : f m = Ok (a, m') → on_mem f (m, b) = Ok (a, (m', b)).
Proof. intros E. unfold on_mem. by rewrite E. Qed.

Lemma le_val_bytes n v i : 0 ≤ i →
  le_val ((λ i, b_val (Z.land (Z.shiftr v (8 * i)) 255)) <$> seqZ i (Z.of_nat n)) =
    v / 256 ^ i mod 256 ^ Z.of_nat n.
Proof.
  revert i. induction n as [|n IH]; intros i Hi.
  - change (256 ^ Z.of_nat 0) with 1. by rewrite Z.mod_1_r.
  - rewrite seqZ_cons by lia. unfold le_val in *. cbn [fmap list_fmap foldr]. rewrite byte_at_val by done.
    replace (Z.pred (Z.of_nat (S n))) with (Z.of_nat n) by lia.
    change (Z.succ i) with (i + 1). rewrite IH by lia.
    replace (Z.of_nat (S n)) with (Z.of_nat n + 1) by lia. rewrite low_byte by lia.
    rewrite Z.pow_add_r, Z.div_div by lia. done.
Qed.

(** What is stored for a saved value: the text read back, and its expiration. *)
Definition loaded (v : RedisValue) : aval * Z :=
  (match rv_data v with TYPE_STRING s => AStr (rdb_normal s) | TYPE_LIST _ => AList [] end,
   if 0 <? expiration v then expiration v else 0).

(** The reads of the expiration and the type byte. *)
(** The two strings of a pair, and the assignment. *)
Definition load_strings (et : Z) : loadM (option Z) :=
  key ← rd read_rdb_string;
  match key with
  | None => mret (Return 1)
  | Some key =>
      value ← rd read_rdb_string;
      match value with
      | None => mret (Return 1)
      | Some value =>
          _ ← on_mem (redis_db_set key (TYPE_STRING value) (s64 et)); mret Go
      end
  end.

Lemma load_strings_ok m m' key s et rest :
  rdb_string_ok key → rdb_string_ok s →
  Keyspace.set (rdb_normal key) (TYPE_STRING (rdb_normal s)) (s64 et) m = Ok (tt, m') →
  load_strings et (m, (write_rdb_string key).1 ++ (write_rdb_string s).1 ++ rest) = Ok (None, (m', rest)).
Proof.
  intros Hk Hs Hset. unfold load_strings.
  erewrite st_bind_ok by (apply rd_ok; by apply read_write_string). cbv beta iota.
  erewrite st_bind_ok by (apply rd_ok; by apply read_write_string). cbv beta iota.
  by erewrite st_bind_ok by (apply on_mem_ok; exact Hset).
Qed.

(** The eight bytes of an expiration. *)
Lemma fread_expiration e tail :
  0 < e < 2 ^ 63 →
  fread 8 (le_bytes 8 (u64 e) ++ tail) = (le_bytes 8 (u64 e), tail) ∧ s64 (le_val (le_bytes 8 (u64 e))) = e.
Proof.
  intros He. assert (length (le_bytes 8 (u64 e)) = 8%nat) as Hl8 by done. split.
  - unfold fread. change (Z.to_nat 8) with 8%nat. rewrite <- Hl8 at 1 3.
    by rewrite take_app_length, drop_app_length.
  - unfold le_bytes. rewrite le_val_bytes by lia. change (256 ^ 0) with 1. rewrite Z.div_1_r.
    change (256 ^ Z.of_nat 8) with (2 ^ 64). change (u64 e mod 2 ^ 64) with (uwrap 64 (u64 e)).
    rewrite swrap_uwrap by lia. rewrite swrap_uwrap by lia. apply swrap_small; [|lia].
    change (2 ^ (64 - 1)) with (2 ^ 63). lia.
Qed.

(** The clock is not read. *)
Definition same_clock (m m' : mem) : Prop := clock m' = clock m ∧ ticks m' = ticks m.

Lemma load_pair_value m A key s e rest :
  db_rep m A → adb_ok A → rdb_string_ok key → rdb_normal key = key → rdb_string_ok s → e < 2 ^ 63 →
  ∃ m', load_pair (m, save_value key (MkValue (TYPE_STRING s) e) ++ rest) = Ok (None, (m', rest)) ∧
    same_clock m m' ∧ db_rep m' (<[key := loaded (MkValue (TYPE_STRING s) e)]> A).
Proof.
  intros (M & P & Ho) HA Hk Hkn Hs He.
  set (e' := if 0 <? e then e else 0).
  destruct (set_str_own m M P A key (rdb_normal s) e' Ho HA) as (m' & Hset & Htk & Hck & Hrep).
  exists m'. split; [|by split].
  set (tail := b_val 0 :: (write_rdb_string key).1 ++ (write_rdb_string s).1 ++ rest).
  assert (save_value key (MkValue (TYPE_STRING s) e) ++ rest =
    (if 0 <? e then b_val 252 :: le_bytes 8 (u64 e) else []) ++ tail) as ->.
  { unfold save_value, tail. cbn [rv_data expiration]. rewrite <- !app_assoc. simpl.
    by rewrite <- !app_assoc. }
  assert (∀ et, s64 et = e' →
    load_strings et (m, (write_rdb_string key).1 ++ (write_rdb_string s).1 ++ rest) = Ok (None, (m', rest)))
    as Hbody by (intros et Het; apply load_strings_ok; [done|done|]; by rewrite Het, Hkn).
  unfold load_pair. unfold e' in *. destruct (Z.ltb_spec 0 e) as [Hpos|Hneg].
  - destruct (fread_expiration e tail ltac:(lia)) as [Hfr Hval].
    erewrite st_bind_ok by (by apply rd_ok). cbv beta iota. rewrite b_val_val.
    change (252 mod 256 =? 253) with false. change (252 mod 256 =? 252) with true. cbn match.
    erewrite st_bind_ok; last first.
    { erewrite st_bind_ok by (by apply rd_ok). cbv beta.
      change (zlen (le_bytes 8 (u64 e)) =? 8) with true. cbn match.
      by erewrite st_bind_ok by (by apply rd_ok). }
    cbv beta iota. rewrite b_val_val. change (0 mod 256) with 0.
    rewrite bool_decide_eq_true_2 by done. by apply Hbody.
  - erewrite st_bind_ok by (by apply rd_ok). cbv beta iota. rewrite b_val_val.
    change (0 mod 256) with 0. change (0 =? 253) with false. change (0 =? 252) with false. cbn match.
    erewrite st_bind_ok by reflexivity. cbv beta iota.
    rewrite bool_decide_eq_true_2 by done. by apply Hbody.
Qed.

(** A pair that the file holds faithfully. *)
Definition pair_ok (p : bytes * RedisValue) : Prop :=
  rdb_string_ok p.1 ∧ rdb_normal p.1 = p.1 ∧
  ∃ s e, p.2 = MkValue (TYPE_STRING s) e ∧ rdb_string_ok s ∧ e < 2 ^ 63.

Lemma load_pairs_ok kvs m A rest :
  db_rep m A → adb_room (zlen kvs) A → Forall pair_ok kvs → NoDup kvs.*1 →
  ∃ m', load_pairs (length kvs) (m, concat (uncurry save_value <$> kvs) ++ rest) =
      Ok (None, (m', rest)) ∧
    same_clock m m' ∧ db_rep m' (list_to_map (prod_map id loaded <$> kvs) ∪ A).
Proof.
  revert m A. induction kvs as [|[k v] kvs IH]; intros m A Hrep HA Hok Hnd.
  - exists m. split; [done|]. split; [done|]. cbn. by rewrite map_empty_union.
  - apply Forall_cons in Hok as [(Hk & Hkn & s & e & Hv & Hs & He) Hok].
    simpl in Hv. subst v. cbn [fmap list_fmap fst] in Hnd. apply NoDup_cons in Hnd as [Hnk Hnd].
    rewrite length_cons in HA.
    destruct (load_pair_value m A k s e (concat (uncurry save_value <$> kvs) ++ rest))
      as (m1 & Hl & [Hc1 Ht1] & Hr1); [done| |done..|].
    { eapply room_weaken; [|exact HA]. lia. }
    destruct (IH m1 _ Hr1) as (m' & Hls & [Hc' Ht'] & Hr'); [|done|done|].
    { apply insert_room; [|done]. eapply room_weaken; [|exact HA]. lia. }
    exists m'. split; [|split; [split; congruence|]].
    + cbn [length load_pairs fmap list_fmap concat uncurry]. rewrite <- app_assoc.
      erewrite st_bind_ok by exact Hl. exact Hls.
    + cbn [fmap list_fmap prod_map list_to_map foldr].
      rewrite <- insert_union_r in Hr'.
      * by rewrite <- insert_union_l.
      * apply not_elem_of_list_to_map. rewrite <- list_fmap_compose.
        intros Hin. apply Hnk. revert Hin. clear. induction kvs as [|[k' v'] kvs IHk]; [done|].
        cbn. rewrite !elem_of_cons. intros [?|?]; [by left|right; by apply IHk].
Qed.

Lemma load_image_ok kvs m A kc ec :
  db_rep m A → adb_room (zlen kvs) A → Forall pair_ok kvs → NoDup kvs.*1 →
  kc mod 256 = zlen kvs →
  let body := [b_val 250; b_val 254; b_val 251; b_val kc; b_val ec] ++
              concat (uncurry save_value <$> kvs) ++ [b_val 255] in
  ∃ m' rest, load_sections (S (length body)) (m, body) = Ok (0, (m', rest)) ∧
    same_clock m m' ∧ db_rep m' (list_to_map (prod_map id loaded <$> kvs) ∪ A).
Proof.
  intros Hrep HA Hok Hnd Hkc body.
  destruct (load_pairs_ok kvs m A [b_val 255] Hrep HA Hok Hnd) as (m' & Hl & Hr').
  exists m', []. split; [|done].
  assert (∃ fuel, length body = S (S (S fuel))) as [fuel Hfuel] by (unfold body; simpl; eauto).
  rewrite Hfuel. unfold body. cbn [app load_sections].
  erewrite st_bind_ok by (by apply rd_ok). cbv beta iota. rewrite b_val_val.
  change (250 mod 256 =? 250) with true. cbn match.
  erewrite st_bind_ok by reflexivity. cbn [snd length load_metadata].
  erewrite st_bind_ok; last first.
  { erewrite st_bind_ok by reflexivity. cbv beta. erewrite st_bind_ok by (by apply rd_ok).
    cbv beta iota. rewrite b_val_val. change (254 mod 256 =? 254) with true. done. }
  cbv beta iota. erewrite st_bind_ok by (by apply rd_ok). cbv beta iota. rewrite b_val_val.
  change (251 mod 256 =? 250) with false. change (251 mod 256 =? 251) with true. cbn match.
  erewrite st_bind_ok by (by apply rd_ok). cbv beta. erewrite st_bind_ok by (by apply rd_ok).
  cbv beta iota. rewrite b_val_val, Hkc, Nat2Z.id. erewrite st_bind_ok by exact Hl. cbv beta iota.
  erewrite st_bind_ok by (by apply rd_ok). cbv beta iota. rewrite b_val_val. done.
Qed.

(** What a keyspace of strings is after a save and a load. *)
Definition reloaded (a : aval * Z) : aval * Z :=
  (match a.1 with AStr s => AStr (rdb_normal s) | AList _ => AList [] end,
   if 0 <? a.2 then a.2 else 0).

(** A keyspace of strings that the format carries. *)
Definition storable (A : adb) : Prop :=
  (size A < 256)%nat ∧
  ∀ k a, A !! k = Some a → rdb_string_ok k ∧ rdb_normal k = k ∧
    ∃ s, a.1 = AStr s ∧ rdb_string_ok s ∧ a.2 < 2 ^ 63.

(** The keyspace the pairs of the file make. *)
Lemma reloaded_pairs m M P A kvs :
  db_own m M P A → kvs ≡ₚ map_to_list M →
  (∀ k a, A !! k = Some a → ∃ s, a.1 = AStr s) →
  list_to_map (prod_map id loaded <$> kvs) = reloaded <$> A.
Proof.
  intros Ho Hp Hok.
  assert (NoDup (prod_map id loaded <$> map_to_list M).*1) as HndM.
  { rewrite <- list_fmap_compose. apply (NoDup_fst_map_to_list M). }
  rewrite (list_to_map_proper _ (prod_map id loaded <$> map_to_list M)); [| |by rewrite Hp].
  2:{ rewrite Hp. exact HndM. }
  rewrite list_to_map_fmap, list_to_map_to_list. apply map_eq. intros k. rewrite !lookup_fmap.
  pose proof (own_val_abs m M P A k Ho) as Hv.
  destruct (A !! k) as [[[s|xs] e]|] eqn:EA; [by rewrite Hv| |by rewrite Hv].
  by destruct (Hok k _ EA) as (s & Has).
Qed.

(** The image of a keyspace, and what loading a file with that image gives. *)
Lemma image_loads_over m A m0 A0 :
  db_rep m A → db_rep m0 A0 → adb_room 256 A0 → storable A →
  ∃ F m', rdb_image (db m) = Ok F ∧ 15 ≤ zlen F ∧ (same_clock m0 m' ∧ db_rep m' ((reloaded <$> A) ∪ A0)) ∧
    ∀ os dir filename path, construct_file_path (path_malloc_ok os) dir filename = Some path →
      files os !! path = Some F → rdb_load_data_from_file os dir filename m0 = Ok (0, m').
Proof.
  intros (M & P & Ho) Hr0 HA0 [Hsz Hok].
  destruct (rdb_image_ok (db m) M) as (kvs & Hp & Himg); [apply Ho|].
  assert (zlen kvs = Z.of_nat (size M)) as Hlen by (by rewrite Hp, length_map_to_list).
  pose proof (own_size _ _ _ _ Ho) as HszM.
  assert (NoDup kvs.*1) as Hnd by (rewrite Hp; apply NoDup_fst_map_to_list).
  assert (Forall pair_ok kvs) as Hpairs.
  { rewrite Hp. apply Forall_forall. intros [k v] Hk%elem_of_map_to_list.
    pose proof (own_val_abs m M P A k Ho) as Hv.
    destruct (own_val _ _ _ _ Ho k v Hk) as (a & Ha & _).
    destruct (Hok k a Ha) as (Hks & Hkn & s & Has & Hss & He). rewrite Ha in Hv.
    destruct a as [a e]. simpl in *. subst a. split_and!; [done..|]. exists s, e. simpl. split_and!; congruence || done. }
  destruct (load_image_ok kvs m0 A0 (key_count (db m)) (expiry_count (db m)))
    as (m' & rest & Hload & Hsc & Hr'); [done| |done|done| |].
  { eapply room_weaken; [|done]. lia. }
  { rewrite (own_count _ _ _ _ Ho), Z.mod_small; lia. }
  rewrite (reloaded_pairs m M P A kvs Ho Hp) in Hr' by
    (intros k a Ha; destruct (Hok k a Ha) as (_ & _ & s & Hs & _); by exists s).
  eexists _, m'. split; [exact Himg|]. split; [rewrite !zlen_app; change (zlen rdb_header) with 9; cbn; lia|].
  split; [by split|]. intros os dir filename path Hpath Hfile.
  unfold rdb_load_data_from_file. rewrite Hpath, Hfile.
  unfold fread. change (Z.to_nat 9) with (length rdb_header).
  rewrite take_app_length, drop_app_length. cbn match. change (zlen rdb_header =? 9) with true.
  rewrite bool_decide_eq_true_2 by done. cbn [negb]. by rewrite Hload.
Qed.

Lemma image_loads m A m0 :
  db_rep m A → db_rep m0 ∅ → storable A →
  ∃ F m', rdb_image (db m) = Ok F ∧ 15 ≤ zlen F ∧ db_rep m' (reloaded <$> A) ∧
    ∀ os dir filename path, construct_file_path (path_malloc_ok os) dir filename = Some path →
      files os !! path = Some F → rdb_load_data_from_file os dir filename m0 = Ok (0, m').
Proof.
  intros Hr Hr0 Hst. destruct (image_loads_over m A m0 ∅ Hr Hr0) as (F & m' & ? & ? & [_ Hr'] & ?); [|done|].
  { constructor; [by vm_compute|]. intros ? ? ?. by rewrite lookup_empty. }
  rewrite map_union_empty in Hr'. by exists F, m'.
Qed.

Lemma construct_file_path_some dir filename : ∃ path, construct_file_path true dir filename = Some path.
Proof. unfold construct_file_path. cbn [negb]. destruct (bool_decide _); eauto. Qed.

Lemma save_file d dir filename os F path :
  mkdir_ok os = true → fopen_w_ok os = true → path_malloc_ok os = true → rdb_image d = Ok F →
  construct_file_path true dir filename = Some path →
  rdb_save_data_to_file d dir filename os =
    Ok (true, OsFiles (<[path := F]> (files os)) (mkdir_ok os) (fopen_w_ok os) (path_malloc_ok os)).
Proof.
  intros Hmk Hfo Hpm Himg Hpath. unfold rdb_save_data_to_file. rewrite Hpm, Hpath, Hmk, Hfo. cbn [negb]. by rewrite Himg.
Qed.

(** C14: saving a keyspace of strings and loading the file into a new database
    gives the keyspace back, every key with its value and expiration, whatever
    the layout of either hash table.  It holds for up to 255 keys, for keys in
    the form the file keeps; a value is read back as the file keeps it, and an
    expiration of zero or less, which never expires, becomes zero. *)
Theorem rdb_save_load m A m0 dir filename os :
  db_rep m A → db_rep m0 ∅ → storable A →
  mkdir_ok os = true → fopen_w_ok os = true → path_malloc_ok os = true →
  ∃ os' m', rdb_save_data_to_file (db m) dir filename os = Ok (true, os') ∧
    rdb_load_data_from_file os' dir filename m0 = Ok (0, m') ∧ db_rep m' (reloaded <$> A).
Proof.
  intros Hr Hr0 Hok Hmk Hfo Hpm. destruct (image_loads m A m0 Hr Hr0 Hok) as (F & m' & Himg & _ & Hr' & Hload).
  destruct (construct_file_path_some dir filename) as [path Hpath].
  eexists _, m'. split; [by apply (save_file _ _ _ _ F path)|]. split; [|done].
  apply (Hload _ _ _ path); cbn; [by rewrite Hpm|apply lookup_insert_eq].
Qed.

Definition sample_os : os_files := OsFiles ∅ true true true.

Lemma sample_string_ok s : bool_decide (no_nul s) && (zlen s <? 100) = true → rdb_string_ok s.
Proof.
  intros [H1%bool_decide_eq_true H2%Z.ltb_lt]%andb_prop. split_and!; [done|lia|].
  intros _. unfold len_readable. by rewrite (proj2 (Z.leb_le _ _)) by lia.
Qed.

Lemma rdb_save_load_witness :
  ∃ m os' m', redis_db_set (lit "k") (TYPE_STRING (lit "12")) 7 (mem_init (λ _, (0, 0))) = Ok (tt, m) ∧
    rdb_save_data_to_file (db m) (lit "/d") (lit "f") sample_os = Ok (true, os') ∧
    rdb_load_data_from_file os' (lit "/d") (lit "f") (mem_init (λ _, (0, 0))) = Ok (0, m') ∧
    db_rep m' {[lit "k" := (AStr (lit "12"), 7)]}.
Proof.
  pose proof (mem_init_rep (λ _, (0, 0))) as H0. pose proof H0 as (M & P & Ho).
  destruct (set_str_own _ M P ∅ (lit "k") (lit "12") 7 Ho) as (m & Hs & _ & _ & Hr).
  { constructor; [vm_compute; reflexivity|]. intros ? ? ?. rewrite lookup_empty. discriminate. }
  destruct (rdb_save_load m _ (mem_init (λ _, (0, 0))) (lit "/d") (lit "f") sample_os Hr H0)
    as (os' & m' & Hsave & Hload & Hr').
  - split; [rewrite insert_empty, map_size_singleton; lia|].
    intros k a Hk. rewrite insert_empty in Hk. apply lookup_singleton_Some in Hk as [<- <-].
    split; [apply sample_string_ok; reflexivity|]. split; [reflexivity|].
    exists (lit "12"). split; [reflexivity|]. split; [apply sample_string_ok; reflexivity|reflexivity].
  - reflexivity.
  - reflexivity.
  - reflexivity.
  - exists m, os', m'. split; [exact Hs|]. split; [exact Hsave|]. split; [exact Hload|].
    rewrite insert_empty, map_fmap_singleton in Hr'. exact Hr'.
Defined.

(** ** Any file *)

(** The keyspace is well formed and has room for as many assignments as the
    file has bytes left, and [k] more. *)
Definition load_inv (k : Z) (s : mem * bytes) : Prop :=
  ∃ A, db_rep s.1 A ∧ adb_room (zlen s.2 + k) A.

(** [f] ends normally from a state with [k] to spare in one with [k'], and does
    not lengthen the file. *)
Definition safe (k k' : Z) {A} (f : loadM A) : Prop :=
  ∀ s, load_inv k s → ∃ a s', f s = Ok (a, s') ∧ load_inv k' s' ∧ (length s'.2 ≤ length s.2)%nat.

Lemma safe_ret k {A} (a : A) : safe k k (mret a).
Proof. intros s Hs. exists a, s. by split_and!. Qed.

Lemma safe_bind k1 k2 k3 {A B} (f : loadM A) (g : A → loadM B) :
  safe k1 k2 f → (∀ a, safe k2 k3 (g a)) → safe k1 k3 (f ≫= g).
Proof.
  intros Hf Hg s Hs. destruct (Hf s Hs) as (a & s1 & Hf1 & Hs1 & Hl1).
  destruct (Hg a s1 Hs1) as (b & s2 & Hg2 & Hs2 & Hl2). exists b, s2.
  erewrite st_bind_ok by exact Hf1. split_and!; [done..|lia].
Qed.

Lemma safe_weaken k1 k2 k3 {A} (f : loadM A) : safe k1 k2 f → k3 ≤ k2 → safe k1 k3 f.
Proof.
  intros Hf Hk s Hs. destruct (Hf s Hs) as (a & s1 & Hf1 & (A1 & Hr & HA) & Hl).
  exists a, s1. split_and!; [done| |done]. exists A1. split; [done|]. eapply room_weaken; [|done]. lia.
Qed.

Definition shrinks {A} (f : bytes → A * bytes) : Prop := ∀ b, (length (f b).2 ≤ length b)%nat.

Lemma safe_rd k {A} (f : bytes → A * bytes) : shrinks f → safe k k (rd f).
Proof.
  intros Hf [m b] (A1 & Hr & HA). pose proof (Hf b) as Hl. unfold rd. destruct (f b) as [a b'].
  exists a, (m, b'). simpl in *. split_and!; [done| |lia]. exists A1. split; [done|].
  simpl. eapply room_weaken; [|exact HA]. lia.
Qed.

(** A byte read makes room for one more assignment. *)
Lemma safe_fgetc k {B} (g : option Z → loadM B) k' :
  safe k k' (g None) → (∀ c, safe (k + 1) k' (g (Some c))) → safe k k' (rd fgetc ≫= g).
Proof.
  intros Hn Hc [m [|c b]] (A1 & Hr & HA).
  - apply Hn. by exists A1.
  - erewrite st_bind_ok by (by apply rd_ok).
    destruct (Hc (byte_val c) (m, b)) as (a & s' & Hg & Hs' & Hl).
    { exists A1. split; [done|]. simpl in *. eapply room_weaken; [|exact HA]. lia. }
    exists a, s'. split_and!; [done..|]. simpl in *. lia.
Qed.

Lemma fgetc_shrinks : shrinks fgetc.
Proof. intros [|c b]; simpl; lia. Qed.
Lemma fread_shrinks n : shrinks (fread n).
Proof. intros b. simpl. rewrite length_drop. lia. Qed.
Lemma read_chars_shrinks n : shrinks (read_chars n).
Proof.
  intros b. unfold read_chars. destruct (n <? 0); [done|]. pose proof (fread_shrinks n b).
  destruct (fread n b) as [str b']. by destruct (zlen str =? n).
Qed.
Lemma read_len32_shrinks n len : shrinks (read_len32 n len).
Proof.
  revert len. induction n as [|n IH]; intros len [|c b]; simpl; try lia.
  destruct (s8 (byte_val c) =? -1); simpl; [lia|]. etrans; [apply IH|lia].
Qed.
Lemma read_le_shrinks n i val : shrinks (read_le n i val).
Proof.
  revert i val. induction n as [|n IH]; intros i val [|c b]; simpl; try lia. etrans; [apply IH|lia].
Qed.

Lemma shrinks_match {A B} (f : bytes → option A * bytes) (g : A → bytes → option B * bytes) :
  shrinks f → (∀ a, shrinks (g a)) →
  shrinks (λ b, let '(o, b') := f b in match o with None => (None, b') | Some a => g a b' end).
Proof.
  intros Hf Hg b. pose proof (Hf b) as Hb. destruct (f b) as [[a|] b']; [|done].
  etrans; [apply Hg|exact Hb].
Qed.

(** Past the first byte, which is always consumed. *)
Lemma read_rdb_string_cons c b : (length (read_rdb_string (c :: b)).2 ≤ length b)%nat.
Proof.
  unfold read_rdb_string. rewrite fgetc_cons. cbv zeta. revert b.
  set (type := Z.shiftr (byte_val c) 6). set (low := Z.land (byte_val c) 63).
  destruct (type =? 0); [apply read_chars_shrinks|].
  destruct (type =? 1); [apply (shrinks_match fgetc (λ s, read_chars _));
    [apply fgetc_shrinks|intros; apply read_chars_shrinks]|].
  destruct (type =? 2); [apply (shrinks_match (read_len32 4 0) read_chars);
    [apply read_len32_shrinks|apply read_chars_shrinks]|].
  destruct (low =? 0); [apply (shrinks_match fgetc (λ v f, (int_string (s8 v), f)));
    [apply fgetc_shrinks|by intros ? ?]|].
  destruct (low =? 1); [intros [|b1 [|b2 b]]; simpl; lia|].
  destruct (low =? 2); [apply (shrinks_match (read_le 4 0 0) (λ v f, (int_string (s32 v), f)));
    [apply read_le_shrinks|by intros ? ?]|].
  intros b. simpl. lia.
Qed.

Lemma read_rdb_string_shrinks : shrinks read_rdb_string.
Proof. intros [|c b]; [done|]. etrans; [apply read_rdb_string_cons|simpl; lia]. Qed.

#[local] Hint Resolve safe_ret safe_rd fgetc_shrinks fread_shrinks read_rdb_string_shrinks : redis.

Lemma safe_set k key s e : 0 ≤ k → safe (k + 1) k (on_mem (redis_db_set key (TYPE_STRING s) e)).
Proof.
  intros Hk [m b] (A & (M & P & Ho) & HA). simpl in HA.
  destruct (set_str_own m M P A key s e Ho) as (m' & Hset & _ & _ & Hr).
  { eapply room_weaken; [|exact HA]. lia. }
  exists tt, (m', b). erewrite on_mem_ok by exact Hset. split_and!; [done| |done].
  eexists. split; [exact Hr|]. simpl. apply insert_room; [|done]. eapply room_weaken; [|exact HA]. lia.
Qed.

Section any_file.
Context (k : Z) (Hk : 0 ≤ k).

Lemma load_pair_safe : safe k k load_pair.
Proof.
  apply safe_fgetc; [by apply safe_ret|]. intros t.
  apply (safe_bind _ (k + 1)).
  { destruct (t =? 253); [|destruct (t =? 252)]; [..|by auto with redis].
    all: eapply safe_bind; [by auto with redis|]; intros sec.
    all: destruct (zlen sec =? _); [|by auto with redis].
    all: eapply safe_bind; [by auto with redis|]; intros; by auto with redis. }
  intros [[et ty]|]; [|eapply safe_weaken; [by auto with redis|lia]].
  destruct (bool_decide (ty = Some 0)); [|eapply safe_weaken; [by auto with redis|lia]].
  eapply safe_bind; [by auto with redis|]. intros [key|]; [|eapply safe_weaken; [by auto with redis|lia]].
  eapply safe_bind; [by auto with redis|]. intros [value|]; [|eapply safe_weaken; [by auto with redis|lia]].
  eapply safe_bind; [by apply (safe_set k)|]. intros. by auto with redis.
Qed.

Lemma load_pairs_safe n : safe k k (load_pairs n).
Proof.
  induction n as [|n IH]; [by apply safe_ret|]. eapply safe_bind; [apply load_pair_safe|].
  intros [rc|]; [by apply safe_ret|done].
Qed.

(** [f] ends normally when its fuel exceeds the bytes left. *)
Definition safe_below (fuel : nat) {A} (f : loadM A) : Prop :=
  ∀ s, load_inv k s → (length s.2 < fuel)%nat →
    ∃ a s', f s = Ok (a, s') ∧ load_inv k s' ∧ (length s'.2 ≤ length s.2)%nat.

Lemma load_metadata_safe fuel : safe_below fuel (load_metadata fuel).
Proof.
  induction fuel as [|fuel IH]; intros [m f] Hinv Hlt; simpl in Hlt; [lia|]. cbn [load_metadata].
  erewrite st_bind_ok by reflexivity. cbv beta. cbn [snd].
  destruct f as [|c f]; [erewrite st_bind_ok by (by apply rd_ok); by exists (Some 1), (m, [])|].
  erewrite st_bind_ok by (by apply rd_ok). cbv beta iota.
  assert (∀ b, (length b ≤ length (c :: f))%nat → load_inv k (m, b)) as Hsub.
  { intros b Hb. destruct Hinv as (A & Hr & HA). exists A. split; [done|].
    eapply room_weaken; [|exact HA]. simpl in *. lia. }
  simpl in Hlt, Hsub.
  destruct (byte_val c =? 254).
  { eexists None, (m, f). split_and!; [done|apply Hsub; lia|simpl; lia]. }
  erewrite st_bind_ok by reflexivity. cbv beta iota.
  pose proof (read_rdb_string_cons c f) as Hkey.
  erewrite st_bind_ok by (by apply rd_ok, surjective_pairing). cbv beta.
  destruct (read_rdb_string (c :: f)) as [[key|] f1]; cbn [fst snd] in *.
  2:{ eexists None, (m, f1). split_and!; [done|apply Hsub; lia|simpl; lia]. }
  pose proof (read_rdb_string_shrinks f1) as Hv.
  erewrite st_bind_ok by (by apply rd_ok, surjective_pairing). cbv beta.
  destruct (read_rdb_string f1) as [[value|] f2]; cbn [fst snd] in *.
  2:{ eexists None, (m, f2). split_and!; [done|apply Hsub; lia|simpl; lia]. }
  destruct (IH (m, f2)) as (a & s' & Hrun & Hs' & Hl); [apply Hsub; lia|simpl; lia|].
  exists a, s'. split_and!; [done..|]. simpl in *. lia.
Qed.

(** Running a safe part, then going on with the section loop. *)
Lemma section_step fuel (f : loadM (option Z)) s :
  load_inv k s → (length s.2 < fuel)%nat → safe_below fuel (load_sections fuel) →
  (∃ a s', f s = Ok (a, s') ∧ load_inv k s' ∧ (length s'.2 ≤ length s.2)%nat) →
  ∃ a s', (r ← f; match r with Some rc => mret rc | None => load_sections fuel end) s = Ok (a, s') ∧
    load_inv k s' ∧ (length s'.2 ≤ length s.2)%nat.
Proof.
  intros Hs Hlt IH (r & s1 & Hf & Hs1 & Hl). erewrite st_bind_ok by exact Hf. destruct r as [rc|].
  - by exists rc, s1.
  - destruct (IH s1 Hs1) as (a & s2 & Hg & Hs2 & Hl2); [lia|]. exists a, s2. split_and!; [done..|lia].
Qed.

Lemma load_sections_safe fuel : safe_below fuel (load_sections fuel).
Proof.
  induction fuel as [|fuel IH]; intros [m f] Hinv Hlt; simpl in Hlt; [lia|]. cbn [load_sections].
  destruct f as [|c f]; [erewrite st_bind_ok by (by apply rd_ok); by exists 0, (m, [])|].
  erewrite st_bind_ok by (by apply rd_ok). cbv beta iota.
  assert (∀ b, (length b ≤ length (c :: f))%nat → load_inv k (m, b)) as Hsub.
  { intros b Hb. destruct Hinv as (A & Hr & HA). exists A. split; [done|].
    eapply room_weaken; [|exact HA]. simpl in *. lia. }
  simpl in Hlt, Hsub.
  assert (∀ (b : bytes) (g : loadM Z), (length b ≤ length f)%nat →
    (∃ a s', g (m, b) = Ok (a, s') ∧ load_inv k s' ∧ (length s'.2 ≤ length b)%nat) →
    ∃ a s', g (m, b) = Ok (a, s') ∧ load_inv k s' ∧ (length s'.2 ≤ length (m, c :: f).2)%nat) as Hup.
  { intros b g Hb (a & s' & ? & ? & ?). exists a, s'. split_and!; [done..|simpl; lia]. }
  destruct (byte_val c =? 250).
  { erewrite st_bind_ok by reflexivity. cbv beta. eapply Hup; [done|].
    apply section_step; [apply Hsub; lia|simpl; lia|done|].
    apply (load_metadata_safe _ (m, f)); [apply Hsub; lia|simpl; lia]. }
  destruct (byte_val c =? 251).
  { destruct f as [|n f]; [by do 2 erewrite st_bind_ok by (by apply rd_ok); eexists 1, (m, []);
      split_and!; [done|apply Hsub; simpl; lia|simpl; lia]|].
    destruct f as [|x f]; do 2 erewrite st_bind_ok by (by apply rd_ok); cbv beta.
    { eexists 1, (m, []). split_and!; [done|apply Hsub; simpl; lia|simpl; lia]. }
    eapply Hup; [simpl; lia|].
    apply section_step; [apply Hsub; simpl; lia|simpl in *; lia|done|].
    apply load_pairs_safe. apply Hsub. simpl. lia. }
  destruct (byte_val c =? 254).
  { destruct f as [|n f]; erewrite st_bind_ok by (by apply rd_ok); cbv beta;
      eexists _, _; split_and!; [done|apply Hsub; simpl; lia|simpl; lia|done|apply Hsub; simpl; lia|simpl; lia]. }
  destruct (byte_val c =? 255).
  { eexists 0, (m, f). split_and!; [done|apply Hsub; lia|simpl; lia]. }
  eapply Hup; [done|]. apply (IH (m, f)); [apply Hsub; lia|simpl; lia].
Qed.

(** What a load that ends leaves, charged with the bytes of the file. *)
Definition file_size (os : os_files) (dir filename : bytes) : Z :=
  from_option (λ f, zlen f) 0 (construct_file_path (path_malloc_ok os) dir filename ≫= (files os !!.)).

Lemma file_size_nonneg os dir filename : 0 ≤ file_size os dir filename.
Proof. unfold file_size. destruct (_ ≫= _); cbn; lia. Qed.

Lemma rdb_load_keeps os dir filename m A rc m' :
  db_rep m A → adb_room (file_size os dir filename + k) A →
  rdb_load_data_from_file os dir filename m = Ok (rc, m') → ∃ A', db_rep m' A' ∧ adb_room k A'.
Proof.
  intros Hr HA. pose proof (file_size_nonneg os dir filename) as Hpos.
  assert (∃ A', db_rep m A' ∧ adb_room k A') as Hsame.
  { exists A. split; [done|]. eapply room_weaken; [|exact HA]. lia. }
  unfold rdb_load_data_from_file, file_size in *. destruct (construct_file_path _ dir filename) as [path|]; [|done].
  cbn [mbind option_bind] in HA. destruct (files os !! path) as [f|]; [|by intros [= _ <-]]. cbn [from_option] in HA.
  pose proof (fread_shrinks 9 f) as Hl. destruct (fread 9 f) as [buf f']. simpl in Hl.
  destruct (negb (zlen buf =? 9)); [by intros [= _ <-]|]. destruct (negb (bool_decide _)); [by intros [= _ <-]|].
  destruct (load_sections_safe (S (length f')) (m, f')) as (rc1 & [m1 b'] & Hrun & (A' & Hr' & HA') & _).
  - exists A. split; [done|]. eapply room_weaken; [|exact HA]. simpl. lia.
  - simpl. lia.
  - rewrite Hrun. intros [= _ <-]. exists A'. split; [exact Hr'|]. eapply room_weaken; [|exact HA']. lia.
Qed.
End any_file.

(** C23: loading terminates on every file, truncated or corrupt ones included,
    without a fault, and leaves a well-formed keyspace: every section, string
    and length the file may hold is either read or rejected. *)
Theorem rdb_load_any_file os dir filename m A f :
  db_rep m A → path_malloc_ok os = true →
  (construct_file_path true dir filename ≫= (files os !!.)) = Some f → adb_room (zlen f) A →
  ∃ rc m' A', rdb_load_data_from_file os dir filename m = Ok (rc, m') ∧ db_rep m' A'.
Proof.
  intros Hr Hpm Hf HA. unfold rdb_load_data_from_file. rewrite Hpm.
  destruct (construct_file_path true dir filename) as [path|]; [|done]. simpl in Hf. rewrite Hf.
  pose proof (fread_shrinks 9 f) as Hl. destruct (fread 9 f) as [buf f']. simpl in Hl.
  destruct (negb (zlen buf =? 9)); [eauto|]. destruct (negb (bool_decide _)); [eauto|].
  destruct (load_sections_safe 0 ltac:(lia) (S (length f')) (m, f')) as (rc & [m' b'] & Hrun & (A' & Hr' & _) & _).
  - exists A. split; [done|]. eapply room_weaken; [|exact HA]. simpl. lia.
  - simpl. lia.
  - rewrite Hrun. simpl in Hr'. eauto.
Qed.

Definition junk_os : os_files :=
  OsFiles {[lit "/d/f" := rdb_header ++ [b_val 251; b_val 9; b_val 0; b_val 253; b_val 1]]} true true true.

Lemma rdb_load_any_file_witness :
  ∃ rc m' A', rdb_load_data_from_file junk_os (lit "/d") (lit "f") (mem_init (λ _, (0, 0))) = Ok (rc, m') ∧
    db_rep m' A'.
Proof.
  eapply (rdb_load_any_file junk_os (lit "/d") (lit "f") (mem_init (λ _, (0, 0))) ∅).
  - apply mem_init_rep.
  - reflexivity.
  - vm_compute. reflexivity.
  - constructor; [vm_compute; reflexivity|]. intros ? ? ?. rewrite lookup_empty. discriminate.
Defined.

(** The number of keys is written as one byte.  A database of 256 keys is
    saved in full, and loaded back as an empty one. *)
Theorem rdb_key_count_wraps :
  let sets := (λ i, OSet (lit "k" ++ fmt_ld i) (lit "v") 0) <$> seqZ 0 256 in
  match db_run sets (mem_init (λ _, (0, 0))) with
  | Ok (_, m) =>
      match rdb_save_data_to_file (db m) (lit "/d") (lit "f") sample_os with
      | Ok (true, os) =>
          match rdb_load_data_from_file os (lit "/d") (lit "f") (mem_init (λ _, (0, 0))) with
          | Ok (0, m') => key_count (db m) = 256 ∧ key_count (db m') = 0
          | _ => False
          end
      | _ => False
      end
  | Stop _ => False
  end.
Proof. vm_compute. split; reflexivity. Qed.
