(* ===== verification/ServerState.v ===== *)
(** * The state the command handlers work on

    The structures of [src/src/client.h] and [src/src/server_config.h], the
    replica table of [src/src/replication.c] and the event masks of
    [src/src/client.c].  The handlers of one client see that client, the
    server's globals, the selected database and the operating system. *)

From S2P Require Import Prelude CLib RingBuffer Util Database Rdb RespWriter.

(** ** Data *)

Inductive ClientType := CLIENT_TYPE_REGULAR | CLIENT_TYPE_REPLICA | CLIENT_TYPE_MASTER.

Inductive ReplicaClientState :=
| REPL_STATE_NONE | REPL_STATE_CONNECTING | REPL_STATE_SENT_PING | REPL_STATE_RECEIVED_PONG
| REPL_STATE_SENT_REPLCONF_PORT | REPL_STATE_RECEIVED_REPLCONF_PORT_OK
| REPL_STATE_SENT_REPLCONF_CAPA | REPL_STATE_RECEIVED_REPLCONF_CAPA_OK
| REPL_STATE_SENT_PSYNC | REPL_STATE_RECEIVED_FULLRESYNC_RESPONSE
| REPL_STATE_RECEIVING_RDB_DATA | REPL_STATE_READY | REPL_STATE_ERROR.

Inductive MasterReplicaState :=
| MASTER_REPL_STATE_PSYNC | MASTER_REPL_STATE_SENDING_RDB_DATA | MASTER_REPL_STATE_PROPAGATE.

#[export] Instance ClientType_eq_dec : EqDecision ClientType.
Proof. solve_decision. Defined.
#[export] Instance ReplicaClientState_eq_dec : EqDecision ReplicaClientState.
Proof. solve_decision. Defined.
#[export] Instance MasterReplicaState_eq_dec : EqDecision MasterReplicaState.
Proof. solve_decision. Defined.

(** [FILE *tmp_rdb_fp]: the file and the bytes written so far.  Closing it does
    not reset the pointer. *)
Inductive stream := NoStream | OpenStream (path written : bytes) | ClosedStream.

#[export] Instance stream_eq_dec : EqDecision stream.
Proof. solve_decision. Defined.

(** [rdb_fd] is kept as the path of the file that is open on it. *)
Record Client := MkClient {
  client_fd : Z;
  output_buffer : ring_buffer;
  type : ClientType;
  epoll_events : Z;
  master_repl_state : MasterReplicaState;
  rdb_fd : option bytes;
  rdb_file_offset : Z;
  rdb_file_size : Z;
  repl_offset : Z;
  repl_client_state : ReplicaClientState;
  rdb_expected_bytes : Z;
  rdb_received_bytes : Z;
  rdb_written_bytes : Z;
  tmp_rdb_fp : stream;
  should_propogate_command : bool;
  should_reply : bool
}.

(** The arrays as the C strings they hold. *)
Record server_config_t := MkConfig {
  dir : bytes;
  dbfilename : bytes;
  port : bytes;
  master_host : bytes;
  master_port : bytes
}.

Inductive server_role_t := ROLE_MASTER | ROLE_SLAVE.

#[export] Instance server_role_t_eq_dec : EqDecision server_role_t.
Proof. solve_decision. Defined.

Definition MAX_REPLICAS : Z := 16.

(** [replicas] holds pointers to clients: for each of them the descriptor its client
    is filed under, 0 for NULL, or [DANGLING] when the client has been freed. *)
Definition DANGLING : Z := -1.

Record server_info_t := MkInfo {
  role : server_role_t;
  master_replid : bytes;
  master_repl_offset : Z;
  repl_backlog_base_offset : Z;
  replicas : list Z;
  num_replicas : Z
}.

(** [epoll_answers]: whether the next [epoll_ctl] calls succeed (then they do). *)
Record world := MkWorld {
  w_mem : mem;
  w_client : Client;
  w_info : server_info_t;
  w_config : server_config_t;
  w_os : os_files;
  epoll_answers : list bool
}.

Abbreviation cmdM := (st world).

(** ** Access *)

Definition set_mem (m : mem) (w : world) : world :=
  MkWorld m (w_client w) (w_info w) (w_config w) (w_os w) (epoll_answers w).
Definition set_client (c : Client) (w : world) : world :=
  MkWorld (w_mem w) c (w_info w) (w_config w) (w_os w) (epoll_answers w).
Definition set_info (i : server_info_t) (w : world) : world :=
  MkWorld (w_mem w) (w_client w) i (w_config w) (w_os w) (epoll_answers w).
Definition set_os (o : os_files) (w : world) : world :=
  MkWorld (w_mem w) (w_client w) (w_info w) (w_config w) o (epoll_answers w).

Definition with_output (rb : ring_buffer) (c : Client) : Client :=
  MkClient (client_fd c) rb (type c) (epoll_events c) (master_repl_state c) (rdb_fd c)
    (rdb_file_offset c) (rdb_file_size c) (repl_offset c) (repl_client_state c)
    (rdb_expected_bytes c) (rdb_received_bytes c) (rdb_written_bytes c) (tmp_rdb_fp c)
    (should_propogate_command c) (should_reply c).
Definition with_type (t : ClientType) (c : Client) : Client :=
  MkClient (client_fd c) (output_buffer c) t (epoll_events c) (master_repl_state c) (rdb_fd c)
    (rdb_file_offset c) (rdb_file_size c) (repl_offset c) (repl_client_state c)
    (rdb_expected_bytes c) (rdb_received_bytes c) (rdb_written_bytes c) (tmp_rdb_fp c)
    (should_propogate_command c) (should_reply c).
Definition with_repl_client_state (s : ReplicaClientState) (c : Client) : Client :=
  MkClient (client_fd c) (output_buffer c) (type c) (epoll_events c) (master_repl_state c)
    (rdb_fd c) (rdb_file_offset c) (rdb_file_size c) (repl_offset c) s (rdb_expected_bytes c)
    (rdb_received_bytes c) (rdb_written_bytes c) (tmp_rdb_fp c) (should_propogate_command c)
    (should_reply c).
Definition with_propogate (b : bool) (c : Client) : Client :=
  MkClient (client_fd c) (output_buffer c) (type c) (epoll_events c) (master_repl_state c)
    (rdb_fd c) (rdb_file_offset c) (rdb_file_size c) (repl_offset c) (repl_client_state c)
    (rdb_expected_bytes c) (rdb_received_bytes c) (rdb_written_bytes c) (tmp_rdb_fp c) b
    (should_reply c).
Definition with_epoll (e : Z) (c : Client) : Client :=
  MkClient (client_fd c) (output_buffer c) (type c) e (master_repl_state c) (rdb_fd c)
    (rdb_file_offset c) (rdb_file_size c) (repl_offset c) (repl_client_state c)
    (rdb_expected_bytes c) (rdb_received_bytes c) (rdb_written_bytes c) (tmp_rdb_fp c)
    (should_propogate_command c) (should_reply c).
Definition with_master_repl_state (s : MasterReplicaState) (c : Client) : Client :=
  MkClient (client_fd c) (output_buffer c) (type c) (epoll_events c) s (rdb_fd c)
    (rdb_file_offset c) (rdb_file_size c) (repl_offset c) (repl_client_state c)
    (rdb_expected_bytes c) (rdb_received_bytes c) (rdb_written_bytes c) (tmp_rdb_fp c)
    (should_propogate_command c) (should_reply c).
Definition with_file_offset (o : Z) (c : Client) : Client :=
  MkClient (client_fd c) (output_buffer c) (type c) (epoll_events c) (master_repl_state c)
    (rdb_fd c) o (rdb_file_size c) (repl_offset c) (repl_client_state c) (rdb_expected_bytes c)
    (rdb_received_bytes c) (rdb_written_bytes c) (tmp_rdb_fp c) (should_propogate_command c)
    (should_reply c).
Definition with_repl_offset (o : Z) (c : Client) : Client :=
  MkClient (client_fd c) (output_buffer c) (type c) (epoll_events c) (master_repl_state c)
    (rdb_fd c) (rdb_file_offset c) (rdb_file_size c) o (repl_client_state c)
    (rdb_expected_bytes c) (rdb_received_bytes c) (rdb_written_bytes c) (tmp_rdb_fp c)
    (should_propogate_command c) (should_reply c).
Definition with_transfer (expected received written : Z) (fp : stream) (c : Client) : Client :=
  MkClient (client_fd c) (output_buffer c) (type c) (epoll_events c) (master_repl_state c)
    (rdb_fd c) (rdb_file_offset c) (rdb_file_size c) (repl_offset c) (repl_client_state c)
    expected received written fp (should_propogate_command c) (should_reply c).

Definition on_db {A} (f : dbM A) : cmdM A := λ w,
  match f (w_mem w) with Ok (a, m) => Ok (a, set_mem m w) | Stop e => Stop e end.

(** An operation on the output buffer of the client. *)
Definition reply {A} (f : rbM A) : cmdM A := λ w,
  match f (output_buffer (w_client w)) with
  | Ok (a, rb) => Ok (a, set_client (with_output rb (w_client w)) w)
  | Stop e => Stop e
  end.

(** [if (client->should_reply) ...] *)
Definition reply_if_wanted (f : rbM unit) : cmdM unit :=
  c ← gets w_client; when (should_reply c) (reply f).

(** ** [client_enable_read_events], [client_enable_write_events],
       [client_disable_write_events] *)

Definition EPOLLIN : Z := 1.
Definition EPOLLOUT : Z := 4.

(** [epoll_ctl(..., EPOLL_CTL_MOD, ...)] with a new mask; a failure exits. *)
Definition epoll_mod (mask : Z → Z) : cmdM unit := λ w,
  let c := with_epoll (mask (epoll_events (w_client w))) (w_client w) in
  match epoll_answers w with
  | false :: _ => Stop ExitFailure
  | true :: bs =>
      Ok (tt, MkWorld (w_mem w) c (w_info w) (w_config w) (w_os w) bs)
  | [] => Ok (tt, set_client c w)
  end.

Definition client_enable_read_events : cmdM unit := epoll_mod (λ e, Z.lor e EPOLLIN).
Definition client_enable_write_events : cmdM unit := epoll_mod (λ e, Z.lor e EPOLLOUT).
Definition client_disable_write_events : cmdM unit := epoll_mod (λ e, Z.land e (Z.lnot EPOLLOUT)).

(** The bits the masks set and clear. *)
Lemma mask_set e x : Z.land (Z.lor e x) x = x.
Proof. apply Z.bits_inj'. intros n Hn. rewrite Z.land_spec, Z.lor_spec. by destruct (Z.testbit e n), (Z.testbit x n). Qed.
Lemma mask_clear e x : Z.land (Z.land e (Z.lnot x)) x = 0.
Proof.
  apply Z.bits_inj'. intros n Hn. rewrite !Z.land_spec, Z.lnot_spec, Z.bits_0 by done.
  by destruct (Z.testbit e n), (Z.testbit x n).
Qed.

(** ** [add_replica] and [remove_replica]

    The array has room for [MAX_REPLICAS]; nothing checks it. *)

Definition as_replica (c : Client) : Client :=
  MkClient (client_fd c) (output_buffer c) CLIENT_TYPE_REPLICA (epoll_events c)
    (master_repl_state c) (rdb_fd c) (rdb_file_offset c) (rdb_file_size c) (repl_offset c)
    (repl_client_state c) (rdb_expected_bytes c) (rdb_received_bytes c) (rdb_written_bytes c)
    (tmp_rdb_fp c) (should_propogate_command c) false.

Definition add_replica : cmdM unit := λ w,
  let c := as_replica (w_client w) in
  let i := w_info w in
  if num_replicas i <? MAX_REPLICAS then
    Ok (tt, set_info (MkInfo (role i) (master_replid i) (master_repl_offset i)
                        (repl_backlog_base_offset i)
                        (<[Z.to_nat (num_replicas i) := client_fd c]> (replicas i))
                        (num_replicas i + 1)) (set_client c w))
  else Stop BadAccess.

(** The position of the first replica that is this client. *)
Fixpoint find_replica (cl : Z) (rs : list Z) (i : Z) : Z :=
  match rs with
  | [] => -1
  | r :: rs' => if r =? cl then i else find_replica cl rs' (i + 1)
  end.

(** The client at [fd] is freed: a pointer to it that is left in the table (a client
    that asked for PSYNC twice is in it twice) dangles. *)
Definition forget_client (fd : Z) (w : world) : world :=
  let i := w_info w in
  set_info (MkInfo (role i) (master_replid i) (master_repl_offset i) (repl_backlog_base_offset i)
              ((λ r, if r =? fd then DANGLING else r) <$> replicas i) (num_replicas i)) w.

(** A client that is not found is reported, and [replicas[-1]] is written. *)
Definition remove_replica (cl : Z) : cmdM unit := λ w,
  let i := w_info w in
  let n := s32 (num_replicas i) in
  let pos := find_replica cl (take (Z.to_nat n) (replicas i)) 0 in
  if pos =? -1 then Stop BadAccess
  else
    match replicas i !! Z.to_nat (n - 1) with
    | Some last =>
        Ok (tt, set_info (MkInfo (role i) (master_replid i) (master_repl_offset i)
                            (repl_backlog_base_offset i)
                            (<[Z.to_nat pos := last]> (replicas i))
                            (u64 (num_replicas i - 1))) w)
    | None => Stop BadAccess
    end.
