(* ===== verification/Commands.v ===== *)
(** * [src/src/commands.c]

    The command handlers.  [args] are the [arg_count] arguments of the command,
    its name first, as C strings. *)

From S2P Require Import Prelude CLib RingBuffer Util LinkedList Database Rdb RespWriter.
From S2P Require Import ServerState.

(** ** The options of SET *)

Record SetOptions := MkOptions {
  opt_expiration : Z; nx : bool; xx : bool; keepttl : bool; opt_get : bool
}.

Definition no_options : SetOptions := MkOptions 0 false false false false.

Definition opt_expire (e : Z) (o : SetOptions) : SetOptions :=
  MkOptions e (nx o) (xx o) (keepttl o) (opt_get o).

Definition streq (arg : bytes) (s : string) : bool := bool_decide (arg = lit s).

(** The four options that take an argument: how the parsed number becomes an
    expiration in milliseconds ([None]: some other option). *)
Definition expire_option (arg : bytes) : option (Z → dbM Z) :=
  if streq arg "EX" then Some (λ seconds, now ← read_clock; mret (s64 (now + s64 (seconds * 1000))))
  else if streq arg "PX" then Some (λ ms, now ← read_clock; mret (s64 (now + ms)))
  else if streq arg "EXAT" then Some (λ seconds, mret (s64 (seconds * 1000)))
  else if streq arg "PXAT" then Some (λ ms, mret ms)
  else None.

(** The code returned and [*options]. *)
Fixpoint parse_set_options (args : list bytes) (o : SetOptions) : dbM (Z * SetOptions) :=
  match args with
  | [] => mret (0, o)
  | arg :: args' =>
      if streq arg "NX" then
        if xx o then mret (ERR_SYNTAX, o)
        else parse_set_options args' (MkOptions (opt_expiration o) true (xx o) (keepttl o) (opt_get o))
      else if streq arg "XX" then
        if nx o then mret (ERR_SYNTAX, o)
        else parse_set_options args' (MkOptions (opt_expiration o) (nx o) true (keepttl o) (opt_get o))
      else if streq arg "GET" then
        parse_set_options args' (MkOptions (opt_expiration o) (nx o) (xx o) (keepttl o) true)
      else if streq arg "KEEPTTL" then
        if negb (opt_expiration o =? 0) then mret (ERR_SYNTAX, o)
        else parse_set_options args' (MkOptions (opt_expiration o) (nx o) (xx o) true (opt_get o))
      else
        match expire_option arg, args' with
        | Some f, next_arg :: args'' =>
            if negb (opt_expiration o =? 0) || keepttl o then mret (ERR_SYNTAX, o)
            else
              let '(rc, n) := parse_integer next_arg 0 in
              if negb (rc =? 0) then mret (rc, o)
              else e ← f n; parse_set_options args'' (opt_expire e o)
        | _, _ => parse_set_options args' o
        end
  end.

(** ** The handlers *)

Definition arg (args : list bytes) (i : nat) : cmdM bytes := lift (of_option BadAccess (args !! i)).

Definition handle_ping (args : list bytes) : cmdM unit :=
  if zlen args =? 1 then reply (add_simple_string_reply (lit "PONG"))
  else if zlen args =? 2 then msg ← arg args 1; reply (add_simple_string_reply msg)
  else reply (add_error_reply (lit "ERR wrong number of arguments for 'ping' command")).

Definition handle_echo (args : list bytes) : cmdM unit :=
  if negb (zlen args =? 2)
  then reply (add_error_reply (lit "ERR wrong number of arguments for 'echo' command"))
  else msg ← arg args 1; reply (add_simple_string_reply msg).

(** [data.str] of a value: only a string has one. *)
Definition data_str (v : RedisValue) : cmdM bytes :=
  match rv_data v with
  | TYPE_STRING s => mret s
  | TYPE_LIST _ => stop WrongUnionMember
  end.

Definition handle_set (args : list bytes) : cmdM unit :=
  if zlen args <? 3
  then reply (add_error_reply (lit "ERR wrong number of arguments for 'set' command"))
  else
    '(parse_result, options) ← on_db (parse_set_options (drop 3 args) no_options);
    if parse_result =? ERR_SYNTAX then reply_if_wanted (add_error_reply (lit "ERR syntax error"))
    else if parse_result =? ERR_VALUE
    then reply_if_wanted (add_error_reply (lit "ERR value is not an integer or out of range"))
    else if opt_expiration options <? 0
    then reply_if_wanted (add_error_reply (lit "ERR expiration must be a non-negative integer"))
    else
      key ← arg args 1;
      value ← arg args 2;
      existing_value ← (if nx options || xx options || opt_get options || keepttl options
                        then on_db (redis_db_get key) else mret None);
      let key_exists := bool_decide (is_Some existing_value) in
      if (nx options && key_exists) || (xx options && negb key_exists)
      then reply_if_wanted add_null_reply
      else
        let exp := match existing_value with
                   | Some v => if keepttl options then expiration v else opt_expiration options
                   | None => opt_expiration options
                   end in
        old_value ← match existing_value with
                    | Some v => if opt_get options then s ← data_str v; mret (Some s) else mret None
                    | None => mret None
                    end;
        _ ← on_db (redis_db_set key (TYPE_STRING value) exp);
        if opt_get options then
          match old_value with
          | Some s => reply_if_wanted (add_bulk_string_reply s)
          | None => reply_if_wanted add_null_reply
          end
        else reply_if_wanted (add_simple_string_reply (lit "OK")).

Definition WRONG_KIND : bytes := lit "ERR Operation against a key holding the wrong kind of value".

Definition handle_get (args : list bytes) : cmdM unit :=
  if negb (zlen args =? 2)
  then reply_if_wanted (add_error_reply (lit "ERR wrong number of arguments for 'get' command"))
  else
    key ← arg args 1;
    redis_value ← on_db (redis_db_get key);
    match redis_value with
    | None => reply_if_wanted add_null_reply
    | Some v =>
        match rv_data v with
        | TYPE_LIST _ => reply_if_wanted (add_error_reply WRONG_KIND)
        | TYPE_STRING s => reply_if_wanted (add_bulk_string_reply s)
        end
    end.

Fixpoint count_existing (keys : list bytes) (count : Z) : cmdM Z :=
  match keys with
  | [] => mret count
  | key :: keys' =>
      b ← on_db (redis_db_exist key);
      count_existing keys' (if (b : bool) then s32 (count + 1) else count)
  end.

Definition handle_exist (args : list bytes) : cmdM unit :=
  if zlen args <? 2
  then reply (add_error_reply (lit "ERR wrong number of arguments for 'exist' command"))
  else count ← count_existing (drop 1 args) 0; reply (add_integer_reply count).

Definition handle_delete (args : list bytes) : cmdM unit :=
  if zlen args <? 2
  then reply (add_error_reply (lit "ERR wrong number of arguments for 'delete' command"))
  else
    _ ← for_each (λ key, on_db (redis_db_delete key)) (drop 1 args);
    reply_if_wanted (add_simple_string_reply (lit "OK")).

Definition handle_incr_decr (args : list bytes) (increment : Z) : cmdM unit :=
  if zlen args <? 2
  then reply_if_wanted (add_error_reply (lit "ERR wrong number of arguments for 'incr/decr' command"))
  else
    key ← arg args 1;
    redis_value ← on_db (redis_db_get key);
    '(parse_result, current_value) ←
      match redis_value with
      | Some v => s ← data_str v; mret (parse_integer s 0)
      | None => mret (0, 0)
      end;
    if parse_result =? ERR_VALUE then reply_if_wanted (add_error_reply (lit "ERR value is not an integer"))
    else
      let new_value := s64 (current_value + increment) in
      let new_value_str := cstr (snprintf 21 (fmt_ld new_value)) in
      _ ← on_db (redis_db_set key (TYPE_STRING new_value_str) 0);
      reply_if_wanted (add_integer_reply (s32 new_value)).

Definition handle_incr (args : list bytes) : cmdM unit := handle_incr_decr args 1.
Definition handle_decr (args : list bytes) : cmdM unit := handle_incr_decr args (-1).

(** The loop over the items: [None] after a type mismatch, else [length]. *)
Fixpoint push_items (push : bytes → bytes → Z → dbM (Z * Z)) (key : bytes) (items : list bytes)
    (length : Z) : cmdM (option Z) :=
  match items with
  | [] => mret (Some length)
  | item :: items' =>
      r ← on_db (push key item length);
      if r.1 =? ERR_TYPE_MISMATCH then mret None else push_items push key items' r.2
  end.

Definition handle_lpush (args : list bytes) : cmdM unit :=
  if zlen args <? 3
  then reply_if_wanted (add_error_reply (lit "ERR wrong number of arguments for 'lpush' command"))
  else
    key ← arg args 1;
    r ← push_items redis_db_lpush key (drop 2 args) 0;
    match r with
    | None => reply_if_wanted (add_error_reply WRONG_KIND)
    | Some length => reply_if_wanted (add_integer_reply length)
    end.

Definition handle_rpush (args : list bytes) : cmdM unit :=
  if zlen args <? 3
  then reply_if_wanted (add_error_reply (lit "ERR wrong number of arguments for 'rpush' command"))
  else
    key ← arg args 1;
    r ← push_items redis_db_rpush key (drop 2 args) 0;
    match r with
    | None => reply_if_wanted (add_error_reply WRONG_KIND)
    | Some length => reply_if_wanted (add_integer_reply length)
    end.

(** An index that does not parse stays 0; the [long]s are passed as [int]s.
    [range] is not assigned for a key that does not exist.  [add_array_reply]
    then compares an indeterminate pointer with NULL, which decides nothing as
    long as there is no element to follow it for; following it is a fault. *)
Definition handle_lrange (args : list bytes) : cmdM unit :=
  if zlen args <? 4
  then reply (add_error_reply (lit "ERR wrong number of arguments for 'rpush' command"))
  else
    list_key ← arg args 1;
    s ← arg args 2;
    e ← arg args 3;
    let start := (parse_integer s 0).2 in
    let end_ := (parse_integer e 0).2 in
    '(error, range, range_length) ← on_db (redis_db_lrange list_key (s32 start) (s32 end_));
    if error =? ERR_TYPE_MISMATCH then reply (add_error_reply WRONG_KIND)
    else
      length ← lift (of_option Indeterminate range_length);
      range ← lift (match range with
                    | Some range => Ok range
                    | None => if 0 <? length then Stop Indeterminate else Ok None
                    end);
      _ ← reply (add_array_reply range length);
      lift (cleanup_lrange_result range length).

(** The loop of CONFIG GET: [None] after an unknown parameter. *)
Fixpoint config_response (cfg : server_config_t) (params : list bytes) : option (list bytes) :=
  match params with
  | [] => Some []
  | param :: params' =>
      if streq param "dir" then rest ← config_response cfg params'; Some (lit "dir" :: dir cfg :: rest)
      else if streq param "dbfilename"
      then rest ← config_response cfg params'; Some (lit "dbfilename" :: dbfilename cfg :: rest)
      else None
  end.

Definition handle_config (args : list bytes) : cmdM unit :=
  if zlen args <? 3
  then reply (add_error_reply (lit "ERR wrong number of arguments for 'config get' command"))
  else
    sub ← arg args 1;
    when (streq sub "GET") (
      cfg ← gets w_config;
      match config_response cfg (drop 2 args) with
      | None => reply (add_error_reply (lit "ERR Unknown config parameter"))
      | Some response => reply (add_array_reply (Some response) (zlen response))
      end).

(** [redis_db_save] of [database.c]. *)
Definition redis_db_save : cmdM bool := λ w,
  match rdb_save_data_to_file (db (w_mem w)) (dir (w_config w)) (dbfilename (w_config w)) (w_os w) with
  | Ok (b, os) => Ok (b, set_os os w)
  | Stop e => Stop e
  end.

Definition handle_save (args : list bytes) : cmdM unit :=
  _ ← (if negb (zlen args =? 1)
       then reply (add_error_reply (lit "ERR wrong number of arguments for 'save' command"))
       else mret tt);
  _ ← redis_db_save;
  reply (add_simple_string_reply (lit "OK")).

Definition handle_dbsize : cmdM unit :=
  dbsize ← on_db redis_db_dbsize;
  reply (add_integer_reply (s32 dbsize)).

(** The four formatted lines fit the buffer of 2048 bytes. *)
Definition handle_info : cmdM unit :=
  i ← gets w_info;
  let role_str := match role i with ROLE_MASTER => lit "master" | ROLE_SLAVE => lit "slave" end in
  reply (add_bulk_string_reply
    (lit "# Replication" ++ CRLF ++ lit "role:" ++ role_str ++ CRLF ++
     lit "master_replid:" ++ master_replid i ++ CRLF ++
     lit "master_repl_offset:" ++ fmt_ld (master_repl_offset i) ++ CRLF)).

Definition handle_replconf (args : list bytes) : cmdM unit :=
  if (3 <=? zlen args) && bool_decide (args !! 1%nat = Some (lit "GETACK")) &&
     bool_decide (args !! 2%nat = Some (lit "*"))
  then
    i ← gets w_info;
    reply (add_array_reply
      (Some [lit "REPLCONF"; lit "ACK"; cstr (snprintf 32 (fmt_ld (master_repl_offset i)))]) 3)
  else reply (add_simple_string_reply (lit "OK")).

(** The replica's side of the handshake: [strncmp] looks at nine characters,
    and the [sscanf] call has the identifier for its format and assigns
    nothing. *)
Definition handle_simple_string_reply (buf : bytes) : cmdM unit :=
  c ← gets w_client;
  let goto s := modify (λ w, set_client (with_repl_client_state s (w_client w)) w) in
  if bool_decide (type c = CLIENT_TYPE_MASTER) then
    match repl_client_state c with
    | REPL_STATE_SENT_PING =>
        goto (if streq buf "PONG" then REPL_STATE_RECEIVED_PONG else REPL_STATE_ERROR)
    | REPL_STATE_SENT_REPLCONF_PORT =>
        goto (if streq buf "OK" then REPL_STATE_RECEIVED_REPLCONF_PORT_OK else REPL_STATE_ERROR)
    | REPL_STATE_SENT_REPLCONF_CAPA =>
        goto (if streq buf "OK" then REPL_STATE_RECEIVED_REPLCONF_CAPA_OK else REPL_STATE_ERROR)
    | REPL_STATE_SENT_PSYNC =>
        goto (if streq (take 9 buf) "FULLRESYN" then REPL_STATE_RECEIVED_FULLRESYNC_RESPONSE
              else REPL_STATE_ERROR)
    | _ => mret tt
    end
  else mret tt.

(** ** PSYNC *)

(** Whether the replica's identifier and offset allow a partial resync. *)
Definition partial_resync_offset (i : server_info_t) (replid offset_str : bytes) : option Z :=
  let r := strtol offset_str in
  let replica_offset := st_value r in
  if negb (bool_decide (replid !! 0%nat = Some (byte_of 63))) &&
     bool_decide (replid = master_replid i) && (st_end r =? zlen offset_str) &&
     (repl_backlog_base_offset i <=? replica_offset) && (replica_offset <=? master_repl_offset i)
  then Some replica_offset else None.

Definition start_partial (offset : Z) (c : Client) : Client :=
  MkClient (client_fd c) (output_buffer c) (type c) (epoll_events c) MASTER_REPL_STATE_PSYNC
    (rdb_fd c) (rdb_file_offset c) (rdb_file_size c) offset (repl_client_state c)
    (rdb_expected_bytes c) (rdb_received_bytes c) (rdb_written_bytes c) (tmp_rdb_fp c)
    (should_propogate_command c) (should_reply c).

Definition start_full (path : bytes) (size : Z) (c : Client) : Client :=
  MkClient (client_fd c) (output_buffer c) (type c) (epoll_events c)
    MASTER_REPL_STATE_SENDING_RDB_DATA (Some path) 0 size (repl_offset c) (repl_client_state c)
    (rdb_expected_bytes c) (rdb_received_bytes c) (rdb_written_bytes c) (tmp_rdb_fp c)
    (should_propogate_command c) (should_reply c).

(** [fopen(path, "rb")], [fileno], [fstat]: the file and its size.  A file that
    cannot be opened is followed all the same. *)
Definition open_snapshot : cmdM (bytes * Z) := λ w,
  match construct_file_path (path_malloc_ok (w_os w)) (dir (w_config w)) (dbfilename (w_config w)) with
  | Some path =>
      match files (w_os w) !! path with
      | Some file => Ok ((path, zlen file), w)
      | None => Stop BadAccess
      end
  | None => Stop BadAccess
  end.

Definition handle_psync (args : list bytes) : cmdM unit :=
  if zlen args <? 3
  then reply (add_error_reply (lit "ERR wrong number of arguments for 'psync' command"))
  else
    replid ← arg args 1;
    offset_str ← arg args 2;
    i ← gets w_info;
    match partial_resync_offset i replid offset_str with
    | Some replica_offset =>
        _ ← add_replica;
        _ ← reply (add_simple_string_reply (lit "CONTINUE"));
        _ ← modify (λ w, set_client (start_partial replica_offset (w_client w)) w);
        client_enable_write_events
    | None =>
        _ ← add_replica;
        _ ← reply (add_fullresync_reply (master_replid i) (master_repl_offset i));
        _ ← redis_db_save;
        '(path, db_file_size) ← open_snapshot;
        _ ← modify (λ w, set_client (start_full path db_file_size (w_client w)) w);
        _ ← reply (write_begin_bulk_string db_file_size);
        client_enable_write_events
    end.

(** ** [get_command_type] and [handle_command] of [src/src/command_handler.c] *)

Inductive CommandType :=
| CMD_PING | CMD_ECHO | CMD_SET | CMD_GET | CMD_EXIST | CMD_DEL | CMD_INCR | CMD_DECR | CMD_LPUSH
| CMD_RPUSH | CMD_LRANGE | CMD_CONFIG | CMD_SAVE | CMD_DBSIZE | CMD_INFO | CMD_UNKNOWN
| CMD_REPLCONF | CMD_PSYNC.

#[export] Instance CommandType_eq_dec : EqDecision CommandType.
Proof. solve_decision. Defined.

Definition get_command_type (command : bytes) : CommandType :=
  if streq command "PING" then CMD_PING
  else if streq command "ECHO" then CMD_ECHO
  else if streq command "SET" then CMD_SET
  else if streq command "GET" then CMD_GET
  else if streq command "EXIST" then CMD_EXIST
  else if streq command "DEL" then CMD_DEL
  else if streq command "INCR" then CMD_INCR
  else if streq command "DECR" then CMD_DECR
  else if streq command "LPUSH" then CMD_LPUSH
  else if streq command "RPUSH" then CMD_RPUSH
  else if streq command "LRANGE" then CMD_LRANGE
  else if streq command "CONFIG" then CMD_CONFIG
  else if streq command "SAVE" then CMD_SAVE
  else if streq command "DBSIZE" then CMD_DBSIZE
  else if streq command "INFO" then CMD_INFO
  else if streq command "REPLCONF" then CMD_REPLCONF
  else if streq command "PSYNC" then CMD_PSYNC
  else CMD_UNKNOWN.

(** The handler of a command. *)
Definition dispatch (command_type : CommandType) (args : list bytes) : cmdM unit :=
  match command_type with
  | CMD_PING => handle_ping args
  | CMD_ECHO => handle_echo args
  | CMD_SET => handle_set args
  | CMD_GET => handle_get args
  | CMD_EXIST => handle_exist args
  | CMD_DEL => handle_delete args
  | CMD_INCR => handle_incr args
  | CMD_DECR => handle_decr args
  | CMD_LPUSH => handle_lpush args
  | CMD_RPUSH => handle_rpush args
  | CMD_LRANGE => handle_lrange args
  | CMD_CONFIG => handle_config args
  | CMD_SAVE => handle_save args
  | CMD_DBSIZE => handle_dbsize
  | CMD_INFO => handle_info
  | CMD_REPLCONF => handle_replconf args
  | CMD_PSYNC => handle_psync args
  | CMD_UNKNOWN => reply (add_error_reply (lit "ERR unknown command"))
  end.

(** The name is [args[0]] whether or not there is an argument: with none, it is
    a stale or uninitialised pointer. *)
Definition handle_command (args : list bytes) : cmdM unit :=
  _ ← modify (λ w, set_client (with_propogate false (w_client w)) w);
  command ← lift (of_option Indeterminate (args !! 0%nat));
  let command_type := get_command_type command in
  _ ← dispatch command_type args;
  when (bool_decide (command_type = CMD_SET))
    (modify (λ w, set_client (with_propogate true (w_client w)) w)).
