(* ===== verification/CommandSpec.v ===== *)
(** * What the command handlers answer

    Each handler against the abstract keyspace of [Database] and the reply
    encodings of [RespWriter]: the reply it sends and the keyspace it leaves,
    on every branch. *)

From S2P Require Import Prelude CLib RingBuffer Util LinkedList Database Rdb RespWriter.
From S2P Require Import ServerState Commands.

(** ** Running handlers *)

Definition out (w : world) : ring_buffer := output_buffer (w_client w).

(** The client's keyspace is [A], its output buffer is well formed, and it is
    a client that gets replies. *)
Record world_ok (w : world) (A : adb) : Prop := {
  w_db : db_rep (w_mem w) A;
  w_room : adb_ok A;
  w_out : rb_wf (out w);
  w_reply : should_reply (w_client w) = true
}.

(** The output buffer takes [r]. *)
Definition out_room (w : world) (r : resp) : Prop :=
  resp_ok r ∧ zlen (encode r) + slack_of r ≤ size (out w) - zlen (contents (out w)) ∧
  write_index (out w) + zlen (encode r) < 2 ^ 64.

(** The clock has been read [n] more times. *)
Definition later (n : nat) (m m' : mem) : Prop :=
  clock m' = clock m ∧ ticks m' = (ticks m + n)%nat.

Lemma later_0 m : later 0 m m.
Proof. split; [done|lia]. Qed.
Lemma later_more n n' m1 m2 m3 : later n m1 m2 → later n' m2 m3 → later (n + n') m1 m3.
Proof. intros [Hc1 Ht1] [Hc2 Ht2]. split; [congruence|lia]. Qed.
Lemma later_same n m1 m2 m3 : later n m1 m2 → later 0 m2 m3 → later n m1 m3.
Proof. intros H1 H2. rewrite <- (Nat.add_0_r n). by eapply later_more. Qed.

(** The handler ran: reply [r] is queued behind what was there, the keyspace is
    [A'], the clock was read [n] times, and nothing else of the server changed. *)
Record answered (w w' : world) (r : resp) (A' : adb) (n : nat) : Prop := {
  ans_db : db_rep (w_mem w') A';
  ans_time : later n (w_mem w) (w_mem w');
  ans_out : rb_wf (out w');
  ans_reply : contents (out w') = contents (out w) ++ encode r;
  ans_index : size (out w') = size (out w) ∧
              write_index (out w') = write_index (out w) + zlen (encode r);
  ans_client : w_client w' = with_output (out w') (w_client w);
  ans_rest : w_info w' = w_info w ∧ w_config w' = w_config w ∧ w_os w' = w_os w ∧
             epoll_answers w' = epoll_answers w
}.

Lemma reply_answers w m A r n :
  db_rep m A → later n (w_mem w) m → rb_wf (out w) → out_room w r →
  ∃ w', reply (add_reply r) (set_mem m w) = Ok (tt, w') ∧ answered w w' r A n.
Proof.
  intros Hdb Hn Hout (Hok & Hfit & H64).
  destruct (add_reply_appends r Hok (out w) Hout Hfit H64) as (rb & Hadd & Hwf & Hc & Hix).
  exists (set_client (with_output rb (w_client w)) (set_mem m w)). split.
  - unfold reply. cbn [w_client set_mem]. unfold out in Hadd. by rewrite Hadd.
  - constructor; simpl; try done.
Qed.

Lemma reply_if_wanted_answers w m A r n :
  db_rep m A → later n (w_mem w) m → rb_wf (out w) → out_room w r → should_reply (w_client w) = true →
  ∃ w', reply_if_wanted (add_reply r) (set_mem m w) = Ok (tt, w') ∧ answered w w' r A n.
Proof.
  intros Hdb Hn Hout Hroom Hs. unfold reply_if_wanted. erewrite st_bind_ok by reflexivity.
  cbn [w_client set_mem]. rewrite Hs. by apply reply_answers.
Qed.

Lemma set_mem_id w : set_mem (w_mem w) w = w.
Proof. by destruct w. Qed.

Lemma on_db_ok {B} (f : dbM B) w m a m' :
  f m = Ok (a, m') → on_db f (set_mem m w) = Ok (a, set_mem m' w).
Proof. intros E. unfold on_db. cbn [w_mem set_mem]. by rewrite E. Qed.

Lemma on_db_ok0 {B} (f : dbM B) w a m' :
  f (w_mem w) = Ok (a, m') → on_db f w = Ok (a, set_mem m' w).
Proof. intros E. rewrite <- (set_mem_id w) at 1. by apply on_db_ok. Qed.

Lemma arg_ok args i x w : args !! i = Some x → arg args i w = Ok (x, w).
Proof. intros E. unfold arg, lift. by rewrite E. Qed.

(** ** GET *)

(** The answer to an operation on a value of the other type. *)
Definition wrong_kind : resp := RError (lit "ERR Operation against a key holding the wrong kind of value").

Definition get_reply (v : option (aval * Z)) : resp :=
  match v with
  | None => RNull
  | Some (AStr s, _) => RBulk s
  | Some (AList _, _) => wrong_kind
  end.

(** GET answers the string of the key, null if the key is missing or its
    time has passed (and then the key is gone), and an error if it holds a
    list. *)
Lemma handle_get_runs w A name key :
  world_ok w A →
  let '(v, A') := a_get (time_at (w_mem w)) key A in
  out_room w (get_reply v) →
  ∃ w', handle_get [name; key] w = Ok (tt, w') ∧ answered w w' (get_reply v) A' (get_ticks key A).
Proof.
  intros [(M & P & Ho) HA Hout Hr].
  destruct (get_rep (w_mem w) M P A key Ho HA) as (r & m1 & M1 & Hg & _ & Ho1 & Hc & Ht & Hv).
  destruct (a_get (time_at (w_mem w)) key A) as [v A']. intros Hroom.
  unfold handle_get. change (negb (zlen [name; key] =? 2)) with false. cbn match.
  erewrite st_bind_ok by (by apply arg_ok). cbv beta.
  erewrite st_bind_ok by (by apply on_db_ok0). cbv beta. cbn [fst snd] in *.
  assert (db_rep m1 A') as Hdb by (by exists M1, P).
  pose proof (reply_if_wanted_answers w m1 A' (get_reply v) _ Hdb (conj Hc Ht) Hout Hroom Hr) as Hans.
  destruct v as [[[s|xs] e]|].
  - subst r. exact Hans.
  - destruct Hv as (l & -> & _). exact Hans.
  - destruct Hv as [-> _]. exact Hans.
Qed.

(** ** SET *)

(** Parsing the options only reads the clock. *)
Definition ticked (n : nat) (m : mem) : mem :=
  MkMem (db m) (hp m) (kh_allocs m) (clock m) (ticks m + n).

Lemma ticked_rep n m A : db_rep m A → db_rep (ticked n m) A.
Proof. intros (M & P & Ho). exists M, P. by apply (own_same m). Qed.

Lemma ticked_later n m : later n m (ticked n m).
Proof. done. Qed.

Lemma ticked_0 m : ticked 0 m = m.
Proof. unfold ticked. rewrite Nat.add_0_r. by destruct m. Qed.

Lemma ticked_ticked n n' m : ticked n' (ticked n m) = ticked (n + n') m.
Proof. unfold ticked. simpl. by rewrite Nat.add_assoc. Qed.

Definition options_ok (o : SetOptions) : Prop :=
  (nx o && xx o = false) ∧ (keepttl o = true → opt_expiration o = 0).

Lemma expire_option_runs arg f n m :
  expire_option arg = Some f → ∃ e k, f n m = Ok (e, ticked k m).
Proof.
  unfold expire_option. repeat case_match; intros [= <-].
  - exists (s64 (time_at m + s64 (n * 1000))), 1%nat. unfold ticked. by rewrite Nat.add_1_r.
  - exists (s64 (time_at m + n)), 1%nat. unfold ticked. by rewrite Nat.add_1_r.
  - exists (s64 (n * 1000)), 0%nat. by rewrite ticked_0.
  - exists n, 0%nat. by rewrite ticked_0.
Qed.

Lemma parse_set_options_runs args o m :
  options_ok o →
  ∃ rc o' n, parse_set_options args o m = Ok ((rc, o'), ticked n m) ∧
    (rc = 0 ∨ rc = ERR_SYNTAX ∨ rc = ERR_VALUE) ∧ options_ok o'.
Proof.
  revert o m. induction args as [args IH] using (well_founded_induction (Nat.lt_wf_0_projected length)).
  intros o m [Hx Hk]. destruct args as [|a args]; cbn [parse_set_options].
  { exists 0, o, 0%nat. rewrite ticked_0. by split_and!; [|left|..]. }
  assert (∀ rc, rc = 0 ∨ rc = ERR_SYNTAX ∨ rc = ERR_VALUE →
    ∃ rc' o' n, (mret (rc, o) : dbM _) m = Ok ((rc', o'), ticked n m) ∧
      (rc' = 0 ∨ rc' = ERR_SYNTAX ∨ rc' = ERR_VALUE) ∧ options_ok o') as Hret.
  { intros rc Hrc. exists rc, o, 0%nat. rewrite ticked_0. by split_and!. }
  assert (∀ l o1, (length l < length (a :: args))%nat → options_ok o1 →
    ∃ rc' o' n, parse_set_options l o1 m = Ok ((rc', o'), ticked n m) ∧
      (rc' = 0 ∨ rc' = ERR_SYNTAX ∨ rc' = ERR_VALUE) ∧ options_ok o') as Hrec
    by (intros l o1 Hl Ho1; by apply IH).
  destruct (streq a "NX").
  { destruct (xx o) eqn:Ex; [apply Hret; tauto|]. apply Hrec; [simpl; lia|]. split; [done|exact Hk]. }
  destruct (streq a "XX").
  { destruct (nx o) eqn:En; [apply Hret; tauto|]. apply Hrec; [simpl; lia|]. split; [done|exact Hk]. }
  destruct (streq a "GET"); [apply Hrec; [simpl; lia|]; by split|].
  destruct (streq a "KEEPTTL").
  { destruct (Z.eqb_spec (opt_expiration o) 0); cbn [negb]; [|apply Hret; tauto].
    apply Hrec; [simpl; lia|]. by split. }
  destruct (expire_option a) as [f|] eqn:Ef; [|apply Hrec; [simpl; lia|by split]].
  destruct args as [|next args]; [apply Hrec; [simpl; lia|by split]|].
  destruct (negb (opt_expiration o =? 0) || keepttl o) eqn:Eb; [apply Hret; tauto|].
  apply orb_false_iff in Eb as [_ Ekt].
  assert ((parse_integer next 0).1 = 0 ∨ (parse_integer next 0).1 = ERR_VALUE) as Hp
    by (destruct (parse_integer_cases next 0) as [(v & _ & _ & ->)|[_ ->]]; [by left|by right]).
  destruct (parse_integer next 0) as [rc n]. simpl in Hp.
  destruct Hp as [->| ->]; [|apply Hret; tauto]. change (negb (0 =? 0)) with false. cbn match.
  destruct (expire_option_runs a f n m Ef) as (e & k & Hf). erewrite st_bind_ok by exact Hf. cbv beta.
  destruct (IH args ltac:(simpl; lia) (opt_expire e o) (ticked k m)) as (rc' & o' & n' & Hrun & Hrc & Ho');
    [split; simpl; [done|by rewrite Ekt]|].
  exists rc', o', (k + n')%nat. rewrite Hrun, ticked_ticked. by split_and!.
Qed.

(** The options of SET.  Whatever arguments follow the value, parsing them
    ends with success, a syntax error or a value error, without touching the
    database, and a result never has both NX and XX, nor KEEPTTL together with
    an expiration. *)
Theorem parse_set_options_spec args m :
  ∃ rc o n, parse_set_options args no_options m = Ok ((rc, o), ticked n m) ∧
    (rc = 0 ∨ rc = ERR_SYNTAX ∨ rc = ERR_VALUE) ∧
    ¬ (nx o = true ∧ xx o = true) ∧ ¬ (keepttl o = true ∧ opt_expiration o ≠ 0).
Proof.
  destruct (parse_set_options_runs args no_options m) as (rc & o & n & Hrun & Hrc & Hx & Hk); [done|].
  exists rc, o, n. split_and!; [done..| |].
  - intros [H1 H2]. by rewrite H1, H2 in Hx.
  - intros [H1 H2]. by apply H2, Hk.
Qed.

(** The outcome of SET with parsed options on a key found as [existing]: the
    expiration to store under, if the key is set, and the reply. *)
Definition set_outcome (o : SetOptions) (existing : option (aval * Z)) : res (option Z * resp) :=
  let key_exists := bool_decide (is_Some existing) in
  let exp := match existing with
             | Some (_, e) => if keepttl o then e else opt_expiration o
             | None => opt_expiration o
             end in
  if (nx o && key_exists) || (xx o && negb key_exists) then Ok (None, RNull)
  else if opt_get o then
    match existing with
    | Some (AStr s, _) => Ok (Some exp, RBulk s)
    | Some (AList _, _) => Stop WrongUnionMember
    | None => Ok (Some exp, RNull)
    end
  else Ok (Some exp, RSimple (lit "OK")).

(** The key is looked up only when an option asks for it. *)
Definition set_lookup (now : Z) (o : SetOptions) (key : bytes) (A : adb) : option (aval * Z) * adb :=
  if nx o || xx o || opt_get o || keepttl o then a_get now key A else (None, A).
Definition lookup_ticks (o : SetOptions) (key : bytes) (A : adb) : nat :=
  if nx o || xx o || opt_get o || keepttl o then get_ticks key A else 0.

(** The lookup of SET, and what the handler sees of the value found. *)
Definition same_value (v : RedisValue) (a : aval * Z) : Prop :=
  expiration v = a.2 ∧
  match a.1 with
  | AStr s => rv_data v = TYPE_STRING s
  | AList _ => ∃ l, rv_data v = TYPE_LIST l
  end.

Lemma get_found m A key :
  db_rep m A → adb_ok A →
  ∃ r m', redis_db_get key m = Ok (r, m') ∧ later (get_ticks key A) m m' ∧
    db_rep m' (a_get (time_at m) key A).2 ∧
    option_Forall2 same_value r (a_get (time_at m) key A).1.
Proof.
  intros (M & P & Ho) HA. destruct (get_rep m M P A key Ho HA) as (r & m1 & M1 & Hg & _ & Ho1 & Hc & Ht & Hv).
  exists r, m1. split; [done|]. split; [done|]. split; [by exists M1, P|].
  destruct (a_get (time_at m) key A) as [[[[s|xs] e]|] A1]; simpl in *.
  - subst r. by constructor.
  - destruct Hv as (l & -> & _). constructor. split; simpl; eauto.
  - destruct Hv as [-> _]. constructor.
Qed.

Lemma set_lookup_runs w m A o key :
  db_rep m A → adb_ok A →
  ∃ r m', (if nx o || xx o || opt_get o || keepttl o then on_db (redis_db_get key) else mret None)
            (set_mem m w) = Ok (r, set_mem m' w) ∧ later (lookup_ticks o key A) m m' ∧
    db_rep m' (set_lookup (time_at m) o key A).2 ∧ adb_ok (set_lookup (time_at m) o key A).2 ∧
    option_Forall2 same_value r (set_lookup (time_at m) o key A).1.
Proof.
  intros Hdb HA. unfold set_lookup, lookup_ticks. destruct (nx o || xx o || opt_get o || keepttl o).
  - destruct (get_found m A key Hdb HA) as (r & m1 & Hg & Hn & Hdb1 & Hv). exists r, m1.
    split_and!; [by apply on_db_ok|done|done| |done]. by apply a_get_room.
  - exists None, m. split_and!; [done|apply later_0|done|done|constructor].
Qed.

(** The final step of SET: store, then reply. *)
Lemma store_and_reply w m A key value exp r n :
  db_rep m A → later n (w_mem w) m → adb_ok A → rb_wf (out w) → should_reply (w_client w) = true → out_room w r →
  ∃ w', (_ ← on_db (redis_db_set key (TYPE_STRING value) exp); reply_if_wanted (add_reply r))
          (set_mem m w) = Ok (tt, w') ∧ answered w w' r (<[key := (AStr value, exp)]> A) n.
Proof.
  intros (M & P & Ho) Hn HA Hout Hr Hroom.
  destruct (set_str_own m M P A key value exp Ho HA) as (m' & Hs & Ht & Hc & Hdb').
  erewrite st_bind_ok by (by apply on_db_ok). apply reply_if_wanted_answers; try done.
  eapply later_same; [done|]. split; [done|lia].
Qed.

(** SET without options. *)
Lemma handle_set_plain w A name key value :
  world_ok w A → out_room w (RSimple (lit "OK")) →
  ∃ w', handle_set [name; key; value] w = Ok (tt, w') ∧
    answered w w' (RSimple (lit "OK")) (<[key := (AStr value, 0)]> A) 0.
Proof.
  intros [Hdb HA Hout Hr] Hroom.
  destruct (store_and_reply w (w_mem w) A key value 0 _ 0 Hdb (later_0 _) HA Hout Hr Hroom) as (w' & E & Hans).
  exists w'. split; [|done]. rewrite set_mem_id in E. rewrite <- E.
  unfold handle_set. change (zlen [name; key; value] <? 3) with false. cbn [drop].
  erewrite st_bind_ok by (by apply on_db_ok0). cbv beta iota. rewrite set_mem_id. reflexivity.
Qed.

(** SET stores the value under the expiration its options give, unless NX
    or XX forbid it; it answers OK, null, or with GET the old string.  The only
    fault is GET on a key that holds a list, whose union is read as a string. *)
Lemma handle_set_runs w A name key value opts o n :
  world_ok w A →
  parse_set_options opts no_options (w_mem w) = Ok ((0, o), ticked n (w_mem w)) →
  0 ≤ opt_expiration o →
  let '(existing, A1) := set_lookup (time_at (ticked n (w_mem w))) o key A in
  match set_outcome o existing with
  | Ok (stored, r) =>
      out_room w r →
      ∃ w', handle_set (name :: key :: value :: opts) w = Ok (tt, w') ∧
        answered w w' r
          (match stored with Some exp => <[key := (AStr value, exp)]> A1 | None => A1 end)
          (n + lookup_ticks o key A)
  | Stop e => handle_set (name :: key :: value :: opts) w = Stop e
  end.
Proof.
  intros [Hdb HA Hout Hr] Hparse Hexp.
  destruct (set_lookup_runs w (ticked n (w_mem w)) A o key (ticked_rep n _ A Hdb) HA)
    as (r & m1 & Hget & Hn & Hdb1 & HA1 & Hv). apply (later_more n _ _ _ _ (ticked_later n (w_mem w))) in Hn.
  destruct (set_lookup (time_at (ticked n (w_mem w))) o key A) as [existing A1]. cbn [fst snd] in *.
  unfold handle_set. rewrite (proj2 (Z.ltb_ge _ _)) by (simpl length; lia). cbn [drop].
  erewrite st_bind_ok by (by apply on_db_ok0). cbv beta iota.
  change (0 =? ERR_SYNTAX) with false. change (0 =? ERR_VALUE) with false. cbn match.
  rewrite (proj2 (Z.ltb_ge _ _)) by lia.
  do 2 erewrite st_bind_ok by (by apply arg_ok). cbv beta.
  erewrite st_bind_ok by exact Hget. cbv beta zeta. unfold set_outcome.
  assert (bool_decide (is_Some r) = bool_decide (is_Some existing)) as ->
    by (apply bool_decide_ext; destruct Hv; by split; intros [? ?]; eauto).
  destruct ((nx o && bool_decide (is_Some existing)) || (xx o && negb (bool_decide (is_Some existing)))).
  { intros Hroom. by apply (reply_if_wanted_answers w m1 A1 RNull (n + lookup_ticks o key A)). }
  destruct Hv as [v [a e] [Hve Hva]|].
  - simpl in Hve, Hva. rewrite Hve. destruct (opt_get o) eqn:Eg.
    + destruct a as [s|xs].
      * intros Hroom. unfold data_str. rewrite Hva.
        erewrite st_bind_ok by reflexivity. cbv beta iota.
        by apply (store_and_reply w m1 A1 key value _ (RBulk s)).
      * destruct Hva as [l Hva]. unfold data_str. by rewrite Hva.
    + intros Hroom. erewrite st_bind_ok by reflexivity. cbv beta iota.
      by apply (store_and_reply w m1 A1 key value _ (RSimple (lit "OK"))).
  - destruct (opt_get o) eqn:Eg; intros Hroom; erewrite st_bind_ok by reflexivity; cbv beta iota.
    + by apply (store_and_reply w m1 A1 key value _ RNull).
    + by apply (store_and_reply w m1 A1 key value _ (RSimple (lit "OK"))).
Qed.

(** ** INCR and DECR *)

(** The text to store, if any, and the reply. *)
Definition incr_outcome (increment : Z) (existing : option (aval * Z)) : res (option bytes * resp) :=
  let bump v := Ok (Some (fmt_ld (s64 (v + increment))), RInteger (s32 (s64 (v + increment)))) in
  match existing with
  | None => bump 0
  | Some (AList _, _) => Stop WrongUnionMember
  | Some (AStr s, _) =>
      match number s with
      | Some v => bump v
      | None => Ok (None, RError (lit "ERR value is not an integer"))
      end
  end.

(** INCR and DECR store the decimal text of the number one above or below
    the one the key holds (zero for a missing or expired key), without an
    expiration, and answer that number; a string that is no [long] is an error
    and changes nothing.  At the ends of the range of [long] the number wraps,
    and the reply is cut to an [int].  A list is read as a string: a fault. *)
Lemma handle_incr_decr_runs w A name key rest increment :
  world_ok w A →
  let '(existing, A1) := a_get (time_at (w_mem w)) key A in
  match incr_outcome increment existing with
  | Ok (stored, r) =>
      out_room w r →
      ∃ w', handle_incr_decr (name :: key :: rest) increment w = Ok (tt, w') ∧
        answered w w' r (match stored with Some s => <[key := (AStr s, 0)]> A1 | None => A1 end)
          (get_ticks key A)
  | Stop e => handle_incr_decr (name :: key :: rest) increment w = Stop e
  end.
Proof.
  intros [Hdb HA Hout Hr].
  destruct (get_found (w_mem w) A key Hdb HA) as (r & m1 & Hg & Hn & Hdb1 & Hv).
  pose proof (a_get_room 0 (time_at (w_mem w)) key A HA) as HA1.
  destruct (a_get (time_at (w_mem w)) key A) as [existing A1]. cbn [fst snd] in *.
  unfold handle_incr_decr. rewrite (proj2 (Z.ltb_ge _ _)) by (simpl length; lia).
  erewrite st_bind_ok by (by apply arg_ok). cbv beta.
  erewrite st_bind_ok by (by apply on_db_ok0). cbv beta.
  assert (∀ v, let x := s64 (v + increment) in out_room w (RInteger (s32 x)) →
    ∃ w', (_ ← on_db (redis_db_set key (TYPE_STRING (cstr (snprintf 21 (fmt_ld x)))) 0);
           reply_if_wanted (add_integer_reply (s32 x))) (set_mem m1 w) = Ok (tt, w') ∧
      answered w w' (RInteger (s32 x)) (<[key := (AStr (fmt_ld x), 0)]> A1) (get_ticks key A)) as Hstore.
  { intros v x Hroom. pose proof (swrap_range 64 (v + increment) ltac:(lia)) as Hx.
    change (2 ^ (64 - 1)) with (2 ^ 63) in Hx.
    pose proof (fmt_ld_length x ltac:(unfold x, LONG_MIN, LONG_MAX; lia)).
    rewrite snprintf_fits by lia. rewrite cstr_term by apply fmt_ld_no_nul.
    by apply (store_and_reply w m1 A1 key (fmt_ld x) 0 (RInteger (s32 x))). }
  unfold incr_outcome. destruct Hv as [v [a e] [Hve Hva]|].
  - simpl in Hva. destruct a as [s|xs].
    + erewrite st_bind_ok by (erewrite st_bind_ok by (unfold data_str; rewrite Hva; reflexivity); reflexivity).
      rewrite parse_integer_number. destruct (number s) as [n|]; cbv beta iota zeta.
      * exact (Hstore n).
      * intros Hroom. by apply (reply_if_wanted_answers w m1 A1 (RError _)).
    + destruct Hva as [l Hva]. unfold data_str. by rewrite Hva.
  - erewrite st_bind_ok by reflexivity. exact (Hstore 0).
Qed.

(** ** DEL and EXIST *)

Lemma delete_keys_rep keys w m A :
  db_rep m A → adb_ok A →
  ∃ m', for_each (λ key, on_db (redis_db_delete key)) keys (set_mem m w) = Ok (tt, set_mem m' w) ∧
    later 0 m m' ∧ db_rep m' (foldl (λ A key, delete key A) A keys).
Proof.
  revert m A. induction keys as [|key keys IH]; intros m A Hdb HA; [exists m; by split_and!; [|apply later_0|]|].
  destruct (delete_rep m A key Hdb HA) as (m1 & Hd & Hc & Ht & Hdb1). cbn [for_each foldl].
  erewrite st_bind_ok by (by apply on_db_ok).
  destruct (IH m1 (delete key A) Hdb1) as (m2 & Hrun & Hn & Hdb2).
  2: { exists m2. split_and!; [done| |done]. apply (later_more 0 0 m m1 m2); [|done]. split; [done|lia]. }
  destruct HA as [Hs Hl]. constructor.
  - rewrite map_size_delete. destruct (A !! key); unfold id; lia.
  - intros k xs e [_ Hk]%lookup_delete_Some. by eapply Hl.
Qed.

(** DEL removes every key it names, present or not, and answers OK. *)
Lemma handle_delete_runs w A name key keys :
  world_ok w A → out_room w (RSimple (lit "OK")) →
  ∃ w', handle_delete (name :: key :: keys) w = Ok (tt, w') ∧
    answered w w' (RSimple (lit "OK")) (foldl (λ A key, delete key A) A (key :: keys)) 0 ∧
    ∀ k, foldl (λ A key, delete key A) A (key :: keys) !! k =
         if bool_decide (k ∈ key :: keys) then None else A !! k.
Proof.
  intros [Hdb HA Hout Hr] Hroom. unfold handle_delete.
  rewrite (proj2 (Z.ltb_ge _ _)) by (simpl length; lia). cbn [drop].
  destruct (delete_keys_rep (key :: keys) w _ A Hdb HA) as (m' & Hd & Hn & Hdb').
  rewrite set_mem_id in Hd. erewrite st_bind_ok by exact Hd.
  destruct (reply_if_wanted_answers w m' _ (RSimple (lit "OK")) 0 Hdb' Hn Hout Hroom Hr) as (w' & Hw & Ha).
  exists w'. split; [exact Hw|]. split; [done|]. generalize (key :: keys) as l. clear. intros l k.
  revert A. induction l as [|x l IH]; intros A; [done|]. cbn [foldl]. rewrite IH.
  destruct (decide (k ∈ l)).
  - rewrite !bool_decide_eq_true_2 by set_solver. done.
  - rewrite (bool_decide_eq_false_2 (k ∈ l)) by done. destruct (decide (k = x)) as [->|].
    + rewrite lookup_delete_eq, bool_decide_eq_true_2 by set_solver. done.
    + rewrite lookup_delete_ne, bool_decide_eq_false_2 by set_solver. done.
Qed.

Lemma count_existing_rep keys w A count :
  db_rep (w_mem w) A → 0 ≤ count → count + zlen keys ≤ INT_MAX →
  count_existing keys count w = Ok (count + zlen (filter (λ k, is_Some (A !! k)) keys), w).
Proof.
  revert count. induction keys as [|key keys IH]; intros count Hdb Hc Hmax.
  - by rewrite Z.add_0_r.
  - rewrite length_cons in Hmax. cbn [count_existing]. rewrite filter_cons.
    erewrite st_bind_ok; last first.
    { apply on_db_ok0. by apply exist_rep. }
    rewrite set_mem_id. cbv beta. destruct (decide (is_Some (A !! key))) as [Hs|Hn].
    + rewrite bool_decide_eq_true_2 by done. unfold INT_MAX in *.
      rewrite (swrap_small 32) by lia. rewrite IH by (done || lia). rewrite length_cons. do 2 f_equal. lia.
    + rewrite bool_decide_eq_false_2 by done. apply IH; [done|done|lia].
Qed.

(** EXIST answers how many of the keys it names are stored, counting a
    repeated key each time, and changes nothing (a key whose time has passed
    but that was not read since still counts). *)
Lemma handle_exist_runs w A name key keys :
  let r := RInteger (zlen (filter (λ k, is_Some (A !! k)) (key :: keys))) in
  world_ok w A → zlen (key :: keys) ≤ INT_MAX → out_room w r →
  ∃ w', handle_exist (name :: key :: keys) w = Ok (tt, w') ∧ answered w w' r A 0.
Proof.
  intros r [Hdb HA Hout Hr] Hmax Hroom. unfold handle_exist.
  rewrite (proj2 (Z.ltb_ge _ _)) by (simpl length; lia). cbn [drop].
  erewrite st_bind_ok by (by apply count_existing_rep). cbv beta. rewrite Z.add_0_l.
  pose proof (reply_answers w (w_mem w) A r 0) as Hans. rewrite set_mem_id in Hans. by apply Hans; try apply later_0.
Qed.

(** ** LPUSH and RPUSH *)

Definition pushed (at_head : bool) (items xs : list bytes) : list bytes :=
  if at_head then reverse items ++ xs else xs ++ items.

(** The list and expiration to store; [None] for a string. *)
Definition push_outcome (at_head : bool) (items : list bytes) (existing : option (aval * Z)) :
    option (list bytes * Z) :=
  match existing with
  | None => Some (pushed at_head items [], if at_head then -1 else 0)
  | Some (AStr _, _) => None
  | Some (AList xs, e) => Some (pushed at_head items xs, e)
  end.

Lemma pushed_cons at_head x items xs :
  pushed at_head (x :: items) xs = pushed at_head items (if at_head then x :: xs else xs ++ [x]).
Proof.
  destruct at_head; simpl; [by rewrite reverse_cons, <- app_assoc|by rewrite <- app_assoc].
Qed.

Lemma a_get_list_key now key A xs e :
  A !! key = Some (AList xs, e) → e ≤ 0 → a_get now key A = (Some (AList xs, e), A).
Proof.
  intros HA He. unfold a_get, expired. rewrite HA. by rewrite (proj2 (Z.ltb_ge _ _)) by lia.
Qed.

Lemma get_ticks_list key A xs e : A !! key = Some (AList xs, e) → e ≤ 0 → get_ticks key A = 0%nat.
Proof. intros HA He. unfold get_ticks. rewrite HA. by rewrite (proj2 (Z.ltb_ge _ _)) by lia. Qed.

(** Once the key holds a list, the items go to it one after the other. *)
Lemma push_items_rep at_head items w m A key xs e :
  db_rep m A → adb_room (zlen items) A → A !! key = Some (AList xs, e) →
  ∃ m', push_items (redis_db_push at_head) key items (zlen xs) (set_mem m w) =
      Ok (Some (zlen (pushed at_head items xs)), set_mem m' w) ∧ later 0 m m' ∧
    db_rep m' (<[key := (AList (pushed at_head items xs), e)]> A).
Proof.
  revert m A xs. induction items as [|x items IH]; intros m A xs Hdb HA Hk.
  - exists m. split; [by destruct at_head; simpl; rewrite ?app_nil_r|]. split; [apply later_0|].
    rewrite insert_id; [done|]. rewrite Hk. by destruct at_head; simpl; rewrite ?app_nil_r.
  - rewrite length_cons in HA. destruct (ok_lists _ _ HA _ _ _ Hk) as (Hne & He & Hlen).
    assert (adb_room 1 A) as HA1 by (eapply room_weaken; [|exact HA]; lia).
    destruct (push_rep at_head m A key x (zlen xs) Hdb HA1) as (m1 & Hp & Hc & Ht & Hdb1).
    rewrite (get_ticks_list key A xs e Hk He) in Ht.
    unfold a_push in Hp, Hdb1. rewrite (a_get_list_key _ key A xs e Hk He) in Hp, Hdb1.
    cbn [fst snd] in *. set (xs' := if at_head then x :: xs else xs ++ [x]) in *.
    assert (zlen xs' = zlen xs + 1) as Hl'
      by (unfold xs'; destruct at_head; rewrite ?length_app; simpl; lia).
    cbn [push_items]. erewrite st_bind_ok by (by apply on_db_ok). cbv beta. cbn [fst snd].
    change (0 =? ERR_TYPE_MISMATCH) with false. cbn match.
    destruct (IH m1 _ xs' Hdb1) as (m' & Hrun & Hn & Hdb').
    { apply insert_room; [eapply room_weaken; [|exact HA]; lia|]. simpl.
      split_and!; [unfold xs'; by destruct at_head, xs|done|lia]. }
    { apply lookup_insert_eq. }
    exists m'. rewrite pushed_cons. fold xs'. rewrite <- Hl', Hrun. split; [done|].
    split; [by apply (later_more 0 0 m m1 m')|].
    by rewrite insert_insert_eq in Hdb'.
Qed.

Definition handle_push (at_head : bool) (args : list bytes) : cmdM unit :=
  if at_head then handle_lpush args else handle_rpush args.

Lemma handle_push_steps at_head name key item items w :
  handle_push at_head (name :: key :: item :: items) w =
    (r ← push_items (redis_db_push at_head) key (item :: items) 0;
     match r with
     | None => reply_if_wanted (add_error_reply WRONG_KIND)
     | Some length => reply_if_wanted (add_integer_reply length)
     end) w.
Proof.
  destruct at_head; unfold handle_push, handle_lpush, handle_rpush;
    rewrite (proj2 (Z.ltb_ge _ _)) by (simpl length; lia);
    by erewrite st_bind_ok by (by apply arg_ok).
Qed.

(** The items after the first one, and the reply. *)
Lemma push_rest_answers at_head items w m1 A1 key xs e n :
  later n (w_mem w) m1 → xs ≠ [] → e ≤ 0 → zlen xs + zlen items < INT_MAX → adb_room (zlen items + 1) A1 →
  db_rep m1 (<[key := (AList xs, e)]> A1) → rb_wf (out w) → should_reply (w_client w) = true →
  out_room w (RInteger (zlen (pushed at_head items xs))) →
  ∃ w', (r ← push_items (redis_db_push at_head) key items (zlen xs);
         match r with
         | None => reply_if_wanted (add_error_reply WRONG_KIND)
         | Some length => reply_if_wanted (add_integer_reply length)
         end) (set_mem m1 w) = Ok (tt, w') ∧
    answered w w' (RInteger (zlen (pushed at_head items xs)))
      (<[key := (AList (pushed at_head items xs), e)]> A1) n.
Proof.
  intros Hn Hne He Hl HA1 Hdb2 Hout Hr Hroom.
  destruct (push_items_rep at_head items w m1 _ key xs e Hdb2) as (m2 & Hrun & Hn2 & Hdb3).
  - apply insert_room; [done|]. simpl. by split_and!.
  - apply lookup_insert_eq.
  - erewrite st_bind_ok by exact Hrun. cbv beta. rewrite insert_insert_eq in Hdb3.
    apply (reply_if_wanted_answers w m2 _ (RInteger _)); try done. by eapply later_same.
Qed.

(** LPUSH and RPUSH put their items, in order, one by one at the head or
    the tail of the list, creating it if the key is missing or its time has
    passed, and answer the new length; a key that holds a string is an error
    and is left as it is. *)
Lemma handle_push_runs at_head w A name key item items :
  world_ok w A → adb_room (zlen (item :: items)) A →
  let '(existing, A1) := a_get (time_at (w_mem w)) key A in
  match push_outcome at_head (item :: items) existing with
  | Some (xs, e) =>
      out_room w (RInteger (zlen xs)) →
      ∃ w', handle_push at_head (name :: key :: item :: items) w = Ok (tt, w') ∧
        answered w w' (RInteger (zlen xs)) (<[key := (AList xs, e)]> A1) (get_ticks key A)
  | None =>
      out_room w wrong_kind →
      ∃ w', handle_push at_head (name :: key :: item :: items) w = Ok (tt, w') ∧
        answered w w' wrong_kind A1 (get_ticks key A)
  end.
Proof.
  intros [Hdb _ Hout Hr] HA. rewrite length_cons in HA.
  destruct (push_rep at_head (w_mem w) A key item 0 Hdb) as (m1 & Hp & Hc & Ht & Hdb1);
    [eapply room_weaken; [|exact HA]; lia|].
  pose proof (a_get_room _ (time_at (w_mem w)) key A HA) as HA1.
  pose proof (a_get_list (Z.of_nat (S (length items))) (time_at (w_mem w)) key A) as Hlist. unfold a_push in Hp, Hdb1.
  destruct (a_get (time_at (w_mem w)) key A) as [existing A1]. cbn [fst snd] in *.
  rewrite handle_push_steps. cbn [push_items].
  assert (adb_room (zlen items + 1) A1) as HA2 by (eapply room_weaken; [|exact HA1]; lia).
  unfold push_outcome. destruct existing as [[[s|xs] e]|]; cbn [fst snd] in *; try rewrite pushed_cons.
  - intros Hroom. erewrite st_bind_ok; last first.
    { erewrite st_bind_ok by (by apply on_db_ok0). reflexivity. }
    by apply (reply_if_wanted_answers w m1 A1 wrong_kind (get_ticks key A)).
  - intros Hroom. destruct (Hlist xs e HA eq_refl) as (Hne & He & Hl).
    set (xs' := if at_head then item :: xs else xs ++ [item]) in *.
    assert (zlen xs' = zlen xs + 1) as Hl'
      by (unfold xs'; destruct at_head; rewrite ?length_app; simpl; lia).
    destruct (push_rest_answers at_head items w m1 A1 key xs' e (get_ticks key A)) as (w' & Hw & Ha);
      [done|unfold xs'; by destruct at_head, xs|done|lia|done..|].
    exists w'. split; [|done]. rewrite <- Hw, Hl'. unfold mbind, st_bind.
    by rewrite (on_db_ok0 _ w _ _ Hp).
  - intros Hroom. assert ((if at_head then item :: [] else [] ++ [item]) = [item]) as Hone by (by destruct at_head).
    rewrite Hone in *.
    destruct (push_rest_answers at_head items w m1 A1 key [item] (if at_head then -1 else 0) (get_ticks key A))
      as (w' & Hw & Ha); [done|done|by destruct at_head| |done..|].
    { destruct HA. unfold INT_MAX. simpl length. lia. }
    exists w'. split; [|done]. rewrite <- Hw. unfold mbind, st_bind.
    by rewrite (on_db_ok0 _ w _ _ Hp).
Qed.

(** ** LRANGE *)

Definition lrange_reply (start end_ : Z) (existing : option (aval * Z)) : resp :=
  match existing with
  | None => RArray []
  | Some (AStr _, _) => wrong_kind
  | Some (AList xs, _) => RArray (default [] (range_spec xs start end_).1)
  end.

(** An index of LRANGE: 0 when it is not a number. *)
Definition index_arg (s : bytes) : Z := default 0 (number s).

Lemma parse_integer_index s : (parse_integer s 0).2 = index_arg s.
Proof. rewrite parse_integer_number. unfold index_arg. by destruct (number s). Qed.

Lemma range_spec_length xs start end_ :
  match range_spec xs start end_ with
  | (Some ys, n) => n = zlen ys
  | (None, n) => n = 0
  end.
Proof.
  unfold range_spec. set (s := if start <? 0 then _ else _). set (e := if end_ <? 0 then _ else _).
  destruct ((s <? 0) || (zlen xs <=? s) || (e <? s)) eqn:E; [done|]. zbool. rewrite slice_length; lia.
Qed.

(** LRANGE answers the elements from the start to the end index, both
    counted from the tail when negative, an index that is not a number being
    0 and both cut to an [int]; an empty array for a missing or expired key or
    an empty range, and an error for a string. *)
Lemma handle_lrange_runs w A name key s e rest :
  world_ok w A →
  let start := s32 (index_arg s) in
  let end_ := s32 (index_arg e) in
  let '(existing, A1) := a_get (time_at (w_mem w)) key A in
  out_room w (lrange_reply start end_ existing) →
  ∃ w', handle_lrange (name :: key :: s :: e :: rest) w = Ok (tt, w') ∧
    answered w w' (lrange_reply start end_ existing) A1 (get_ticks key A).
Proof.
  intros [Hdb HA Hout Hr] start end_.
  destruct (lrange_db_rep (w_mem w) A key start end_ Hdb HA) as (m1 & Hl & Hc & Ht & Hdb1).
  1,2: unfold start, end_, INT_MIN, INT_MAX;
    pose proof (swrap_range 32 (index_arg s) ltac:(lia));
    pose proof (swrap_range 32 (index_arg e) ltac:(lia));
    change (2 ^ (32 - 1)) with 2147483648 in *; lia.
  unfold a_lrange in Hl, Hdb1. destruct (a_get (time_at (w_mem w)) key A) as [existing A1]. intros Hroom.
  unfold handle_lrange. rewrite (proj2 (Z.ltb_ge _ _)) by (simpl length; lia).
  do 3 erewrite st_bind_ok by (by apply arg_ok). cbv beta zeta. rewrite !parse_integer_index. fold start. fold end_.
  erewrite st_bind_ok by (by apply on_db_ok0). cbv beta.
  assert (∀ xs r, lrange_reply start end_ existing = RArray xs → r = Some xs ∨ (r = None ∧ xs = []) →
    db_rep m1 A1 →
    ∃ w', (_ ← reply (add_array_reply r (zlen xs)); lift (cleanup_lrange_result r (zlen xs)))
            (set_mem m1 w) = Ok (tt, w') ∧ answered w w' (lrange_reply start end_ existing) A1 (get_ticks key A)) as Harr.
  { intros xs r Hxs Hrx Hdb2.
    destruct (reply_answers w m1 A1 _ (get_ticks key A) Hdb2 (conj Hc Ht) Hout Hroom) as (w' & Hw & Ha). exists w'. split; [|done].
    rewrite Hxs in Hw. cbn [add_reply] in Hw.
    destruct Hrx as [->|[-> ->]]; by erewrite st_bind_ok by exact Hw. }
  destruct existing as [[[str|xs] ex]|]; cbn [fst snd] in *.
  - change (ERR_TYPE_MISMATCH =? ERR_TYPE_MISMATCH) with true. cbn match.
    by apply (reply_answers w m1 A1 wrong_kind (get_ticks key A)).
  - change (0 =? ERR_TYPE_MISMATCH) with false. cbn match. do 2 erewrite st_bind_ok by reflexivity. cbv beta zeta.
    pose proof (range_spec_length xs start end_) as Hlen.
    unfold lrange_reply in *. destruct (range_spec xs start end_) as [[ys|] n]; cbn [fst snd] in *; subst n.
    + apply (Harr ys (Some ys)); [done|by left|done].
    + apply (Harr [] None); [done|by right|done].
  - change (ERR_KEY_NOT_FOUND =? ERR_TYPE_MISMATCH) with false. cbn match.
    do 2 erewrite st_bind_ok by reflexivity. cbv beta zeta. by apply (Harr [] None); [|right|].
Qed.

(** ** What the handlers keep *)

(** A property of the server that no step of a handler changes. *)
Record world_inv (I : world → Prop) : Prop := {
  wi_db : ∀ m w, I w → I (set_mem m w);
  wi_reply : ∀ f : rbM unit, preserves rb_wf f → preserves I (reply f);
  wi_epoll : ∀ mask, preserves I (epoll_mod mask);
  wi_replica : preserves I add_replica;
  wi_os : ∀ os w, I w → I (set_os os w);
  wi_partial : ∀ o w, I w → I (set_client (start_partial o (w_client w)) w);
  wi_full : ∀ f n w, I w → I (set_client (start_full f n (w_client w)) w)
}.

Section keeps.
Context (I : world → Prop) (HI : world_inv I).

Lemma on_db_keeps {B} (f : dbM B) : preserves I (on_db f).
Proof. intros w b w' Hw. unfold on_db. destruct (f (w_mem w)) as [[? ?]|]; [|done]. intros [= _ <-]. by apply HI. Qed.
Lemma save_keeps : preserves I redis_db_save.
Proof.
  intros w b w' Hw. unfold redis_db_save.
  destruct (rdb_save_data_to_file _ _ _ _) as [[? ?]|]; [|done]. intros [= _ <-]. by apply HI.
Qed.
Lemma open_keeps : preserves I open_snapshot.
Proof.
  intros w b w' Hw. unfold open_snapshot. destruct (construct_file_path _ _ _) as [path|]; [|done].
  destruct (files _ !! path); [|done]. by intros [= _ <-].
Qed.
Lemma reply_keeps (f : rbM unit) : preserves rb_wf f → preserves I (reply f).
Proof. apply HI. Qed.
Lemma epoll_keeps f : preserves I (epoll_mod f).
Proof. apply HI. Qed.
Lemma add_replica_keeps : preserves I add_replica.
Proof. apply HI. Qed.

#[local] Hint Resolve on_db_keeps save_keeps open_keeps reply_keeps epoll_keeps add_replica_keeps : keep.

Lemma reply_if_wanted_keeps f : preserves rb_wf f → preserves I (reply_if_wanted f).
Proof. intros Hf. unfold reply_if_wanted. preserve. Qed.
Lemma data_str_keeps v : preserves I (data_str v).
Proof. unfold data_str. preserve. Qed.
Lemma arg_keeps args i : preserves I (arg args i).
Proof. apply leads_lift. Qed.

#[local] Hint Resolve reply_if_wanted_keeps data_str_keeps arg_keeps : keep.

Lemma push_items_keeps push key items len : preserves I (push_items push key items len).
Proof. revert len. induction items as [|x items IH]; intros len; cbn [push_items]; preserve; apply IH. Qed.
Lemma count_existing_keeps keys n : preserves I (count_existing keys n).
Proof. revert n. induction keys as [|x keys IH]; intros n; cbn [count_existing]; preserve; apply IH. Qed.

#[local] Hint Resolve push_items_keeps count_existing_keeps : keep.

Lemma psync_keeps args : preserves I (handle_psync args).
Proof.
  unfold handle_psync, client_enable_write_events. preserve; apply leads_modify; intros; by apply HI.
Qed.

Lemma dispatch_keeps t args : preserves I (dispatch t args).
Proof.
  destruct t; cbn [dispatch]; try apply psync_keeps;
    unfold handle_ping, handle_echo, handle_set, handle_get, handle_exist, handle_delete, handle_incr,
      handle_decr, handle_incr_decr, handle_lpush, handle_rpush, handle_lrange, handle_config, handle_save,
      handle_dbsize, handle_info, handle_replconf; preserve.
Qed.

(** With the mark of the client changed at both ends. *)
Lemma handle_command_keeps args :
  (∀ b w, I w → I (set_client (with_propogate b (w_client w)) w)) → preserves I (handle_command args).
Proof.
  intros Hm. unfold handle_command. pose proof dispatch_keeps.
  preserve; apply leads_modify; intros; by apply Hm.
Qed.
End keeps.

(** A property of clients that none of the updates of the handlers changes. *)
Record client_inv (Q : Client → Prop) : Prop := {
  inv_output : ∀ rb c, Q c → Q (with_output rb c);
  inv_epoll : ∀ e c, Q c → Q (with_epoll e c);
  inv_replica : ∀ c, Q c → Q (as_replica c);
  inv_partial : ∀ o c, Q c → Q (start_partial o c);
  inv_full : ∀ f n c, Q c → Q (start_full f n c)
}.

Lemma client_world_inv Q : client_inv Q → world_inv (λ w, Q (w_client w)).
Proof.
  intros HQ. constructor; try done; try (by intros; apply HQ).
  - intros f _ w b w' Hw. unfold reply. destruct (f _) as [[? ?]|]; [|done]. intros [= _ <-]. by apply HQ.
  - intros f w b w' Hw. unfold epoll_mod.
    destruct (epoll_answers w) as [|[] ?]; [| |done]; intros [= _ <-]; by apply HQ.
  - intros w b w' Hw. unfold add_replica. destruct (_ <? _); [|done]. intros [= _ <-]. by apply HQ.
Qed.

(** ** Propagation *)

Lemma mark_inv b : client_inv (λ c, should_propogate_command c = b).
Proof. by constructor. Qed.

Lemma command_type_set name : get_command_type name = CMD_SET ↔ name = lit "SET".
Proof.
  split; [|by intros ->]. unfold get_command_type, streq.
  repeat case_bool_decide; done.
Qed.

(** C30: a command is marked for propagation to the replicas exactly when it is
    SET, whatever it does: other commands that change the keyspace (DEL, INCR,
    DECR, LPUSH, RPUSH) are not marked, and a SET that was refused is. *)
Theorem handle_command_propagates args w w' :
  handle_command args w = Ok (tt, w') →
  should_propogate_command (w_client w') = bool_decide (args !! 0%nat = Some (lit "SET")).
Proof.
  unfold handle_command. erewrite st_bind_ok by reflexivity. cbv beta.
  destruct (args !! 0%nat) as [name|] eqn:E; [|done].
  erewrite st_bind_ok by (by apply lift_ok). cbv beta zeta. unfold mbind at 1, st_bind.
  set (w0 := set_client _ w). set (ct := get_command_type name).
  destruct (dispatch ct args w0) as [[u w1]|] eqn:Eb; [|done].
  pose proof (dispatch_keeps _ (client_world_inv _ (mark_inv false)) ct args w0 _ _ eq_refl Eb) as Em. simpl in Em. pose proof (command_type_set name) as Hct. fold ct in Hct.
  unfold when. destruct (decide (name = lit "SET")) as [Heq|Hne].
  - rewrite (bool_decide_eq_true_2 (ct = CMD_SET)) by tauto. intros [= <-]. simpl.
    rewrite bool_decide_eq_true_2; [done|by rewrite Heq].
  - rewrite (bool_decide_eq_false_2 (ct = CMD_SET)) by tauto. intros [= <-]. rewrite Em.
    rewrite bool_decide_eq_false_2; [done|]. intros Hs. apply Hne. by injection Hs.
Qed.

(** ** Witnesses: a new server with one client *)

Definition client0 : Client :=
  MkClient 5 (RingBuffer 0 0 (Some (replicate 256 NUL)) 256 3) CLIENT_TYPE_REGULAR 0
    MASTER_REPL_STATE_PSYNC None 0 0 0 REPL_STATE_NONE 0 0 0 NoStream false true.
Definition info0 : server_info_t :=
  MkInfo ROLE_MASTER (lit "8371b4fb1155b71f4a04d3e1bc3e18c4a990aeeb") 0 0 (replicate 16 0) 0.
Definition world0 : world :=
  MkWorld (mem_init (λ _, (1, 0))) client0 info0 (MkConfig (lit "/tmp/redis-data") (lit "dump.rdb") [] [] [])
    (OsFiles ∅ true true true) [].

Lemma world0_ok : world_ok world0 ∅.
Proof.
  constructor; [apply mem_init_rep| | |reflexivity].
  - constructor; [vm_compute; reflexivity|]. intros ? ? ?. by rewrite lookup_empty.
  - constructor; simpl; try lia. eexists. split; [reflexivity|reflexivity].
Qed.

Lemma room0 r : bool_decide (resp_ok r) && (zlen (encode r) <? 200) = true → out_room world0 r.
Proof.
  intros [Hok%bool_decide_eq_true Hlen%Z.ltb_lt]%andb_prop. split; [done|].
  assert (zlen (contents (out world0)) = 0) as -> by reflexivity.
  change (size (out world0)) with 256. change (write_index (out world0)) with 0.
  assert (slack_of r ≤ 1) by (by destruct r as [| | | | |[|]]; simpl).
  lia.
Qed.

Lemma handle_command_propagates_witness :
  ∃ w', handle_command [lit "SET"; lit "k"; lit "v"] world0 = Ok (tt, w') ∧
    should_propogate_command (w_client w') = true.
Proof.
  destruct (handle_command [lit "SET"; lit "k"; lit "v"] world0) as [[[] w']|] eqn:E.
  - exists w'. split; [reflexivity|]. exact (handle_command_propagates _ _ _ E).
  - vm_compute in E. discriminate.
Defined.
