(* ===== verification/Reference.v ===== *)
(** * The reference keyspace machine

    One sequential machine that says what every command on the keyspace does and
    answers: its state is a finite map from keys to strings and lists with their
    expiration times, and how often the clock was read.  [handle_command] is shown
    to implement it, on every command and every number of arguments, errors and
    faults included; a sequence of commands implements the machine's run. *)

From S2P Require Import Prelude CLib RingBuffer Util LinkedList Database Rdb RespWriter.
From S2P Require Import ServerState Commands CommandSpec.

(** ** The language of the commands

    The names of the commands, the options of SET and what each asks for, as
    tables and rules of their own: nothing here runs the code's parsers. *)

Fixpoint find_word {X} (table : list (string * X)) (w : bytes) : option X :=
  match table with
  | [] => None
  | (s, x) :: table' => if bool_decide (w = lit s) then Some x else find_word table' w
  end.

Definition command_names : list (string * CommandType) :=
  [("PING", CMD_PING); ("ECHO", CMD_ECHO); ("SET", CMD_SET); ("GET", CMD_GET); ("DEL", CMD_DEL);
   ("EXIST", CMD_EXIST); ("INCR", CMD_INCR); ("DECR", CMD_DECR); ("LPUSH", CMD_LPUSH);
   ("RPUSH", CMD_RPUSH); ("LRANGE", CMD_LRANGE); ("DBSIZE", CMD_DBSIZE); ("CONFIG", CMD_CONFIG);
   ("SAVE", CMD_SAVE); ("INFO", CMD_INFO); ("REPLCONF", CMD_REPLCONF); ("PSYNC", CMD_PSYNC)]%string.

Definition named (name : bytes) : CommandType := default CMD_UNKNOWN (find_word command_names name).

(** An option: set only an absent or only a present key, answer the old value,
    keep the expiration, or expire after or at [amount] units of [ms]
    milliseconds ([None]: it is not a number).  Anything else is ignored. *)
Inductive set_option :=
| OnlyIfAbsent | OnlyIfPresent | AnswerOld | KeepDeadline
| Deadline (ms : Z) (from_now : bool) (amount : option Z)
| Ignored.

Definition flag_words : list (string * set_option) :=
  [("NX", OnlyIfAbsent); ("XX", OnlyIfPresent); ("GET", AnswerOld); ("KEEPTTL", KeepDeadline)]%string.

Definition deadline_words : list (string * (Z * bool)) :=
  [("EX", (1000, true)); ("PX", (1, true)); ("EXAT", (1000, false)); ("PXAT", (1, false))]%string.

(** The option a list of words begins with, and the words behind it. *)
Fixpoint set_words (words : list bytes) : list set_option :=
  match words with
  | [] => []
  | word :: words' =>
      match find_word deadline_words word, words' with
      | Some (ms, from_now), amount :: words'' => Deadline ms from_now (number amount) :: set_words words''
      | _, _ => default Ignored (find_word flag_words word) :: set_words words'
      end
  end.

Inductive refusal := SyntaxError | NotANumber.

Section options.
Context (clk : nat → Z * Z).

(** One option on top of the others: what all of them ask for, and how often the
    clock has been read.  A deadline excludes another one and KEEPTTL, NX and XX
    exclude each other. *)
Definition ask (x : set_option) (o : SetOptions) (t : nat) : (refusal + SetOptions) * nat :=
  match x with
  | OnlyIfAbsent => (if xx o then inl SyntaxError
                     else inr (MkOptions (opt_expiration o) true (xx o) (keepttl o) (opt_get o)), t)
  | OnlyIfPresent => (if nx o then inl SyntaxError
                      else inr (MkOptions (opt_expiration o) (nx o) true (keepttl o) (opt_get o)), t)
  | AnswerOld => (inr (MkOptions (opt_expiration o) (nx o) (xx o) (keepttl o) true), t)
  | KeepDeadline => (if bool_decide (opt_expiration o = 0)
                     then inr (MkOptions (opt_expiration o) (nx o) (xx o) true (opt_get o))
                     else inl SyntaxError, t)
  | Deadline ms from_now amount =>
      if bool_decide (opt_expiration o = 0) && negb (keepttl o) then
        match amount with
        | None => (inl NotANumber, t)
        | Some n =>
            let start := if (from_now : bool) then clock_ms clk t else 0 in
            (inr (MkOptions (s64 (start + ms * n)) (nx o) (xx o) (keepttl o) (opt_get o)),
             if from_now then S t else t)
        end
      else (inl SyntaxError, t)
  | Ignored => (inr o, t)
  end.

Fixpoint ask_all (xs : list set_option) (o : SetOptions) (t : nat) : (refusal + SetOptions) * nat :=
  match xs with
  | [] => (inr o, t)
  | x :: xs' =>
      match ask x o t with
      | (inr o', t') => ask_all xs' o' t'
      | r => r
      end
  end.
End options.

(** ** The machine *)

Abbreviation ks := (adb * nat)%type.

Section machine.
Context (clk : nat → Z * Z).

Definition ks_get (key : bytes) (s : ks) : option (aval * Z) * ks :=
  let '(v, A) := a_get (clock_ms clk s.2) key s.1 in (v, (A, (s.2 + get_ticks key s.1)%nat)).

Definition ks_put (key : bytes) (v : aval * Z) (s : ks) : ks := (<[key := v]> s.1, s.2).

Definition wrong_number (command : string) : resp :=
  RError (lit "ERR wrong number of arguments for '" ++ lit command ++ lit "' command").

Definition spec_set (key value : bytes) (words : list bytes) (s : ks) : res (resp * ks) :=
  match ask_all clk (set_words words) (MkOptions 0 false false false false) s.2 with
  | (inl SyntaxError, t) => Ok (RError (lit "ERR syntax error"), (s.1, t))
  | (inl NotANumber, t) => Ok (RError (lit "ERR value is not an integer or out of range"), (s.1, t))
  | (inr o, t) =>
      if opt_expiration o <? 0
      then Ok (RError (lit "ERR expiration must be a non-negative integer"), (s.1, t))
      else
        let '(existing, A) := set_lookup (clock_ms clk t) o key s.1 in
        '(stored, r) ← set_outcome o existing;
        Ok (r, (match stored with Some exp => <[key := (AStr value, exp)]> A | None => A end,
                (t + lookup_ticks o key s.1)%nat))
  end.

Definition spec_incr (increment : Z) (key : bytes) (s : ks) : res (resp * ks) :=
  let '(existing, s') := ks_get key s in
  '(stored, r) ← incr_outcome increment existing;
  Ok (r, match stored with Some text => ks_put key (AStr text, 0) s' | None => s' end).

Definition spec_push (at_head : bool) (key : bytes) (items : list bytes) (s : ks) : resp * ks :=
  let '(existing, s') := ks_get key s in
  match push_outcome at_head items existing with
  | Some (xs, e) => (RInteger (zlen xs), ks_put key (AList xs, e) s')
  | None => (wrong_kind, s')
  end.

Definition spec_lrange (key start end_ : bytes) (s : ks) : resp * ks :=
  let '(existing, s') := ks_get key s in
  (lrange_reply (s32 (index_arg start)) (s32 (index_arg end_)) existing, s').

(** The commands that look at something besides the keyspace are not in it. *)
Definition data_command (args : list bytes) : bool :=
  match args with
  | [] => true
  | name :: _ =>
      match named name with
      | CMD_CONFIG | CMD_SAVE | CMD_INFO | CMD_REPLCONF | CMD_PSYNC => false
      | _ => true
      end
  end.

(** The reply and the next state, or the fault. *)
Definition spec_command (args : list bytes) (s : ks) : res (resp * ks) :=
  match args with
  | [] => Stop Indeterminate
  | name :: rest =>
      match named name, rest with
      | CMD_PING, [] => Ok (RSimple (lit "PONG"), s)
      | CMD_PING, [message] => Ok (RSimple message, s)
      | CMD_PING, _ => Ok (wrong_number "ping", s)
      | CMD_ECHO, [message] => Ok (RSimple message, s)
      | CMD_ECHO, _ => Ok (wrong_number "echo", s)
      | CMD_SET, key :: value :: opts => spec_set key value opts s
      | CMD_SET, _ => Ok (wrong_number "set", s)
      | CMD_GET, [key] => let '(v, s') := ks_get key s in Ok (get_reply v, s')
      | CMD_GET, _ => Ok (wrong_number "get", s)
      | CMD_EXIST, _ :: _ => Ok (RInteger (zlen (filter (λ k, is_Some (s.1 !! k)) rest)), s)
      | CMD_EXIST, [] => Ok (wrong_number "exist", s)
      | CMD_DEL, _ :: _ => Ok (RSimple (lit "OK"), (foldl (λ A key, delete key A) s.1 rest, s.2))
      | CMD_DEL, [] => Ok (wrong_number "delete", s)
      | CMD_INCR, key :: _ => spec_incr 1 key s
      | CMD_DECR, key :: _ => spec_incr (-1) key s
      | CMD_INCR, [] | CMD_DECR, [] => Ok (wrong_number "incr/decr", s)
      | CMD_LPUSH, key :: ((_ :: _) as items) => Ok (spec_push true key items s)
      | CMD_LPUSH, _ => Ok (wrong_number "lpush", s)
      | CMD_RPUSH, key :: ((_ :: _) as items) => Ok (spec_push false key items s)
      | CMD_RPUSH, _ => Ok (wrong_number "rpush", s)
      | CMD_LRANGE, key :: start :: end_ :: _ => Ok (spec_lrange key start end_ s)
      | CMD_LRANGE, _ => Ok (wrong_number "rpush", s)   (* so it says *)
      | CMD_DBSIZE, _ => Ok (RInteger (Z.of_nat (base.size s.1)), s)
      | _, _ => Ok (RError (lit "ERR unknown command"), s)
      end
  end.

Fixpoint spec_commands (cmds : list (list bytes)) (s : ks) : res (list resp * ks) :=
  match cmds with
  | [] => Ok ([], s)
  | args :: cmds' =>
      '(r, s1) ← spec_command args s;
      '(rs, s2) ← spec_commands cmds' s1;
      Ok (r :: rs, s2)
  end.
End machine.

(** ** Commands implement the machine *)

(** The handler [f] run in [w] does what the machine says. *)
Definition does (f : cmdM unit) (w : world) (r : res (resp * ks)) : Prop :=
  match r with
  | Ok (r, (A', t')) =>
      out_room w r →
      ∃ w' n, f w = Ok (tt, w') ∧ answered w w' r A' n ∧ t' = (ticks (w_mem w) + n)%nat
  | Stop e => f w = Stop e
  end.

Lemma does_answered f w r A n t :
  (out_room w r → ∃ w', f w = Ok (tt, w') ∧ answered w w' r A n) → t = (ticks (w_mem w) + n)%nat →
  does f w (Ok (r, (A, t))).
Proof. intros Hf -> Hroom. destruct (Hf Hroom) as (w' & E & Ha). by exists w', n. Qed.

Section commands.
Context (w : world) (A : adb) (Hw : world_ok w A).
Abbreviation here := (A, ticks (w_mem w)).
Abbreviation clk := (clock (w_mem w)).

(** A handler that only replies. *)
Lemma does_reply r : does (reply (add_reply r)) w (Ok (r, here)).
Proof.
  destruct Hw as [Hdb HA Hout Hr]. apply (does_answered _ w r A 0); [|lia]. intros Hroom.
  pose proof (reply_answers w (w_mem w) A r 0 Hdb (later_0 _) Hout Hroom) as H. by rewrite set_mem_id in H.
Qed.

Lemma does_reply_if_wanted r : does (reply_if_wanted (add_reply r)) w (Ok (r, here)).
Proof.
  destruct Hw as [Hdb HA Hout Hr]. unfold reply_if_wanted. pose proof (does_reply r) as H. unfold does in *.
  erewrite st_bind_ok by reflexivity. by rewrite Hr.
Qed.

Lemma ping_does name rest :
  does (handle_ping (name :: rest)) w
    (match rest with
     | [] => Ok (RSimple (lit "PONG"), here)
     | [message] => Ok (RSimple message, here)
     | _ => Ok (wrong_number "ping", here)
     end).
Proof.
  destruct rest as [|a [|b rest]].
  - apply (does_reply (RSimple (lit "PONG"))).
  - apply (does_reply (RSimple a)).
  - unfold handle_ping. rewrite !(proj2 (Z.eqb_neq _ _)) by (simpl length; lia).
    apply (does_reply (wrong_number "ping")).
Qed.

Lemma echo_does name rest :
  does (handle_echo (name :: rest)) w
    (match rest with
     | [message] => Ok (RSimple message, here)
     | _ => Ok (wrong_number "echo", here)
     end).
Proof.
  destruct rest as [|a [|b rest]].
  - apply (does_reply (wrong_number "echo")).
  - apply (does_reply (RSimple a)).
  - unfold handle_echo. rewrite !(proj2 (Z.eqb_neq _ _)) by (simpl length; lia).
    apply (does_reply (wrong_number "echo")).
Qed.

Lemma get_does name rest :
  does (handle_get (name :: rest)) w
    (match rest with
     | [key] => let '(v, s') := ks_get clk key here in Ok (get_reply v, s')
     | _ => Ok (wrong_number "get", here)
     end).
Proof.
  destruct rest as [|key [|b rest]].
  - apply (does_reply_if_wanted (wrong_number "get")).
  - pose proof (handle_get_runs w A name key Hw) as H. unfold ks_get. cbn [fst snd].
    change (clock_ms clk (ticks (w_mem w))) with (time_at (w_mem w)).
    destruct (a_get (time_at (w_mem w)) key A) as [v A']. by eapply does_answered.
  - unfold handle_get. rewrite !(proj2 (Z.eqb_neq _ _)) by (simpl length; lia).
    apply (does_reply_if_wanted (wrong_number "get")).
Qed.

Lemma exist_does name rest :
  zlen rest ≤ INT_MAX →
  does (handle_exist (name :: rest)) w
    (match rest with
     | _ :: _ => Ok (RInteger (zlen (filter (λ k, is_Some (A !! k)) rest)), here)
     | [] => Ok (wrong_number "exist", here)
     end).
Proof.
  intros Hl. destruct rest as [|key rest]; [apply (does_reply (wrong_number "exist"))|].
  apply (does_answered _ w _ A 0); [|lia]. intros Hroom. by apply handle_exist_runs.
Qed.

Lemma delete_does name rest :
  does (handle_delete (name :: rest)) w
    (match rest with
     | _ :: _ => Ok (RSimple (lit "OK"), (foldl (λ A key, delete key A) A rest, ticks (w_mem w)))
     | [] => Ok (wrong_number "delete", here)
     end).
Proof.
  destruct rest as [|key rest]; [apply (does_reply (wrong_number "delete"))|].
  apply (does_answered _ w _ _ 0); [|lia]. intros Hroom.
  destruct (handle_delete_runs w A name key rest Hw Hroom) as (w' & E & Ha & _). by exists w'.
Qed.

Lemma incr_does name rest increment :
  does (handle_incr_decr (name :: rest) increment) w
    (match rest with
     | key :: _ => spec_incr clk increment key here
     | [] => Ok (wrong_number "incr/decr", here)
     end).
Proof.
  destruct rest as [|key rest]; [apply (does_reply_if_wanted (wrong_number "incr/decr"))|].
  pose proof (handle_incr_decr_runs w A name key rest increment Hw) as H. unfold spec_incr, ks_get. cbn [fst snd].
  change (clock_ms clk (ticks (w_mem w))) with (time_at (w_mem w)).
  destruct (a_get (time_at (w_mem w)) key A) as [existing A'].
  destruct (incr_outcome increment existing) as [[stored r]|e]; [|exact H]. cbn [mbind res_bind].
  destruct stored; by eapply does_answered.
Qed.

Lemma push_does at_head name rest :
  adb_room (zlen rest) A →
  does (handle_push at_head (name :: rest)) w
    (match rest with
     | key :: ((_ :: _) as items) => Ok (spec_push clk at_head key items here)
     | _ => Ok (wrong_number (if at_head then "lpush" else "rpush"), here)
     end).
Proof.
  intros HA. destruct rest as [|key [|item items]];
    [destruct at_head; [apply (does_reply_if_wanted (wrong_number "lpush"))
                       |apply (does_reply_if_wanted (wrong_number "rpush"))]..|].
  pose proof (handle_push_runs at_head w A name key item items Hw) as H.
  unfold spec_push, ks_get. cbn [fst snd].
  change (clock_ms clk (ticks (w_mem w))) with (time_at (w_mem w)).
  destruct (a_get (time_at (w_mem w)) key A) as [existing A'].
  specialize (H ltac:(eapply room_weaken; [|exact HA]; simpl length; lia)).
  destruct (push_outcome at_head (item :: items) existing) as [[xs e]|]; by eapply does_answered.
Qed.

Lemma lrange_does name rest :
  does (handle_lrange (name :: rest)) w
    (match rest with
     | key :: start :: end_ :: _ => Ok (spec_lrange clk key start end_ here)
     | _ => Ok (wrong_number "rpush", here)
     end).
Proof.
  destruct rest as [|key [|a [|b rest]]]; [apply (does_reply (wrong_number "rpush"))..|].
  pose proof (handle_lrange_runs w A name key a b rest Hw) as H. unfold spec_lrange, ks_get. cbn [fst snd].
  change (clock_ms clk (ticks (w_mem w))) with (time_at (w_mem w)).
  destruct (a_get (time_at (w_mem w)) key A) as [existing A']. by eapply does_answered.
Qed.

Lemma dbsize_does : does handle_dbsize w (Ok (RInteger (Z.of_nat (base.size A)), here)).
Proof.
  pose proof (does_reply (RInteger (Z.of_nat (base.size A)))) as H. unfold does in *.
  destruct Hw as [(M & P & Ho) HA _ _]. destruct HA as [Hs _].
  unfold handle_dbsize. erewrite st_bind_ok by (apply on_db_ok0; reflexivity). rewrite set_mem_id.
  rewrite (own_count _ _ _ _ Ho), (own_size _ _ _ _ Ho), (swrap_small 32) by lia. exact H.
Qed.
End commands.

(** *** SET *)

(** The code's answer to options the machine refuses or takes. *)
Definition parsed (r : refusal + SetOptions) (rc : Z) (o : SetOptions) : Prop :=
  match r with
  | inl SyntaxError => rc = ERR_SYNTAX
  | inl NotANumber => rc = ERR_VALUE
  | inr o' => rc = 0 ∧ o = o'
  end.

Definition parses (words : list bytes) (o : SetOptions) (m : mem) (r : (refusal + SetOptions) * nat) : Prop :=
  ∃ rc o' n, parse_set_options words o m = Ok ((rc, o'), ticked n m) ∧
    r.2 = (ticks m + n)%nat ∧ parsed r.1 rc o'.

Lemma read_clock_ticked m : read_clock m = Ok (time_at m, ticked 1 m).
Proof. unfold read_clock, ticked. by rewrite Nat.add_1_r. Qed.

(** The four words with an amount, in the code and in the table. *)
Lemma expire_option_word word :
  match find_word deadline_words word, expire_option word with
  | Some (ms, from_now), Some f =>
      find_word flag_words word = None ∧
      ∀ n m, LONG_MIN ≤ n ≤ LONG_MAX →
        f n m = Ok (s64 ((if from_now then time_at m else 0) + ms * n),
                    ticked (if from_now then 1 else 0) m)
  | None, None => True
  | _, _ => False
  end.
Proof.
  unfold expire_option, deadline_words, streq. cbn [find_word]. unfold LONG_MIN, LONG_MAX.
  repeat case_bool_decide; simplify_eq; try done; (split; [done|]); intros n m Hn; rewrite ?ticked_0;
    try (erewrite st_bind_ok by apply read_clock_ticked).
  - by rewrite <- (swrap_add_r 64 (time_at m) (1000 * n)), (Z.mul_comm 1000) by lia.
  - by rewrite Z.mul_1_l.
  - by rewrite Z.add_0_l, Z.mul_comm.
  - by rewrite Z.add_0_l, Z.mul_1_l, swrap_small by lia.
Qed.

Lemma parses_now words o m rc r :
  parse_set_options words o m = Ok ((rc, o), m) → parsed r rc o → parses words o m (r, ticks m).
Proof. intros E Hp. exists rc, o, 0%nat. rewrite ticked_0. split_and!; [done|cbn; lia|done]. Qed.

Lemma parses_later words words' o o' m k r :
  parse_set_options words o m = parse_set_options words' o' (ticked k m) →
  parses words' o' (ticked k m) r → parses words o m r.
Proof.
  intros E (rc & o1 & n & E1 & Ht & Hp). exists rc, o1, (k + n)%nat. rewrite E, E1, ticked_ticked.
  split_and!; [done| |done]. cbn [ticked ticks] in Ht. lia.
Qed.

(** A deadline: refused, not a number, or taken. *)
Lemma deadline_agrees word amount words o m ms (from_now : bool) f :
  find_word flag_words word = None → expire_option word = Some f →
  (∀ n m, LONG_MIN ≤ n ≤ LONG_MAX →
    f n m = Ok (s64 ((if from_now then time_at m else 0) + ms * n), ticked (if from_now then 1 else 0) m)) →
  (∀ o' m', parses words o' m' (ask_all (clock m') (set_words words) o' (ticks m'))) →
  parses (word :: amount :: words) o m
    (ask_all (clock m) (Deadline ms from_now (number amount) :: set_words words) o (ticks m)).
Proof.
  intros Hflag Ef Hf IH.
  assert (streq word "NX" = false ∧ streq word "XX" = false ∧ streq word "GET" = false ∧
          streq word "KEEPTTL" = false) as (E1 & E2 & E3 & E4)
    by (unfold streq; cbn in Hflag; repeat case_bool_decide; done).
  cbn [ask_all ask]. destruct (bool_decide (opt_expiration o = 0) && negb (keepttl o)) eqn:Eb.
  - apply andb_prop in Eb as [He Hk]. apply bool_decide_eq_true_1 in He. apply negb_true_iff in Hk.
    destruct (number amount) as [n|] eqn:En.
    + pose proof (number_sound _ _ En) as [_ Hn]. 
      specialize (IH (opt_expire (s64 ((if from_now then time_at m else 0) + ms * n)) o)
        (ticked (if from_now then 1 else 0) m)).
      replace (if from_now then S (ticks m) else ticks m) with (ticks (ticked (if from_now then 1 else 0) m))
        by (destruct from_now; cbn; lia).
      eapply parses_later; [|exact IH]. cbn [parse_set_options].
      rewrite E1, E2, E3, E4, Ef, He, Hk, parse_integer_number, En. cbn [negb orb Z.eqb].
      change (ERR_NONE =? 0) with true. cbn [negb]. by erewrite st_bind_ok by (by apply Hf).
    + apply (parses_now _ _ _ ERR_VALUE); [|done]. cbn [parse_set_options].
      by rewrite E1, E2, E3, E4, Ef, He, Hk, parse_integer_number, En.
  - apply (parses_now _ _ _ ERR_SYNTAX); [|done]. cbn [parse_set_options]. rewrite E1, E2, E3, E4, Ef.
    replace (negb (opt_expiration o =? 0) || keepttl o) with true; [done|].
    destruct (Z.eqb_spec (opt_expiration o) 0) as [He|]; [|done].
    rewrite bool_decide_eq_true_2 in Eb by done. by destruct (keepttl o).
Qed.

(** A word on its own. *)
Lemma flag_agrees word words o m :
  match expire_option word, words with Some _, _ :: _ => False | _, _ => True end →
  (∀ o' m', parses words o' m' (ask_all (clock m') (set_words words) o' (ticks m'))) →
  parses (word :: words) o m
    (ask_all (clock m) (default Ignored (find_word flag_words word) :: set_words words) o (ticks m)).
Proof.
  intros Hx IH.
  assert (∀ o', parse_set_options (word :: words) o m = parse_set_options words o' m →
    parses (word :: words) o m (ask_all (clock m) (set_words words) o' (ticks m))) as Hskip.
  { intros o' E. apply (parses_later _ words o o' m 0); rewrite ticked_0; [done|apply IH]. }
  assert (∀ r rc, parse_set_options (word :: words) o m = Ok ((rc, o), m) → parsed r rc o →
    parses (word :: words) o m (r, ticks m)) as Hnow by (intros r rc E Hp; by apply (parses_now _ _ _ rc)).
  cbn [parse_set_options] in *. unfold flag_words, streq in *. cbn [find_word].
  case_bool_decide; [cbn [from_option id ask_all ask]; destruct (xx o); [by apply (Hnow _ ERR_SYNTAX)|by apply Hskip]|].
  case_bool_decide; [cbn [from_option id ask_all ask]; destruct (nx o); [by apply (Hnow _ ERR_SYNTAX)|by apply Hskip]|].
  case_bool_decide; [by apply Hskip|].
  case_bool_decide.
  { cbn [from_option id ask_all ask]. destruct (Z.eqb_spec (opt_expiration o) 0) as [He|He].
    - rewrite bool_decide_eq_true_2 by done. by apply Hskip.
    - rewrite bool_decide_eq_false_2 by done. by apply (Hnow _ ERR_SYNTAX). }
  cbn [from_option id ask_all ask]. apply Hskip. destruct (expire_option word); [by destruct words|done].
Qed.

(** The options are parsed as the machine says. *)
Lemma options_agree words o m :
  parses words o m (ask_all (clock m) (set_words words) o (ticks m)).
Proof.
  revert o m. induction words as [words IH] using (well_founded_induction (Nat.lt_wf_0_projected length)).
  intros o m. destruct words as [|word words]; [by apply (parses_now _ _ _ 0)|]. cbn [set_words].
  pose proof (expire_option_word word) as Hw. destruct (find_word deadline_words word) as [[ms from_now]|].
  - destruct (expire_option word) as [f|] eqn:Ef; [|done]. destruct Hw as [Hflag Hf].
    destruct words as [|amount words].
    + apply flag_agrees; [by rewrite Ef|]. intros o' m'. apply IH. simpl. lia.
    + apply (deadline_agrees _ _ _ _ _ _ _ f); [done..|]. intros o' m'. apply IH. simpl. lia.
  - destruct (expire_option word) as [f|] eqn:Ef; [done|]. apply flag_agrees; [by rewrite Ef|].
    intros o' m'. apply IH. simpl. lia.
Qed.

Section set.
Context (w : world) (A : adb) (Hw : world_ok w A).

(** Options that are refused. *)
Lemma set_refused name key value opts rc o n r :
  parse_set_options opts no_options (w_mem w) = Ok ((rc, o), ticked n (w_mem w)) →
  (∀ k : cmdM unit, (if rc =? ERR_SYNTAX then reply_if_wanted (add_error_reply (lit "ERR syntax error"))
    else if rc =? ERR_VALUE
    then reply_if_wanted (add_error_reply (lit "ERR value is not an integer or out of range"))
    else if opt_expiration o <? 0
    then reply_if_wanted (add_error_reply (lit "ERR expiration must be a non-negative integer"))
    else k) = reply_if_wanted (add_reply r)) →
  does (handle_set (name :: key :: value :: opts)) w (Ok (r, (A, (ticks (w_mem w) + n)%nat))).
Proof.
  intros E Hr. apply (does_answered _ w r A n); [|done]. intros Hroom. destruct Hw as [Hdb HA Hout Hs].
  destruct (reply_if_wanted_answers w (ticked n (w_mem w)) A r n) as (w' & E' & Ha);
    [by apply ticked_rep|apply ticked_later|done..|].
  exists w'. split; [|done]. rewrite <- E'. unfold handle_set.
  rewrite (proj2 (Z.ltb_ge _ _)) by (simpl length; lia). cbn [drop].
  erewrite st_bind_ok by (by apply on_db_ok0). cbv beta iota. by rewrite Hr.
Qed.

Lemma set_does name rest :
  does (handle_set (name :: rest)) w
    (match rest with
     | key :: value :: opts => spec_set (clock (w_mem w)) key value opts (A, ticks (w_mem w))
     | _ => Ok (wrong_number "set", (A, ticks (w_mem w)))
     end).
Proof.
  destruct rest as [|key [|value words]]; [by apply (does_reply w A Hw (wrong_number "set"))..|].
  destruct (options_agree words no_options (w_mem w)) as (rc & o & n & E & Ht & Hp).
  unfold spec_set. cbn [fst snd].
  change (MkOptions 0 false false false false) with no_options.
  destruct (ask_all _ _ no_options _) as [[[]|o'] t]; cbn [fst snd parsed] in *; subst t.
  { subst rc. by apply (set_refused name key value words ERR_SYNTAX o n). }
  { subst rc. by apply (set_refused name key value words ERR_VALUE o n). }
  destruct Hp as [-> <-].
  destruct (opt_expiration o <? 0) eqn:E3; [by apply (set_refused name key value words 0 o n); [|rewrite E3]|].
  zbool. pose proof (handle_set_runs w A name key value words o n Hw E E3) as H.
  change (clock_ms (clock (w_mem w)) (ticks (w_mem w) + n)) with (time_at (ticked n (w_mem w))).
  destruct (set_lookup (time_at (ticked n (w_mem w))) o key A) as [existing A1].
  destruct (set_outcome o existing) as [[stored r]|e]; [|exact H]. cbn [mbind res_bind].
  eapply does_answered; [exact H|lia].
Qed.
End set.

(** *** Every command *)

(** Marking a client leaves everything the handlers answer with. *)
Definition marked (b : bool) (w : world) : world := set_client (with_propogate b (w_client w)) w.

Lemma marked_ok b w A : world_ok w A → world_ok (marked b w) A.
Proof. intros [? ? ? ?]. by constructor. Qed.

(** The names are those of the table. *)
Lemma get_command_type_named name : get_command_type name = named name.
Proof. unfold get_command_type, named, command_names, streq. cbn [find_word]. repeat case_bool_decide; simplify_eq; done. Qed.

Definition is_set (args : list bytes) : bool := bool_decide (args !! 0%nat = Some (lit "SET")).

Lemma is_set_type name rest : is_set (name :: rest) = bool_decide (get_command_type name = CMD_SET).
Proof.
  apply bool_decide_ext. rewrite command_type_set. cbn. split; [by intros [= ->]|by intros ->].
Qed.

(** The handler that the name selects. *)
Lemma selected_does name rest w A :
  world_ok w A → adb_room (zlen (name :: rest)) A → data_command (name :: rest) = true →
  does (dispatch (get_command_type name) (name :: rest)) w
    (spec_command (clock (w_mem w)) (name :: rest) (A, ticks (w_mem w))).
Proof.
  intros Hw HA Hd. rewrite get_command_type_named. cbn [data_command spec_command] in *.
  assert (adb_room (zlen rest) A) as HA' by (eapply room_weaken; [|exact HA]; rewrite length_cons; lia).
  destruct (named name); cbn [dispatch]; try done.
  - by apply ping_does.
  - by apply echo_does.
  - by apply set_does.
  - by apply get_does.
  - apply exist_does; [done|]. destruct HA' as [Hs _]. unfold INT_MAX. lia.
  - by apply delete_does.
  - by apply incr_does.
  - by apply incr_does.
  - by apply (push_does w A Hw true).
  - by apply (push_does w A Hw false).
  - by apply lrange_does.
  - by apply dbsize_does.
  - by apply (does_reply w A Hw (RError (lit "ERR unknown command"))).
Qed.

Lemma handle_command_does args w A :
  world_ok w A → adb_room (zlen args) A → data_command args = true →
  match spec_command (clock (w_mem w)) args (A, ticks (w_mem w)) with
  | Ok (r, (A', t')) =>
      out_room w r →
      ∃ w' n, handle_command args w = Ok (tt, w') ∧ answered (marked (is_set args) w) w' r A' n ∧
        t' = (ticks (w_mem w) + n)%nat
  | Stop e => handle_command args w = Stop e
  end.
Proof.
  intros Hw HA Hd. destruct args as [|name rest]; [done|].
  pose proof (selected_does name rest (marked false w) A (marked_ok _ _ _ Hw) HA Hd) as H. cbn [w_mem marked set_client] in H.
  unfold handle_command. erewrite !st_bind_ok by reflexivity. cbv beta zeta. rewrite is_set_type.
  destruct (spec_command _ _ _) as [[r [A' t']]|e]; cbn [does] in H.
  - intros Hroom. destruct (H Hroom) as (w1 & n & E & Ha & Ht). erewrite st_bind_ok by exact E.
    exists (if bool_decide (get_command_type name = CMD_SET) then marked true w1 else w1), n.
    destruct (bool_decide (get_command_type name = CMD_SET)); [|done]. split_and!; [done| |done].
    destruct Ha as [Hdb Hn Hout Hc Hix Hcl Hrest]. constructor; try done. cbn. by rewrite Hcl.
  - by erewrite st_bind_stop by exact H.
Qed.

(** ** Sequences of commands *)

Lemma ks_get_room clk n key s : adb_room n s.1 → adb_room n (ks_get clk key s).2.1.
Proof.
  intros HA. unfold ks_get. pose proof (a_get_room n (clock_ms clk s.2) key s.1 HA).
  by destruct (a_get (clock_ms clk s.2) key s.1).
Qed.

Lemma delete_room n keys A : adb_room n A → adb_room n (foldl (λ A key, delete key A) A keys).
Proof.
  revert A. induction keys as [|key keys IH]; intros A HA; [done|]. apply IH. destruct HA as [Hs Hl]. constructor.
  - rewrite map_size_delete. destruct (A !! key); unfold id; lia.
  - intros k xs e [_ Hk]%lookup_delete_Some. by eapply Hl.
Qed.

Lemma spec_set_room clk key value opts s r s' k :
  adb_room (k + 1) s.1 → spec_set clk key value opts s = Ok (r, s') → adb_room k s'.1.
Proof.
  intros HA. assert (adb_room k s.1) as HA' by (eapply room_weaken; [|exact HA]; lia).
  unfold spec_set. destruct (ask_all _ _ _ _) as [[[]|o] t]; [by intros [= <- <-]..|].
  destruct (_ <? 0); [by intros [= <- <-]|].
  assert (adb_room (k + 1) (set_lookup (clock_ms clk t) o key s.1).2) as HA1
    by (unfold set_lookup; case_match; [by apply a_get_room|done]).
  destruct (set_lookup _ o key s.1) as [existing A1]. cbn [snd] in HA1.
  destruct (set_outcome o existing) as [[stored r']|]; [|done]. intros [= <- <-]. cbn [fst].
  destruct stored; [by apply insert_room|]. eapply room_weaken; [|exact HA1]. lia.
Qed.

Lemma spec_incr_room clk i key s r s' k :
  adb_room (k + 1) s.1 → spec_incr clk i key s = Ok (r, s') → adb_room k s'.1.
Proof.
  intros HA. unfold spec_incr. pose proof (ks_get_room clk _ key s HA) as HA1.
  destruct (ks_get clk key s) as [existing s1]. cbn [snd] in HA1.
  destruct (incr_outcome i existing) as [[stored r']|]; [|done]. intros [= <- <-].
  destruct stored; [by apply insert_room|]. eapply room_weaken; [|exact HA1]. lia.
Qed.

Lemma spec_push_room clk at_head key items s k :
  0 ≤ k → items ≠ [] → adb_room (k + zlen items) s.1 → adb_room k (spec_push clk at_head key items s).2.1.
Proof.
  intros Hk Hne HA. pose proof (ks_get_room clk _ key s HA) as HA1.
  pose proof (a_get_list (k + zlen items) (clock_ms clk s.2) key s.1) as Hlim.
  unfold spec_push, ks_get in *. destruct (a_get (clock_ms clk s.2) key s.1) as [existing A1]. cbn [fst snd] in *.
  assert (∀ xs, zlen (pushed at_head items xs) = zlen xs + zlen items) as Hp
    by (intros xs; destruct at_head; cbn; rewrite length_app, ?length_reverse; lia).
  assert (∀ xs, pushed at_head items xs ≠ []) as Hpn
    by (intros xs Hnil; specialize (Hp xs); rewrite Hnil in Hp; destruct items; [done|]; simpl length in Hp; lia).
  assert (adb_room (k + 1) A1) as HA2
    by (eapply room_weaken; [|exact HA1]; destruct items; [done|]; simpl length; lia).
  destruct existing as [[[str|xs] e]|]; cbn [push_outcome].
  - eapply room_weaken; [|exact HA2]. lia.
  - destruct (Hlim xs e HA eq_refl) as (_ & He & Hl). apply insert_room; [done|]. cbn [fst snd]. rewrite Hp.
    split_and!; [done|done|lia].
  - destruct HA1 as [Hs _]. apply insert_room; [done|]. cbn [fst snd]. rewrite Hp. unfold INT_MAX.
    split_and!; [done|by destruct at_head|simpl length; lia].
Qed.

Lemma spec_command_room clk args s r s' k :
  0 ≤ k → adb_room (k + zlen args) s.1 → spec_command clk args s = Ok (r, s') → adb_room k s'.1.
Proof.
  intros Hk HA. destruct args as [|name rest]; [done|]. cbn [spec_command]. rewrite length_cons in HA.
  assert (adb_room (k + 1) s.1) as HA1 by (eapply room_weaken; [|exact HA]; lia).
  assert (adb_room k s.1) as HA0 by (eapply room_weaken; [|exact HA]; lia).
  assert (∀ at_head key (items : list bytes), items ≠ [] → (length items ≤ length rest)%nat →
    adb_room k (spec_push clk at_head key items s).2.1) as Hpush
    by (intros at_head key items Hi Hl; apply spec_push_room; [done|done|]; eapply room_weaken; [|exact HA]; lia).
  assert (∀ key, adb_room k (ks_get clk key s).2.1) as Hget by (intros key; by apply ks_get_room).
  pose proof (λ keys, delete_room k keys s.1 HA0) as Hdel.
  destruct (named name), rest as [|a [|b [|c rest]]]; try (by intros [= <- <-]);
    try (by apply spec_set_room); try (by apply spec_incr_room);
    try (intros [= <- <-]; (apply (Hdel [a]) || apply (Hdel [a; b]) || apply (Hdel (a :: b :: c :: rest))));
    try (unfold spec_lrange; specialize (Hget a); destruct (ks_get clk a s); by intros [= <- <-]).
  all: intros [= Hp]; match type of Hp with spec_push _ ?h _ ?items _ = _ =>
    specialize (Hpush h a items ltac:(done) ltac:(simpl; lia)) end; by rewrite Hp in Hpush.
Qed.

(** What a sequence of commands is charged with: its arguments. *)
Definition total_args (cmds : list (list bytes)) : Z := zlen (concat cmds).

(** Whether the client is marked for propagation after [cmds]. *)
Definition mark_after (cmds : list (list bytes)) (b : bool) : bool := foldl (λ _ args, is_set args) b cmds.

Definition encodes (rs : list resp) : bytes := concat (encode <$> rs).

(** The commands ran: the replies [rs] are queued, in order, behind what was
    there, the keyspace and the clock are those of [s'], and nothing else of the
    server changed but the mark. *)
Record replied (w w' : world) (rs : list resp) (s' : ks) (mark : bool) : Prop := {
  rp_db : db_rep (w_mem w') s'.1;
  rp_clock : clock (w_mem w') = clock (w_mem w) ∧ ticks (w_mem w') = s'.2;
  rp_out : rb_wf (out w');
  rp_reply : contents (out w') = contents (out w) ++ encodes rs;
  rp_index : size (out w') = size (out w) ∧ write_index (out w') = write_index (out w) + zlen (encodes rs);
  rp_client : w_client w' = with_output (out w') (with_propogate mark (w_client w));
  rp_rest : w_info w' = w_info w ∧ w_config w' = w_config w ∧ w_os w' = w_os w ∧
            epoll_answers w' = epoll_answers w
}.

(** The output buffer takes all of [rs]; the last byte is for an empty array. *)
Definition replies_fit (w : world) (rs : list resp) : Prop :=
  Forall resp_ok rs ∧ zlen (encodes rs) + 1 ≤ size (out w) - zlen (contents (out w)) ∧
  write_index (out w) + zlen (encodes rs) < 2 ^ 64.

Lemma replies_fit_cons w r rs : replies_fit w (r :: rs) → out_room w r.
Proof.
  intros (Hok & Hfit & H64). unfold encodes in Hfit, H64. cbn [fmap list_fmap concat] in Hfit, H64.
  rewrite zlen_app in Hfit, H64. apply Forall_cons in Hok as [Hok _].
  assert (slack_of r ≤ 1) by (by destruct r as [| | | | |[|]]; simpl). split_and!; [done|lia|lia].
Qed.

Lemma replies_fit_after w w' r rs A n b :
  replies_fit w (r :: rs) → answered (marked b w) w' r A n → replies_fit w' rs.
Proof.
  intros (Hok & Hfit & H64) [_ _ _ Hc [Hz Hx] _ _]. unfold replies_fit, encodes in *. cbn [fmap list_fmap concat] in Hfit, H64.
  rewrite zlen_app in Hfit, H64. apply Forall_cons in Hok as [_ Hok]. change (out (marked b w)) with (out w) in *.
  split_and!; [done|rewrite Hc, Hz, zlen_app; lia|rewrite Hx; lia].
Qed.

Lemma total_args_cons args cmds : total_args (args :: cmds) = total_args cmds + zlen args.
Proof. unfold total_args. cbn [concat]. rewrite zlen_app. lia. Qed.

Lemma replied_nil w A :
  world_ok w A → replied w w [] (A, ticks (w_mem w)) (should_propogate_command (w_client w)).
Proof.
  intros [Hdb HA Hout Hr]. constructor; try done.
  - unfold encodes. cbn. by rewrite app_nil_r.
  - split; [done|]. unfold encodes. cbn. lia.
  - unfold out. by destruct (w_client w).
Qed.

Lemma replied_cons w w1 w' r rs A n s' b mark :
  answered (marked b w) w1 r A n → replied w1 w' rs s' mark → replied w w' (r :: rs) s' mark.
Proof.
  intros [_ [Hk1 _] _ Hc1 [Hz1 Hx1] Hcl1 (I1 & C1 & O1 & P1)] [Hdb [Hk Ht] Hout Hc [Hz Hx] Hcl (I & C & O & P)].
  change (out (marked b w)) with (out w) in *. cbn [marked w_mem w_info w_config w_os epoll_answers set_client] in *.
  constructor; try done; unfold encodes in *; cbn [fmap list_fmap concat].
  - split; [congruence|done].
  - by rewrite Hc, Hc1, app_assoc.
  - split; [congruence|]. rewrite Hx, Hx1, zlen_app. lia.
  - rewrite Hcl, Hcl1. done.
  - split_and!; congruence.
Qed.

Lemma commands_do cmds w A rs s' :
  world_ok w A → adb_room (total_args cmds) A → forallb data_command cmds = true →
  spec_commands (clock (w_mem w)) cmds (A, ticks (w_mem w)) = Ok (rs, s') → replies_fit w rs →
  ∃ w', for_each handle_command cmds w = Ok (tt, w') ∧
    replied w w' rs s' (mark_after cmds (should_propogate_command (w_client w))).
Proof.
  revert w A rs s'. induction cmds as [|args cmds IH]; intros w A rs s' Hw HA Hd E Hfit.
  { injection E as <- <-. exists w. split; [done|]. by apply replied_nil. }
  cbn [forallb] in Hd. apply andb_prop in Hd as [Hd1 Hd]. rewrite total_args_cons in HA. cbn [spec_commands] in E.
  assert (0 ≤ total_args cmds) as Hpos by (unfold total_args; lia).
  pose proof (handle_command_does args w A Hw ltac:(eapply room_weaken; [|exact HA]; lia) Hd1) as H.
  pose proof (spec_command_room (clock (w_mem w)) args (A, ticks (w_mem w))) as HA1.
  destruct (spec_command (clock (w_mem w)) args (A, ticks (w_mem w))) as [[r [A1 t1]]|]; [|done].
  cbn [mbind res_bind] in E.
  destruct (spec_commands (clock (w_mem w)) cmds (A1, t1)) as [[rs' s'']|] eqn:E'; [|done].
  injection E as <- <-. specialize (HA1 r (A1, t1) (total_args cmds) Hpos HA eq_refl). cbn [fst] in HA1.
  destruct (H (replies_fit_cons _ _ _ Hfit)) as (w1 & n & E1 & Ha & Ht1).
  destruct (IH w1 A1 rs' s'') as (w' & E2 & Hrp); [| done | done | | by eapply replies_fit_after |].
  - destruct Ha as [Hdb _ Hout _ _ Hcl _]. constructor; [done|by eapply room_weaken; [|done]|done|].
    rewrite Hcl. by destruct Hw.
  - destruct Ha as [_ [Hk Ht] _ _ _ _ _]. cbn [marked w_mem set_client] in Hk, Ht. by rewrite Hk, Ht, <- Ht1.
  - exists w'. cbn [for_each]. erewrite st_bind_ok by exact E1. split; [exact E2|].
    eapply replied_cons; [exact Ha|]. destruct Ha as [_ _ _ _ _ Hcl _]. by rewrite Hcl in Hrp.
Qed.

Lemma spec_commands_room clk cmds s rs s' k :
  0 ≤ k → adb_room (k + total_args cmds) s.1 → spec_commands clk cmds s = Ok (rs, s') → adb_room k s'.1.
Proof.
  intros Hk. revert s rs. induction cmds as [|args cmds IH]; intros s rs HA E; cbn [spec_commands] in E.
  { injection E as <- <-. eapply room_weaken; [|exact HA]. unfold total_args. lia. }
  rewrite total_args_cons in HA. destruct (spec_command clk args s) as [[r s1]|] eqn:E1; [|done].
  cbn [mbind res_bind] in E. destruct (spec_commands clk cmds s1) as [[rs' s2]|] eqn:E2; [|done].
  injection E as <- <-. eapply (IH s1); [|exact E2].
  eapply (spec_command_room clk args s); [unfold total_args; lia| |exact E1].
  by rewrite <- Z.add_assoc.
Qed.

(** C5: every command on the keyspace implements the reference machine, which
    has its own table of command names and its own grammar of the options of
    SET. Whatever its name and arguments, when its reply fits the output buffer
    it queues the reply the machine gives and leaves the keyspace the machine
    has next, having read the clock as often, marks the client for propagation
    when it is SET, and changes nothing else; and it faults exactly when the
    machine does (a list read as a string by SET with GET, INCR or DECR, or a
    command without a name). The keyspace has room for the arguments. *)
Theorem handle_command_refines args w A :
  world_ok w A → adb_room (zlen args) A → data_command args = true →
  match spec_command (clock (w_mem w)) args (A, ticks (w_mem w)) with
  | Ok (r, (A', t')) =>
      out_room w r →
      ∃ w' n, handle_command args w = Ok (tt, w') ∧ answered (marked (is_set args) w) w' r A' n ∧
        t' = (ticks (w_mem w) + n)%nat
  | Stop e => handle_command args w = Stop e
  end.
Proof. apply handle_command_does. Qed.

Lemma handle_command_refines_witness :
  ∃ w' n, handle_command [lit "SET"; lit "k"; lit "v"; lit "NX"; lit "PX"; lit "50"] world0 = Ok (tt, w') ∧
    answered (marked true world0) w' (RSimple (lit "OK")) {[lit "k" := (AStr (lit "v"), 1050)]} n ∧ 1%nat = n.
Proof.
  pose proof (handle_command_refines [lit "SET"; lit "k"; lit "v"; lit "NX"; lit "PX"; lit "50"] world0 ∅
    world0_ok) as H.
  assert (adb_room 6 (∅ : adb)) as HA.
  { constructor; [vm_compute; reflexivity|]. intros ? ? ?. rewrite lookup_empty. discriminate. }
  exact (H HA eq_refl (room0 (RSimple (lit "OK")) eq_refl)).
Defined.
