(* ===== verification/Timeless.v ===== *)
(** * Commands that do not look at the clock

    Two servers that run the same commands have the same keyspace only if the
    commands do not depend on the time at which they run.  On a keyspace in which
    nothing expires, every command but a SET with an expiration is such a command:
    its run on the machine of [Reference] is the run of a machine without a clock,
    and commands that only read leave the keyspace as it is. *)

From S2P Require Import Prelude CLib RingBuffer Util Database RespWriter ServerState.
From S2P Require Import Commands CommandSpec Reference.

(** Nothing expires. *)
Definition lasting (A : adb) : Prop := map_Forall (λ _ v, v.2 ≤ 0) A.

(** No option gives an expiration. *)
Definition no_expire (opts : list bytes) : bool :=
  forallb (λ a, bool_decide (find_word deadline_words a = None)) opts.

Definition timeless (args : list bytes) : bool :=
  data_command args &&
  match args with
  | name :: _ :: _ :: opts => negb (bool_decide (named name = CMD_SET)) || no_expire opts
  | _ => true
  end.

Definition read_only (args : list bytes) : bool :=
  match args with
  | [] => true
  | name :: _ =>
      match named name with
      | CMD_PING | CMD_ECHO | CMD_GET | CMD_EXIST | CMD_LRANGE | CMD_DBSIZE | CMD_UNKNOWN => true
      | _ => false
      end
  end.

(** The machine without a clock. *)
Definition plain_command (args : list bytes) (A : adb) : res (resp * adb) :=
  '(r, s) ← spec_command (λ _, (0, 0)) args (A, 0%nat); Ok (r, s.1).

Fixpoint plain_run (cmds : list (list bytes)) (A : adb) : res (list resp * adb) :=
  match cmds with
  | [] => Ok ([], A)
  | args :: cmds' =>
      '(r, A1) ← plain_command args A;
      '(rs, A2) ← plain_run cmds' A1;
      Ok (r :: rs, A2)
  end.

Lemma plain_run_app cmds1 cmds2 A rs1 A1 rs2 A2 :
  plain_run cmds1 A = Ok (rs1, A1) → plain_run cmds2 A1 = Ok (rs2, A2) →
  plain_run (cmds1 ++ cmds2) A = Ok (rs1 ++ rs2, A2).
Proof.
  revert A rs1. induction cmds1 as [|args cmds1 IH]; intros A rs1 E1 E2; cbn [plain_run app] in *.
  { by injection E1 as <- <-. }
  destruct (plain_command args A) as [[r A']|]; [|done]. cbn [mbind res_bind] in *.
  destruct (plain_run cmds1 A') as [[rs A'']|] eqn:E; [|done]. injection E1 as <- <-.
  by rewrite (IH A' rs E E2).
Qed.

(** ** The clock is not looked at *)

(** The result [r] at any time [t], with the next keyspace lasting. *)
Definition at_any_time (f : (nat → Z * Z) → ks → res (resp * ks)) (A : adb) : Prop :=
  ∃ R : res (resp * adb), (∀ clk t, f clk (A, t) = ('(r, A') ← R; Ok (r, (A', t)))) ∧
    ∀ r A', R = Ok (r, A') → lasting A'.

Lemma at_any_time_ok f A r A' :
  lasting A' → (∀ clk t, f clk (A, t) = Ok (r, (A', t))) → at_any_time f A.
Proof. intros HA Hf. exists (Ok (r, A')). split; [done|]. by intros ? ? [= <- <-]. Qed.

Lemma lasting_get now key A : lasting A → a_get now key A = (A !! key, A) ∧ get_ticks key A = 0%nat.
Proof.
  intros HA. unfold a_get, get_ticks. destruct (A !! key) as [[v e]|] eqn:E; [|done].
  apply HA in E. cbn in E. unfold expired. by rewrite (proj2 (Z.ltb_ge _ _)).
Qed.

Lemma lasting_ks_get clk key A t : lasting A → ks_get clk key (A, t) = (A !! key, (A, t)).
Proof.
  intros HA. unfold ks_get. cbn [fst snd]. destruct (lasting_get (clock_ms clk t) key A HA) as [-> ->].
  by rewrite Nat.add_0_r.
Qed.

Lemma lasting_insert key v A : v.2 ≤ 0 → lasting A → lasting (<[key := v]> A).
Proof. intros Hv HA. by apply map_Forall_insert_2. Qed.

Lemma lasting_value A key v e : lasting A → A !! key = Some (v, e) → e ≤ 0.
Proof. intros HA E. by apply HA in E. Qed.

Lemma lasting_deletes keys A : lasting A → lasting (foldl (λ A key, delete key A) A keys).
Proof.
  revert A. induction keys as [|key keys IH]; intros A HA; [done|]. apply IH. by apply map_Forall_delete.
Qed.

(** Options without an expiration. *)
Lemma no_expire_ask opts o :
  no_expire opts = true →
  ∃ r, (∀ clk t, ask_all clk (set_words opts) o t = (r, t)) ∧
    ∀ o', r = inr o' → opt_expiration o' = opt_expiration o.
Proof.
  revert o. induction opts as [|a opts IH]; intros o Hno; [exists (inr o); by split; [|intros ? [= ->]]|].
  cbn [no_expire forallb] in Hno. apply andb_prop in Hno as [Ha Hno]. apply bool_decide_eq_true_1 in Ha.
  cbn [set_words]. rewrite Ha. specialize (λ o, IH o Hno). unfold flag_words. cbn [find_word].
  assert (∃ r, (∀ (clk : nat → Z * Z) t, ((inl SyntaxError, t) : (refusal + SetOptions) * nat) = (r, t)) ∧
    ∀ o', r = inr o' → opt_expiration o' = opt_expiration o) as Hrefused by (by exists (inl SyntaxError)).
  repeat case_bool_decide; cbn [from_option id ask_all ask].
  - destruct (xx o); [exact Hrefused|apply (IH (MkOptions _ _ _ _ _))].
  - destruct (nx o); [exact Hrefused|apply (IH (MkOptions _ _ _ _ _))].
  - apply (IH (MkOptions _ _ _ _ _)).
  - case_bool_decide; [apply (IH (MkOptions _ _ _ _ _))|exact Hrefused].
  - apply IH.
Qed.

Lemma set_any_time key value opts A :
  lasting A → no_expire opts = true → at_any_time (λ clk, spec_set clk key value opts) A.
Proof.
  intros HA Hno. destruct (no_expire_ask opts no_options Hno) as (r & Ho & He). unfold spec_set. cbn [fst snd].
  destruct r as [[]|o].
  { apply (at_any_time_ok _ A (RError (lit "ERR syntax error")) A HA). intros clk t. by rewrite Ho. }
  { apply (at_any_time_ok _ A (RError (lit "ERR value is not an integer or out of range")) A HA).
    intros clk t. by rewrite Ho. }
  specialize (He o eq_refl).
  set (existing := if nx o || xx o || opt_get o || keepttl o then A !! key else None).
  assert (∀ now, set_lookup now o key A = (existing, A) ∧ lookup_ticks o key A = 0%nat) as Hl.
  { intros now. unfold set_lookup, lookup_ticks, existing. destruct (_ || keepttl o); [by apply lasting_get|done]. }
  exists ('(stored, r) ← set_outcome o existing;
     Ok (r, match stored with Some exp => <[key := (AStr value, exp)]> A | None => A end)). split.
  - intros clk t. rewrite Ho, He. cbn [no_options opt_expiration Z.ltb Z.compare fst snd].
    destruct (Hl (clock_ms clk t)) as [-> ->]. cbn [mbind res_bind]. rewrite Nat.add_0_r.
    by destruct (set_outcome o existing) as [[stored r]|].
  - intros r A' E. destruct (set_outcome o existing) as [[[exp|] r']|] eqn:Es; [|by injection E as _ <-|done].
    injection E as _ <-. apply lasting_insert; [|done]. cbn [snd].
    assert (∀ v e, existing = Some (v, e) → e ≤ 0) as Hx.
    { intros v e. unfold existing. destruct (_ || keepttl o); [by apply lasting_value|done]. }
    unfold set_outcome in Es. repeat case_match; simplify_eq; try done; rewrite ?He; cbn; try lia; by eapply Hx.
Qed.

Lemma incr_any_time i key A : lasting A → at_any_time (λ clk, spec_incr clk i key) A.
Proof.
  intros HA. exists ('(stored, r) ← incr_outcome i (A !! key);
    Ok (r, match stored with Some text => <[key := (AStr text, 0)]> A | None => A end)). split.
  - intros clk t. unfold spec_incr. rewrite lasting_ks_get by done.
    destruct (incr_outcome i (A !! key)) as [[[text|] r]|]; done.
  - intros r A' E. destruct (incr_outcome i (A !! key)) as [[[text|] r']|]; [|by injection E as _ <-|done].
    injection E as _ <-. by apply lasting_insert.
Qed.

Lemma push_any_time at_head key items A : lasting A → at_any_time (λ clk s, Ok (spec_push clk at_head key items s)) A.
Proof.
  intros HA. unfold spec_push.
  destruct (push_outcome at_head items (A !! key)) as [[xs e]|] eqn:E.
  - apply (at_any_time_ok _ A (RInteger (zlen xs)) (<[key := (AList xs, e)]> A)).
    + apply lasting_insert; [|done]. cbn. unfold push_outcome in E.
      destruct (A !! key) as [[[str|ys] e']|] eqn:Ek; simplify_eq; [by eapply lasting_value|destruct at_head; done].
    + intros clk t. rewrite lasting_ks_get by done. by rewrite E.
  - apply (at_any_time_ok _ A wrong_kind A HA). intros clk t. rewrite lasting_ks_get by done. by rewrite E.
Qed.

Lemma command_any_time args A :
  lasting A → timeless args = true → at_any_time (λ clk, spec_command clk args) A.
Proof.
  intros HA [Hd Ht]%andb_prop. destruct args as [|name rest]; [by exists (Stop Indeterminate)|].
  assert (∀ r, at_any_time (λ clk s, Ok (r, s)) A) as Hsame by (intros r; by apply (at_any_time_ok _ A r A)).
  cbn [data_command] in *. unfold spec_command. cbv beta iota.
  destruct (named name) eqn:E; try done; destruct rest as [|a [|b [|c rest]]];
    try apply Hsame; try (apply incr_any_time; done); try (apply push_any_time; done);
    try (rewrite bool_decide_eq_true_2 in Ht by done; by apply set_any_time).
  all: try (eapply (at_any_time_ok _ A _ A HA); intros clk t; cbv beta; unfold spec_lrange;
    rewrite lasting_ks_get by done; reflexivity).
  all: eapply at_any_time_ok; [|intros clk t; cbv beta; cbn [fst snd]; reflexivity]; try exact HA.
  all: by apply (lasting_deletes (_ :: _)).
Qed.

Lemma plain_any_clock clk args A t :
  lasting A → timeless args = true →
  spec_command clk args (A, t) = ('(r, A') ← plain_command args A; Ok (r, (A', t))).
Proof.
  intros HA Ht. destruct (command_any_time args A HA Ht) as (R & HR & _). unfold plain_command.
  rewrite !HR. by destruct R as [[r A']|].
Qed.

Lemma plain_lasting args A r A' :
  lasting A → timeless args = true → plain_command args A = Ok (r, A') → lasting A'.
Proof.
  intros HA Ht. destruct (command_any_time args A HA Ht) as (R & HR & Hl). unfold plain_command. rewrite HR.
  destruct R as [[r1 A1]|]; [|done]. intros [= <- <-]. by eapply Hl.
Qed.

(** Sequences of commands, on any clock. *)
Lemma timeless_run clk cmds A t rs s' :
  lasting A → forallb timeless cmds = true → spec_commands clk cmds (A, t) = Ok (rs, s') →
  plain_run cmds A = Ok (rs, s'.1) ∧ lasting s'.1.
Proof.
  revert A t rs. induction cmds as [|args cmds IH]; intros A t rs HA Ht E; cbn [spec_commands plain_run forallb] in *.
  { by injection E as <- <-. }
  apply andb_prop in Ht as [Ha Ht]. rewrite plain_any_clock in E by done.
  destruct (plain_command args A) as [[r A1]|] eqn:E1; [|done]. cbn [mbind res_bind] in *.
  destruct (spec_commands clk cmds (A1, t)) as [[rs' s1]|] eqn:E2; [|done]. injection E as <- <-.
  destruct (IH A1 t rs' (plain_lasting _ _ _ _ HA Ha E1) Ht E2) as [-> HA']. done.
Qed.

Lemma plain_run_lasting cmds A rs A' :
  lasting A → forallb timeless cmds = true → plain_run cmds A = Ok (rs, A') → lasting A'.
Proof.
  revert A rs. induction cmds as [|args cmds IH]; intros A rs HA Ht E; cbn [plain_run forallb] in *.
  { by injection E as <- <-. }
  apply andb_prop in Ht as [Ha Ht]. destruct (plain_command args A) as [[r A1]|] eqn:E1; [|done].
  cbn [mbind res_bind] in E. destruct (plain_run cmds A1) as [[rs' A2]|] eqn:E2; [|done]. injection E as <- <-.
  eapply IH; [|done|exact E2]. by eapply plain_lasting.
Qed.

(** Commands that only read. *)
Lemma read_only_same clk args A t r s' :
  lasting A → read_only args = true → spec_command clk args (A, t) = Ok (r, s') → s'.1 = A.
Proof.
  intros HA. destruct args as [|name rest]; [done|]. cbn [read_only spec_command].
  destruct (named name); try done; intros _; destruct rest as [|a [|b [|c rest]]];
    unfold spec_lrange; rewrite ?lasting_ks_get by done; by intros [= <- <-].
Qed.

Lemma read_only_run clk cmds A t rs s' :
  lasting A → forallb read_only cmds = true → spec_commands clk cmds (A, t) = Ok (rs, s') → s'.1 = A.
Proof.
  revert t rs. induction cmds as [|args cmds IH]; intros t rs HA Ht E; cbn [spec_commands forallb] in *.
  { by injection E as <- <-. }
  apply andb_prop in Ht as [Ha Ht]. destruct (spec_command clk args (A, t)) as [[r [A1 t1]]|] eqn:E1; [|done].
  cbn [mbind res_bind] in E. destruct (spec_commands clk cmds (A1, t1)) as [[rs' s1]|] eqn:E2; [|done].
  injection E as <- <-. apply read_only_same in E1; [|done..]. cbn in E1. subst A1. by eapply IH.
Qed.
