(* ===== verification/KeyspaceRun.v ===== *)
(** * The keyspace under any commands

    Whatever the arguments, and whether or not the reply fits, a command that ends
    leaves a well-formed keyspace.  [keyspace_run] is what may happen to the memory
    of the database: commands and loads of snapshot files, each charged with what
    it may add. *)

From S2P Require Import Prelude CLib RingBuffer Util LinkedList Database Rdb RespWriter.
From S2P Require Import ServerState Commands CommandSpec.

(** The keyspace is well formed with room for [k] more assignments. *)
Definition has_room (k : Z) (w : world) : Prop := ∃ A, db_rep (w_mem w) A ∧ adb_room k A.

Lemma has_room_less k k' w : k' ≤ k → has_room k w → has_room k' w.
Proof. intros Hk (A & Hr & HA). exists A. split; [done|]. by eapply room_weaken. Qed.

Lemma leads_less {B} k k' (f : cmdM B) I : k' ≤ k → leads I (has_room k) f → leads I (has_room k') f.
Proof. intros Hk Hf w b w' Hw E. eapply has_room_less; [exact Hk|]. by eapply Hf. Qed.

Section spends.
Context (k : Z) (Hk : 0 ≤ k).

Lemma same_mem_spends {B} (f : cmdM B) :
  (∀ w b w', f w = Ok (b, w') → w_mem w' = w_mem w) → preserves (has_room k) f.
Proof. intros Hf w b w' Hw E. unfold has_room. by rewrite (Hf w b w' E). Qed.

Lemma reply_spends {B} (f : rbM B) : preserves (has_room k) (reply f).
Proof.
  apply same_mem_spends. intros w b w'. unfold reply. destruct (f _) as [[? ?]|]; [|done]. by intros [= _ <-].
Qed.
Lemma epoll_spends mask : preserves (has_room k) (epoll_mod mask).
Proof.
  apply same_mem_spends. intros w b w'. unfold epoll_mod.
  destruct (epoll_answers w) as [|[] ?]; [| |done]; by intros [= _ <-].
Qed.
Lemma add_replica_spends : preserves (has_room k) add_replica.
Proof. apply same_mem_spends. intros w b w'. unfold add_replica. destruct (_ <? _); [|done]. by intros [= _ <-]. Qed.
Lemma save_spends : preserves (has_room k) redis_db_save.
Proof.
  apply same_mem_spends. intros w b w'. unfold redis_db_save.
  destruct (rdb_save_data_to_file _ _ _ _) as [[? ?]|]; [|done]. by intros [= _ <-].
Qed.
Lemma open_spends : preserves (has_room k) open_snapshot.
Proof.
  apply same_mem_spends. intros w b w'. unfold open_snapshot. destruct (construct_file_path _ _ _) as [path|]; [|done].
  destruct (files _ !! path); [|done]. by intros [= _ <-].
Qed.
Lemma client_spends (f : Client → Client) : preserves (has_room k) (modify (λ w, set_client (f (w_client w)) w)).
Proof. apply same_mem_spends. by intros w [] w' [= <-]. Qed.

#[local] Hint Resolve reply_spends epoll_spends add_replica_spends save_spends open_spends client_spends : keep.

Lemma reply_if_wanted_spends f : preserves (has_room k) (reply_if_wanted f).
Proof. unfold reply_if_wanted. preserve. Qed.
Lemma arg_spends args i : preserves (has_room k) (arg args i).
Proof. apply leads_lift. Qed.
Lemma data_str_spends v : preserves (has_room k) (data_str v).
Proof. unfold data_str. preserve. Qed.

(** The operations of the database. *)
Lemma on_db_spends {B} k1 (f : dbM B) :
  (∀ m A, db_rep m A → adb_room k1 A → ∃ b m' A', f m = Ok (b, m') ∧ db_rep m' A' ∧ adb_room k A') →
  leads (has_room k1) (has_room k) (on_db f).
Proof.
  intros Hf w b w' (A & Hr & HA). unfold on_db. destruct (Hf _ _ Hr HA) as (b' & m' & A' & -> & Hr' & HA').
  intros [= _ <-]. by exists A'.
Qed.

Lemma get_spends key : preserves (has_room k) (on_db (redis_db_get key)).
Proof.
  apply on_db_spends. intros m A Hr HA. destruct (get_found m A key Hr) as (r & m' & E & _ & Hr' & _);
    [by eapply room_weaken|]. exists r, m', (a_get (time_at m) key A).2. split_and!; [done|done|by apply a_get_room].
Qed.
Lemma set_spends key v e : leads (has_room (k + 1)) (has_room k) (on_db (redis_db_set key (TYPE_STRING v) e)).
Proof.
  apply on_db_spends. intros m A (M & P & Ho) HA. destruct (set_str_own m M P A key v e Ho) as (m' & E & _ & _ & Hr);
    [eapply room_weaken; [|exact HA]; lia|].
  exists tt, m'. eexists. split_and!; [done|exact Hr|by apply insert_room].
Qed.
Lemma exist_spends key : preserves (has_room k) (on_db (redis_db_exist key)).
Proof. apply on_db_spends. intros m A Hr HA. do 3 eexists. split_and!; [by apply exist_rep|done|done]. Qed.
Lemma delete_spends key : preserves (has_room k) (on_db (redis_db_delete key)).
Proof.
  apply on_db_spends. intros m A Hr HA. destruct (delete_rep m A key Hr) as (m' & E & _ & _ & Hr');
    [by eapply room_weaken|]. exists tt, m', (delete key A). split_and!; [done|done|].
  destruct HA as [Hs Hl]. constructor; [rewrite map_size_delete; destruct (A !! key); unfold id; lia|].
  intros j xs e [_ Hj]%lookup_delete_Some. by eapply Hl.
Qed.
Lemma lrange_spends key s e :
  INT_MIN ≤ s ≤ INT_MAX → INT_MIN ≤ e ≤ INT_MAX → preserves (has_room k) (on_db (redis_db_lrange key s e)).
Proof.
  intros Hs He. apply on_db_spends. intros m A Hr HA.
  destruct (lrange_db_rep m A key s e Hr) as (m' & E & _ & _ & Hr'); [by eapply room_weaken|done|done|].
  do 3 eexists. split_and!; [exact E|exact Hr'|]. unfold a_lrange. pose proof (a_get_room k (time_at m) key A HA).
  by destruct (a_get _ key A) as [[[[]]|]].
Qed.
Lemma push_spends at_head key item n :
  k < 2 ^ 28 → leads (has_room (k + 1)) (has_room k) (on_db (redis_db_push at_head key item n)).
Proof.
  intros Hlim. apply on_db_spends. intros m A Hr HA.
  destruct (push_rep at_head m A key item n Hr) as (m' & E & _ & _ & Hr'); [eapply room_weaken; [|exact HA]; lia|].
  do 3 eexists. split_and!; [exact E|exact Hr'|]. by apply a_push_room.
Qed.
Lemma dbsize_spends : preserves (has_room k) (on_db redis_db_dbsize).
Proof. apply on_db_spends. intros m A Hr HA. by exists (key_count (db m)), m, A. Qed.
Lemma options_spend args : preserves (has_room k) (on_db (parse_set_options args no_options)).
Proof.
  apply on_db_spends. intros m A Hr HA. destruct (parse_set_options_runs args no_options m) as (rc & o & n & E & _); [done|].
  exists (rc, o), (ticked n m), A. split_and!; [done|by apply ticked_rep|done].
Qed.
End spends.

#[export] Hint Resolve reply_spends epoll_spends add_replica_spends save_spends open_spends client_spends
  reply_if_wanted_spends arg_spends data_str_spends get_spends exist_spends delete_spends dbsize_spends options_spend : keep.

(** ** The commands *)

Section commands.
Context (k : Z) (Hk : 0 ≤ k).

(** A handler of which one step at most assigns, by its parts around that step. *)
Lemma assign_spends {B} (f : cmdM unit) (g : unit → cmdM B) :
  leads (has_room (k + 1)) (has_room k) f → (∀ u, preserves (has_room k) (g u)) →
  leads (has_room (k + 1)) (has_room k) (f ≫= g).
Proof. intros Hf Hg. by apply (leads_bind _ (has_room k)). Qed.

Lemma before_spends {B C} (f : cmdM B) (g : B → cmdM C) :
  preserves (has_room (k + 1)) f → (∀ b, leads (has_room (k + 1)) (has_room k) (g b)) →
  leads (has_room (k + 1)) (has_room k) (f ≫= g).
Proof. intros Hf Hg. by apply (leads_bind _ (has_room (k + 1))). Qed.

Lemma refuse_spends f : leads (has_room (k + 1)) (has_room k) (reply_if_wanted f).
Proof. apply (leads_less (k + 1)); [lia|]. apply reply_if_wanted_spends. Qed.
Lemma refuse_spends' (f : rbM unit) : leads (has_room (k + 1)) (has_room k) (reply f).
Proof. apply (leads_less (k + 1)); [lia|]. apply reply_spends. Qed.

#[local] Hint Resolve refuse_spends refuse_spends' set_spends : keep.

Lemma handle_set_spends args : leads (has_room (k + 1)) (has_room k) (handle_set args).
Proof.
  unfold handle_set. destruct (_ <? 3); [apply refuse_spends'|].
  apply before_spends; [apply options_spend; lia|intros [rc o]].
  destruct (rc =? ERR_SYNTAX); [apply refuse_spends|]. destruct (rc =? ERR_VALUE); [apply refuse_spends|].
  destruct (_ <? 0); [apply refuse_spends|].
  apply before_spends; [apply leads_lift|intros key]. apply before_spends; [apply leads_lift|intros value].
  apply before_spends; [destruct (_ || _); [apply get_spends; lia|apply leads_ret]|intros existing]. cbv zeta.
  destruct (_ || _); [apply refuse_spends|].
  apply before_spends; [assert (0 ≤ k + 1) by lia; preserve|intros old]. apply assign_spends; [by apply set_spends|intros _]. preserve.
Qed.

Lemma handle_incr_decr_spends args i : leads (has_room (k + 1)) (has_room k) (handle_incr_decr args i).
Proof.
  unfold handle_incr_decr. destruct (_ <? 2); [apply refuse_spends|].
  apply before_spends; [apply leads_lift|intros key]. apply before_spends; [apply get_spends; lia|intros v].
  apply before_spends; [assert (0 ≤ k + 1) by lia; preserve|intros [rc n]].
  destruct (rc =? ERR_VALUE); [apply refuse_spends|]. apply assign_spends; [by apply set_spends|intros _]. preserve.
Qed.

(** Every item may add one. *)
Lemma push_items_spends at_head key items n :
  k + zlen items < 2 ^ 28 →
  leads (has_room (k + zlen items)) (has_room k) (push_items (redis_db_push at_head) key items n).
Proof.
  revert n. induction items as [|item items IH]; intros n Hlim; cbn [push_items].
  { cbn. rewrite Z.add_0_r. apply leads_ret. }
  rewrite length_cons in *. replace (k + Z.of_nat (S (length items))) with (k + zlen items + 1) by lia.
  apply (leads_bind _ (has_room (k + zlen items))); [apply push_spends; lia|intros r].
  destruct (_ =? _); [apply (leads_less (k + zlen items)); [lia|apply leads_ret]|]. apply IH. lia.
Qed.

Lemma room_bounded {B} n (f : cmdM B) J : (n < 2 ^ 28 → leads (has_room n) J f) → leads (has_room n) J f.
Proof. intros Hf w b w' Hw. apply Hf; [|done]. destruct Hw as (A & _ & [Hs _]). lia. Qed.

Lemma handle_push_spends at_head args :
  leads (has_room (k + zlen args)) (has_room k) (handle_push at_head args).
Proof.
  apply room_bounded. intros Hlim. pose proof (length_drop args 2) as Hl.
  assert (∀ f, leads (has_room (k + zlen args)) (has_room k) (reply_if_wanted f)) as Hrefuse
    by (intros f; apply (leads_less (k + zlen args)); [lia|apply reply_if_wanted_spends]).
  assert (∀ key, leads (has_room (k + zlen args)) (has_room k) (push_items (redis_db_push at_head) key (drop 2 args) 0)) as Hitems.
  { intros key w b w' Hw E. eapply push_items_spends; [|eapply has_room_less; [|exact Hw]|exact E]; lia. }
  destruct at_head; unfold handle_push, handle_lpush, handle_rpush; (destruct (_ <? 3); [apply Hrefuse|]);
    (apply (leads_bind _ (has_room (k + zlen args))); [apply leads_lift|intros key]);
    (apply (leads_bind _ (has_room k)); [apply (Hitems key)|intros r; preserve]).
Qed.
End commands.

Lemma dispatch_spends k t name rest :
  0 ≤ k → leads (has_room (k + zlen (name :: rest))) (has_room k) (dispatch t (name :: rest)).
Proof.
  intros Hk. set (args := name :: rest).
  assert (∀ f : cmdM unit, leads (has_room (k + 1)) (has_room k) f → leads (has_room (k + zlen args)) (has_room k) f) as Hone.
  { intros f Hf w b w' Hw. apply Hf. eapply has_room_less; [|exact Hw]. unfold args. rewrite length_cons. lia. }
  assert (∀ f : cmdM unit, preserves (has_room (k + zlen args)) f → leads (has_room (k + zlen args)) (has_room k) f) as Hnone.
  { intros f Hf. apply (leads_less (k + zlen args)); [lia|done]. }
  assert (0 ≤ k + zlen args) as Hka by lia.
  assert (∀ keys n, preserves (has_room (k + zlen args)) (count_existing keys n)) as Hcount.
  { induction keys as [|x keys IH]; intros n; cbn [count_existing]; preserve. }
  destruct t; cbn [dispatch].
  3: by apply Hone, handle_set_spends.
  6, 7: by apply Hone, handle_incr_decr_spends.
  6: by apply (handle_push_spends k Hk true).
  6: by apply (handle_push_spends k Hk false).
  6: { apply Hnone. unfold handle_lrange. destruct (_ <? 4); [preserve|].
       do 3 (apply (leads_bind _ (has_room (k + zlen args))); [apply leads_lift|intros ?]).
       apply (leads_bind _ (has_room (k + zlen args))); [|intros [[e r] n]; preserve].
       apply lrange_spends; [lia|..]; unfold INT_MIN, INT_MAX;
         match goal with |- context [s32 ?z] => pose proof (swrap_range 32 z ltac:(lia)) end;
         change (2 ^ (32 - 1)) with 2147483648 in *; lia. }
  all: apply Hnone; unfold handle_ping, handle_echo, handle_get, handle_exist, handle_delete, handle_config, handle_save,
    handle_dbsize, handle_info, handle_replconf, handle_psync, client_enable_write_events; preserve.
  all: apply (client_spends _ (start_partial _)) || apply (client_spends _ (start_full _ _)).
Qed.

(** A command leaves a well-formed keyspace, one assignment per argument at most. *)
Lemma handle_command_spends k args : 0 ≤ k → leads (has_room (k + zlen args)) (has_room k) (handle_command args).
Proof.
  intros Hk. destruct args as [|name rest]; [done|]. unfold handle_command.
  apply (leads_bind _ (has_room (k + zlen (name :: rest)))); [apply (client_spends _ (with_propogate false))|intros _].
  apply (leads_bind _ (has_room (k + zlen (name :: rest)))); [apply leads_lift|intros command]. cbv zeta.
  apply (leads_bind _ (has_room k)); [by apply dispatch_spends|intros _].
  apply leads_when, (client_spends _ (with_propogate true)).
Qed.

(** ** Runs *)

(** What has happened to the memory of the database, with its charge. *)
Inductive keyspace_run (m : mem) : Z → mem → Prop :=
| run_none : keyspace_run m 0 m
| run_command n args w w' :
    keyspace_run m n (w_mem w) → handle_command args w = Ok (tt, w') → keyspace_run m (n + zlen args) (w_mem w')
| run_load n os dir name m1 rc m' :
    keyspace_run m n m1 → rdb_load_data_from_file os dir name m1 = Ok (rc, m') →
    keyspace_run m (n + file_size os dir name) m'.

(** A memory that commands and loads lead to. *)
Definition reached (m0 m : mem) : Prop := ∃ n, keyspace_run m0 n m.

Lemma command_reaches m0 args w w' :
  reached m0 (w_mem w) → handle_command args w = Ok (tt, w') → reached m0 (w_mem w').
Proof. intros [n Hn] E. exists (n + zlen args). by eapply run_command. Qed.
Lemma load_reaches m0 os dir name m rc m' :
  reached m0 m → rdb_load_data_from_file os dir name m = Ok (rc, m') → reached m0 m'.
Proof. intros [n Hn] E. exists (n + file_size os dir name). by eapply run_load. Qed.

Lemma keyspace_run_charge m n m' : keyspace_run m n m' → 0 ≤ n.
Proof.
  induction 1; [done|lia|]. pose proof (file_size_nonneg os dir name). lia.
Qed.

Lemma keyspace_run_rep m n m' A k :
  keyspace_run m n m' → 0 ≤ k → db_rep m A → adb_room (k + n) A → ∃ A', db_rep m' A' ∧ adb_room k A'.
Proof.
  intros Hrun Hk Hr. revert k Hk. induction Hrun as [|n args w w' Hrun IH E|n os dir name m1 rc m' Hrun IH E]; intros k Hk HA.
  - exists A. split; [done|]. by rewrite Z.add_0_r in HA.
  - destruct (IH (k + zlen args)) as (A1 & Hr1 & HA1); [lia|by rewrite <- Z.add_assoc, (Z.add_comm _ n)|].
    destruct (handle_command_spends k args Hk w tt w') as (A2 & ? & ?); [by exists A1|done|]. by exists A2.
  - pose proof (file_size_nonneg os dir name).
    destruct (IH (k + file_size os dir name)) as (A1 & Hr1 & HA1); [lia|by rewrite <- Z.add_assoc, (Z.add_comm _ n)|].
    eapply rdb_load_keeps; [exact Hk|exact Hr1|by rewrite Z.add_comm|exact E].
Qed.
