(* ===== verification/Halting.v ===== *)
(** * Every command ends

    No operation of the ring buffers, the lists, the table, the database, the
    snapshot files and no command runs out of the fuel the model gives its loops,
    whatever memory it starts from; and a probe of the table is not endless while
    the keyspace is well formed and has room. *)

From S2P Require Import Prelude CLib RingBuffer Util LinkedList Khash Database Rdb RespWriter.
From S2P Require Import ServerState Commands CommandSpec KeyspaceRun.

(** Any state. *)
Definition anywhere {S} (_ : S) : Prop := True.

Lemma leads_anywhere {S A} (I : S → Prop) (f : st S A) : leads I anywhere f.
Proof. done. Qed.
#[export] Hint Resolve leads_anywhere : keep.

(** ** Ring buffers and replies *)

Section buffers.
Context (X : Prop).

Lemma ASSERT_STATE_fine rb : fine X (ASSERT_STATE rb).
Proof. unfold ASSERT_STATE. by destruct (assert_state rb). Qed.
Lemma rb_readable_fine rb : fine X (rb_readable rb).
Proof. apply fine_bind; [apply ASSERT_STATE_fine|intros _ _]. by destruct (size rb =? 0). Qed.
Lemma rb_writable_fine rb : fine X (rb_writable rb).
Proof. apply fine_bind; [apply ASSERT_STATE_fine|intros _ _]. by destruct (size rb =? 0). Qed.
Lemma rb_load_fine rb off len : fine X (rb_load rb off len).
Proof. unfold rb_load. destruct (region rb); [|done]. by case_match. Qed.
Lemma rb_store_fine rb off d : fine X (rb_store rb off d).
Proof. unfold rb_store. destruct (region rb); [|done]. by case_match. Qed.
Lemma rb_read_fine rb n : fine X (rb_read rb n).
Proof.
  apply fine_bind; [apply ASSERT_STATE_fine|intros _ _]. destruct (_ <? _); [done|].
  by apply fine_bind; [apply ASSERT_STATE_fine|].
Qed.
Lemma rb_write_fine rb n : fine X (rb_write rb n).
Proof.
  apply fine_bind; [apply ASSERT_STATE_fine|intros _ _]. destruct (_ <? _); [done|].
  by apply fine_bind; [apply ASSERT_STATE_fine|].
Qed.

Section writers.
Context (I : ring_buffer → Prop).

Lemma advance_halts n : halts X I (advance n).
Proof. intros rb _. unfold advance. apply fine_bind; [apply rb_write_fine|]. by intros [] _. Qed.
Lemma copy_to_halts off d : halts X I (copy_to off d).
Proof. intros rb _. unfold copy_to. by apply fine_bind; [apply rb_store_fine|]. Qed.
Lemma writable_halts : halts X I (λ rb, r ← rb_writable rb; Ok (r, rb)).
Proof. intros rb _. by apply fine_bind; [apply rb_writable_fine|]. Qed.
Lemma put_or_drop_halts d : halts X I (put_or_drop d).
Proof.
  intros rb _. unfold put_or_drop, rb_put. apply fine_bind; [|by intros [] _].
  apply fine_bind; [apply rb_writable_fine|intros [off len] _]. destruct (_ <? _); [done|].
  apply fine_bind; [apply rb_store_fine|intros rb' _]. apply rb_write_fine.
Qed.
End writers.

#[local] Hint Resolve advance_halts copy_to_halts writable_halts put_or_drop_halts : halt.

Lemma write_begin_bulk_string_halts len : halts X anywhere (write_begin_bulk_string len).
Proof. unfold write_begin_bulk_string. halt. Qed.
Lemma write_begin_array_halts len : halts X anywhere (write_begin_array len).
Proof. unfold write_begin_array. halt. Qed.
Lemma write_chars_halts s : halts X anywhere (write_chars s).
Proof. unfold write_chars. halt. Qed.

#[local] Hint Resolve write_begin_bulk_string_halts write_begin_array_halts write_chars_halts : halt.

Lemma add_simple_string_halts s : halts X anywhere (add_simple_string_reply s).
Proof. unfold add_simple_string_reply, write_begin_simple_string, write_end_simple_string. halt. Qed.
Lemma add_bulk_string_halts s : halts X anywhere (add_bulk_string_reply s).
Proof. unfold add_bulk_string_reply, write_end_bulk_string. halt. Qed.
#[local] Hint Resolve add_simple_string_halts add_bulk_string_halts : halt.
Lemma add_array_item_halts xs i : halts X anywhere (add_array_item xs i).
Proof. unfold add_array_item. halt. Qed.
#[local] Hint Resolve add_array_item_halts : halt.
Lemma add_array_halts xs n : halts X anywhere (add_array_reply xs n).
Proof. unfold add_array_reply, write_end_array. halt. Qed.
Lemma add_null_halts : halts X anywhere add_null_reply.
Proof. unfold add_null_reply, write_end_bulk_string. halt. Qed.
Lemma add_error_halts s : halts X anywhere (add_error_reply s).
Proof. unfold add_error_reply, write_begin_error, write_end_error. halt. Qed.
Lemma add_integer_halts z : halts X anywhere (add_integer_reply z).
Proof. unfold add_integer_reply, write_begin_integer, write_end_integer. halt. Qed.
Lemma add_fullresync_halts r o : halts X anywhere (add_fullresync_reply r o).
Proof. apply add_simple_string_halts. Qed.
End buffers.

#[export] Hint Resolve rb_readable_fine rb_writable_fine rb_load_fine rb_store_fine rb_read_fine rb_write_fine
  write_begin_bulk_string_halts add_simple_string_halts add_bulk_string_halts add_array_halts add_null_halts
  add_error_halts add_integer_halts add_fullresync_halts : halt.

(** ** The table *)

Section table.
Context {V : Type}.

Lemma check_fine X b : fine X (check b).
Proof. by destruct b. Qed.
Lemma key_equal_fine X ks i key : fine X (key_equal ks i key).
Proof. unfold key_equal. by destruct (ks !! _) as [[]|]. Qed.
Lemma keep_probing_fine X fl ks key i : fine X (keep_probing fl ks key i).
Proof.
  unfold keep_probing. apply fine_bind; [apply check_fine|intros _ _]. destruct (ac_isempty fl i); [done|]. destruct (ac_isdel fl i); [done|].
  by apply fine_bind; [apply key_equal_fine|].
Qed.
Lemma get_loop_fine fuel (h : khash V) key mask last i step : fine True (get_loop fuel h key mask last i step).
Proof.
  revert i step. induction fuel as [|fuel IH]; intros i step; [done|]. cbn [get_loop].
  apply fine_bind; [apply keep_probing_fine|intros go _]. destruct go; [|done]. cbv zeta. by destruct (_ =? last).
Qed.
Lemma kh_get_fine (h : khash V) key : fine True (kh_get h key).
Proof. unfold kh_get. destruct (_ =? 0); [done|]. apply get_loop_fine. Qed.
Lemma free_slot_fine fuel fl mask i step : fine True (free_slot fuel fl mask i step).
Proof.
  revert i step. induction fuel as [|fuel IH]; intros i step; cbn [free_slot];
    (apply fine_bind; [apply check_fine|intros _ _]); by destruct (ac_isempty fl i).
Qed.
Lemma kick_out_fine fuel n_b new_n key (val : option V) r : fine True (kick_out fuel n_b new_n key val r).
Proof.
  revert key val r. induction fuel as [|fuel IH]; intros key val r; [done|]. cbn [kick_out].
  apply fine_bind; [by apply fine_of_option|intros key' _]. cbv zeta.
  apply fine_bind; [apply free_slot_fine|intros i _]. apply fine_bind; [apply check_fine|intros _ _].
  by destruct (_ && negb _).
Qed.
Lemma rehash_loop_fine n j n_b new_n (r : rehash_state V) : fine True (rehash_loop n j n_b new_n r).
Proof.
  revert j r. induction n as [|n IH]; intros j r; [done|]. cbn [rehash_loop].
  apply fine_bind; [apply check_fine|intros _ _].
  apply fine_bind; [|done]. destruct (negb _); [apply kick_out_fine|done].
Qed.
Lemma kh_resize_fine allocs (h : khash V) want : fine True (kh_resize allocs h want).
Proof.
  unfold kh_resize. destruct allocs as [[a b] c]. cbv zeta. destruct (_ <=? h_size h); [done|].
  destruct (negb a); [done|]. destruct (_ && negb b); [done|]. destruct (_ && negb c); [done|].
  by apply fine_bind; [apply rehash_loop_fine|].
Qed.
Lemma put_loop_fine fuel (h : khash V) key mask last i step site : fine True (put_loop fuel h key mask last i step site).
Proof.
  revert i step site. induction fuel as [|fuel IH]; intros i step site; [done|]. cbn [put_loop].
  apply fine_bind; [apply keep_probing_fine|intros go _]. destruct go; [|done]. cbv zeta. by destruct (_ =? last).
Qed.
Lemma put_slot_fine (h : khash V) key : fine True (put_slot h key).
Proof.
  unfold put_slot. cbv zeta. apply fine_bind; [apply check_fine|intros _ _]. destruct (ac_isempty _ _); [done|].
  apply fine_bind; [apply put_loop_fine|intros [[i site] wrapped] _]. by destruct (_ =? n_buckets h).
Qed.
Lemma kh_put_fine allocs (h : khash V) key : fine True (kh_put allocs h key).
Proof.
  unfold kh_put. apply fine_bind.
  - destruct (_ <=? _); [|done]. destruct (_ <? _); apply kh_resize_fine.
  - intros [h' rc] _. destruct (rc <? 0); [done|]. apply fine_bind; [apply put_slot_fine|intros x _].
    by destruct (put_at h' key x).
Qed.
Lemma kh_key_fine X (h : khash V) x : fine X (kh_key h x).
Proof. unfold kh_key. destruct (_ && _); [|done]. by apply fine_of_option. Qed.
Lemma kh_value_fine X (h : khash V) x : fine X (kh_value h x).
Proof. unfold kh_value. destruct (_ && _); [|done]. by apply fine_of_option. Qed.
Lemma kh_set_key_fine X (h : khash V) x k : fine X (kh_set_key h x k).
Proof. unfold kh_set_key. by destruct (_ && _). Qed.
Lemma kh_set_value_fine X (h : khash V) x v : fine X (kh_set_value h x v).
Proof. unfold kh_set_value. by destruct (_ && _). Qed.
End table.

#[export] Hint Resolve kh_get_fine kh_put_fine kh_key_fine kh_value_fine kh_set_key_fine kh_set_value_fine : halt.

(** ** Lists *)

Section lists.
Context (X : Prop).

Lemma malloc_halts : halts X anywhere malloc.
Proof. intros h _. unfold malloc. by destruct (alloc_answers h). Qed.
Lemma load_node_halts p : halts X anywhere (load_node p).
Proof. intros h _. unfold load_node. by destruct (p ≫= _). Qed.
Lemma store_node_halts p n : halts X anywhere (store_node p n).
Proof. intros h _. unfold store_node. destruct p; [|done]. by case_decide. Qed.
Lemma load_list_halts l : halts X anywhere (load_list l).
Proof. intros h _. unfold load_list. by destruct (lists h !! l). Qed.
Lemma store_list_halts l s : halts X anywhere (store_list l s).
Proof. intros h _. unfold store_list. by case_decide. Qed.
Lemma new_node_halts n : halts X anywhere (new_node n).
Proof. done. Qed.
Lemma read_length_halts s : halts X anywhere (read_length s).
Proof. unfold read_length. auto with halt. Qed.

#[local] Hint Resolve malloc_halts load_node_halts store_node_halts load_list_halts store_list_halts new_node_halts
  read_length_halts : halt.

Lemma create_list_halts : halts X anywhere create_list.
Proof. unfold create_list. apply (halts_bind _ _ anywhere); [auto with halt|done|]. by intros []. Qed.
Lemma lpush_halts l item n : halts X anywhere (lpush l item n).
Proof. unfold lpush. halt. Qed.
Lemma rpush_halts l item n : halts X anywhere (rpush l item n).
Proof. unfold rpush. halt. Qed.
Lemma skip_nodes_halts n cur : halts X anywhere (skip_nodes n cur).
Proof. revert cur. induction n as [|n IH]; intros [a|]; cbn [skip_nodes]; halt. Qed.
Lemma copy_nodes_halts n cur : halts X anywhere (copy_nodes n cur).
Proof. revert cur. induction n as [|n IH]; intros [a|]; cbn [copy_nodes]; halt. Qed.
#[local] Hint Resolve skip_nodes_halts copy_nodes_halts : halt.
Lemma lrange_halts l s e : halts X anywhere (lrange l s e).
Proof. unfold lrange. halt. Qed.

Lemma destroy_list_halts l : halts X anywhere (destroy_list l).
Proof.
  destruct l as [l|]; [|done]. cbn [destroy_list]. apply (halts_bind _ _ anywhere); [auto with halt|done|intros s].
  intros h _. unfold mbind, st_bind, gets. pose proof (destroy_nodes_fine X (S (base.size (nodes h))) (head s) h) as Hd.
  destruct (destroy_nodes _ _ h) as [[u h']|]; [done|]. apply Hd. lia.
Qed.
End lists.

#[export] Hint Resolve create_list_halts lpush_halts rpush_halts lrange_halts destroy_list_halts : halt.

(** ** The database *)

Lemma on_heap_halts {A} X (f : heapM A) : halts X anywhere f → halts X anywhere (on_heap f).
Proof. intros Hf m _. unfold on_heap. specialize (Hf (hp m) Logic.I). by destruct (f (hp m)) as [[a h]|]. Qed.
Lemma next_allocs_halts X : halts X anywhere next_allocs.
Proof. intros m _. unfold next_allocs. by destruct (kh_allocs m). Qed.
Lemma read_clock_halts X : halts X anywhere read_clock.
Proof. done. Qed.
Lemma table_halts X : halts X anywhere table.
Proof. done. Qed.

#[export] Hint Resolve on_heap_halts next_allocs_halts read_clock_halts table_halts : halt.

Lemma set_halts key v e : halts True anywhere (Keyspace.set key v e).
Proof. unfold Keyspace.set. halt. Qed.
Lemma get_halts key : halts True anywhere (Keyspace.get key).
Proof. unfold Keyspace.get. halt. Qed.
Lemma exist_halts key : halts True anywhere (Keyspace.exist key).
Proof. unfold Keyspace.exist. halt. Qed.
Lemma delete_halts key : halts True anywhere (Keyspace.delete key).
Proof. unfold Keyspace.delete. halt. Qed.

#[export] Hint Resolve set_halts get_halts exist_halts delete_halts : halt.

Lemma db_push_halts at_head key item n : halts True anywhere (redis_db_push at_head key item n).
Proof. destruct at_head; cbn [redis_db_push]; unfold redis_db_lpush, redis_db_rpush, redis_db_get; halt. Qed.
Lemma db_lrange_halts key s e : halts True anywhere (redis_db_lrange key s e).
Proof. unfold redis_db_lrange. halt. Qed.
Lemma destroy_bucket_halts X h k : halts X anywhere (destroy_bucket h k).
Proof. unfold destroy_bucket. halt. Qed.
Lemma db_destroy_halts X : halts X anywhere redis_db_destroy.
Proof. unfold redis_db_destroy, destroy_redis_hash. pose proof (destroy_bucket_halts X). halt. Qed.
Lemma set_options_halts X args : halts X anywhere (parse_set_options args no_options).
Proof. intros m _. destruct (parse_set_options_runs args no_options m) as (rc & o & n & E & _); [done|]. by rewrite E. Qed.

#[export] Hint Resolve db_push_halts db_lrange_halts set_options_halts : halt.

(** ** Snapshot files *)

(** Fewer than [n] bytes of the file are left. *)
Definition left_below (n : nat) (s : mem * bytes) : Prop := (length s.2 < n)%nat.

Lemma rd_left {A} n (f : bytes → A * bytes) : shrinks f → preserves (left_below n) (rd f).
Proof.
  intros Hf [m b] a s' Hs. unfold rd. specialize (Hf b). destruct (f b) as [x b']. intros [= _ <-].
  unfold left_below in *. cbn in *. lia.
Qed.
Lemma on_mem_left {A} n (f : dbM A) : preserves (left_below n) (on_mem f).
Proof. intros [m b] a s' Hs. cbn. destruct (f m) as [[x m']|]; [|done]. by intros [= _ <-]. Qed.
Lemma rd_halts {A} X I (f : bytes → A * bytes) : halts X I (rd f).
Proof. intros [m b] _. unfold rd. by destruct (f b). Qed.
Lemma on_mem_halts {A} X I (f : dbM A) : halts X anywhere f → halts X I (on_mem f).
Proof. intros Hf [m b] _. cbn. specialize (Hf m Logic.I). by destruct (f m) as [[x m']|]. Qed.

#[local] Hint Resolve rd_left on_mem_left fgetc_shrinks fread_shrinks read_rdb_string_shrinks : keep.
#[local] Hint Resolve rd_halts on_mem_halts : halt.

Lemma load_pair_left n : preserves (left_below n) load_pair.
Proof. unfold load_pair. preserve. Qed.
Lemma load_pair_halts n : halts True (left_below n) load_pair.
Proof. unfold load_pair, redis_db_set. halt. Qed.
Lemma load_pairs_left n k : preserves (left_below n) (load_pairs k).
Proof. pose proof load_pair_left. induction k as [|k IH]; cbn [load_pairs]; preserve. Qed.
Lemma load_pairs_halts n k : halts True (left_below n) (load_pairs k).
Proof.
  pose proof load_pair_left. pose proof load_pair_halts. pose proof load_pairs_left.
  induction k as [|k IH]; cbn [load_pairs]; halt.
Qed.

(** Every turn reads a string. *)
Lemma load_metadata_ends fuel m f :
  (length f < fuel)%nat →
  match load_metadata fuel (m, f) with Ok (_, s) => (length s.2 ≤ length f)%nat | Stop e => False end.
Proof.
  revert f. induction fuel as [|fuel IH]; intros f Hlt; [lia|]. cbn [load_metadata].
  erewrite st_bind_ok by reflexivity. cbv beta. cbn [snd].
  destruct f as [|c f]; (erewrite st_bind_ok by (by apply rd_ok)); cbv beta iota; [cbn; lia|].
  destruct (byte_val c =? 254); [cbn; lia|]. erewrite st_bind_ok by reflexivity. cbv beta iota.
  pose proof (read_rdb_string_cons c f) as Hkey.
  erewrite st_bind_ok by (by apply rd_ok, surjective_pairing). cbv beta.
  destruct (read_rdb_string (c :: f)) as [[key|] f1]; cbn [fst snd length] in *; [|cbn; lia].
  pose proof (read_rdb_string_shrinks f1) as Hv.
  erewrite st_bind_ok by (by apply rd_ok, surjective_pairing). cbv beta.
  destruct (read_rdb_string f1) as [[value|] f2]; cbn [fst snd] in *; [|cbn; lia].
  specialize (IH f2 ltac:(lia)). destruct (load_metadata fuel (m, f2)) as [[a s]|]; [lia|done].
Qed.

(** Every turn reads a byte. *)
Lemma load_sections_halts fuel : halts True (left_below fuel) (load_sections fuel).
Proof.
  induction fuel as [|fuel IH]; intros [m f] Hlt; unfold left_below in Hlt; cbn in Hlt; [lia|]. cbn [load_sections].
  destruct f as [|c f]; (erewrite st_bind_ok by (by apply rd_ok)); cbv beta iota; [done|]. cbn [length] in Hlt.
  assert (halts True (left_below fuel) (f ← gets snd; r ← load_metadata (S (length f));
    match r with Some rc => mret rc | None => load_sections fuel end)) as Hmeta.
  { intros [m1 f1] H1. erewrite st_bind_ok by reflexivity. cbv beta. cbn [snd].
    pose proof (load_metadata_ends (S (length f1)) m1 f1 ltac:(lia)) as Hm. unfold mbind, st_bind.
    destruct (load_metadata _ (m1, f1)) as [[[rc|] s]|]; [done| |done]. apply IH. unfold left_below in *. cbn in H1. lia. }
  pose proof (load_pairs_left fuel). pose proof (load_pairs_halts fuel).
  assert (left_below fuel (m, f)) as Hs by (unfold left_below; cbn; lia).
  match goal with |- fine _ (?g (m, f)) => assert (halts True (left_below fuel) g) as Hg; [|by apply Hg] end.
  destruct (byte_val c =? 250); [exact Hmeta|]. halt.
  match goal with |- context [match ?a with _ => _ end] => destruct a end; halt.
Qed.

Lemma rdb_load_halts os dir name : halts True anywhere (rdb_load_data_from_file os dir name).
Proof.
  intros m _. unfold rdb_load_data_from_file. destruct (construct_file_path _ _ _) as [path|]; [|done].
  destruct (files os !! path) as [f|]; [|done]. destruct (fread 9 f) as [buf f']. destruct (negb _); [done|].
  destruct (negb _); [done|]. pose proof (load_sections_halts (S (length f')) (m, f') ltac:(unfold left_below; cbn; lia)) as Hl.
  by destruct (load_sections _ _) as [[rc [m' b]]|].
Qed.

Lemma save_buckets_fine X h ks : fine X (save_buckets h ks).
Proof.
  induction ks as [|k ks IH]; [done|]. cbn [save_buckets]. apply fine_bind; [|intros out _; by apply fine_bind].
  destruct (negb _); [done|]. apply fine_bind; [apply kh_key_fine|intros key _]. by apply fine_bind; [apply kh_value_fine|].
Qed.
Lemma rdb_save_fine X d dir name os : fine X (rdb_save_data_to_file d dir name os).
Proof.
  unfold rdb_save_data_to_file. cbv zeta. destruct (negb (mkdir_ok os)); [done|]. destruct (construct_file_path _ _ _); [|done].
  destruct (negb _); [done|]. apply fine_bind; [|done]. unfold rdb_image. by apply fine_bind; [apply save_buckets_fine|].
Qed.

(** ** Commands *)

Section commands.
Context (X : Prop).

Section parts.
Context (I : world → Prop).

Lemma reply_halts (f : rbM unit) : halts X anywhere f → halts X I (reply f).
Proof. intros Hf w _. unfold reply. specialize (Hf (output_buffer (w_client w)) Logic.I). by destruct (f _) as [[]|]. Qed.
Lemma on_db_halts {A} (f : dbM A) : halts X anywhere f → halts X I (on_db f).
Proof. intros Hf w _. unfold on_db. specialize (Hf (w_mem w) Logic.I). by destruct (f _) as [[]|]. Qed.
Lemma epoll_halts mask : halts X I (epoll_mod mask).
Proof. intros w _. unfold epoll_mod. by destruct (epoll_answers w) as [|[]]. Qed.
Lemma add_replica_halts : halts X I add_replica.
Proof. intros w _. unfold add_replica. by destruct (_ <? _). Qed.
Lemma save_halts : halts X I redis_db_save.
Proof.
  intros w _. unfold redis_db_save. pose proof (rdb_save_fine X (db (w_mem w)) (dir (w_config w)) (dbfilename (w_config w)) (w_os w)).
  by destruct (rdb_save_data_to_file _ _ _ _) as [[]|].
Qed.
Lemma open_halts : halts X I open_snapshot.
Proof. intros w _. unfold open_snapshot. destruct (construct_file_path _ _ _); [|done]. by destruct (_ !! _). Qed.
End parts.

#[local] Hint Resolve reply_halts on_db_halts epoll_halts add_replica_halts save_halts open_halts : halt.

(** With room for [k] more assignments, or the excuse. *)
Definition roomy (k : Z) (w : world) : Prop := X ∨ has_room k w.

Lemma roomy_leads {B} k k' (f : cmdM B) : leads (has_room k) (has_room k') f → leads (roomy k) (roomy k') f.
Proof. intros Hf w b w' [x|Hw] E; [by left|right]. by eapply Hf. Qed.

Lemma on_db_roomy {A} k (f : dbM A) :
  halts True anywhere f → (∀ m A, db_rep m A → adb_room k A → ∃ r, f m = Ok r) → halts X (roomy k) (on_db f).
Proof.
  intros Hf Hok w [x|(A' & Hr & HA)]; unfold on_db.
  - specialize (Hf (w_mem w) Logic.I). apply (fine_weaken _ X) in Hf; [|done]. by destruct (f _) as [[]|].
  - destruct (Hok _ _ Hr HA) as [[r m] ->]. done.
Qed.

Lemma get_roomy k key : 0 ≤ k → halts X (roomy k) (on_db (redis_db_get key)).
Proof.
  intros Hk. apply on_db_roomy; [apply get_halts|]. intros m A Hr HA.
  destruct (get_found m A key Hr) as (r & m' & E & _); [by eapply room_weaken|]. by eexists.
Qed.
Lemma set_roomy k key v e : 0 ≤ k → halts X (roomy (k + 1)) (on_db (redis_db_set key (TYPE_STRING v) e)).
Proof.
  intros Hk. apply on_db_roomy; [apply set_halts|]. intros m A (M & P & Ho) HA.
  destruct (set_str_own m M P A key v e Ho) as (m' & E & _); [eapply room_weaken; [|exact HA]; lia|]. by eexists.
Qed.
Lemma exist_roomy k key : halts X (roomy k) (on_db (redis_db_exist key)).
Proof. apply on_db_roomy; [apply exist_halts|]. intros m A Hr HA. eexists. by apply exist_rep. Qed.
Lemma delete_roomy k key : 0 ≤ k → halts X (roomy k) (on_db (redis_db_delete key)).
Proof.
  intros Hk. apply on_db_roomy; [apply delete_halts|]. intros m A Hr HA.
  destruct (delete_rep m A key Hr) as (m' & E & _); [by eapply room_weaken|]. by eexists.
Qed.
Lemma lrange_roomy k key s e :
  0 ≤ k → INT_MIN ≤ s ≤ INT_MAX → INT_MIN ≤ e ≤ INT_MAX → halts X (roomy k) (on_db (redis_db_lrange key s e)).
Proof.
  intros Hk Hs He. apply on_db_roomy; [apply db_lrange_halts|]. intros m A Hr HA.
  destruct (lrange_db_rep m A key s e Hr) as (m' & E & _); [by eapply room_weaken|done|done|]. by eexists.
Qed.
Lemma push_roomy k at_head key item n : 0 ≤ k → halts X (roomy (k + 1)) (on_db (redis_db_push at_head key item n)).
Proof.
  intros Hk. apply on_db_roomy; [apply db_push_halts|]. intros m A Hr HA.
  destruct (push_rep at_head m A key item n Hr) as (m' & E & _); [eapply room_weaken; [|exact HA]; lia|]. by eexists.
Qed.
Lemma dbsize_halts I : halts X I (on_db redis_db_dbsize).
Proof. apply on_db_halts. done. Qed.

#[local] Hint Resolve get_roomy exist_roomy delete_roomy dbsize_halts : halt.
#[local] Hint Resolve roomy_leads : keep.

Lemma reply_if_wanted_halts I f : halts X anywhere f → halts X I (reply_if_wanted f).
Proof. intros Hf w _. unfold reply_if_wanted, mbind, st_bind, gets. destruct (should_reply _); [|done]. by apply (reply_halts anywhere). Qed.
Lemma arg_halts I args i : halts X I (arg args i).
Proof. apply halts_lift. by apply fine_of_option. Qed.
Lemma data_str_halts I v : halts X I (data_str v).
Proof. unfold data_str. by destruct (rv_data v). Qed.

#[local] Hint Resolve reply_if_wanted_halts arg_halts data_str_halts : halt.

Lemma handle_set_halts args : halts X (roomy 1) (handle_set args).
Proof.
  assert (0 ≤ 1) as H1 by lia. unfold handle_set. halt.
  all: apply (halts_bind _ _ anywhere); [by apply (set_roomy 0)|done|intros _]; halt.
Qed.

Lemma handle_incr_decr_halts args i : halts X (roomy 1) (handle_incr_decr args i).
Proof.
  assert (0 ≤ 1) as H1 by lia. unfold handle_incr_decr. halt.
  all: apply (halts_bind _ _ anywhere); [by apply (set_roomy 0)|done|intros _]; halt.
Qed.

Lemma push_items_halts at_head key items n :
  zlen items < 2 ^ 28 → halts X (roomy (zlen items)) (push_items (redis_db_push at_head) key items n).
Proof.
  revert n. induction items as [|item items IH]; intros n Hlim; cbn [push_items]; [done|]. rewrite length_cons in *.
  replace (Z.of_nat (S (length items))) with (zlen items + 1) by lia.
  apply (halts_bind _ _ (roomy (zlen items))); [apply push_roomy; lia|apply roomy_leads, push_spends; lia|intros r].
  destruct (_ =? _); [done|]. apply IH. lia.
Qed.

(** With the excuse nothing bounds the number of items. *)
Lemma push_excused at_head args : X → halts X anywhere (handle_push at_head args).
Proof.
  intros x. assert (∀ key items n, halts X anywhere (push_items (redis_db_push at_head) key items n)) as Hitems.
  { intros key. induction items as [|item items IH]; intros n; cbn [push_items]; [done|].
    apply (halts_bind _ _ anywhere); [|done|intros r; by destruct (_ =? _)].
    apply on_db_halts. intros m _. apply (fine_weaken True); [done|]. by apply db_push_halts. }
  destruct at_head; unfold handle_push, handle_lpush, handle_rpush; halt.
Qed.

Lemma handle_push_halts at_head args : halts X (roomy (zlen args)) (handle_push at_head args).
Proof.
  intros w Hw. destruct Hw as [x|Hw]; [by apply push_excused|].
  assert (zlen args < 2 ^ 28) as Hlim by (destruct Hw as (A & _ & [Hs _]); lia).
  pose proof (length_drop args 2) as Hl.
  assert (∀ key, halts X (has_room (zlen args)) (push_items (redis_db_push at_head) key (drop 2 args) 0)) as Hitems.
  { intros key w' Hw'. apply push_items_halts; [lia|right]. eapply has_room_less; [|exact Hw']. lia. }
  revert w Hw. change (halts X (has_room (zlen args)) (handle_push at_head args)).
  destruct at_head; unfold handle_push, handle_lpush, handle_rpush; (destruct (_ <? 3); [halt|]);
    (apply (halts_bind _ _ (has_room (zlen args))); [auto with halt|apply leads_lift|intros key]);
    (apply (halts_bind _ _ anywhere); [apply (Hitems key)|done|intros r; halt]).
Qed.

Lemma cleanup_fine range n : fine X (cleanup_lrange_result range n).
Proof. unfold cleanup_lrange_result. destruct range; [done|]. by destruct (_ <? _). Qed.

Lemma dispatch_halts t name rest : halts X (roomy (zlen (name :: rest))) (dispatch t (name :: rest)).
Proof.
  set (args := name :: rest). assert (0 ≤ zlen args) as Hk by lia.
  assert (∀ f : cmdM unit, halts X (roomy 1) f → halts X (roomy (zlen args)) f) as Hone.
  { intros f Hf w Hw. apply Hf. destruct Hw as [x|Hw]; [by left|right]. eapply has_room_less; [|exact Hw].
    unfold args. rewrite length_cons. lia. }
  assert (∀ keys n, preserves (has_room (zlen args)) (count_existing keys n)) as Hcount.
  { induction keys as [|x keys IH]; intros n; cbn [count_existing]; preserve. }
  assert (∀ keys n, halts X (roomy (zlen args)) (count_existing keys n)) as Hcount'.
  { induction keys as [|x keys IH]; intros n; cbn [count_existing]; halt. }
  pose proof cleanup_fine.
  assert (∀ (r : option (option (list bytes))) n,
    fine X (match r with Some r => Ok r | None => if 0 <? n then Stop Indeterminate else Ok None end)) as Hrange
    by (intros [r|] n; [done|by destruct (0 <? n)]).
  destruct t; cbn [dispatch].
  3: by apply Hone, handle_set_halts.
  6, 7: by apply Hone, handle_incr_decr_halts.
  6: by apply (handle_push_halts true).
  6: by apply (handle_push_halts false).
  6: { unfold handle_lrange. destruct (_ <? 4); [halt|].
       do 3 (apply (halts_bind _ _ (roomy (zlen args))); [auto with halt|apply leads_lift|intros ?]). cbv zeta.
       apply (halts_bind _ _ anywhere); [|done|intros [[e r] n]; halt].
       apply lrange_roomy; [lia|..]; unfold INT_MIN, INT_MAX;
         match goal with |- context [s32 ?z] => pose proof (swrap_range 32 z ltac:(lia)) end;
         change (2 ^ (32 - 1)) with 2147483648 in *; lia. }
  all: unfold handle_ping, handle_echo, handle_get, handle_exist, handle_delete, handle_config, handle_save,
    handle_dbsize, handle_info, handle_replconf, handle_psync, client_enable_write_events; halt.
Qed.

Lemma handle_command_roomy args : halts X (roomy (zlen args)) (handle_command args).
Proof.
  destruct args as [|name rest]; [done|]. unfold handle_command.
  apply (halts_bind _ _ (roomy (zlen (name :: rest)))); [done|apply roomy_leads, (client_spends _ (with_propogate false))|intros _].
  apply (halts_bind _ _ (roomy (zlen (name :: rest)))); [auto with halt|apply leads_lift|intros command]. cbv zeta.
  apply (halts_bind _ _ anywhere); [apply dispatch_halts|done|intros _]. by apply halts_when.
Qed.
End commands.

(** No command runs out of fuel, whatever the memory. *)
Lemma handle_command_halts args : halts True anywhere (handle_command args).
Proof. intros w _. apply handle_command_roomy. by left. Qed.

(** With room for its arguments, a command does not probe for ever either. *)
Lemma handle_command_ends args : halts False (has_room (zlen args)) (handle_command args).
Proof. intros w Hw. apply handle_command_roomy. by right. Qed.

(** ** From a well-formed memory *)

Lemma rdb_load_fine os dir name m A :
  db_rep m A → adb_room (file_size os dir name) A → fine False (rdb_load_data_from_file os dir name m).
Proof.
  intros Hr HA. unfold rdb_load_data_from_file, file_size in *.
  destruct (construct_file_path _ dir name) as [path|]; [|done]. cbn [mbind option_bind] in HA.
  destruct (files os !! path) as [f|]; [|done]. cbn [from_option] in HA.
  pose proof (fread_shrinks 9 f) as Hl. destruct (fread 9 f) as [buf f']. simpl in Hl.
  destruct (negb (zlen buf =? 9)); [done|]. destruct (negb (bool_decide _)); [done|].
  destruct (load_sections_safe 0 ltac:(lia) (S (length f')) (m, f')) as (rc & [m' b] & Hrun & _); [|simpl; lia|].
  - exists A. split; [done|]. eapply room_weaken; [|exact HA]. simpl. lia.
  - by rewrite Hrun.
Qed.

(** A command or a load that probes for ever, on a memory that commands and loads
    have made of [m0]. *)
Inductive endless (m0 : mem) : Prop :=
| command_endless args w : reached m0 (w_mem w) → handle_command args w = Stop EndlessProbe → endless m0
| load_endless os dir name m :
    reached m0 m → rdb_load_data_from_file os dir name m = Stop EndlessProbe → endless m0.

(** Nothing probes for ever on a memory that some history of commands and loads
    has made of [m0] with less than [2^28] arguments and bytes, its own included. *)
Record probes_end (m0 : mem) : Prop := {
  command_probes_end n args w :
    keyspace_run m0 n (w_mem w) → n + zlen args < 2 ^ 28 → handle_command args w ≠ Stop EndlessProbe;
  load_probes_end n os dir name m :
    keyspace_run m0 n m → n + file_size os dir name < 2 ^ 28 →
    rdb_load_data_from_file os dir name m ≠ Stop EndlessProbe
}.

Lemma command_fine m0 args w : reached m0 (w_mem w) → fine (endless m0) (handle_command args w).
Proof.
  intros Hm. pose proof (handle_command_halts args w Logic.I) as Hf. destruct (handle_command args w) as [|[]] eqn:E; try done.
  by eapply command_endless.
Qed.

Lemma load_fine m0 os dir name m : reached m0 m → fine (endless m0) (rdb_load_data_from_file os dir name m).
Proof.
  intros Hm. pose proof (rdb_load_halts os dir name m Logic.I) as Hf.
  destruct (rdb_load_data_from_file os dir name m) as [|[]] eqn:E; try done. by eapply load_endless.
Qed.

Lemma empty_room k : 0 ≤ k < 2 ^ 28 → adb_room k ∅.
Proof. intros Hk. constructor; [rewrite map_size_empty; lia|]. intros key xs e. by rewrite lookup_empty. Qed.

Lemma empty_probes_end m0 : db_rep m0 ∅ → probes_end m0.
Proof.
  intros Hempty. constructor.
  - intros n args w Hrun Hlt E. pose proof (keyspace_run_charge _ _ _ Hrun).
    destruct (keyspace_run_rep m0 n (w_mem w) ∅ (zlen args) Hrun) as (A & Hr & HA); [lia|done|apply empty_room; lia|].
    pose proof (handle_command_ends args w ltac:(by exists A)) as Hf. by rewrite E in Hf.
  - intros n os dir name m Hrun Hlt E. pose proof (keyspace_run_charge _ _ _ Hrun). pose proof (file_size_nonneg os dir name).
    destruct (keyspace_run_rep m0 n m ∅ (file_size os dir name) Hrun) as (A & Hr & HA); [lia|done|apply empty_room; lia|].
    pose proof (rdb_load_fine os dir name m A Hr HA) as Hf. by rewrite E in Hf.
Qed.
