(* ===== verification/RespParser.v ===== *)
(** * The parser of [src/src/resp.c]

    An incremental push-down parser that reports what it reads to a handler.
    The input is the memory [M] from the read pointer of the input buffer to
    the end of its mapping; [begin] and [end_] are offsets into it.  Bytes from
    [end_] on are not input, but the parser may look at them. *)

From S2P Require Import Prelude CLib RespWriter.

(** ** The handler interface of [src/src/handler.h] *)

(** The callbacks, over a state [S]; and the test the parser makes on the
    client behind the handler: a master that is about to send a snapshot. *)
Class Handler (S : Type) := {
  begin_array : Z → st S unit;
  end_array : st S unit;
  begin_bulk_string : Z → st S unit;
  end_bulk_string : st S unit;
  chars : bytes → st S unit;
  begin_simple_string : st S unit;
  end_simple_string : st S unit;
  begin_error : st S unit;
  end_error : st S unit;
  begin_integer : st S unit;
  end_integer : st S unit;
  expects_snapshot : S → bool
}.

(** ** Data *)

Inductive ParserState :=
| STATE_INITIAL_TERMINAL | STATE_INITIAL | STATE_SIMPLE | STATE_ARRAY_LENGTH
| STATE_BULK_STRING_LENGTH | STATE_BULK_STRING | STATE_ARRAY | STATE_ERROR | STATE_INTEGER
| STATE_INLINE_COMMAND.

#[export] Instance ParserState_eq_dec : EqDecision ParserState.
Proof. solve_decision. Defined.

(** The function pointers, by name. *)
Inductive ParseFunc :=
| Parse_initial | Parse_simple | Parse_length | Parse_bulk_string | Parse_array
| Parse_inline_command.
Inductive EndCallback :=
| No_callback | End_simple_string | End_error | End_integer | End_bulk_string | End_array.

Record StateInfo := MkState {
  s_type : ParserState; s_length : Z; s_parse : ParseFunc; s_end : EndCallback
}.

(** The stack up to [stack_top], top first: it is never empty. *)
Record Parser := MkParser { s_top : StateInfo; s_below : list StateInfo }.

Definition MAX_STACK_DEPTH : Z := 32.

Definition stack_top (p : Parser) : Z := zlen (s_below p).

Definition parser_init : Parser :=
  MkParser (MkState STATE_INITIAL_TERMINAL 0 Parse_initial No_callback) [].

(** A push on a full stack is dropped. *)
Definition push_state (s : StateInfo) (p : Parser) : Parser :=
  if stack_top p <? MAX_STACK_DEPTH - 1 then MkParser s (s_top p :: s_below p) else p.

Definition pop_state (p : Parser) : Parser :=
  match s_below p with s :: ss => MkParser s ss | [] => p end.

(** [keep_going] and [new_begin]. *)
Record ParseResult := MkResult { keep_going : bool; new_begin : Z }.

Section parser.
Context {S : Type} `{HS : Handler S} (M : bytes).

Abbreviation pM := (st (Parser * S)).

Definition on_handler {A} (f : st S A) : pM A := λ '(p, s),
  match f s with Ok (a, s') => Ok (a, (p, s')) | Stop e => Stop e end.
Definition on_parser (f : Parser → Parser) : pM unit := modify (λ '(p, s), (f p, s)).
Definition top : pM StateInfo := gets (λ '(p, _), s_top p).

Definition byte_at (i : Z) : pM byte := lift (of_option BadAccess (M !! Z.to_nat i)).

(** [chars(ch, from, to)]: a negative length is copied as a huge one. *)
Definition chars_between (from to : Z) : pM unit :=
  if to <? from then stop BadAccess else on_handler (chars (slice from (to - from) M)).

Definition callback (e : EndCallback) : pM unit :=
  match e with
  | No_callback => stop BadAccess   (* a NULL function pointer *)
  | End_simple_string => on_handler end_simple_string
  | End_error => on_handler end_error
  | End_integer => on_handler end_integer
  | End_bulk_string => on_handler end_bulk_string
  | End_array => on_handler end_array
  end.

Definition parse_initial (begin end_ : Z) : pM ParseResult :=
  if begin =? end_ then mret (MkResult false begin)
  else
    current ← top;
    _ ← when (bool_decide (s_type current = STATE_INITIAL)) (on_parser pop_state);
    c ← byte_at begin;
    if bool_decide (c = byte_of 43) then          (* + *)
      _ ← on_handler begin_simple_string;
      _ ← on_parser (push_state (MkState STATE_SIMPLE 0 Parse_simple End_simple_string));
      mret (MkResult true (begin + 1))
    else if bool_decide (c = byte_of 45) then     (* - *)
      _ ← on_handler begin_error;
      _ ← on_parser (push_state (MkState STATE_SIMPLE 0 Parse_simple End_error));
      mret (MkResult true (begin + 1))
    else if bool_decide (c = byte_of 58) then     (* : *)
      _ ← on_parser (push_state (MkState STATE_SIMPLE 0 Parse_simple End_integer));
      _ ← on_handler begin_integer;
      mret (MkResult true (begin + 1))
    else if bool_decide (c = byte_of 36) then     (* $ *)
      _ ← on_parser (push_state (MkState STATE_BULK_STRING_LENGTH 0 Parse_length End_bulk_string));
      mret (MkResult true (begin + 1))
    else if bool_decide (c = byte_of 42) then     (* * *)
      _ ← on_parser (push_state (MkState STATE_ARRAY_LENGTH 0 Parse_length End_array));
      mret (MkResult true (begin + 1))
    else
      _ ← on_parser (push_state (MkState STATE_INLINE_COMMAND 0 Parse_inline_command No_callback));
      mret (MkResult true begin).

(** The first carriage return from [begin] on, or [end_]. *)
Fixpoint find_cr (l : bytes) (pos : Z) : Z :=
  match l with
  | [] => pos
  | c :: l' => if bool_decide (c = CR) then pos else find_cr l' (pos + 1)
  end.

Definition parse_simple (begin end_ : Z) : pM ParseResult :=
  if begin =? end_ then mret (MkResult false begin)
  else
    let pos := find_cr (slice begin (end_ - begin) M) begin in
    _ ← chars_between begin pos;
    if end_ - pos <? 2 then mret (MkResult false pos)
    else
      c ← byte_at (pos + 1);
      if bool_decide (c = LF) then
        current ← top;
        _ ← callback (s_end current);
        _ ← on_parser pop_state;
        mret (MkResult true (pos + 2))
      else mret (MkResult false pos).

(** [strtol] reads on past [end_] as long as it sees digits. *)
Definition parse_length (begin end_ : Z) : pM ParseResult :=
  if begin =? end_ then mret (MkResult false begin)
  else
    let input := drop (Z.to_nat begin) M in
    let r := strtol input in
    if zlen input <=? st_scanned r then stop BadAccess
    else
      let length := st_value r in
      let end_ptr := begin + st_end r in
      if (st_end r =? 0) || (end_ - 1 <=? end_ptr) || st_erange r then mret (MkResult false begin)
      else
        c0 ← byte_at end_ptr;
        c1 ← byte_at (end_ptr + 1);
        if negb (bool_decide (c0 = CR)) || negb (bool_decide (c1 = LF)) then mret (MkResult false begin)
        else if (INT_MAX <? length) || (length <? INT_MIN) then mret (MkResult false begin)
        else
          let int_length := s32 length in
          current ← top;
          if bool_decide (s_type current = STATE_ARRAY_LENGTH) then
            _ ← on_parser pop_state;
            _ ← on_handler (begin_array int_length);
            _ ← on_parser (push_state (MkState STATE_ARRAY int_length Parse_array End_array));
            mret (MkResult true (end_ptr + 2))
          else if bool_decide (s_type current = STATE_BULK_STRING_LENGTH) then
            _ ← on_parser pop_state;
            _ ← on_handler (begin_bulk_string int_length);
            _ ← on_parser (push_state (MkState STATE_BULK_STRING int_length Parse_bulk_string End_bulk_string));
            mret (MkResult true (end_ptr + 2))
          else mret (MkResult false begin).

(** [min] returns an [int]. *)
Definition min (a b : Z) : Z := s32 (if a <=? b then a else b).

Definition parse_bulk_string (begin end_ : Z) : pM ParseResult :=
  current ← top;
  let length := s_length current in
  if length =? -1 then
    _ ← on_handler end_bulk_string;
    _ ← on_parser pop_state;
    mret (MkResult true begin)
  else if begin =? end_ then mret (MkResult false begin)
  else
    let input_length := end_ - begin in
    let output_length := min length input_length in
    _ ← chars_between begin (begin + output_length);
    if (length - output_length =? 0) && (output_length + 2 <=? input_length) then
      _ ← on_handler end_bulk_string;
      _ ← on_parser pop_state;
      mret (MkResult true (begin + output_length + 2))
    else mret (MkResult false (begin + output_length)).

Definition set_top_length (n : Z) (p : Parser) : Parser :=
  MkParser (MkState (s_type (s_top p)) n (s_parse (s_top p)) (s_end (s_top p))) (s_below p).

Definition parse_array (begin end_ : Z) : pM ParseResult :=
  current ← top;
  let length := s_length current in
  if (length =? 0) || (length =? -1) then
    _ ← on_handler end_array;
    _ ← on_parser pop_state;
    mret (MkResult true begin)
  else
    _ ← on_parser (set_top_length (s64 (length - 1)));
    _ ← on_parser (push_state (MkState STATE_INITIAL 0 Parse_initial No_callback));
    mret (MkResult true begin).

(** The tokens of a C string; [None] when there is no terminator. *)
Fixpoint count_tokens (str : bytes) (token_count : Z) (in_token : bool) (quote_char : option byte) :
    option Z :=
  match str with
  | [] => None
  | c :: str' =>
      if bool_decide (c = NUL) then Some token_count
      else
        match quote_char with
        | Some q =>
            count_tokens str' token_count in_token (if bool_decide (c = q) then None else Some q)
        | None =>
            if bool_decide (c = byte_of 39) || bool_decide (c = byte_of 34) then
              count_tokens str' (if in_token then token_count else token_count + 1) true (Some c)
            else if bool_decide (c = byte_of 32) then count_tokens str' token_count false None
            else count_tokens str' (if in_token then token_count else token_count + 1) true None
        end
  end.

(** [memchr] in [from, to): the position of the first [c], or [to]. *)
Fixpoint find_char (c : byte) (l : bytes) (pos : Z) : Z :=
  match l with
  | [] => pos
  | c' :: l' => if bool_decide (c' = c) then pos else find_char c l' (pos + 1)
  end.
Definition memchr_or (c : byte) (from to : Z) : Z := find_char c (slice from (to - from) M) from.

(** The spaces from [from] on, up to [to]. *)
Fixpoint skip_spaces (l : bytes) (pos : Z) : Z :=
  match l with
  | c :: l' => if bool_decide (c = byte_of 32) then skip_spaces l' (pos + 1) else pos
  | [] => pos
  end.

(** The token loop; every turn moves [token_start] on. *)
Fixpoint inline_tokens (fuel : nat) (token_start pos : Z) : pM unit :=
  match fuel with
  | O => stop OutOfFuel
  | Datatypes.S fuel' =>
      if token_start <? pos then
        let token_start := skip_spaces (slice token_start (pos - token_start) M) token_start in
        if pos <=? token_start then mret tt
        else
          c ← byte_at token_start;
          let quoted := bool_decide (c = byte_of 34) || bool_decide (c = byte_of 39) in
          let token_start := if quoted then token_start + 1 else token_start in
          let token_end := memchr_or (if quoted then c else byte_of 32) token_start pos in
          _ ← on_handler (begin_bulk_string (token_end - token_start));
          _ ← chars_between token_start token_end;
          _ ← on_handler end_bulk_string;
          let token_start := if token_end <? pos then token_end + 1 else token_end in
          inline_tokens fuel' (if quoted then token_start + 1 else token_start) pos
      else mret tt
  end.

Definition parse_inline_command (begin end_ : Z) : pM ParseResult :=
  if begin =? end_ then mret (MkResult false begin)
  else
    let pos := find_cr (slice begin (end_ - begin) M) begin in
    if negb (pos =? end_) then
      token_count ← lift (of_option BadAccess (count_tokens (drop (Z.to_nat begin) M) 0 false None));
      _ ← on_handler (begin_array token_count);
      _ ← inline_tokens (Datatypes.S (Z.to_nat (pos - begin))) begin pos;
      _ ← on_handler end_array;
      _ ← on_parser pop_state;
      mret (MkResult true (pos + 2))
    else mret (MkResult false begin).

Definition run_parse (f : ParseFunc) : Z → Z → pM ParseResult :=
  match f with
  | Parse_initial => parse_initial
  | Parse_simple => parse_simple
  | Parse_length => parse_length
  | Parse_bulk_string => parse_bulk_string
  | Parse_array => parse_array
  | Parse_inline_command => parse_inline_command
  end.

Fixpoint parser_parse (fuel : nat) (begin end_ : Z) : pM Z :=
  match fuel with
  | O => stop OutOfFuel
  | Datatypes.S fuel' =>
      waiting ← gets (λ '(_, s), expects_snapshot s);
      if (waiting : bool) then mret begin
      else
        current ← top;
        result ← run_parse (s_parse current) begin end_;
        if keep_going result then parser_parse fuel' (new_begin result) end_
        else mret (new_begin result)
  end.
End parser.

(** More fuel does not change a run that ended. *)
Lemma parser_parse_more {S} `{Handler S} M fuel k begin end_ ps r :
  parser_parse M fuel begin end_ ps = Ok r → parser_parse M (fuel + k) begin end_ ps = Ok r.
Proof.
  revert begin ps. induction fuel as [|fuel IH]; intros begin ps Hr; [done|].
  cbn [parser_parse Nat.add] in *. unfold mbind, st_bind, gets, top in *.
  destruct ps as [p s]. destruct (expects_snapshot s); [done|].
  cbn [gets] in *. destruct (run_parse M (s_parse (s_top p)) begin end_ (p, s)) as [[res ps]|]; [|done].
  destruct (keep_going res); [by apply IH|done].
Qed.

(** ** What the parser relies on: a handler that never waits for a snapshot
       while [R] holds, and keeps [R] *)

Class HandlerInv (S : Type) `{Handler S} (R : S → Prop) : Prop := {
  inv_no_snapshot s : R s → expects_snapshot s = false;
  inv_begin_array n s a s' : R s → begin_array n s = Ok (a, s') → R s';
  inv_end_array s a s' : R s → end_array s = Ok (a, s') → R s';
  inv_begin_bulk n s a s' : R s → begin_bulk_string n s = Ok (a, s') → R s';
  inv_end_bulk s a s' : R s → end_bulk_string s = Ok (a, s') → R s';
  inv_chars d s a s' : R s → chars d s = Ok (a, s') → R s'
}.

Section commands.
Context {S : Type} `{HS : Handler S} (R : S → Prop) {HR : HandlerInv S R}.

(** The calls a command makes: its array with its bulk strings. *)
Definition bulk_calls (a : bytes) : st S unit :=
  _ ← begin_bulk_string (zlen a); _ ← chars a; end_bulk_string.
Definition array_calls (args : list bytes) : st S unit :=
  _ ← begin_array (zlen args); _ ← for_each bulk_calls args; end_array.

(** The rest of a run after some handler calls. *)
Definition after {A} (r : res (unit * S)) (k : S → res A) : res A :=
  match r with Ok (_, s) => k s | Stop e => Stop e end.

Lemma after_bind {A} (f : st S unit) (g : st S unit) s (k : S → res A) :
  after ((f ≫= λ _, g) s) k = after (f s) (λ s', after (g s') k).
Proof. unfold after, mbind, st_bind. by destruct (f s) as [[[] s']|]. Qed.

Lemma after_ext {A} (f : st S unit) s (k k' : S → res A) :
  (∀ s', f s = Ok (tt, s') → k s' = k' s') → after (f s) k = after (f s) k'.
Proof. intros Hk. unfold after. destruct (f s) as [[[] s']|]; [by apply Hk|done]. Qed.

Lemma after_res_bind {A B} r (k : S → res A) (f : A → res B) :
  after r k ≫= f = after r (λ s, k s ≫= f).
Proof. by destruct r as [[[] s]|]. Qed.

(** What [parser_parse] does after one parse function. *)
Definition continue_at M fuel end_ (rps : ParseResult * (Parser * S)) : res (Z * (Parser * S)) :=
  if keep_going rps.1 then parser_parse M fuel (new_begin rps.1) end_ rps.2
  else Ok (new_begin rps.1, rps.2).

Lemma parser_step M fuel begin end_ p s :
  R s →
  parser_parse M (Datatypes.S fuel) begin end_ (p, s) =
    run_parse M (s_parse (s_top p)) begin end_ (p, s) ≫= continue_at M fuel end_.
Proof.
  intros HRs. cbn [parser_parse]. erewrite st_bind_ok by reflexivity. cbv beta.
  rewrite (inv_no_snapshot s HRs). erewrite st_bind_ok by reflexivity. cbv beta.
  unfold mbind, st_bind, res_bind, continue_at.
  destruct (run_parse _ _ _ _ _) as [[r ps]|]; [|done]. cbn. by destruct (keep_going r).
Qed.

Lemma continue_ok M fuel end_ pos ps :
  Ok (MkResult true pos, ps) ≫= continue_at M fuel end_ = parser_parse M fuel pos end_ ps.
Proof. done. Qed.

(** The state the parser is in between the elements of an array. *)
Definition in_array (n : Z) (below : list StateInfo) : Parser :=
  MkParser (MkState STATE_ARRAY n Parse_array End_array) below.

(** Room on the stack, from bounds on the states below. *)
Ltac stack_room :=
  unfold stack_top, MAX_STACK_DEPTH, in_array, parser_init in *; cbn [s_below s_top length] in *; lia.

Lemma push_room st p : stack_top p < MAX_STACK_DEPTH - 1 → push_state st p = MkParser st (s_top p :: s_below p).
Proof. intros H. unfold push_state. by rewrite (proj2 (Z.ltb_lt _ _)). Qed.

Lemma byte_at_ok M i c (ps : Parser * S) :
  M !! Z.to_nat i = Some c → byte_at M i ps = Ok (c, ps).
Proof. intros E. unfold byte_at, lift. by rewrite E. Qed.

(** A type byte pushes the state that reads the length. *)
Lemma initial_step M begin end_ p s c next :
  begin ≠ end_ → M !! Z.to_nat begin = Some c →
  (c = byte_of 42 ∧ next = MkState STATE_ARRAY_LENGTH 0 Parse_length End_array ∨
   c = byte_of 36 ∧ next = MkState STATE_BULK_STRING_LENGTH 0 Parse_length End_bulk_string) →
  parse_initial M begin end_ (p, s) =
    Ok (MkResult true (begin + 1),
        (push_state next (if bool_decide (s_type (s_top p) = STATE_INITIAL) then pop_state p else p), s)).
Proof.
  intros Hne Hc Hnext. unfold parse_initial. rewrite (proj2 (Z.eqb_neq _ _) Hne).
  erewrite st_bind_ok by reflexivity. cbv beta.
  set (p' := if bool_decide _ then pop_state p else p).
  assert (when (bool_decide (s_type (s_top p) = STATE_INITIAL)) (on_parser pop_state) (p, s) =
    Ok (tt, (p', s))) as Hw by (unfold when, p'; by destruct (bool_decide _)).
  erewrite st_bind_ok by exact Hw. cbv beta.
  erewrite st_bind_ok by (by apply byte_at_ok). cbv beta.
  destruct Hnext as [[-> ->]|[-> ->]]; done.
Qed.

(** The digits of a length with their line end. *)
Lemma length_step M begin end_ p s n rest :
  0 ≤ begin → INT_MIN ≤ n ≤ INT_MAX → drop (Z.to_nat begin) M = fmt_ld n ++ CRLF ++ rest →
  begin + zlen (fmt_ld n) + 2 ≤ end_ →
  parse_length M begin end_ (p, s) =
    match s_type (s_top p) with
    | STATE_ARRAY_LENGTH =>
        after (begin_array n s) (λ s', Ok (MkResult true (begin + zlen (fmt_ld n) + 2),
          (push_state (MkState STATE_ARRAY n Parse_array End_array) (pop_state p), s')))
    | STATE_BULK_STRING_LENGTH =>
        after (begin_bulk_string n s) (λ s', Ok (MkResult true (begin + zlen (fmt_ld n) + 2),
          (push_state (MkState STATE_BULK_STRING n Parse_bulk_string End_bulk_string) (pop_state p), s')))
    | _ => Ok (MkResult false begin, (p, s))
    end.
Proof.
  intros Hb Hn HM Hend. unfold INT_MAX, INT_MIN in *.
  pose proof (fmt_ld_length n ltac:(unfold LONG_MIN, LONG_MAX; lia)) as Hl.
  unfold parse_length. rewrite (proj2 (Z.eqb_neq _ _)) by lia. cbv zeta. rewrite HM.
  rewrite strtol_fmt_ld; [|unfold LONG_MIN, LONG_MAX; lia|by intros c l [= <- _]].
  cbn [st_scanned st_value st_end st_erange].
  rewrite !zlen_app. change (zlen CRLF) with 2.
  rewrite (proj2 (Z.leb_gt _ _)) by lia.
  rewrite (proj2 (Z.eqb_neq _ _)), (proj2 (Z.leb_gt _ _)) by lia. cbn [orb].
  assert (∀ j, (j < 2)%nat → M !! (Z.to_nat (begin + zlen (fmt_ld n)) + j)%nat = CRLF !! j) as Hcrlf.
  { intros j Hj.
    replace (Z.to_nat (begin + zlen (fmt_ld n)) + j)%nat with (Z.to_nat begin + (length (fmt_ld n) + j))%nat by lia.
    rewrite <- lookup_drop, HM, lookup_app_r by lia.
    replace (length (fmt_ld n) + j - length (fmt_ld n))%nat with j by lia.
    rewrite lookup_app_l; [done|]. simpl. lia. }
  pose proof (Hcrlf 0%nat ltac:(lia)) as Hcr. rewrite Nat.add_0_r in Hcr.
  pose proof (Hcrlf 1%nat ltac:(lia)) as Hlf.
  replace (Z.to_nat (begin + zlen (fmt_ld n)) + 1)%nat
    with (Z.to_nat (begin + zlen (fmt_ld n) + 1)) in Hlf by lia.
  erewrite st_bind_ok by (apply byte_at_ok; exact Hcr). cbv beta.
  erewrite st_bind_ok by (apply byte_at_ok; exact Hlf).
  cbv beta. change (negb (bool_decide (CR = CR)) || negb (bool_decide (LF = LF))) with false. cbn match.
  rewrite (proj2 (Z.ltb_ge _ _)), (proj2 (Z.ltb_ge _ _)) by (unfold INT_MAX, INT_MIN; lia). cbn [orb].
  rewrite (swrap_small 32) by lia. erewrite st_bind_ok by reflexivity. cbv beta.
  destruct (s_type (s_top p)); try reflexivity;
    [change (bool_decide (STATE_ARRAY_LENGTH = STATE_ARRAY_LENGTH)) with true
    |change (bool_decide (STATE_BULK_STRING_LENGTH = STATE_ARRAY_LENGTH)) with false;
     change (bool_decide (STATE_BULK_STRING_LENGTH = STATE_BULK_STRING_LENGTH)) with true];
    cbn match; unfold after, on_parser, on_handler, mbind, st_bind, modify; cbn beta iota.
  - by destruct (begin_array n s) as [[[] s']|].
  - by destruct (begin_bulk_string n s) as [[[] s']|].
Qed.

(** The bytes of a bulk string with their line end. *)
Lemma bulk_step M begin end_ p s a rest :
  0 ≤ begin → s_length (s_top p) = zlen a → zlen a ≤ INT_MAX →
  drop (Z.to_nat begin) M = a ++ CRLF ++ rest → begin + zlen a + 2 ≤ end_ →
  parse_bulk_string M begin end_ (p, s) =
    after (chars a s) (λ s1, after (end_bulk_string s1) (λ s2,
      Ok (MkResult true (begin + zlen a + 2), (pop_state p, s2)))).
Proof.
  intros Hb Hlen Ha HM Hend. unfold INT_MAX in *.
  unfold parse_bulk_string. erewrite st_bind_ok by reflexivity. cbv beta zeta. rewrite Hlen.
  rewrite (proj2 (Z.eqb_neq (zlen a) _)), (proj2 (Z.eqb_neq begin _)) by lia.
  unfold min. rewrite (proj2 (Z.leb_le _ _)) by lia. rewrite (swrap_small 32) by lia.
  rewrite Z.sub_diag, Z.eqb_refl, (proj2 (Z.leb_le _ _)) by lia. cbn [andb].
  unfold chars_between. rewrite (proj2 (Z.ltb_ge _ _)) by lia.
  replace (slice begin (begin + zlen a - begin) M) with a.
  2:{ unfold slice. rewrite HM. replace (Z.to_nat (begin + zlen a - begin)) with (length a) by lia.
      by rewrite take_app_length. }
  unfold after, on_parser, on_handler, mbind, st_bind, modify. cbn beta iota.
  destruct (chars a s) as [[[] s1]|]; [|done]. cbn beta iota.
  by destruct (end_bulk_string s1) as [[[] s2]|].
Qed.

Lemma bulk_calls_inv a s s' : R s → bulk_calls a s = Ok (tt, s') → R s'.
Proof.
  intros HRs E. unfold bulk_calls in E.
  apply st_bind_inv in E as ([] & s1 & E1 & E). apply st_bind_inv in E as ([] & s2 & E2 & E).
  eapply inv_end_bulk, E. eapply inv_chars, E2. by eapply inv_begin_bulk, E1.
Qed.

Lemma array_step begin end_ n below s :
  0 < n ≤ INT_MAX →
  parse_array begin end_ (in_array n below, s) =
    Ok (MkResult true begin,
        (push_state (MkState STATE_INITIAL 0 Parse_initial No_callback) (in_array (n - 1) below), s)).
Proof.
  intros Hn. unfold INT_MAX in *. unfold parse_array. erewrite st_bind_ok by reflexivity. cbv beta zeta.
  cbn [s_length s_top in_array].
  rewrite (proj2 (Z.eqb_neq n 0)), (proj2 (Z.eqb_neq n (-1))) by lia. cbn [orb].
  erewrite st_bind_ok by reflexivity. by rewrite (swrap_small 64) by lia.
Qed.

(** A length and the bulk string it announces. *)
Lemma bulk_body_run M fuel begin end_ next below s a rest :
  R s → 0 ≤ begin → zlen below < MAX_STACK_DEPTH - 2 → zlen a ≤ INT_MAX →
  drop (Z.to_nat begin) M = fmt_ld (zlen a) ++ CRLF ++ a ++ CRLF ++ rest →
  begin + zlen (fmt_ld (zlen a)) + zlen a + 4 ≤ end_ →
  parser_parse M (2 + fuel) begin end_
    (MkParser (MkState STATE_BULK_STRING_LENGTH 0 Parse_length End_bulk_string) (next :: below), s) =
    after (bulk_calls a s) (λ s', parser_parse M fuel (begin + zlen (fmt_ld (zlen a)) + zlen a + 4) end_
                                    (MkParser next below, s')).
Proof.
  intros HRs Hb Hbelow Ha HM Hend. cbn [Nat.add].
  rewrite parser_step by done. cbn [run_parse s_parse s_top].
  rewrite (length_step M begin end_ _ _ (zlen a) (a ++ CRLF ++ rest)) by (try done; unfold INT_MIN; lia).
  cbn [s_type s_top pop_state s_below]. unfold bulk_calls. rewrite after_bind, after_res_bind.
  apply after_ext. intros s1 E1. apply inv_begin_bulk in E1; [|done].
  rewrite continue_ok, push_room by stack_room.
  rewrite parser_step by done. cbn [run_parse s_parse s_top s_below].
  rewrite (bulk_step M _ end_ _ s1 a rest); cbn [s_length s_top]; [|lia|done|done| |lia].
  2:{ replace (Z.to_nat (begin + zlen (fmt_ld (zlen a)) + 2)) with
        (Z.to_nat begin + (length (fmt_ld (zlen a)) + 2))%nat by lia.
      rewrite <- drop_drop, HM, <- drop_drop, drop_app_length. done. }
  rewrite after_bind, after_res_bind. apply after_ext. intros s2 _.
  rewrite after_res_bind. apply after_ext. intros s3 _. rewrite continue_ok. cbn [pop_state s_below].
  f_equal. lia.
Qed.

(** One element: four states are entered and left. *)
Lemma bulk_run M fuel begin end_ n below s a rest :
  R s → 0 ≤ begin → 0 < n ≤ INT_MAX → zlen below < MAX_STACK_DEPTH - 2 → zlen a ≤ INT_MAX →
  drop (Z.to_nat begin) M = encode_bulk a ++ rest → begin + zlen (encode_bulk a) ≤ end_ →
  parser_parse M (4 + fuel) begin end_ (in_array n below, s) =
    after (bulk_calls a s) (λ s', parser_parse M fuel (begin + zlen (encode_bulk a)) end_
                                    (in_array (n - 1) below, s')).
Proof.
  intros HRs Hb Hn Hbelow Ha HM Hend. unfold encode_bulk in *. rewrite <- !app_assoc in HM.
  rewrite !zlen_app in *. change (zlen CRLF) with 2 in *. change (zlen (lit "$")) with 1 in *.
  change (4 + fuel)%nat with (Datatypes.S (Datatypes.S (2 + fuel))).
  rewrite parser_step by done. cbn [run_parse s_parse s_top in_array].
  rewrite array_step, continue_ok, push_room by (done || stack_room).
  rewrite parser_step by done. cbn [run_parse s_parse s_top s_below in_array].
  erewrite initial_step; [|lia| |by right].
  2:{ rewrite <- (Nat.add_0_r (Z.to_nat begin)), <- lookup_drop, HM. done. }
  rewrite continue_ok. cbn [s_type s_top pop_state s_below].
  change (bool_decide (STATE_INITIAL = STATE_INITIAL)) with true. cbn match.
  rewrite push_room by stack_room. cbn [s_top s_below].
  rewrite (bulk_body_run M fuel (begin + 1) end_ _ _ s a rest); [|done|lia|lia|done| |lia].
  - apply after_ext. intros s' _. f_equal. lia.
  - by rewrite Z2Nat.inj_add, <- drop_drop, HM by lia.
Qed.

Lemma bulks_run M fuel begin end_ below args s rest :
  R s → 0 ≤ begin → zlen args ≤ INT_MAX → zlen below < MAX_STACK_DEPTH - 2 →
  Forall (λ a, zlen a ≤ INT_MAX) args →
  drop (Z.to_nat begin) M = concat (encode_bulk <$> args) ++ rest →
  begin + zlen (concat (encode_bulk <$> args)) ≤ end_ →
  parser_parse M (4 * length args + fuel) begin end_ (in_array (zlen args) below, s) =
    after (for_each bulk_calls args s) (λ s',
      parser_parse M fuel (begin + zlen (concat (encode_bulk <$> args))) end_ (in_array 0 below, s')).
Proof.
  intros HRs Hb Hn Hbelow Hargs. revert begin s HRs Hb.
  induction Hargs as [|a args Ha Hargs IH]; intros begin s HRs Hb HM Hend.
  { cbn. by rewrite Z.add_0_r. }
  cbn [fmap list_fmap concat] in *. rewrite zlen_app, <- app_assoc in *.
  replace (4 * length (a :: args) + fuel)%nat with (4 + (4 * length args + fuel))%nat by (cbn [length]; lia).
  rewrite (bulk_run M _ begin end_ _ below s a (concat (encode_bulk <$> args) ++ rest));
    [|done|done|cbn [length] in *; lia|done|done|done|lia].
  cbn [for_each]. rewrite after_bind. apply after_ext. intros s1 E1. apply bulk_calls_inv in E1; [|done].
  replace (zlen (a :: args) - 1) with (zlen args) by (cbn [length]; lia).
  rewrite IH; [|cbn [length] in *; lia|done|lia| |lia].
  - apply after_ext. intros s' _. f_equal. lia.
  - by rewrite Z2Nat.inj_add, <- drop_drop, HM, Nat2Z.id, drop_app_length by lia.
Qed.

Lemma bulks_inv args s s' : R s → for_each bulk_calls args s = Ok (tt, s') → R s'.
Proof.
  revert s. induction args as [|a args IH]; intros s HRs E; [by injection E as <-|].
  apply st_bind_inv in E as ([] & s1 & E1 & E). eapply IH, E. by eapply bulk_calls_inv.
Qed.

Lemma array_calls_inv args s s' : R s → array_calls args s = Ok (tt, s') → R s'.
Proof.
  intros HRs E. apply st_bind_inv in E as ([] & s1 & E1 & E).
  apply st_bind_inv in E as ([] & s2 & E2 & E).
  eapply inv_end_array, E. eapply bulks_inv, E2. by eapply inv_begin_array, E1.
Qed.

(** A command the parser can read: its lengths are [int]s. *)
Definition command_fits (args : list bytes) : Prop :=
  zlen args ≤ INT_MAX ∧ Forall (λ a, zlen a ≤ INT_MAX) args.

Definition command_steps (args : list bytes) : nat := 4 * length args + 3.

(** The header of an array, from the initial state. *)
Lemma array_header_run M fuel begin end_ n s rest :
  R s → 0 ≤ begin → INT_MIN ≤ n ≤ INT_MAX →
  drop (Z.to_nat begin) M = lit "*" ++ fmt_ld n ++ CRLF ++ rest →
  begin + zlen (fmt_ld n) + 3 ≤ end_ →
  parser_parse M (2 + fuel) begin end_ (parser_init, s) =
    after (begin_array n s) (λ s', parser_parse M fuel (begin + zlen (fmt_ld n) + 3) end_
                                     (in_array n [s_top parser_init], s')).
Proof.
  intros HRs Hb Hn HM Hend. cbn [Nat.add].
  rewrite parser_step by done. cbn [run_parse s_parse s_top parser_init].
  erewrite initial_step; [|lia| |by left].
  2:{ rewrite <- (Nat.add_0_r (Z.to_nat begin)), <- lookup_drop, HM. done. }
  rewrite continue_ok.
  change (bool_decide (s_type (s_top parser_init) = STATE_INITIAL)) with false. cbn match.
  rewrite push_room, parser_step by (done || stack_room). cbn [run_parse s_parse s_top s_below].
  rewrite (length_step M (begin + 1) end_ _ s n rest); [|lia|done| |lia].
  2:{ by rewrite Z2Nat.inj_add, <- drop_drop, HM by lia. }
  cbn [s_type s_top pop_state s_below]. rewrite after_res_bind. apply after_ext. intros s1 _.
  rewrite continue_ok, push_room by stack_room. cbn [s_top s_below]. f_equal. lia.
Qed.

Lemma array_run M fuel begin end_ args s rest :
  R s → 0 ≤ begin → command_fits args →
  drop (Z.to_nat begin) M = encode (RArray args) ++ rest → begin + zlen (encode (RArray args)) ≤ end_ →
  parser_parse M (command_steps args + fuel) begin end_ (parser_init, s) =
    after (array_calls args s) (λ s',
      parser_parse M fuel (begin + zlen (encode (RArray args))) end_ (parser_init, s')).
Proof.
  intros HRs Hb [Hn Hargs] HM Hend. cbn [encode] in *. rewrite <- !app_assoc in HM.
  rewrite !zlen_app in *. change (zlen CRLF) with 2 in *. change (zlen (lit "*")) with 1 in *.
  replace (command_steps args + fuel)%nat with (2 + (4 * length args + Datatypes.S fuel))%nat
    by (unfold command_steps; lia).
  rewrite (array_header_run M _ begin end_ (zlen args) s _ HRs Hb) by (done || (unfold INT_MIN; lia)).
  unfold array_calls. rewrite after_bind. apply after_ext. intros s1 E1. apply inv_begin_array in E1; [|done].
  rewrite (bulks_run M _ _ end_ [s_top parser_init] args s1 rest); [|done|lia|done|done|done| |lia].
  2:{ replace (Z.to_nat (begin + zlen (fmt_ld (zlen args)) + 3)) with
        (Z.to_nat begin + (1 + (length (fmt_ld (zlen args)) + 2)))%nat by lia.
      rewrite <- drop_drop, HM, <- drop_drop, (drop_app_length' (lit "*")) by done.
      by rewrite <- drop_drop, drop_app_length. }
  rewrite after_bind. apply after_ext. intros s2 E2. apply bulks_inv in E2; [|done].
  rewrite parser_step by done. cbn [run_parse s_parse s_top in_array].
  unfold parse_array, after, on_parser, on_handler, mbind, st_bind, modify. cbn.
  destruct (end_array s2) as [[[] s3]|]; [|done]. cbn. unfold continue_at. cbn. f_equal. lia.
Qed.

(** The calls of a sequence of commands, and the steps they take. *)
Definition commands_bytes (cmds : list (list bytes)) : bytes :=
  concat ((λ args, encode (RArray args)) <$> cmds).
Definition commands_steps (cmds : list (list bytes)) : nat := foldr (λ args n, command_steps args + n)%nat 1%nat cmds.

Lemma commands_run M begin cmds s rest :
  R s → 0 ≤ begin → Forall command_fits cmds →
  drop (Z.to_nat begin) M = commands_bytes cmds ++ rest →
  parser_parse M (commands_steps cmds) begin (begin + zlen (commands_bytes cmds)) (parser_init, s) =
    after (for_each array_calls cmds s) (λ s',
      Ok (begin + zlen (commands_bytes cmds), (parser_init, s'))).
Proof.
  intros HRs Hb Hcmds. revert begin s HRs Hb. unfold commands_bytes.
  induction Hcmds as [|args cmds Hargs Hcmds IH]; intros begin s HRs Hb HM.
  { cbn [commands_steps foldr]. rewrite parser_step by done. cbn. unfold parse_initial.
    by rewrite Z.add_0_r, Z.eqb_refl. }
  cbn [fmap list_fmap concat commands_steps foldr] in *. rewrite zlen_app, <- app_assoc in *.
  rewrite (array_run M _ begin _ args s _ HRs Hb Hargs HM) by lia.
  cbn [for_each]. rewrite after_bind. apply after_ext. intros s1 E1. apply array_calls_inv in E1; [|done].
  rewrite Z.add_assoc. apply IH; [done|lia|].
  by rewrite Z2Nat.inj_add, <- drop_drop, HM, Nat2Z.id, drop_app_length by lia.
Qed.
End commands.

(** ** A handler that records its calls *)

Inductive event :=
| EBeginArray (n : Z) | EEndArray | EBeginBulk (n : Z) | EEndBulk | EChars (d : bytes)
| EBeginSimple | EEndSimple | EOther.

Definition record (e : event) : st (list event) unit := modify (λ log, log ++ [e]).

#[export] Instance recorder : Handler (list event) := {
  begin_array n := record (EBeginArray n);
  end_array := record EEndArray;
  begin_bulk_string n := record (EBeginBulk n);
  end_bulk_string := record EEndBulk;
  chars d := record (EChars d);
  begin_simple_string := record EBeginSimple;
  end_simple_string := record EEndSimple;
  begin_error := record EOther;
  end_error := record EOther;
  begin_integer := record EOther;
  end_integer := record EOther;
  expects_snapshot _ := false
}.

#[export] Instance recorder_inv : HandlerInv (list event) (λ _, True).
Proof. by constructor. Qed.

Definition bulk_events (a : bytes) : list event := [EBeginBulk (zlen a); EChars a; EEndBulk].
Definition array_events (args : list bytes) : list event :=
  EBeginArray (zlen args) :: concat (bulk_events <$> args) ++ [EEndArray].

Lemma record_bulks args log :
  for_each bulk_calls args log = Ok (tt, log ++ concat (bulk_events <$> args)).
Proof.
  revert log. induction args as [|a args IH]; intros log; [by rewrite app_nil_r|].
  cbn [for_each]. erewrite st_bind_ok by reflexivity. rewrite IH. cbn. by rewrite <- !app_assoc.
Qed.

Lemma record_arrays cmds log :
  for_each array_calls cmds log = Ok (tt, log ++ concat (array_events <$> cmds)).
Proof.
  revert log. induction cmds as [|args cmds IH]; intros log; [by rewrite app_nil_r|].
  cbn [for_each]. erewrite st_bind_ok.
  2:{ unfold array_calls. erewrite st_bind_ok by reflexivity.
      erewrite st_bind_ok by apply record_bulks. reflexivity. }
  rewrite IH. cbn. by rewrite <- !app_assoc.
Qed.

(** C20: the parser reports exactly the structure of what it reads: for any
    number of commands at once, each an array of bulk strings of any bytes, it
    makes the calls of each array in order, reads exactly their bytes and is
    back in its initial state.  The steps are those of [commands_steps]. *)
Theorem parser_reports_commands M begin cmds rest log :
  0 ≤ begin → Forall command_fits cmds →
  drop (Z.to_nat begin) M = commands_bytes cmds ++ rest →
  let end_ := begin + zlen (commands_bytes cmds) in
  parser_parse M (commands_steps cmds) begin end_ (parser_init, log) =
    Ok (end_, (parser_init, log ++ concat (array_events <$> cmds))).
Proof.
  intros Hb Hcmds HM end_. unfold end_.
  rewrite (commands_run (λ _, True) M begin cmds log rest) by done. by rewrite record_arrays.
Qed.

Lemma parser_reports_commands_witness :
  let cmds := [[lit "GET"; lit "k"]; [lit "PING"]] in
  let end_ := zlen (commands_bytes cmds) in
  parser_parse (commands_bytes cmds) (commands_steps cmds) 0 end_ (parser_init, []) =
    Ok (end_, (parser_init, array_events [lit "GET"; lit "k"] ++ array_events [lit "PING"])).
Proof.
  intros cmds. refine (parser_reports_commands (commands_bytes cmds) 0 cmds [] [] _ _ _); [lia| |reflexivity].
  repeat constructor; vm_compute; discriminate.
Defined.

(** C40: the bytes still missing of a bulk string are not remembered.  If some
    but not all of its bytes and line end have arrived, the bytes are reported
    and the state is left as if none had been read: the rest is then taken for
    the start of a string of the full length, line end included, and the string
    is not ended. *)
Theorem split_bulk_not_resumed a1 a2 below log :
  a1 ≠ [] → zlen (a1 ++ a2) ≤ INT_MAX - 2 →
  let p := MkParser (MkState STATE_BULK_STRING (zlen (a1 ++ a2)) Parse_bulk_string End_bulk_string) below in
  parser_parse a1 1 0 (zlen a1) (p, log) = Ok (zlen a1, (p, log ++ [EChars a1])) ∧
  parser_parse (a2 ++ CRLF) 1 0 (zlen a2 + 2) (p, log) =
    Ok (Z.min (zlen (a1 ++ a2)) (zlen a2 + 2), (p, log ++ [EChars (take (length (a1 ++ a2)) (a2 ++ CRLF))])).
Proof.
  intros Hne Hlen p. unfold INT_MAX in Hlen.
  assert (∀ M end_ n, 0 ≤ n - 1 → 0 < end_ → end_ = zlen M → end_ < n + 2 → n ≤ 2147483645 →
    s_length (s_top p) = n →
    parse_bulk_string M 0 end_ (p, log) =
      Ok (MkResult false (Z.min n end_), (p, log ++ [EChars (take (Z.to_nat n) M)]))) as Hshort.
  { intros M end_ n Hn He HM Hlt Hmax Hp. unfold parse_bulk_string. erewrite st_bind_ok by reflexivity.
    cbv beta zeta. rewrite Hp. rewrite (proj2 (Z.eqb_neq n _)), (proj2 (Z.eqb_neq 0 _)) by lia.
    rewrite Z.sub_0_r.
    assert (min n end_ = Z.min n end_) as ->.
    { unfold min. destruct (Z.leb_spec n end_); rewrite (swrap_small 32) by lia; lia. }
    unfold chars_between. rewrite (proj2 (Z.ltb_ge _ _)) by lia. erewrite st_bind_ok by reflexivity. cbv beta.
    replace ((n - Z.min n end_ =? 0) && (Z.min n end_ + 2 <=? end_)) with false.
    2:{ symmetry. apply andb_false_iff. rewrite Z.eqb_neq, Z.leb_gt. lia. }
    rewrite !Z.add_0_l, Z.sub_0_r. unfold slice. rewrite drop_0. repeat f_equal.
    destruct (Z.min_spec n end_) as [[? ->]|[? ->]]; [done|]. rewrite !take_ge by lia. done. }
  assert (0 < zlen a1) by (destruct a1; [done|cbn [length]; lia]).
  assert (s_length (s_top p) = zlen a1 + zlen a2) as Hp by apply zlen_app.
  rewrite !zlen_app in *. split.
  - rewrite (parser_step (λ _, True)) by done. change (s_parse (s_top p)) with Parse_bulk_string. cbn [run_parse].
    rewrite (Hshort a1 (zlen a1) (zlen a1 + zlen a2)) by (done || lia).
    rewrite take_ge, Z.min_r by lia. done.
  - rewrite (parser_step (λ _, True)) by done. change (s_parse (s_top p)) with Parse_bulk_string. cbn [run_parse].
    rewrite (Hshort (a2 ++ CRLF) (zlen a2 + 2) (zlen a1 + zlen a2)) by (done || rewrite ?zlen_app; cbn; lia).
    rewrite length_app. replace (Z.to_nat (zlen a1 + zlen a2)) with (length a1 + length a2)%nat by lia. done.
Qed.

Lemma split_bulk_not_resumed_witness :
  let p := MkParser (MkState STATE_BULK_STRING 5 Parse_bulk_string End_bulk_string) [] in
  parser_parse (lit "lo" ++ CRLF) 1 0 4 (p, []) = Ok (4, (p, [EChars (lit "lo" ++ CRLF)])).
Proof.
  apply (split_bulk_not_resumed (lit "hel") (lit "lo") [] []); [discriminate|].
  vm_compute. discriminate.
Defined.
