(* ===== verification/RespInline.v ===== *)
(** * Inline commands

    A line of words separated by single spaces, without quotes, makes the same
    calls as the array of its words.  The tokens are counted in the text up to
    the next NUL byte, so the line has to be the last thing before one. *)

From S2P Require Import Prelude CLib RespWriter RespParser.

(** A character with no meaning of its own in a line. *)
Definition plain (c : byte) : bool :=
  negb (bool_decide (c = NUL) || bool_decide (c = CR) || bool_decide (c = byte_of 32) ||
        bool_decide (c = byte_of 34) || bool_decide (c = byte_of 39)).

Definition word (a : bytes) : Prop := a ≠ [] ∧ Forall (λ c, plain c = true) a.

(** The line with the words [a :: args]. *)
Fixpoint line (a : bytes) (args : list bytes) : bytes :=
  match args with [] => a | b :: args' => a ++ byte_of 32 :: line b args' end.

Lemma plain_spec c :
  plain c = true → c ≠ NUL ∧ c ≠ CR ∧ c ≠ byte_of 32 ∧ c ≠ byte_of 34 ∧ c ≠ byte_of 39.
Proof.
  unfold plain. rewrite negb_true_iff, !orb_false_iff, !bool_decide_eq_false. tauto.
Qed.

Lemma word_no_nul a : word a → no_nul a.
Proof.
  intros [_ Ha] Hin. rewrite Forall_forall in Ha. by apply Ha in Hin as (? & _)%plain_spec.
Qed.

Ltac plain_cases H :=
  apply plain_spec in H as (? & ? & ? & ? & ?); rewrite ?bool_decide_eq_false_2 by done.

Lemma find_char_plain c a l pos :
  Forall (λ x, x ≠ c) a → find_char c (a ++ c :: l) pos = pos + zlen a.
Proof.
  intros Ha. revert pos. induction Ha as [|x a Hx _ IH]; intros pos; cbn [app find_char length].
  - rewrite bool_decide_eq_true_2 by done. lia.
  - rewrite bool_decide_eq_false_2, IH by done. lia.
Qed.

Lemma find_char_none c a pos : Forall (λ x, x ≠ c) a → find_char c a pos = pos + zlen a.
Proof.
  intros Ha. revert pos. induction Ha as [|x a Hx _ IH]; intros pos; cbn [find_char length]; [lia|].
  rewrite bool_decide_eq_false_2, IH by done. lia.
Qed.

Lemma find_cr_find_char l pos : find_cr l pos = find_char CR l pos.
Proof. revert pos. induction l as [|c l IH]; intros pos; [done|]. cbn. by rewrite IH. Qed.

Lemma count_tokens_in a l n :
  Forall (λ c, plain c = true) a → count_tokens (a ++ l) n true None = count_tokens l n true None.
Proof.
  induction 1 as [|c a Hc _ IH]; [done|]. cbn [app count_tokens]. plain_cases Hc. exact IH.
Qed.

Lemma count_tokens_word a l n :
  word a → count_tokens (a ++ l) n false None = count_tokens l (n + 1) true None.
Proof.
  intros [Hne Ha]. destruct Ha as [|c a Hc Ha]; [done|]. cbn [app count_tokens]. plain_cases Hc.
  by apply count_tokens_in.
Qed.

Lemma count_tokens_line a args n rest :
  word a → Forall word args →
  count_tokens (line a args ++ CRLF ++ NUL :: rest) n false None = Some (n + 1 + zlen args).
Proof.
  intros Ha Hargs. revert a n Ha. induction Hargs as [|b args Hb _ IH]; intros a n Ha; cbn [line].
  - rewrite count_tokens_word by done. cbn. f_equal. lia.
  - rewrite <- app_assoc, count_tokens_word by done. cbn [app count_tokens].
    change (bool_decide (byte_of 32 = NUL)) with false.
    change (bool_decide (byte_of 32 = byte_of 39) || bool_decide (byte_of 32 = byte_of 34)) with false.
    change (bool_decide (byte_of 32 = byte_of 32)) with true. cbn match.
    rewrite IH by done. cbn [length]. f_equal. lia.
Qed.

Lemma line_no_cr a args : word a → Forall word args → Forall (λ c, c ≠ CR) (line a args).
Proof.
  intros Ha Hargs. revert a Ha. induction Hargs as [|b args Hb _ IH]; intros a [_ Ha]; cbn [line].
  - eapply Forall_impl; [exact Ha|]. by intros c (_ & Hc & _)%plain_spec.
  - apply Forall_app. split; [eapply Forall_impl; [exact Ha|]; by intros c (_ & Hc & _)%plain_spec|].
    constructor; [done|by apply IH].
Qed.

Lemma line_length a args : word a → Forall word args → zlen args < zlen (line a args).
Proof.
  intros Ha Hargs. revert a Ha.
  assert (∀ b, word b → 0 < zlen b) as Hpos by (intros [|c b] [? _]; [done|cbn [length]; lia]).
  induction Hargs as [|b args Hb _ IH]; intros a Ha; cbn [line]; [by apply Hpos|].
  specialize (IH b Hb). specialize (Hpos a Ha). rewrite zlen_app. cbn [length]. lia.
Qed.

Section inline.
Context {S : Type} `{HS : Handler S} (R : S → Prop) {HR : HandlerInv S R}.

(** The token of a word, which is followed by a space or by the end [pos]. *)
Lemma token_step M fuel start pos p s a next :
  0 ≤ start → word a → start + zlen a ≤ pos →
  slice start (pos - start) M = a ++ next → (next = [] ∨ ∃ l, next = byte_of 32 :: l) →
  inline_tokens M (Datatypes.S fuel) start pos (p, s) =
    after (bulk_calls a s) (λ s',
      inline_tokens M fuel (if start + zlen a <? pos then start + zlen a + 1 else start + zlen a) pos (p, s')).
Proof.
  intros Hs [Hne Ha] Hpos Hsl Hnext.
  assert (Forall (λ x, x ≠ byte_of 32) a) as Hsp
    by (eapply Forall_impl; [exact Ha|]; by intros c (_ & _ & Hc & _)%plain_spec).
  assert (memchr_or M (byte_of 32) start pos = start + zlen a) as Hend.
  { unfold memchr_or. rewrite Hsl. destruct Hnext as [->|[l ->]]; [|by apply find_char_plain].
    rewrite app_nil_r. by apply find_char_none. }
  assert (slice start (zlen a) M = a) as Hdata.
  { unfold slice in *. rewrite Nat2Z.id. apply (f_equal (take (length a))) in Hsl.
    rewrite take_take, Nat.min_l, take_app_length in Hsl by lia. done. }
  destruct a as [|c a]; [done|]. inversion Ha as [|? ? Hc _]; subst. plain_cases Hc.
  assert (M !! Z.to_nat start = Some c) as Hc0.
  { unfold slice in Hdata. apply (f_equal (.!! 0%nat)) in Hdata. cbn [length] in Hdata.
    rewrite lookup_take_lt, lookup_drop, Nat.add_0_r in Hdata by lia. done. }
  cbn [inline_tokens]. rewrite (proj2 (Z.ltb_lt _ _)) by (cbn [length] in Hpos; lia).
  rewrite Hsl. cbn [app skip_spaces]. rewrite bool_decide_eq_false_2 by done.
  rewrite (proj2 (Z.leb_gt pos start)) by (cbn [length] in Hpos; lia).
  erewrite st_bind_ok by (apply byte_at_ok, Hc0). cbv beta zeta.
  rewrite !bool_decide_eq_false_2 by done. cbn [orb]. rewrite Hend.
  unfold chars_between. rewrite (proj2 (Z.ltb_ge (start + zlen (c :: a)) start)) by lia.
  replace (start + zlen (c :: a) - start) with (zlen (c :: a)) by lia. rewrite Hdata.
  unfold bulk_calls. rewrite after_bind. unfold after, mbind, st_bind, on_handler.
  destruct (begin_bulk_string _ s) as [[[] s1]|]; [|done].
  destruct (chars _ s1) as [[[] s2]|]; [|done].
  by destruct (end_bulk_string s2) as [[[] s3]|].
Qed.

Lemma tokens_run M fuel start pos p s a args :
  0 ≤ start → word a → Forall word args → pos = start + zlen (line a args) →
  slice start (pos - start) M = line a args → (length args + 1 < fuel)%nat →
  inline_tokens M fuel start pos (p, s) =
    after (for_each bulk_calls (a :: args) s) (λ s', Ok (tt, (p, s'))).
Proof.
  intros Hs Ha Hargs. revert start a fuel s Hs Ha.
  induction Hargs as [|b args Hb Hargs IH]; intros start a fuel s Hs Ha Hpos Hsl Hfuel;
    (destruct fuel as [|fuel]; [cbn in Hfuel; lia|]); cbn [line] in *; cbn [for_each]; rewrite after_bind.
  - rewrite (token_step M fuel start pos p s a []); [|done|done|lia|by rewrite app_nil_r|by left].
    apply after_ext. intros s1 _. rewrite (proj2 (Z.ltb_ge _ _)) by lia.
    destruct fuel as [|fuel]; [cbn in Hfuel; lia|]. cbn [inline_tokens].
    by rewrite (proj2 (Z.ltb_ge _ _)) by lia.
  - rewrite zlen_app in Hpos. cbn [length] in Hpos, Hfuel.
    rewrite (token_step M fuel start pos p s a (byte_of 32 :: line b args)); [|done|done|lia|done|by right; eauto].
    apply after_ext. intros s1 _. rewrite (proj2 (Z.ltb_lt _ _)) by lia.
    apply IH; [lia|done|lia| |lia].
    unfold slice in *. apply (f_equal (drop (length a + 1))) in Hsl.
    rewrite (drop_app_ge a), (Nat.add_comm (length a)), Nat.add_sub in Hsl by lia.
    cbn [drop] in Hsl. rewrite drop_0 in Hsl. rewrite <- Hsl.
    rewrite skipn_firstn_comm, drop_drop. f_equal; [lia|f_equal; lia].
Qed.

Lemma inline_run M begin end_ p s a args rest :
  0 ≤ begin → word a → Forall word args →
  drop (Z.to_nat begin) M = line a args ++ CRLF ++ NUL :: rest → begin + zlen (line a args) < end_ →
  parse_inline_command M begin end_ (p, s) =
    after (array_calls (a :: args) s) (λ s',
      Ok (MkResult true (begin + zlen (line a args) + 2), (pop_state p, s'))).
Proof.
  intros Hb Ha Hargs HM Hend. pose proof (line_length a args Ha Hargs) as Hlen.
  unfold parse_inline_command. rewrite (proj2 (Z.eqb_neq _ _)) by lia.
  assert (find_cr (slice begin (end_ - begin) M) begin = begin + zlen (line a args)) as ->.
  { rewrite find_cr_find_char. unfold slice. rewrite HM.
    replace (Z.to_nat (end_ - begin)) with (length (line a args) + (1 + Z.to_nat (end_ - begin - zlen (line a args) - 1)))%nat by lia.
    rewrite take_app_add. cbn [take app CRLF Nat.add].
    apply find_char_plain. by apply line_no_cr. }
  cbv zeta. rewrite (proj2 (Z.eqb_neq _ _)) by lia. cbn [negb].
  erewrite st_bind_ok by (unfold lift; rewrite HM, count_tokens_line by done; reflexivity). cbv beta.
  replace (0 + 1 + zlen args) with (zlen (a :: args)) by (cbn [length]; lia).
  unfold array_calls, after, mbind, st_bind, on_handler, on_parser, modify.
  destruct (begin_array _ s) as [[[] s1]|]; [|done].
  rewrite (tokens_run M _ begin _ p s1 a args); [|done|done|done|done| |lia].
  2:{ unfold slice. rewrite HM. replace (Z.to_nat _) with (length (line a args)) by lia. by rewrite take_app_length. }
  unfold after. destruct (for_each bulk_calls (a :: args) s1) as [[[] s2]|]; [|done].
  by destruct (end_array s2) as [[[] s3]|].
Qed.

(** The first character does not name another kind of message. *)
Definition starts_line (a : bytes) : Prop :=
  match a with
  | c :: _ => Forall (λ t, c ≠ byte_of t) [43; 45; 58; 36; 42]
  | [] => False
  end.

(** A line on its own: three steps. *)
Lemma line_run M begin s a args rest :
  R s → 0 ≤ begin → starts_line a → word a → Forall word args →
  drop (Z.to_nat begin) M = line a args ++ CRLF ++ NUL :: rest →
  let end_ := begin + zlen (line a args) + 2 in
  parser_parse M 3 begin end_ (parser_init, s) =
    after (array_calls (a :: args) s) (λ s', Ok (end_, (parser_init, s'))).
Proof.
  intros HRs Hb Hst Ha Hargs HM end_. pose proof (line_length a args Ha Hargs) as Hlen.
  rewrite (parser_step R) by done. cbn [run_parse s_parse s_top parser_init].
  unfold parse_initial at 1. rewrite (proj2 (Z.eqb_neq _ _)) by (unfold end_; lia).
  erewrite st_bind_ok by reflexivity. cbv beta. cbn [s_type s_top].
  change (bool_decide (STATE_INITIAL_TERMINAL = STATE_INITIAL)) with false. cbn [when].
  erewrite st_bind_ok by reflexivity. destruct a as [|c a]; [done|].
  erewrite st_bind_ok.
  2:{ apply byte_at_ok. rewrite <- (Nat.add_0_r (Z.to_nat begin)), <- lookup_drop, HM.
      by destruct args. }
  cbv beta. unfold starts_line in Hst. rewrite !Forall_cons in Hst. destruct Hst as (? & ? & ? & ? & ? & _).
  rewrite !bool_decide_eq_false_2 by done. erewrite st_bind_ok by reflexivity.
  rewrite st_ret_eq, continue_ok, push_room by done.
  rewrite (parser_step R) by done. cbn [run_parse s_parse s_top].
  rewrite (inline_run M begin end_ _ s (c :: a) args rest) by (try done; unfold end_; lia).
  rewrite after_res_bind. apply after_ext. intros s' Hs'. apply (array_calls_inv R) in Hs'; [|done].
  rewrite continue_ok, (parser_step R) by done. cbn. unfold parse_initial.
  unfold end_. by rewrite Z.eqb_refl.
Qed.
End inline.
