(* ===== verification/CommandHandler.v ===== *)
(** * [src/src/command_handler.c]

    The handler behind the parser: it collects the bulk strings of an array in
    one buffer, cuts the buffer into arguments at the end of the array and runs
    the command. *)

From S2P Require Import Prelude CLib RingBuffer Util Database Rdb RespWriter ServerState.
From S2P Require Import Commands CommandSpec RespParser RespInline.

(** [buf] and [ends] are the allocated arrays, [None] an element that was never
    written.  [ch_args] are the first [arg_count] elements of [args], [None] a
    pointer whose block has been freed. *)
Record CommandHandler := MkHandler {
  buf : list (option byte);
  buf_used : Z;
  ch_args : list (option bytes);
  arg_capacity : Z;
  ends : list (option Z);
  ends_size : Z
}.

Definition buf_size (ch : CommandHandler) : Z := zlen (buf ch).
Definition arg_count (ch : CommandHandler) : Z := zlen (ch_args ch).
Definition ends_capacity (ch : CommandHandler) : Z := zlen (ends ch).

Abbreviation chM := (st (CommandHandler * world)).

(** [create_command_handler(client, initial_buf_size, initial_arg_capacity)]. *)
Definition create_command_handler (initial_buf_size initial_arg_capacity : Z) : CommandHandler :=
  MkHandler (replicate (Z.to_nat initial_buf_size) None) 0 [] initial_arg_capacity
    (replicate (Z.to_nat initial_arg_capacity) None) 0.

Definition on_world {A} (f : cmdM A) : chM A := λ '(ch, w),
  match f w with Ok (a, w') => Ok (a, (ch, w')) | Stop e => Stop e end.
Definition set_ch (f : CommandHandler → CommandHandler) : chM unit := modify (λ '(ch, w), (f ch, w)).
Definition get_ch : chM CommandHandler := gets fst.

Definition grow {A} (n : Z) (l : list (option A)) : list (option A) :=
  take (Z.to_nat n) l ++ replicate (Z.to_nat n - length l) None.

(** The assignments [ch->buf_used = 0] and the like. *)
Definition set_used (n : Z) (ch : CommandHandler) : CommandHandler :=
  MkHandler (buf ch) n (ch_args ch) (arg_capacity ch) (ends ch) (ends_size ch).
Definition set_buf (b : list (option byte)) (ch : CommandHandler) : CommandHandler :=
  MkHandler b (buf_used ch) (ch_args ch) (arg_capacity ch) (ends ch) (ends_size ch).
Definition reset_array (ch : CommandHandler) : CommandHandler :=
  MkHandler (buf ch) 0 [] (arg_capacity ch) (ends ch) 0.
Definition set_args (l : list (option bytes)) (ch : CommandHandler) : CommandHandler :=
  MkHandler (buf ch) (buf_used ch) l (arg_capacity ch) (ends ch) (ends_size ch).

Fixpoint write_at (l : list (option byte)) (i : nat) (data : bytes) : list (option byte) :=
  match data with [] => l | c :: data' => write_at (<[i := Some c]> l) (S i) data' end.

(** The bytes [from, to) of the buffer, if all were written. *)
Definition read_buf (ch : CommandHandler) (from to : Z) : option bytes :=
  mapM id (slice from (to - from) (buf ch)).

Section handler.
(** The largest size [realloc] grants: whatever it is, it is an object size. *)
Context (max_alloc : Z).

Definition begin_array_handler (len : Z) : chM unit :=
  _ ← set_ch reset_array;
  ch ← get_ch;
  _ ← when (arg_capacity ch <? u64 len) (
        if u64 (8 * len) <=? max_alloc then
          set_ch (λ ch, MkHandler (buf ch) (buf_used ch) (ch_args ch) (u64 len) (ends ch) (ends_size ch))
        else stop ExitFailure);
  when (ends_capacity ch <? u64 len) (
    if u64 (8 * len) <=? max_alloc then
      set_ch (λ ch, MkHandler (buf ch) (buf_used ch) (ch_args ch) (arg_capacity ch) (grow (u64 len) (ends ch))
                      (ends_size ch))
    else stop ExitFailure).

(** The loop that cuts the buffer; [begin] is the offset of the next argument and
    [l] what [args] holds so far.  The length is a [size_t]: ends that decrease (a
    simple string inside the array moves [buf_used] back) make it wrap.  An
    allocation succeeds up to the largest object, [PTRDIFF_MAX]; one that fails
    ends the loop with [false].  An argument is seen as the C string at its start. *)
Definition PTRDIFF_MAX : Z := 2 ^ 63 - 1.

Fixpoint split_args (ch : CommandHandler) (es : list (option Z)) (begin : Z) (l : list (option bytes)) :
    res (bool * list (option bytes)) :=
  match es with
  | [] => Ok (true, l)
  | e :: es' =>
      e ← of_option Indeterminate e;
      let len := u64 (e - begin) in
      if negb (zlen l <? arg_capacity ch) then Stop BadAccess
      else if PTRDIFF_MAX <? u64 (len + 1) then Ok (false, l)
      else if buf_size ch <? begin + len then Stop BadAccess
      else
        arg ← of_option Indeterminate (read_buf ch begin (begin + len));
        split_args ch es' e (l ++ [Some (cstr arg)])
  end.

(** [arg_count] is reset by [begin_array_handler] only: at the end of an array in
    which another one ended, the arguments of the inner array come first, and they
    have been freed. *)
Definition end_array_handler : chM unit :=
  ch ← get_ch;
  '(complete, l) ← lift (split_args ch (take (Z.to_nat (ends_size ch)) (ends ch)) 0 (ch_args ch));
  _ ← set_ch (set_args l);
  when complete (
    args ← lift (of_option BadAccess (mapM id l));
    _ ← on_world (handle_command args);
    set_ch (set_args (replicate (length l) None))).

Definition begin_bulk_string_handler (len : Z) : chM unit :=
  ch ← get_ch;
  let required_size := u64 (buf_used ch + len) in
  when (buf_size ch <? required_size) (
    if required_size <=? max_alloc then set_ch (λ ch, set_buf (grow required_size (buf ch)) ch)
    else stop ExitFailure).

Definition end_bulk_string_handler : chM unit :=
  ch ← get_ch;
  if ends_size ch <? ends_capacity ch then
    set_ch (λ ch, MkHandler (buf ch) (buf_used ch) (ch_args ch) (arg_capacity ch)
                    (<[Z.to_nat (ends_size ch) := Some (buf_used ch)]> (ends ch)) (ends_size ch + 1))
  else stop BadAccess.

Definition chars_handler (data : bytes) : chM unit :=
  ch ← get_ch;
  if buf_used ch + zlen data <=? buf_size ch then
    set_ch (λ ch, set_used (buf_used ch + zlen data)
                    (set_buf (write_at (buf ch) (Z.to_nat (buf_used ch)) data) ch))
  else stop BadAccess.

Definition begin_simple_string_handler : chM unit := set_ch (set_used 0).

Definition end_simple_string_handler : chM unit :=
  ch ← get_ch;
  if buf_used ch <? buf_size ch then
    _ ← set_ch (λ ch, set_buf (<[Z.to_nat (buf_used ch) := Some NUL]> (buf ch)) ch);
    s ← lift (of_option Indeterminate (read_buf ch 0 (buf_used ch)));
    on_world (handle_simple_string_reply (cstr s))
  else
    on_world (modify (λ w, set_client (with_repl_client_state REPL_STATE_ERROR (w_client w)) w)).

(** It only writes a message. *)
Definition unimplemented : chM unit := mret tt.

Definition waits_for_snapshot (s : CommandHandler * world) : bool :=
  let c := w_client s.2 in
  bool_decide (type c = CLIENT_TYPE_MASTER) &&
  bool_decide (repl_client_state c = REPL_STATE_RECEIVED_FULLRESYNC_RESPONSE).

#[export] Instance create_handler : Handler (CommandHandler * world) := {
  begin_array := begin_array_handler;
  end_array := end_array_handler;
  begin_bulk_string := begin_bulk_string_handler;
  end_bulk_string := end_bulk_string_handler;
  chars := chars_handler;
  begin_simple_string := begin_simple_string_handler;
  end_simple_string := end_simple_string_handler;
  begin_error := unimplemented;
  end_error := unimplemented;
  begin_integer := unimplemented;
  end_integer := unimplemented;
  expects_snapshot := waits_for_snapshot
}.
End handler.

(** ** Who sends commands

    Every client, and the master once its announcement of a snapshot has been
    dealt with: no command changes the state of the link. *)

Definition takes_commands (c : Client) : Prop :=
  type c = CLIENT_TYPE_MASTER → repl_client_state c ≠ REPL_STATE_RECEIVED_FULLRESYNC_RESPONSE.

Lemma regular_takes c : type c ≠ CLIENT_TYPE_MASTER → takes_commands c.
Proof. by intros H ?. Qed.

Definition expects_commands (s : CommandHandler * world) : Prop := takes_commands (w_client s.2).

Lemma takes_commands_inv : client_inv takes_commands.
Proof. by constructor. Qed.

Lemma handle_command_expects args : preserves (λ w, takes_commands (w_client w)) (handle_command args).
Proof. apply handle_command_keeps; [apply (client_world_inv _ takes_commands_inv)|done]. Qed.

(** ** Collecting the arguments *)

Section collect.
Context (max_alloc : Z) (Hmax : max_alloc < 2 ^ 63).
#[local] Existing Instance create_handler.
#[local] Instance handler : Handler (CommandHandler * world) := create_handler max_alloc.

(** The calls that only move the handler's own state leave the world alone. *)
Definition local_call (f : chM unit) : Prop :=
  ∀ ch w ch' w', f (ch, w) = Ok (tt, (ch', w')) → w' = w.

Lemma local_calls n d :
  local_call (begin_array_handler max_alloc n) ∧ local_call (begin_bulk_string_handler max_alloc n) ∧
  local_call end_bulk_string_handler ∧ local_call (chars_handler d).
Proof.
  unfold local_call, begin_array_handler, begin_bulk_string_handler, end_bulk_string_handler,
    chars_handler, set_ch, get_ch, when.
  split_and!; intros ch w ch' w'; run_res; repeat case_match; naive_solver.
Qed.

#[export] Instance handler_inv : HandlerInv (CommandHandler * world) expects_commands.
Proof.
  constructor.
  - intros [ch w] H. cbn. unfold waits_for_snapshot. cbn.
    destruct (bool_decide (type (w_client w) = _)) eqn:E; [|done]. apply bool_decide_eq_true in E.
    by rewrite bool_decide_eq_false_2 by (by apply H).
  - intros n [ch w] [] [ch' w'] H E. apply (local_calls n []) in E. by subst.
  - intros [ch w] [] [ch' w'] H E. cbn in E. unfold end_array_handler in E.
    apply st_bind_inv in E as (c & s1 & [= <- <-] & E).
    apply st_bind_inv in E as ([complete l] & s1 & E1 & E). unfold lift in E1.
    destruct (split_args _ _ _ _) as [a|]; [|done]. injection E1 as -> <-.
    apply st_bind_inv in E as ([] & s1 & [= <-] & E). destruct complete; [|by injection E as <- <-]. cbn [when] in E.
    apply st_bind_inv in E as (args & s1 & E1 & E). unfold lift in E1.
    destruct (mapM id l) as [args'|]; [|done]. injection E1 as -> <-.
    apply st_bind_inv in E as ([] & s1 & E1 & E). unfold on_world in E1.
    destruct (handle_command args w) as [[[] w1]|] eqn:Ew; [|done].
    injection E1 as <-. injection E as <- <-. exact (handle_command_expects args _ _ _ H Ew).
  - intros n [ch w] [] [ch' w'] H E. apply (local_calls n []) in E. by subst.
  - intros [ch w] [] [ch' w'] H E. apply (local_calls 0 []) in E. by subst.
  - intros d [ch w] [] [ch' w'] H E. apply (local_calls 0 d) in E. by subst.
Qed.

(** The offsets at which the arguments end, the first one starting at [b]. *)
Fixpoint ends_from (b : Z) (args : list bytes) : list Z :=
  match args with [] => [] | a :: args' => (b + zlen a) :: ends_from (b + zlen a) args' end.

Lemma concat_snoc (args : list bytes) a : concat (args ++ [a]) = concat args ++ a.
Proof. rewrite concat_app. cbn [concat]. by rewrite app_nil_r. Qed.

Lemma ends_from_snoc b args a :
  ends_from b (args ++ [a]) = ends_from b args ++ [b + zlen (concat args) + zlen a].
Proof.
  revert b. induction args as [|x args IH]; intros b; cbn [ends_from app concat length].
  - by rewrite Z.add_0_r.
  - rewrite IH, zlen_app. do 3 f_equal. lia.
Qed.

Lemma ends_from_length b args : length (ends_from b args) = length args.
Proof. revert b. induction args as [|a args IH]; intros b; [done|]. cbn. by rewrite IH. Qed.

(** The handler has collected [args] of an array of [n] elements. *)
Record collected (n : Z) (args : list bytes) (ch : CommandHandler) : Prop := {
  c_used : buf_used ch = zlen (concat args);
  c_buf : take (length (concat args)) (buf ch) = Some <$> concat args;
  c_ends_size : ends_size ch = zlen args;
  c_ends : take (length args) (ends ch) = Some <$> ends_from 0 args;
  c_capacity : n ≤ ends_capacity ch;
  c_args : n ≤ arg_capacity ch;
  c_fresh : ch_args ch = []
}.

Lemma write_at_eq l i data :
  (i + length data ≤ length l)%nat →
  write_at l i data = take i l ++ (Some <$> data) ++ drop (i + length data) l.
Proof.
  revert l i. induction data as [|c data IH]; intros l i Hl; cbn [write_at fmap list_fmap length] in *.
  { by rewrite Nat.add_0_r, app_nil_l, take_drop. }
  rewrite IH by (rewrite length_insert; lia).
  rewrite (take_S_r _ _ (Some c)) by (apply list_lookup_insert_eq; lia).
  rewrite take_insert_ge, drop_insert_lt by lia.
  rewrite <- !app_assoc. cbn. do 3 f_equal. f_equal. lia.
Qed.

Lemma grow_take {A} n k (l : list (option A)) x :
  take k l = Some <$> x → length x = k → (k ≤ Z.to_nat n)%nat → take k (grow n l) = Some <$> x.
Proof.
  intros Hx Hlen Hk. apply (f_equal length) in Hx as Hl. rewrite length_fmap, length_take in Hl.
  unfold grow. rewrite take_app_le by (rewrite length_take; lia). by rewrite take_take, Nat.min_l by lia.
Qed.

Lemma grow_length {A} n (l : list (option A)) : zlen l ≤ n → zlen (grow n l) = n.
Proof. intros H. unfold grow. rewrite length_app, length_take, length_replicate. lia. Qed.

Lemma begin_array_collects n ch w :
  0 ≤ n → 8 * n ≤ max_alloc →
  ∃ ch', begin_array_handler max_alloc n (ch, w) = Ok (tt, (ch', w)) ∧ collected n [] ch'.
Proof.
  intros Hn Ha. unfold begin_array_handler. erewrite st_bind_ok by reflexivity. cbv beta.
  erewrite st_bind_ok by reflexivity. cbv beta. rewrite !(uwrap_small 64) by lia.
  unfold ends_capacity. cbn [fst arg_capacity ends reset_array].
  rewrite (proj2 (Z.leb_le (8 * n) _)) by done. unfold when.
  destruct (arg_capacity ch <? n) eqn:E1, (zlen (ends ch) <? n) eqn:E2; zbool;
    (eexists; split; [reflexivity|]; constructor; unfold ends_capacity; cbn; try done;
     rewrite ?grow_length by lia; lia).
Qed.

Lemma collected_size n args ch : collected n args ch → zlen (concat args) ≤ buf_size ch.
Proof.
  intros [_ H _ _ _ _ _]. apply (f_equal length) in H. rewrite length_fmap, length_take in H.
  unfold buf_size. lia.
Qed.

Lemma begin_bulk_collects n args ch w k :
  collected n args ch → 0 ≤ k → zlen (concat args) + k ≤ max_alloc →
  ∃ ch', begin_bulk_string_handler max_alloc k (ch, w) = Ok (tt, (ch', w)) ∧
    collected n args ch' ∧ zlen (concat args) + k ≤ buf_size ch'.
Proof.
  intros Hc Hk Ha. pose proof (collected_size _ _ _ Hc). destruct Hc as [Hu Hb Hs He Hcap Hargs Hnew].
  unfold begin_bulk_string_handler. erewrite st_bind_ok by reflexivity. cbv beta zeta. cbn [fst].
  rewrite (uwrap_small 64) by lia. rewrite Hu, (proj2 (Z.leb_le _ max_alloc)) by done. unfold when.
  destruct (buf_size ch <? _) eqn:E; zbool; (eexists; split; [reflexivity|]); [|split; [done|lia]].
  split; [constructor; try done|].
  - apply grow_take; [done|done|lia].
  - unfold buf_size in *. cbn. rewrite grow_length by lia. lia.
Qed.

(** The buffer after the bytes of an argument are copied, before its end is
    recorded. *)
Lemma chars_collects n args ch w a :
  collected n args ch → zlen (concat args) + zlen a ≤ buf_size ch →
  ∃ ch', chars_handler a (ch, w) = Ok (tt, (ch', w)) ∧
    buf_used ch' = zlen (concat (args ++ [a])) ∧
    take (length (concat (args ++ [a]))) (buf ch') = Some <$> concat (args ++ [a]) ∧
    ends_size ch' = ends_size ch ∧ ends ch' = ends ch ∧ arg_capacity ch' = arg_capacity ch ∧
    ch_args ch' = ch_args ch.
Proof.
  intros [Hu Hb Hs He Hcap Hargs Hnew] Hfit. unfold chars_handler. erewrite st_bind_ok by reflexivity.
  cbv beta. cbn [fst]. rewrite Hu, (proj2 (Z.leb_le _ _)) by done.
  eexists. split; [reflexivity|]. cbn [buf_used buf ends_size ends arg_capacity set_used set_buf].
  rewrite concat_snoc, zlen_app. split_and!; try done; [lia|].
  rewrite Hu, Nat2Z.id. rewrite write_at_eq by (unfold buf_size in *; lia).
  rewrite Hb, fmap_app, app_assoc, take_app_le by (rewrite !length_app, !length_fmap; lia).
  apply take_ge. rewrite !length_app, !length_fmap. lia.
Qed.

Lemma bulk_collects n args ch w a :
  collected n args ch → zlen args < n → zlen (concat args) + zlen a ≤ max_alloc →
  ∃ ch', bulk_calls a (ch, w) = Ok (tt, (ch', w)) ∧ collected n (args ++ [a]) ch'.
Proof.
  intros Hc Hn Ha.
  destruct (begin_bulk_collects n args ch w (zlen a) Hc ltac:(lia) Ha) as (ch1 & E1 & Hc1 & Hroom).
  destruct (chars_collects n args ch1 w a Hc1 Hroom) as (ch2 & E2 & Hu & Hb & Hs & He & Hcap & Hl).
  unfold bulk_calls. erewrite st_bind_ok by exact E1. erewrite st_bind_ok by exact E2.
  cbn [end_bulk_string handler create_handler]. unfold end_bulk_string_handler.
  erewrite st_bind_ok by reflexivity. cbv beta. cbn [fst].
  destruct Hc1 as [_ _ Hs1 He1 Hcap1 Hargs1 Hnew1]. unfold ends_capacity in *.
  rewrite Hs, He, Hs1, (proj2 (Z.ltb_lt _ _)) by lia. eexists. split; [reflexivity|].
  constructor; unfold ends_capacity; cbn; try done.
  - rewrite Hs, Hs1, zlen_app. cbn [length]. lia.
  - rewrite He, Hs, Hs1, Nat2Z.id, length_app. cbn [length].
    rewrite Nat.add_1_r, (take_S_r _ _ (Some (buf_used ch2))) by (apply list_lookup_insert_eq; lia).
    rewrite take_insert_ge, He1, ends_from_snoc, fmap_app by lia. cbn. do 3 f_equal.
    rewrite Hu, concat_snoc, zlen_app. lia.
  - rewrite length_insert, He. lia.
  - lia.
  - congruence.
Qed.

Lemma bulks_collect n args0 args ch w :
  collected n args0 ch → zlen args0 + zlen args ≤ n →
  zlen (concat (args0 ++ args)) ≤ max_alloc →
  ∃ ch', for_each bulk_calls args (ch, w) = Ok (tt, (ch', w)) ∧ collected n (args0 ++ args) ch'.
Proof.
  revert args0 ch. induction args as [|a args IH]; intros args0 ch Hc Hn Ha.
  { exists ch. by rewrite app_nil_r. }
  cbn [length] in Hn. rewrite concat_app, zlen_app in Ha. cbn [concat] in Ha. rewrite zlen_app in Ha.
  destruct (bulk_collects n args0 ch w a Hc) as (ch1 & E1 & Hc1); [lia|lia|].
  destruct (IH (args0 ++ [a]) ch1 Hc1) as (ch2 & E2 & Hc2).
  - rewrite zlen_app. cbn [length]. lia.
  - rewrite concat_app, concat_snoc, !zlen_app. lia.
  - exists ch2. rewrite <- app_assoc in Hc2. split; [|done].
    cbn [for_each]. by erewrite st_bind_ok by exact E1.
Qed.

(** Cutting the buffer gives the arguments back, as C strings. *)
Lemma split_args_eq ch b l args rest :
  0 ≤ b → zlen l + zlen args ≤ arg_capacity ch → Forall (λ a, zlen a < PTRDIFF_MAX) args →
  drop (Z.to_nat b) (buf ch) = (Some <$> concat args) ++ rest → b ≤ buf_size ch →
  split_args ch (Some <$> ends_from b args) b l = Ok (true, l ++ (Some <$> (cstr <$> args))).
Proof.
  intros Hb Hk Hlen. revert b l Hb Hk.
  induction Hlen as [|a args Ha _ IH]; intros b l Hb Hk Hbuf Hsz; [cbn; by rewrite app_nil_r|].
  cbn [ends_from fmap list_fmap split_args concat length] in *. rewrite fmap_app, <- app_assoc in Hbuf.
  assert (b + zlen a ≤ buf_size ch) as Hin.
  { apply (f_equal length) in Hbuf. rewrite length_drop, !length_app, length_fmap in Hbuf. unfold buf_size in *. lia. }
  unfold PTRDIFF_MAX in *. cbn [of_option mbind res_bind]. cbv zeta.
  replace (b + zlen a - b) with (zlen a) by lia. rewrite (uwrap_small 64 (zlen a)), (uwrap_small 64 (zlen a + 1)) by lia.
  rewrite (proj2 (Z.ltb_lt (zlen l) _)) by lia. cbn [negb]. rewrite !(proj2 (Z.ltb_ge _ _)) by lia.
  replace (read_buf ch b (b + zlen a)) with (Some a).
  2:{ unfold read_buf, slice. rewrite Hbuf.
      replace (Z.to_nat (b + zlen a - b)) with (length (Some <$> a)) by (rewrite length_fmap; lia).
      rewrite take_app_length. symmetry. apply mapM_Some. by apply Forall2_fmap_l, Forall_Forall2_diag, Forall_true. }
  cbn [of_option mbind res_bind]. rewrite IH; [by rewrite <- app_assoc|lia|rewrite zlen_app; cbn; lia| |lia].
  rewrite Z2Nat.inj_add, <- drop_drop, Hbuf, Nat2Z.id by lia.
  rewrite <- (length_fmap Some a) at 1. by rewrite drop_app_length.
Qed.

(** An array of arguments is run as the command it is. *)
Lemma array_calls_run args ch w :
  8 * zlen args ≤ max_alloc → zlen (concat args) ≤ max_alloc → Forall (λ a, zlen a < PTRDIFF_MAX) args →
  ∃ ch', array_calls args (ch, w) =
    match handle_command (cstr <$> args) w with
    | Ok (u, w') => Ok (u, (ch', w'))
    | Stop e => Stop e
    end.
Proof.
  intros Hn Ha Hlen. destruct (begin_array_collects (zlen args) ch w) as (ch1 & E1 & Hc1); [lia|done|].
  destruct (bulks_collect (zlen args) [] args ch1 w Hc1) as (ch2 & E2 & Hc2); [cbn; lia|done|].
  set (l := Some <$> (cstr <$> args)). exists (set_args (replicate (length l) None) (set_args l ch2)).
  unfold array_calls. erewrite st_bind_ok by exact E1. erewrite st_bind_ok by exact E2.
  cbn [end_array handler create_handler app] in *. unfold end_array_handler.
  erewrite st_bind_ok by reflexivity. cbv beta. cbn [fst].
  destruct Hc2 as [Hu Hb Hs He Hcap Hargs Hnew]. rewrite Hs, Nat2Z.id, He, Hnew.
  rewrite (split_args_eq ch2 0 [] args (drop (length (concat args)) (buf ch2)));
    [|lia|cbn; lia|done|cbn [Z.to_nat drop]; by rewrite <- Hb, take_drop|unfold buf_size; lia].
  erewrite st_bind_ok by reflexivity. cbv beta iota. erewrite st_bind_ok by reflexivity. cbn [when app]. fold l.
  assert (mapM id l = Some (cstr <$> args)) as ->
    by (apply mapM_Some; by apply Forall2_fmap_l, Forall_Forall2_diag, Forall_true).
  erewrite st_bind_ok by reflexivity. unfold mbind, st_bind, on_world.
  by destruct (handle_command (cstr <$> args) w) as [[[] w']|].
Qed.

Lemma concat_lengths (args : list bytes) : Forall (λ a, zlen a ≤ zlen (concat args)) args.
Proof.
  induction args as [|a args IH]; constructor; cbn [concat]; [rewrite zlen_app; lia|].
  eapply Forall_impl; [exact IH|]. intros x Hx. cbv beta in *. rewrite length_app. lia.
Qed.

(** The arguments as the handlers see them. *)
Definition c_strings (args : list bytes) : list bytes := cstr <$> args.

(** A command the parser can read and the allocator has room for. *)
Definition accepted (args : list bytes) : Prop :=
  command_fits args ∧ 8 * zlen args ≤ max_alloc ∧ zlen (concat args) ≤ max_alloc.

Lemma arrays_run cmds ch w :
  Forall accepted cmds →
  ∃ ch', for_each array_calls cmds (ch, w) =
    match for_each handle_command (c_strings <$> cmds) w with
    | Ok (u, w') => Ok (u, (ch', w'))
    | Stop e => Stop e
    end.
Proof.
  intros Hcmds. revert ch w. induction Hcmds as [|args cmds ([_ Hi] & Hn & Ha) _ IH]; intros ch w.
  { by exists ch. }
  assert (Forall (λ a, zlen a < PTRDIFF_MAX) args) as Hlen
    by (eapply Forall_impl; [exact Hi|]; unfold INT_MAX, PTRDIFF_MAX; intros a; lia).
  destruct (array_calls_run args ch w Hn Ha Hlen) as (ch1 & E1).
  cbn [for_each fmap list_fmap]. unfold mbind, st_bind. rewrite E1.
  change (c_strings args) with (cstr <$> args).
  destruct (handle_command (cstr <$> args) w) as [[[] w1]|]; [|by exists ch].
  destruct (IH ch1 w1) as (ch2 & E2). exists ch2. exact E2.
Qed.

Lemma pipeline_runs M begin cmds rest ch w :
  expects_commands (ch, w) → 0 ≤ begin → Forall accepted cmds →
  drop (Z.to_nat begin) M = commands_bytes cmds ++ rest →
  ∃ ch', parser_parse M (commands_steps cmds) begin (begin + zlen (commands_bytes cmds))
           (parser_init, (ch, w)) =
    match for_each handle_command (c_strings <$> cmds) w with
    | Ok (_, w') => Ok (begin + zlen (commands_bytes cmds), (parser_init, (ch', w')))
    | Stop e => Stop e
    end.
Proof.
  intros Hnm Hb Hcmds HM. destruct (arrays_run cmds ch w Hcmds) as (ch' & E). exists ch'.
  rewrite (commands_run expects_commands M begin cmds (ch, w) rest Hnm Hb); [|by eapply Forall_impl; [exact Hcmds|intros ? []]|done].
  unfold after. rewrite E. by destruct (for_each handle_command _ w) as [[[] w']|].
Qed.
End collect.

(** C6: a client, or the master when no snapshot is due, sends any number of
    commands at once, as arrays of bulk strings.  The parser reads exactly their bytes and is
    ready for the next command, and the handlers run on their arguments (up to
    a NUL byte) in order; the run stops only where a handler stops. *)
Theorem server_runs_pipeline max_alloc M begin cmds rest ch w :
  max_alloc < 2 ^ 63 → expects_commands (ch, w) → 0 ≤ begin → Forall (accepted max_alloc) cmds →
  drop (Z.to_nat begin) M = commands_bytes cmds ++ rest →
  let end_ := begin + zlen (commands_bytes cmds) in
  ∃ ch', parser_parse (HS := create_handler max_alloc) M (commands_steps cmds) begin end_
           (parser_init, (ch, w)) =
    match for_each handle_command (c_strings <$> cmds) w with
    | Ok (_, w') => Ok (end_, (parser_init, (ch', w')))
    | Stop e => Stop e
    end.
Proof. intros Hmax Hnm Hb Hcmds HM. by eapply pipeline_runs. Qed.

Lemma server_runs_pipeline_witness :
  let cmds := [[lit "SET"; lit "k"; lit "v"]; [lit "GET"; lit "k"]] in
  ∃ ch', parser_parse (HS := create_handler 1048576) (commands_bytes cmds ++ [NUL]) (commands_steps cmds)
           0 (zlen (commands_bytes cmds)) (parser_init, (create_command_handler 256 10, world0)) =
    match for_each handle_command cmds world0 with
    | Ok (_, w') => Ok (zlen (commands_bytes cmds), (parser_init, (ch', w')))
    | Stop e => Stop e
    end.
Proof.
  intros cmds. refine (server_runs_pipeline 1048576 (commands_bytes cmds ++ [NUL]) 0 cmds [NUL]
    (create_command_handler 256 10) world0 _ _ _ _ _); [lia|discriminate|lia| |reflexivity].
  repeat constructor; vm_compute; discriminate.
Defined.

(** C28: an inline command runs.  A line of plain words, with one space between
    two of them, whose first character is none of those that announce a value of the
    protocol (plus, minus, colon, dollar, star), runs the command of its words, when
    a NUL byte stands directly behind its line end in the memory the parser is given:
    nothing pipelined and nothing left of earlier input follows it. *)
Theorem inline_command_runs max_alloc M begin a args rest ch w :
  max_alloc < 2 ^ 63 → expects_commands (ch, w) → 0 ≤ begin →
  starts_line a → word a → Forall word args →
  8 * zlen (a :: args) ≤ max_alloc → zlen (concat (a :: args)) < max_alloc →
  drop (Z.to_nat begin) M = line a args ++ CRLF ++ NUL :: rest →
  let end_ := begin + zlen (line a args) + 2 in
  ∃ ch', parser_parse (HS := create_handler max_alloc) M 3 begin end_ (parser_init, (ch, w)) =
    match handle_command (a :: args) w with
    | Ok (_, w') => Ok (end_, (parser_init, (ch', w')))
    | Stop e => Stop e
    end.
Proof.
  intros Hmax Hnm Hb Hst Ha Hargs Hn Hbytes HM end_.
  assert (Forall (λ x, zlen x < PTRDIFF_MAX) (a :: args)) as Hlen.
  { eapply Forall_impl; [apply concat_lengths|]. unfold PTRDIFF_MAX. intros x. cbv beta. lia. }
  destruct (array_calls_run max_alloc Hmax (a :: args) ch w Hn ltac:(lia) Hlen) as (ch' & E). exists ch'.
  unfold end_. rewrite (line_run (HS := create_handler max_alloc) expects_commands M begin (ch, w) a args rest) by done.
  unfold handler in E. unfold after. rewrite E.
  assert (cstr <$> (a :: args) = a :: args) as ->.
  { rewrite <- (list_fmap_id (a :: args)) at 2. apply list_fmap_ext. intros i x Hx.
    apply cstr_id, word_no_nul. by eapply (Forall_lookup_1 word (a :: args)); [constructor|]. }
  by destruct (handle_command (a :: args) w) as [[[] w']|].
Qed.

Lemma inline_command_runs_witness :
  ∃ ch', parser_parse (HS := create_handler 1048576) (lit "SET k v" ++ CRLF ++ [NUL]) 3 0 9
           (parser_init, (create_command_handler 256 10, world0)) =
    match handle_command [lit "SET"; lit "k"; lit "v"] world0 with
    | Ok (_, w') => Ok (9, (parser_init, (ch', w')))
    | Stop e => Stop e
    end.
Proof.
  refine (inline_command_runs 1048576 (lit "SET k v" ++ CRLF ++ [NUL]) 0 (lit "SET") [lit "k"; lit "v"] []
    (create_command_handler 256 10) world0 _ _ _ _ _ _ _ _ _);
    [lia|discriminate|lia| | |..|reflexivity]; repeat constructor; vm_compute; discriminate.
Defined.

(** C39: an array header with a negative length ends the process: the length is
    compared as an unsigned number, and the reallocation it asks for fails.  No
    authentication or earlier input is needed. *)
Theorem negative_array_length_exits max_alloc M fuel begin end_ n rest ch w :
  max_alloc < 2 ^ 63 → expects_commands (ch, w) → 0 ≤ begin → arg_capacity ch < 2 ^ 63 →
  INT_MIN ≤ n < 0 →
  drop (Z.to_nat begin) M = lit "*" ++ fmt_ld n ++ CRLF ++ rest →
  begin + zlen (fmt_ld n) + 3 ≤ end_ →
  parser_parse (HS := create_handler max_alloc) M (2 + fuel) begin end_ (parser_init, (ch, w)) =
    Stop ExitFailure.
Proof.
  intros Hmax Hnm Hb Hcap Hn HM Hend. unfold INT_MIN in Hn.
  rewrite (array_header_run expects_commands M fuel begin end_ n (ch, w) rest)
    by (try done; unfold INT_MIN, INT_MAX; lia).
  assert (∀ z, - 2 ^ 34 ≤ z < 0 → u64 z = z + 2 ^ 64) as Hu.
  { intros z Hz. unfold uwrap. symmetry. apply (Zmod_unique _ _ (-1)); lia. }
  cbn [begin_array create_handler]. unfold begin_array_handler.
  erewrite st_bind_ok by reflexivity. cbv beta. erewrite st_bind_ok by reflexivity. cbv beta.
  rewrite !Hu by lia. cbn [fst arg_capacity reset_array].
  rewrite (proj2 (Z.ltb_lt (arg_capacity ch) _)) by lia.
  by rewrite (proj2 (Z.leb_gt _ max_alloc)) by lia.
Qed.

Lemma negative_array_length_exits_witness :
  parser_parse (HS := create_handler 1048576) (lit "*-1" ++ CRLF) 2 0 5
    (parser_init, (create_command_handler 256 10, world0)) = Stop ExitFailure.
Proof.
  refine (negative_array_length_exits 1048576 (lit "*-1" ++ CRLF) 0 0 5 (-1) []
    (create_command_handler 256 10) world0 _ _ _ _ _ _ _); try reflexivity; try lia; try discriminate.
  - split; [discriminate|reflexivity].
Defined.

(** An empty array is run as a command without a name: the first argument
    is read though none was stored. *)
Theorem empty_array_reads_unset_argument max_alloc M begin rest ch w :
  0 ≤ max_alloc < 2 ^ 63 → expects_commands (ch, w) → 0 ≤ begin →
  drop (Z.to_nat begin) M = lit "*0" ++ CRLF ++ rest →
  parser_parse (HS := create_handler max_alloc) M 4 begin (begin + 4) (parser_init, (ch, w)) =
    Stop Indeterminate.
Proof.
  intros Hmax Hnm Hb HM.
  destruct (pipeline_runs max_alloc ltac:(lia) M begin [[]] rest ch w Hnm Hb) as (ch' & E); [|done|exact E].
  constructor; [|constructor]. split; [|cbn; lia]. split; [vm_compute; discriminate|constructor].
Qed.

Lemma empty_array_reads_unset_argument_witness :
  parser_parse (HS := create_handler 1048576) (lit "*0" ++ CRLF) 4 0 4
    (parser_init, (create_command_handler 256 10, world0)) = Stop Indeterminate.
Proof.
  refine (empty_array_reads_unset_argument 1048576 (lit "*0" ++ CRLF) 0 [] _ world0 _ _ _ _);
    [lia|discriminate|lia|reflexivity].
Defined.

(** ** Arrays that are not commands *)

(** What is left of a run: where the parser stands, and the output. *)
Definition outcome (r : res (Z * (Parser * (CommandHandler * world)))) : res (Z * bytes) :=
  match r with Ok (n, (_, (_, w))) => Ok (n, contents (out w)) | Stop e => Stop e end.

Definition parse_fresh (input : bytes) : res (Z * bytes) :=
  outcome (parser_parse (HS := create_handler 1048576) input 40 0 (zlen input)
    (parser_init, (create_command_handler 256 10, world0))).

(** An array in an array: the inner one is run, and at the end of the outer one
    the first argument has been freed. *)
Example nested_array_uses_freed_argument :
  parse_fresh (lit "*1" ++ CRLF ++ lit "*1" ++ CRLF ++ lit "$4" ++ CRLF ++ lit "PING" ++ CRLF) = Stop BadAccess.
Proof. vm_compute. reflexivity. Qed.

(** A simple string moves [buf_used] back: the next length wraps.  Two bytes back,
    the allocation fails and the command is dropped without a reply; one byte back,
    nothing is allocated and [SIZE_MAX] bytes are copied. *)
Example simple_string_in_array_drops_command :
  let array reply := lit "*3" ++ CRLF ++ lit "$4" ++ CRLF ++ lit "PING" ++ CRLF ++ lit reply ++ CRLF ++
                     lit "$0" ++ CRLF ++ CRLF in
  parse_fresh (array "+OK") = Ok (zlen (array "+OK"), []) ∧ parse_fresh (array "+abc") = Stop BadAccess.
Proof. vm_compute. split; reflexivity. Qed.
