(* ===== verification/ParserTerm.v ===== *)
(** * The parser on any input

    Whatever bytes arrive, and whatever the handler does, the stack of the
    parser keeps its shape; and the parser returns, on malformed and truncated
    input too.  Both are proved with one weakest-precondition calculus for the
    parse functions. *)

From S2P Require Import Prelude CLib Util Database RespWriter ServerState Commands CommandSpec.
From S2P Require Import KeyspaceRun Halting RespParser RespInline CommandHandler.

(** ** The shape of the stack *)

Definition terminal (st : StateInfo) : Prop :=
  s_type st = STATE_INITIAL_TERMINAL ∧ s_parse st = Parse_initial ∧ s_end st = No_callback.

(** An array with [Q] of the elements it still waits for. *)
Definition array_state (Q : Z → Prop) (st : StateInfo) : Prop :=
  s_type st = STATE_ARRAY ∧ s_parse st = Parse_array ∧ s_end st = End_array ∧ Q (s_length st).

(** What can be on top of arrays: each type with its function and callback. *)
Inductive top_state (Q : Z → Prop) : StateInfo → Prop :=
| top_initial n : top_state Q (MkState STATE_INITIAL n Parse_initial No_callback)
| top_simple n e : e ∈ [End_simple_string; End_error; End_integer] →
    top_state Q (MkState STATE_SIMPLE n Parse_simple e)
| top_array_length n : top_state Q (MkState STATE_ARRAY_LENGTH n Parse_length End_array)
| top_bulk_length n : top_state Q (MkState STATE_BULK_STRING_LENGTH n Parse_length End_bulk_string)
| top_bulk n : top_state Q (MkState STATE_BULK_STRING n Parse_bulk_string End_bulk_string)
| top_array n : Q n → top_state Q (MkState STATE_ARRAY n Parse_array End_array)
| top_inline n : top_state Q (MkState STATE_INLINE_COMMAND n Parse_inline_command No_callback).

(** The first state at the bottom, arrays above it, and one more state. *)
Inductive stack_ok (Q : Z → Prop) : Parser → Prop :=
| stack_bottom st : terminal st → stack_ok Q (MkParser st [])
| stack_above st arrays bottom :
    top_state Q st → Forall (array_state Q) arrays → terminal bottom → zlen arrays < MAX_STACK_DEPTH - 1 →
    stack_ok Q (MkParser st (arrays ++ [bottom])).

(** The work a stack stands for besides reading bytes; the first state counts
    when it is on top. *)
Definition state_weight (st : StateInfo) : nat :=
  match s_type st with
  | STATE_INITIAL => 2
  | STATE_INLINE_COMMAND => 1
  | STATE_BULK_STRING => 3
  | STATE_ARRAY => Z.to_nat (3 * s_length st + 3)
  | _ => 0
  end.
Definition top_weight (st : StateInfo) : nat :=
  match s_type st with STATE_INITIAL_TERMINAL => 2 | _ => state_weight st end.
Definition weight (p : Parser) : nat := top_weight (s_top p) + sum_list_with state_weight (s_below p).

Section stack.
Context (Q : Z → Prop).

Lemma array_on_top st : array_state Q st → top_state Q st.
Proof. destruct st. intros (? & ? & ? & ?). simpl in *. subst. by constructor. Qed.

Lemma top_state_weight st : top_state Q st → top_weight st = state_weight st.
Proof. by destruct 1. Qed.

Lemma terminal_weight st : terminal st → state_weight st = 0%nat ∧ top_weight st = 2%nat.
Proof. intros (E & _). unfold top_weight, state_weight. by rewrite E. Qed.

(** Popping what is on top of the arrays. *)
Lemma pop_ok st arrays bottom :
  Forall (array_state Q) arrays → terminal bottom → zlen arrays < MAX_STACK_DEPTH - 1 →
  let p := pop_state (MkParser st (arrays ++ [bottom])) in
  stack_ok Q p ∧ (weight p ≤ sum_list_with state_weight arrays + 2)%nat.
Proof.
  intros Ha Hb Hl. destruct (terminal_weight bottom Hb) as [W1 W2].
  destruct Ha as [|a arrays Ha Has]; cbn [app pop_state s_below] in *.
  - split; [by constructor|]. unfold weight. cbn. lia.
  - split; [constructor; try done; [by apply array_on_top|cbn in Hl; lia]|].
    unfold weight. cbn [s_top s_below]. rewrite (top_state_weight a) by (by apply array_on_top).
    rewrite sum_list_with_app. cbn. lia.
Qed.

(** A bound on it, whatever the lengths of the arrays. *)
Definition max_weight : nat := Z.to_nat (32 * (3 * INT_MAX + 3)).

Lemma top_state_bound st :
  (∀ n, Q n → 0 ≤ n ≤ INT_MAX) → top_state Q st → Z.of_nat (state_weight st) ≤ 3 * INT_MAX + 3.
Proof. intros Hq. destruct 1 as [| | | | |n Hn|]; unfold state_weight, INT_MAX in *; cbn [s_type s_length]; try lia. specialize (Hq n Hn). lia. Qed.

Lemma stack_weight p : (∀ n, Q n → 0 ≤ n ≤ INT_MAX) → stack_ok Q p → (weight p ≤ max_weight)%nat.
Proof.
  intros Hq Hp. destruct Hp as [st Hst|st arrays bottom Ht Ha Hb Hl]; unfold weight; cbn [s_top s_below].
  - destruct (terminal_weight st Hst) as [_ ->]. unfold max_weight, INT_MAX. cbn [sum_list_with]. lia.
  - rewrite (top_state_weight st) by done. pose proof (top_state_bound st Hq Ht) as Hst.
    destruct (terminal_weight bottom Hb) as [Hbot _]. rewrite sum_list_with_app. cbn [sum_list_with]. rewrite Hbot.
    assert (Z.of_nat (sum_list_with state_weight arrays) ≤ zlen arrays * (3 * INT_MAX + 3)) as Hsum.
    { clear Hl. induction Ha as [|a arrays Ha _ IH]; [done|]. cbn [sum_list_with].
      pose proof (top_state_bound a Hq (array_on_top a Ha)). rewrite length_cons. lia. }
    unfold max_weight, MAX_STACK_DEPTH, INT_MAX in *. lia.
Qed.
End stack.

(** ** A calculus for the parse functions *)

(** What is asked of the handler: [R] is kept, an array is begun only with an
    admissible length, and a fault is one of [Bad]. *)
Definition keeps {S} (R : S → Prop) (Bad : fault → Prop) (r : res (unit * S)) : Prop :=
  match r with Ok (_, s) => R s | Stop e => Bad e end.

Class HandlerSafe (S : Type) `{Handler S} (N : Z) (R : S → Prop) (Bad : fault → Prop) (Q : Z → Prop) : Prop := {
  safe_begin_array n s : R s → INT_MIN ≤ n ≤ N → keeps R Bad (begin_array n s);
  safe_length n s s' : R s → INT_MIN ≤ n ≤ INT_MAX → begin_array n s = Ok (tt, s') → Q n;
  safe_end_array s : R s → keeps R Bad (end_array s);
  safe_begin_bulk n s : R s → keeps R Bad (begin_bulk_string n s);
  safe_end_bulk s : R s → keeps R Bad (end_bulk_string s);
  safe_chars d s : R s → keeps R Bad (chars d s);
  safe_begin_simple s : R s → keeps R Bad (begin_simple_string s);
  safe_end_simple s : R s → keeps R Bad (end_simple_string s);
  safe_begin_error s : R s → keeps R Bad (begin_error s);
  safe_end_error s : R s → keeps R Bad (end_error s);
  safe_begin_integer s : R s → keeps R Bad (begin_integer s);
  safe_end_integer s : R s → keeps R Bad (end_integer s)
}.

Section calculus.
Context {S : Type} `{HS : Handler S} (N : Z) (R : S → Prop) (Bad : fault → Prop) (Q : Z → Prop) (M : bytes).
Context {Hsafe : HandlerSafe S N R Bad Q}.
Context (Hbad : ∀ e, hangs e = false → Bad e).
Context (Hpred : ∀ n, Q n → n ≠ 0 → n ≠ -1 → Q (s64 (n - 1))) (HN : INT_MAX ≤ N) (HM : zlen M ≤ N).

Definition wp {A} (f : st (Parser * S) A) (ps : Parser * S) (P : A → Parser * S → Prop) : Prop :=
  match f ps with Ok (a, ps') => P a ps' | Stop e => Bad e end.

Lemma wp_bind {A B} (f : st (Parser * S) A) (g : A → st (Parser * S) B) ps P :
  wp f ps (λ a ps', wp (g a) ps' P) → wp (f ≫= g) ps P.
Proof. unfold wp, mbind, st_bind. by destruct (f ps) as [[a ps']|]. Qed.

Lemma wp_ret {A} (a : A) ps (P : A → Parser * S → Prop) : P a ps → wp (mret a) ps P.
Proof. done. Qed.

Lemma wp_handler f p s (P : unit → Parser * S → Prop) :
  keeps R Bad (f s) → (∀ s', R s' → f s = Ok (tt, s') → P tt (p, s')) → wp (on_handler f) (p, s) P.
Proof. unfold wp, on_handler, keeps. destruct (f s) as [[[] s']|]; auto. Qed.

Lemma wp_parser f p s (P : unit → Parser * S → Prop) : P tt (f p, s) → wp (on_parser f) (p, s) P.
Proof. done. Qed.

Lemma wp_top p s (P : StateInfo → Parser * S → Prop) : P (s_top p) (p, s) → wp top (p, s) P.
Proof. done. Qed.

Lemma wp_byte i ps (P : byte → Parser * S → Prop) :
  (∀ c, M !! Z.to_nat i = Some c → P c ps) → wp (byte_at M i) ps P.
Proof. unfold wp, byte_at, lift. intros HP. destruct (M !! Z.to_nat i); cbn; auto. Qed.

Lemma wp_stop {A} e ps (P : A → Parser * S → Prop) : hangs e = false → wp (stop e) ps P.
Proof. apply Hbad. Qed.

Lemma wp_chars from to p s (P : unit → Parser * S → Prop) :
  R s → (∀ s', R s' → from ≤ to → P tt (p, s')) → wp (chars_between M from to) (p, s) P.
Proof.
  intros HRs HP. unfold chars_between. destruct (to <? from) eqn:E; [by apply wp_stop|]. zbool.
  apply wp_handler; [by apply safe_chars|]. intros s' HR' _. by apply HP.
Qed.

(** ** One step *)

(** The stack keeps its shape, and a step that goes on reads something or has
    less to do. *)
Definition advances (begin : Z) (p : Parser) (r : ParseResult) (ps : Parser * S) : Prop :=
  stack_ok Q ps.1 ∧ R ps.2 ∧
  (keep_going r = true →
     (begin < new_begin r ∧ begin < zlen M) ∨
     (new_begin r = begin ∧ ((∀ n, Q n → 0 ≤ n ≤ INT_MAX) → (weight ps.1 < weight p)%nat))).

Lemma stays begin p r s : stack_ok Q p → R s → keep_going r = false → advances begin p r (p, s).
Proof. intros Hp HRs Hk. split_and!; [done|done|]. by rewrite Hk. Qed.

Lemma reads begin p p' n s :
  stack_ok Q p' → R s → begin < n → begin < zlen M → advances begin p (MkResult true n) (p', s).
Proof. intros. split_and!; [done|done|]. intros _. by left. Qed.

(** The state that [parse_initial] pushes takes the place of STATE_INITIAL. *)
Lemma initial_push p next :
  stack_ok Q p → s_parse (s_top p) = Parse_initial → top_state Q next →
  let p' := push_state next (if bool_decide (s_type (s_top p) = STATE_INITIAL) then pop_state p else p) in
  stack_ok Q p' ∧ (state_weight next ≤ 1 → weight p' < weight p)%nat.
Proof.
  intros Hp Hf Hn. pose proof (top_state_weight Q next Hn) as Hw.
  destruct Hp as [st Hst|st arrays bottom Hst Ha Hb Hl]; cbn [s_top] in *.
  - destruct (terminal_weight st Hst) as [W1 W2]. pose proof Hst as (E & _). rewrite E. rewrite bool_decide_eq_false_2 by done.
    rewrite push_room by done. cbn [s_top s_below].
    split; [by apply (stack_above Q next [] st)|]. unfold weight. cbn. rewrite Hw. lia.
  - destruct Hst; try done. rewrite bool_decide_eq_true_2 by done.
    assert (push_state next (pop_state (MkParser (MkState STATE_INITIAL n Parse_initial No_callback) (arrays ++ [bottom]))) =
      MkParser next (arrays ++ [bottom])) as ->.
    { destruct arrays as [|a arrays]; cbn [app pop_state s_below]; rewrite push_room; try done;
        unfold stack_top, MAX_STACK_DEPTH in *; cbn [s_below]; rewrite ?zlen_app; cbn in *; lia. }
    split; [by constructor|]. unfold weight. cbn [s_top s_below top_weight state_weight s_type]. rewrite Hw. lia.
Qed.

Lemma byte_inside i c : 0 ≤ i → M !! Z.to_nat i = Some c → i < zlen M.
Proof. intros Hi Hc%lookup_lt_Some. lia. Qed.

Lemma initial_advances begin end_ p s :
  stack_ok Q p → R s → 0 ≤ begin → s_parse (s_top p) = Parse_initial →
  wp (parse_initial M begin end_) (p, s) (advances begin p).
Proof.
  intros Hp HRs Hb Hf. unfold parse_initial. destruct (begin =? end_); [by apply wp_ret, stays|].
  apply wp_bind, wp_top, wp_bind.
  set (p1 := if bool_decide (s_type (s_top p) = STATE_INITIAL) then pop_state p else p).
  assert (when (bool_decide (s_type (s_top p) = STATE_INITIAL)) (on_parser pop_state) (p, s) = Ok (tt, (p1, s))) as Hw
    by (unfold when, p1; by destruct (bool_decide _)).
  unfold wp at 1. rewrite Hw. apply wp_bind, wp_byte. intros c Hc. pose proof (byte_inside _ _ Hb Hc) as Hin.
  pose proof (λ next, initial_push p next Hp Hf) as Hpush. fold p1 in Hpush.
  repeat case_match.
  1,2: apply wp_bind, wp_handler; [first [by apply safe_begin_simple|by apply safe_begin_error]|intros s' HRs' _];
    apply wp_bind, wp_parser, wp_ret, reads; try done; [apply Hpush; constructor; set_solver|lia].
  - apply wp_bind, wp_parser, wp_bind, wp_handler; [by apply safe_begin_integer|intros s' HRs' _].
    apply wp_ret, reads; try done; [apply Hpush; constructor; set_solver|lia].
  - apply wp_bind, wp_parser, wp_ret, reads; try done; [apply Hpush; constructor|lia].
  - apply wp_bind, wp_parser, wp_ret, reads; try done; [apply Hpush; constructor|lia].
  - apply wp_bind, wp_parser, wp_ret.
    destruct (Hpush (MkState STATE_INLINE_COMMAND 0 Parse_inline_command No_callback)) as [Hok Hless]; [constructor|].
    split_and!; [done|done|]. intros _. right. split; [done|]. intros _. by apply Hless.
Qed.

Lemma find_cr_ge l pos : pos ≤ find_cr l pos ≤ pos + zlen l.
Proof. revert pos. induction l as [|c l IH]; intros pos; cbn; [lia|]. case_bool_decide; [lia|]. specialize (IH (pos + 1)). lia. Qed.

Lemma wp_callback e p s (P : unit → Parser * S → Prop) :
  R s → (∀ s', R s' → P tt (p, s')) → wp (callback e) (p, s) P.
Proof.
  intros HRs HP. destruct e; cbn [callback]; [by apply wp_stop|..]; (apply wp_handler; [|intros s' HRs' _; by apply HP]).
  - by apply safe_end_simple.
  - by apply safe_end_error.
  - by apply safe_end_integer.
  - by apply safe_end_bulk.
  - by apply safe_end_array.
Qed.

(** Every state but the first two is popped when it is done. *)
Lemma pop_top st below s p n begin :
  stack_ok Q (MkParser st below) → ¬ terminal st → R s → begin < n → begin < zlen M →
  advances begin p (MkResult true n) (pop_state (MkParser st below), s).
Proof.
  intros Hp Hst HRs Hn Hb. inversion Hp; subst; [done|]. apply reads; try done. by apply pop_ok.
Qed.

Lemma simple_advances begin end_ p s :
  stack_ok Q p → R s → 0 ≤ begin → s_parse (s_top p) = Parse_simple →
  wp (parse_simple M begin end_) (p, s) (advances begin p).
Proof.
  intros Hp HRs Hb Hf. unfold parse_simple. destruct (begin =? end_); [by apply wp_ret, stays|].
  set (pos := find_cr _ _). assert (begin ≤ pos) as Hpos by apply find_cr_ge. clearbody pos.
  apply wp_bind, wp_chars; [done|]. intros s1 HR1 _. destruct (end_ - pos <? 2); [by apply wp_ret, stays|].
  apply wp_bind, wp_byte. intros c Hc%byte_inside; [|lia]. case_bool_decide; [|by apply wp_ret, stays].
  apply wp_bind, wp_top, wp_bind, wp_callback; [done|]. intros s2 HR2. apply wp_bind, wp_parser, wp_ret.
  destruct p as [st below]. apply pop_top; try done; [|lia|lia]. intros (_ & E & _). cbn in Hf. congruence.
Qed.

Lemma replace_top p st below next :
  p = MkParser st below → stack_ok Q p → ¬ terminal st → top_state Q next →
  stack_ok Q (push_state next (pop_state p)).
Proof.
  intros -> Hp Hst Hn. inversion Hp as [|? arrays bottom Ht Ha Hb Hl]; subst; [done|].
  assert (push_state next (pop_state (MkParser st (arrays ++ [bottom]))) = MkParser next (arrays ++ [bottom])) as ->;
    [|by constructor].
  destruct arrays as [|a arrays]; cbn [app pop_state s_below]; rewrite push_room; try done;
    unfold stack_top, MAX_STACK_DEPTH in *; cbn [s_below]; rewrite ?zlen_app; cbn in *; lia.
Qed.

Lemma length_advances begin end_ p s :
  stack_ok Q p → R s → 0 ≤ begin → s_parse (s_top p) = Parse_length →
  wp (parse_length M begin end_) (p, s) (advances begin p).
Proof.
  intros Hp HRs Hb Hf. unfold parse_length. destruct (begin =? end_); [by apply wp_ret, stays|].
  pose proof (strtol_bounds (drop (Z.to_nat begin) M)) as [Hend _].
  set (r := strtol _) in *. cbv zeta. destruct (_ <=? st_scanned r) eqn:Esc; [by apply wp_stop|]. zbool.
  assert (begin < zlen M) as Hin by (rewrite length_drop in Esc; lia).
  destruct (_ || _); [by apply wp_ret, stays|].
  apply wp_bind, wp_byte. intros c0 _. apply wp_bind, wp_byte. intros c1 _.
  destruct (_ || _); [by apply wp_ret, stays|]. destruct (_ || _) eqn:Erange; [by apply wp_ret, stays|].
  apply orb_false_elim in Erange as [Ehi Elo]. zbool.
  assert (s32 (st_value r) = st_value r) as -> by (apply swrap_small; unfold INT_MIN, INT_MAX in *; lia).
  apply wp_bind, wp_top. destruct p as [st below].
  assert (¬ terminal st) as Hnt by (intros (_ & E & _); cbn in Hf; congruence).
  case_bool_decide; [|case_bool_decide; [|by apply wp_ret, stays]].
  - apply wp_bind, wp_parser, wp_bind, wp_handler; [apply safe_begin_array; [done|lia]|].
    intros s1 HR1 E1. apply wp_bind, wp_parser, wp_ret, reads; try done; [|lia].
    eapply replace_top; try done. constructor. eapply (safe_length (N := N)); [exact HRs| |exact E1]. lia.
  - apply wp_bind, wp_parser, wp_bind, wp_handler; [by apply safe_begin_bulk|].
    intros s1 HR1 E1. apply wp_bind, wp_parser, wp_ret, reads; try done; [|lia].
    eapply replace_top; try done. constructor.
Qed.

(** A state that is popped without reading has a weight of its own. *)
Lemma pop_lighter st below s begin :
  stack_ok Q (MkParser st below) → top_state Q st → R s → (2 < state_weight st)%nat →
  advances begin (MkParser st below) (MkResult true begin) (pop_state (MkParser st below), s).
Proof.
  intros Hp Ht HRs Hw. pose proof (top_state_weight Q st Ht) as Hwt.
  inversion Hp as [? Hst|? arrays bottom _ Ha Hb Hl]; subst.
  - destruct Ht; by destruct Hst.
  - destruct (pop_ok Q st arrays bottom Ha Hb Hl) as [Hok Hlt]. split_and!; [done|done|]. intros _. right.
    split; [done|]. intros _. eapply Nat.le_lt_trans; [exact Hlt|]. unfold weight. cbn [s_top s_below].
    rewrite sum_list_with_app, Hwt. lia.
Qed.

Lemma bulk_advances begin end_ p s :
  stack_ok Q p → R s → 0 ≤ begin → end_ ≤ zlen M → s_parse (s_top p) = Parse_bulk_string →
  wp (parse_bulk_string M begin end_) (p, s) (advances begin p).
Proof.
  intros Hp HRs Hb He Hf. destruct p as [st below]. cbn [s_top] in Hf.
  assert (top_state Q st ∧ state_weight st = 3%nat ∧ ¬ terminal st) as (Ht & Hw & Hnt).
  { inversion Hp as [? (_ & E & _)|? ? ? Ht]; subst; [congruence|].
    destruct Ht; try done. split_and!; [constructor|done|]. intros (E & _). done. }
  unfold parse_bulk_string. apply wp_bind, wp_top. cbv zeta. destruct (_ =? -1).
  - apply wp_bind, wp_handler; [by apply safe_end_bulk|]. intros s1 HR1 _. apply wp_bind, wp_parser, wp_ret.
    apply pop_lighter; [done|done|done|lia].
  - destruct (begin =? end_); [by apply wp_ret, stays|].
    apply wp_bind, wp_chars; [done|]. intros s1 HR1 Hle. destruct (_ && _) eqn:E; [|by apply wp_ret, stays].
    apply andb_prop in E as [_ E]. zbool.
    apply wp_bind, wp_handler; [by apply safe_end_bulk|]. intros s2 HR2 _. apply wp_bind, wp_parser, wp_ret.
    apply pop_top; try done; lia.
Qed.

Lemma array_advances begin end_ p s :
  stack_ok Q p → R s → s_parse (s_top p) = Parse_array → wp (parse_array begin end_) (p, s) (advances begin p).
Proof.
  intros Hp HRs Hf. destruct p as [st below]. cbn [s_top] in Hf.
  inversion Hp as [? (_ & E & _)|? arrays bottom Ht Ha Hb Hl]; subst; [congruence|].
  destruct Ht as [| | | | |n Hn|]; try done. unfold parse_array. apply wp_bind, wp_top. cbn [s_top s_length].
  destruct (_ || _) eqn:E.
  - apply wp_bind, wp_handler; [by apply safe_end_array|]. intros s1 HR1 _. apply wp_bind, wp_parser, wp_ret.
    destruct (pop_ok Q (MkState STATE_ARRAY n Parse_array End_array) arrays bottom Ha Hb Hl) as [Hok Hlt].
    split_and!; [done|done|]. intros _. right. split; [done|]. intros Hq. specialize (Hq n Hn).
    eapply Nat.le_lt_trans; [exact Hlt|]. unfold weight. cbn [s_top s_below top_weight state_weight s_type s_length].
    rewrite sum_list_with_app. lia.
  - apply orb_false_elim in E as [E0 E1]. zbool. apply wp_bind, wp_parser, wp_bind, wp_parser, wp_ret.
    unfold set_top_length. cbn [s_top s_below s_type s_parse s_end].
    set (a := MkState STATE_ARRAY (s64 (n - 1)) Parse_array End_array).
    assert (array_state Q a) as Hqa by (split_and!; try done; cbn; by apply Hpred).
    assert ((∀ n, Q n → 0 ≤ n ≤ INT_MAX) →
      (state_weight a + 3 = state_weight (MkState STATE_ARRAY n Parse_array End_array))%nat) as Hwa.
    { intros Hq. pose proof (Hq n Hn). cbn [state_weight s_type s_length a].
      rewrite swrap_small by (unfold INT_MAX in *; lia). lia. }
    unfold push_state, stack_top. cbn [s_below]. case_match.
    + split_and!; cbn [fst]; [|done|].
      * apply (stack_above Q _ (a :: arrays)); [constructor|by constructor|done|]. zbool.
        rewrite zlen_app in *. cbn in *. lia.
      * intros _. right. split; [done|]. intros Hq. specialize (Hwa Hq). unfold weight. cbn [s_top s_below].
        cbn [sum_list_with]. unfold top_weight. cbn [s_type]. cbn [state_weight s_type] in *. lia.
    + split_and!; cbn [fst]; [constructor; try done; by apply array_on_top|done|].
      intros _. right. split; [done|]. intros Hq. specialize (Hwa Hq). unfold weight. cbn [s_top s_below].
      unfold top_weight. cbn [s_type]. cbn [a s_type] in *. lia.
Qed.

Lemma skip_spaces_ge l pos : pos ≤ skip_spaces l pos.
Proof. revert pos. induction l as [|c l IH]; intros pos; cbn; [lia|]. case_bool_decide; [|lia]. specialize (IH (pos + 1)). lia. Qed.

Lemma find_char_ge c l pos : pos ≤ find_char c l pos.
Proof. revert pos. induction l as [|x l IH]; intros pos; cbn; [lia|]. case_bool_decide; [lia|]. specialize (IH (pos + 1)). lia. Qed.

Lemma count_tokens_le l n b q k : count_tokens l n b q = Some k → n ≤ k ≤ n + zlen l.
Proof.
  revert n b q. induction l as [|c l IH]; intros n b q E; [done|]. cbn [count_tokens] in E. rewrite length_cons.
  repeat case_match; simplify_eq; try lia; apply IH in E; lia.
Qed.

(** Every turn of the token loop moves on. *)
Lemma tokens_safe fuel start pos p s (P : unit → Parser * S → Prop) :
  R s → (Z.to_nat (pos - start) < fuel)%nat → (∀ s', R s' → P tt (p, s')) →
  wp (inline_tokens M fuel start pos) (p, s) P.
Proof.
  revert start s. induction fuel as [|fuel IH]; intros start s HRs Hfuel HP; [lia|]. cbn [inline_tokens].
  destruct (start <? pos) eqn:E0; [|apply wp_ret; by apply HP]. zbool. cbv zeta.
  pose proof (skip_spaces_ge (slice start (pos - start) M) start) as Hskip.
  set (from := skip_spaces _ _) in *. clearbody from. destruct (pos <=? from) eqn:E1; [apply wp_ret; by apply HP|]. zbool.
  apply wp_bind, wp_byte. intros c _. set (quoted := _ || _).
  set (from' := if quoted then from + 1 else from). assert (from ≤ from') by (unfold from'; destruct quoted; lia).
  pose proof (find_char_ge (if quoted then c else byte_of 32) (slice from' (pos - from') M) from') as Hend.
  unfold memchr_or. set (token_end := find_char _ _ _) in *. clearbody token_end.
  apply wp_bind, wp_handler; [by apply safe_begin_bulk|]. intros s1 HR1 _.
  apply wp_bind, wp_chars; [done|]. intros s2 HR2 _.
  apply wp_bind, wp_handler; [by apply safe_end_bulk|]. intros s3 HR3 _.
  apply IH; [done| |done]. destruct (token_end <? pos) eqn:E2; zbool; destruct quoted; lia.
Qed.

Lemma inline_advances begin end_ p s :
  stack_ok Q p → R s → 0 ≤ begin → s_parse (s_top p) = Parse_inline_command →
  wp (parse_inline_command M begin end_) (p, s) (advances begin p).
Proof.
  intros Hp HRs Hb Hf. unfold parse_inline_command. destruct (begin =? end_); [by apply wp_ret, stays|].
  set (pos := find_cr _ _). assert (begin ≤ pos) as Hpos by apply find_cr_ge. clearbody pos.
  destruct (negb _); [|by apply wp_ret, stays].
  apply wp_bind. unfold wp at 1, lift. destruct (count_tokens _ _ _ _) as [k|] eqn:Ek; [|by apply Hbad]. cbn [of_option].
  pose proof Ek as Hk%count_tokens_le. rewrite length_drop in Hk.
  assert (begin < zlen M) as Hin.
  { destruct (decide (zlen M ≤ begin)); [|lia]. by rewrite drop_ge in Ek by lia. }
  apply wp_bind, wp_handler; [apply safe_begin_array; [done|unfold INT_MIN; lia]|]. intros s1 HR1 _.
  apply wp_bind, tokens_safe; [done|lia|]. intros s2 HR2.
  apply wp_bind, wp_handler; [by apply safe_end_array|]. intros s3 HR3 _. apply wp_bind, wp_parser, wp_ret.
  destruct p as [st below]. apply pop_top; try done; [|lia]. intros (_ & E & _). cbn in Hf. congruence.
Qed.

Lemma step_advances begin end_ p s :
  stack_ok Q p → R s → 0 ≤ begin → end_ ≤ zlen M →
  wp (run_parse M (s_parse (s_top p)) begin end_) (p, s) (advances begin p).
Proof.
  intros Hp HRs Hb He. destruct (s_parse (s_top p)) eqn:E; cbn [run_parse].
  - by apply initial_advances.
  - by apply simple_advances.
  - by apply length_advances.
  - by apply bulk_advances.
  - by apply array_advances.
  - by apply inline_advances.
Qed.

(** ** Every run *)

Lemma parse_keeps_stack fuel begin end_ p s :
  stack_ok Q p → R s → 0 ≤ begin → end_ ≤ zlen M → 
  ∀ n ps, parser_parse M fuel begin end_ (p, s) = Ok (n, ps) → stack_ok Q ps.1 ∧ R ps.2.
Proof.
  revert begin p s. induction fuel as [|fuel IH]; intros begin p s Hp HRs Hb He n ps E; [done|].
  cbn [parser_parse] in E. unfold mbind, st_bind, gets, top in E. cbn in E.
  destruct (expects_snapshot s); [by injection E as <- <-|].
  pose proof (step_advances begin end_ p s Hp HRs Hb He) as Hst. unfold wp in Hst.
  destruct (run_parse _ _ _ _ _) as [[r [p1 s1]]|]; [|done]. destruct Hst as (Hp1 & HR1 & Hprog). cbn in Hp1, HR1.
  destruct (keep_going r); [|by injection E as <- <-].
  eapply (IH (new_begin r)); try done. destruct (Hprog eq_refl) as [[? _]|[-> _]]; lia.
Qed.

(** Enough fuel for what is left to read and to do. *)
Lemma parse_returns : (∀ n, Q n → 0 ≤ n ≤ INT_MAX) → ∀ fuel begin end_ p s,
  stack_ok Q p → R s → 0 ≤ begin → end_ ≤ zlen M →
  (Z.to_nat (zlen M - begin) * Datatypes.S max_weight + weight p < fuel)%nat →
  match parser_parse M fuel begin end_ (p, s) with Ok _ => True | Stop e => Bad e end.
Proof.
  intros Hq. induction fuel as [|fuel IH]; intros begin end_ p s Hp HRs Hb He Hfuel; [lia|].
  cbn [parser_parse]. unfold mbind, st_bind, gets, top. cbn. destruct (expects_snapshot s); [done|].
  pose proof (step_advances begin end_ p s Hp HRs Hb He) as Hst. unfold wp in Hst.
  destruct (run_parse _ _ _ _ _) as [[r [p1 s1]]|]; [|done]. destruct Hst as (Hp1 & HR1 & Hprog). cbn in Hp1, HR1.
  destruct (keep_going r); [|done]. destruct (Hprog eq_refl) as [[Hlt Hin]|[Heq Hless]].
  - apply IH; try done; [lia|]. pose proof (stack_weight Q p1 Hq Hp1) as Hw.
    assert (Z.to_nat (zlen M - begin) = Datatypes.S (Z.to_nat (zlen M - begin - 1))) as E by lia. rewrite E in Hfuel.
    assert (Z.to_nat (zlen M - new_begin r) ≤ Z.to_nat (zlen M - begin - 1))%nat as Hle by lia.
    pose proof (Nat.mul_le_mono_r _ _ (Datatypes.S max_weight) Hle). lia.
  - specialize (Hless Hq). cbn in Hless. rewrite Heq. apply IH; try done. lia.
Qed.
End calculus.

(** ** The stack, with any handler *)

(** Every handler keeps nothing in particular. *)
Lemma any_handler_safe {S} `{Handler S} N : HandlerSafe S N (λ _, True) (λ _, True) (λ _, True).
Proof. constructor; try done; intros; unfold keeps; by case_match; [case_match|]. Qed.

Lemma init_stack_ok Q : stack_ok Q parser_init.
Proof. by constructor. Qed.

(** C19: whatever bytes arrive and whatever the handler answers, the parser's
    stack keeps its shape: the first state at the bottom, only arrays above it,
    then one more state whose parse function and end callback fit its type (so
    that a simple value never ends with a NULL callback), and never more than
    the 32 entries of the array. *)
Theorem parser_stack_typed {S} `{Handler S} M fuel begin end_ p s n p' s' :
  0 ≤ begin → end_ ≤ zlen M → stack_ok (λ _, True) p →
  parser_parse M fuel begin end_ (p, s) = Ok (n, (p', s')) →
  stack_ok (λ _, True) p' ∧ stack_top p' < MAX_STACK_DEPTH.
Proof.
  intros Hb He Hp E.
  assert (stack_ok (λ _, True) p') as Hok.
  { pose proof (any_handler_safe (S := S) (Z.max INT_MAX (zlen M))) as Hsafe.
    eapply (parse_keeps_stack (Z.max INT_MAX (zlen M)) (λ _, True) (λ _, True) (λ _, True) M) in E; try done; lia || apply E. }
  split; [done|]. destruct Hok as [|st arrays bottom _ _ _ Hl]; unfold stack_top, MAX_STACK_DEPTH in *; cbn [s_below]; [done|].
  rewrite zlen_app. cbn. lia.
Qed.

(** ** Termination, with the server's handler *)

(** The array of arguments has a size that was allocated. *)
Definition capacity_ok (s : CommandHandler * world) : Prop := 0 ≤ arg_capacity s.1 < 2 ^ 62.

Lemma split_args_fine X ch es b l : fine X (split_args ch es b l).
Proof.
  revert b l. induction es as [|[e|] es IH]; intros b l; cbn [split_args of_option]; [done| |done].
  cbn [mbind res_bind]. cbv zeta. destruct (negb _); [done|]. destruct (_ <? _); [done|]. destruct (_ <? _); [done|].
  by apply fine_bind; [apply fine_of_option|].
Qed.

Lemma simple_reply_returns b w : ∃ w', handle_simple_string_reply b w = Ok (tt, w').
Proof.
  unfold handle_simple_string_reply. erewrite st_bind_ok by reflexivity. cbv beta zeta.
  destruct (bool_decide _); [|by eexists]. by destruct (repl_client_state _); eexists.
Qed.

Lemma simple_reply_mem b w w' : handle_simple_string_reply b w = Ok (tt, w') → w_mem w' = w_mem w.
Proof.
  unfold handle_simple_string_reply. erewrite st_bind_ok by reflexivity. cbv beta zeta.
  destruct (bool_decide _); [|by intros [= <-]]. destruct (repl_client_state _); by intros [= <-].
Qed.

(** What the callbacks of the server keep: the capacity of the collector, and
    [W] of the server. *)
Definition handler_good (W : world → Prop) (s : CommandHandler * world) : Prop := capacity_ok s ∧ W s.2.

Section server.
Context (max_alloc N : Z) (Hmax : max_alloc < 2 ^ 63) (HN : INT_MAX ≤ N < 2 ^ 60) (X : Prop) (W : world → Prop).
Context (Hfine : ∀ args w, W w → fine X (handle_command args w)) (Hcmd : ∀ args, preserves W (handle_command args)).
Context (Hsimple : ∀ buf, preserves W (handle_simple_string_reply buf)).
Context (Herror : ∀ w, W w → W (set_client (with_repl_client_state REPL_STATE_ERROR (w_client w)) w)).
#[local] Instance server_handler : Handler (CommandHandler * world) := create_handler max_alloc.

Lemma begin_array_safe n ch w :
  handler_good W (ch, w) → INT_MIN ≤ n ≤ N →
  keeps (handler_good W) (allowed X) (begin_array_handler max_alloc n (ch, w)) ∧
  ∀ s', begin_array_handler max_alloc n (ch, w) = Ok (tt, s') → 0 ≤ n.
Proof.
  intros [Hc Hw] Hn. unfold capacity_ok in Hc. cbn [fst snd] in Hc, Hw.
  destruct (decide (0 ≤ n)) as [Hpos|Hneg].
  - split; [|done]. unfold begin_array_handler, keeps, set_ch, get_ch, when. run_res. cbn.
    rewrite !(uwrap_small 64) by lia.
    repeat case_match; zbool; simplify_eq; try done; split; try done; unfold capacity_ok; cbn in *; lia.
  - assert (begin_array_handler max_alloc n (ch, w) = Stop ExitFailure) as ->; [|done].
    assert (u64 n = n + 2 ^ 64 ∧ u64 (8 * n) = 8 * n + 2 ^ 64) as [E1 E2].
    { unfold uwrap. split; symmetry; apply (Z.mod_unique _ _ (-1)); unfold INT_MIN in *; lia. }
    unfold begin_array_handler, set_ch, get_ch, when. run_res. cbn. rewrite E1, E2.
    rewrite (proj2 (Z.ltb_lt _ _)), (proj2 (Z.leb_gt _ _)) by (unfold INT_MIN in *; lia). done.
Qed.

(** The collector as it is, with the server a handler leaves. *)
Lemma on_world_safe f ch w :
  capacity_ok (ch, w) → fine X (f w) → preserves W f → W w → keeps (handler_good W) (allowed X) (on_world f (ch, w)).
Proof.
  intros Hc Hf Hk Hw. unfold on_world. destruct (f w) as [[[] w']|] eqn:E; [|done]. split; [done|]. by eapply Hk.
Qed.

Lemma end_array_safe ch w :
  handler_good W (ch, w) → keeps (handler_good W) (allowed X) (end_array_handler (ch, w)).
Proof.
  intros [Hc Hw]. unfold end_array_handler, get_ch. erewrite st_bind_ok by reflexivity. cbv beta. cbn [fst].
  unfold mbind, st_bind, lift. pose proof (split_args_fine X ch (take (Z.to_nat (ends_size ch)) (ends ch)) 0 (ch_args ch)) as Hs.
  destruct (split_args _ _ _ _) as [[[] l]|]; [|by split|done]. cbn [when set_ch modify].
  destruct (mapM id l) as [args|]; [|done]. cbn [of_option].
  pose proof (on_world_safe (handle_command args) (set_args l ch) w Hc (Hfine args w Hw) (Hcmd args) Hw) as H.
  by destruct (on_world (handle_command args) _) as [[[] [ch' w']]|].
Qed.

Lemma end_simple_string_safe ch w :
  handler_good W (ch, w) → keeps (handler_good W) (allowed X) (end_simple_string_handler (ch, w)).
Proof.
  intros [Hc Hw]. unfold end_simple_string_handler, get_ch. erewrite st_bind_ok by reflexivity. cbv beta. cbn [fst].
  destruct (_ <? _); [|by apply on_world_safe; [..|apply leads_modify|]].
  erewrite st_bind_ok by reflexivity. cbv beta. unfold mbind, st_bind, lift.
  destruct (read_buf _ _ _) as [b|]; [|done]. cbn [of_option].
  apply on_world_safe; [done| |apply Hsimple|done]. by destruct (simple_reply_returns (cstr b) w) as [w' ->].
Qed.

Lemma server_handler_safe : HandlerSafe (CommandHandler * world) N (handler_good W) (allowed X) (λ n, 0 ≤ n ≤ INT_MAX).
Proof.
  constructor.
  - intros n [ch w] Hg Hn. by apply begin_array_safe.
  - intros n [ch w] s' Hg Hn E. split; [|lia]. eapply begin_array_safe; [exact Hg|lia|exact E].
  - intros [ch w]. apply end_array_safe.
  - intros n [ch w] [Hc Hw]. cbn. unfold begin_bulk_string_handler, get_ch, set_ch, when, keeps. run_res. cbn.
    repeat case_match; simplify_eq; done.
  - intros [ch w] [Hc Hw]. cbn. unfold end_bulk_string_handler, get_ch, set_ch, keeps. run_res. cbn.
    repeat case_match; simplify_eq; done.
  - intros d [ch w] [Hc Hw]. cbn. unfold chars_handler, get_ch, set_ch, keeps. run_res. cbn. repeat case_match; simplify_eq; done.
  - by intros [ch w] Hg.
  - intros [ch w]. apply end_simple_string_safe.
  - by intros [ch w] Hg.
  - by intros [ch w] Hg.
  - by intros [ch w] Hg.
  - by intros [ch w] Hg.
Qed.

(** Fuel for the parser on [n] bytes, from any stack. *)
Definition parse_steps (n : Z) : nat := Z.to_nat n * S max_weight + S max_weight.

Lemma server_parse_fine fuel M begin end_ p ch w :
  zlen M ≤ N → 0 ≤ begin → end_ ≤ zlen M → stack_ok (λ n, 0 ≤ n ≤ INT_MAX) p → handler_good W (ch, w) →
  (parse_steps (zlen M) ≤ fuel)%nat → fine X (parser_parse M fuel begin end_ (p, (ch, w))).
Proof.
  intros HM Hb He Hp Hg Hfuel. pose proof server_handler_safe as Hsafe.
  pose proof (stack_weight _ p (λ n H, H) Hp) as Hwt.
  pose proof (parse_returns N (handler_good W) (allowed X) (λ n, 0 ≤ n ≤ INT_MAX) M (allowed_fault X)) as Hr.
  assert (Z.to_nat (zlen M - begin) ≤ Z.to_nat (zlen M))%nat as Hle by lia.
  pose proof (Nat.mul_le_mono_r _ _ (S max_weight) Hle) as Hm. unfold parse_steps in Hfuel.
  assert (match parser_parse M fuel begin end_ (p, (ch, w)) with Ok _ => True | Stop e => allowed X e end) as H.
  { apply Hr; try done; [|lia|lia]. intros n Hn H0 _. rewrite swrap_small; unfold INT_MAX in *; lia. }
  by destruct (parser_parse _ _ _ _ _) as [[]|].
Qed.
End server.

(** C15: the parser ends.  On any bytes, malformed and truncated ones included, from
    any state the parser can be in and with any server, the parser with the server's
    handler takes at most the steps that [parse_steps] gives for the number of bytes,
    whatever the lengths of the arrays on its stack: neither it nor a command it runs
    is out of fuel.  It can only fail to end inside a command, run on what the
    commands before it have made of the server's memory, that probes the hash table
    for ever. *)
Theorem parser_parse_terminates max_alloc fuel M begin end_ p ch w :
  max_alloc < 2 ^ 63 → zlen M < 2 ^ 60 → 0 ≤ begin → end_ ≤ zlen M →
  stack_ok (λ n, 0 ≤ n ≤ INT_MAX) p → capacity_ok (ch, w) → (parse_steps (zlen M) ≤ fuel)%nat →
  let run := parser_parse (HS := create_handler max_alloc) M fuel begin end_ (p, (ch, w)) in
  run ≠ Stop OutOfFuel ∧
  (run = Stop EndlessProbe →
    ∃ args w', reached (w_mem w) (w_mem w') ∧ handle_command args w' = Stop EndlessProbe).
Proof.
  intros Hmax HM Hb He Hp Hc Hfuel run.
  set (X := ∃ args w', reached (w_mem w) (w_mem w') ∧ handle_command args w' = Stop EndlessProbe).
  assert (∀ args w', reached (w_mem w) (w_mem w') → fine X (handle_command args w')) as Hfine.
  { intros args w' Hw'. pose proof (handle_command_halts args w' Logic.I) as Hf.
    destruct (handle_command args w') as [|[]] eqn:E; try done. by exists args, w'. }
  assert (∀ args, preserves (λ w', reached (w_mem w) (w_mem w')) (handle_command args)) as Hcmd
    by (intros args w1 [] w2 H1 E; by eapply command_reaches).
  assert (∀ buf, preserves (λ w', reached (w_mem w) (w_mem w')) (handle_simple_string_reply buf)) as Hsimple.
  { intros buf w1 [] w2 H1 E. by rewrite (simple_reply_mem buf w1 w2 E). }
  pose proof (server_parse_fine max_alloc (Z.max INT_MAX (zlen M)) Hmax ltac:(unfold INT_MAX; lia) X
    (λ w', reached (w_mem w) (w_mem w')) Hfine Hcmd Hsimple (λ w1 H, H)
    fuel M begin end_ p ch w ltac:(lia) Hb He Hp (conj Hc (ex_intro _ 0 (run_none _))) Hfuel) as H.
  unfold server_handler in H. fold run in H. split; intros E; by rewrite E in H.
Qed.

(** ** Witnesses *)

(** A simple string inside two arrays, cut off. *)
Lemma parser_stack_typed_witness :
  let M := lit "*2" ++ CRLF ++ lit "*1" ++ CRLF ++ lit "+ab" in
  ∃ p' s', parser_parse M 40 0 11 (parser_init, []) = Ok (11, (p', s')) ∧
    stack_ok (λ _, True) p' ∧ stack_top p' = 3.
Proof.
  intros M. destruct (parser_parse M 40 0 11 (parser_init, [])) as [[n [p' s']]|] eqn:E; [|vm_compute in E; discriminate].
  destruct (parser_stack_typed M 40 0 11 parser_init [] n p' s') as [Hok _].
  - lia.
  - vm_compute. discriminate.
  - apply init_stack_ok.
  - exact E.
  - vm_compute in E. injection E as <- <- <-. eexists _, _. split; [reflexivity|]. split; [exact Hok|reflexivity].
Defined.

Lemma parser_parse_terminates_witness :
  let run := parser_parse (HS := create_handler 1048576) (lit "$-5") (parse_steps 3) 0 3
               (parser_init, (create_command_handler 256 10, world0)) in
  run ≠ Stop OutOfFuel ∧
  (run = Stop EndlessProbe →
    ∃ args w', reached (w_mem world0) (w_mem w') ∧ handle_command args w' = Stop EndlessProbe).
Proof.
  apply (parser_parse_terminates 1048576 (parse_steps 3) (lit "$-5") 0 3 parser_init (create_command_handler 256 10) world0).
  - reflexivity.
  - reflexivity.
  - lia.
  - vm_compute. discriminate.
  - apply init_stack_ok.
  - split; [vm_compute; discriminate|reflexivity].
  - apply Nat.le_refl.
Defined.
