(* ===== verification/Wire.v ===== *)
(** * From the socket to the keyspace and back

    The parser, the argument collector, the handlers, the table and the output
    buffer together: what a client reads back after what it sent. *)

From S2P Require Import Prelude CLib RingBuffer Util Database RespWriter ServerState Commands.
From S2P Require Import CommandSpec Reference RespParser CommandHandler.

Lemma c_strings_total cmds : total_args (c_strings <$> cmds) = total_args cmds.
Proof.
  unfold total_args. induction cmds as [|args cmds IH]; [done|]. cbn [fmap list_fmap concat].
  rewrite !zlen_app. unfold c_strings at 1. rewrite length_fmap. by rewrite IH.
Qed.

(** A pipeline of commands on the keyspace, in bytes, is answered in bytes: the
    replies of the reference machine to the commands (each argument up to its
    first NUL byte), in order, behind the replies already queued, and its keyspace
    in the database. *)
Theorem pipeline_answered max_alloc M begin cmds rest ch w A rs s' :
  let end_ := begin + zlen (commands_bytes cmds) in
  max_alloc < 2 ^ 63 → expects_commands (ch, w) → 0 ≤ begin → Forall (accepted max_alloc) cmds →
  world_ok w A → adb_room (total_args cmds) A → forallb data_command (c_strings <$> cmds) = true →
  spec_commands (clock (w_mem w)) (c_strings <$> cmds) (A, ticks (w_mem w)) = Ok (rs, s') → replies_fit w rs →
  drop (Z.to_nat begin) M = commands_bytes cmds ++ rest →
  ∃ ch' w',
    parser_parse (HS := create_handler max_alloc) M (commands_steps cmds) begin end_
      (parser_init, (ch, w)) = Ok (end_, (parser_init, (ch', w'))) ∧
    contents (out w') = contents (out w) ++ encodes rs ∧ db_rep (w_mem w') s'.1.
Proof.
  intros end_ Hmax Hnm Hb Hcmds Hw HA Hd E Hfit HM.
  destruct (commands_do (c_strings <$> cmds) w A rs s' Hw) as (w' & Erun & [Hdb _ _ Hc _ _ _]); [|done..|].
  { by rewrite c_strings_total. }
  destruct (pipeline_runs max_alloc Hmax M begin cmds rest ch w Hnm Hb Hcmds HM) as (ch' & Ep).
  exists ch', w'. split_and!; [|done|done]. etransitivity; [exact Ep|]. by rewrite Erun.
Qed.

Lemma pipeline_answered_witness :
  let cmds := [[lit "SET"; lit "k"; lit "v"]; [lit "GET"; lit "k"]] in
  ∃ ch' w',
    parser_parse (HS := create_handler 1048576) (commands_bytes cmds) (commands_steps cmds) 0
      (zlen (commands_bytes cmds)) (parser_init, (create_command_handler 256 10, world0)) =
      Ok (zlen (commands_bytes cmds), (parser_init, (ch', w'))) ∧
    contents (out w') = lit "+OK" ++ CRLF ++ lit "$1" ++ CRLF ++ lit "v" ++ CRLF ∧
    db_rep (w_mem w') {[lit "k" := (AStr (lit "v"), 0)]}.
Proof.
  refine (pipeline_answered 1048576 _ 0 [[lit "SET"; lit "k"; lit "v"]; [lit "GET"; lit "k"]] []
    (create_command_handler 256 10) world0 ∅ [RSimple (lit "OK"); RBulk (lit "v")]
    ({[lit "k" := (AStr (lit "v"), 0)]}, 0%nat) _ _ _ _ world0_ok _ _ _ _ _); try reflexivity; try lia.
  - discriminate.
  - repeat constructor; vm_compute; discriminate.
  - constructor; [vm_compute; reflexivity|]. intros ? ? ?. rewrite lookup_empty. discriminate.
  - split; [apply (bool_decide_unpack _); vm_compute; exact I|vm_compute; intuition discriminate].
Defined.
