(* ===== verification/Client.v ===== *)
(** * [src/src/client.c]: the socket of a client

    Reading from the socket into the input buffer, parsing, running, passing
    commands on to the replicas, and flushing the output buffer.

    A socket is the bytes the peer has sent and not yet been read, the answers
    the kernel gives to the next calls, and the bytes it took. *)

From S2P Require Import Prelude CLib RingBuffer Util Database Rdb RespWriter ServerState.
From S2P Require Import Commands CommandSpec RespParser CommandHandler.

(** ** Sockets *)

Inductive errno := EINTR | EWOULDBLOCK | EOTHER.

#[export] Instance errno_eq_dec : EqDecision errno.
Proof. solve_decision. Defined.

(** At most [n] bytes are taken or given; [Closed] is the end of the stream. *)
Inductive write_answer := Takes (n : Z) | WriteFails (e : errno).
Inductive read_answer := Gives (n : Z) | Closed | ReadFails (e : errno).

Record socket := MkSocket {
  incoming : bytes;
  read_answers : list read_answer;   (* then nothing has arrived *)
  write_answers : list write_answer; (* then everything is taken *)
  outgoing : bytes
}.

(** [write(fd, data, zlen data)]. *)
Definition sock_write (data : bytes) (s : socket) : (Z + errno) * socket :=
  match write_answers s with
  | [] => (inl (zlen data), MkSocket (incoming s) (read_answers s) [] (outgoing s ++ data))
  | Takes n :: ws =>
      let k := Z.max 0 (Z.min n (zlen data)) in
      (inl k, MkSocket (incoming s) (read_answers s) ws (outgoing s ++ take (Z.to_nat k) data))
  | WriteFails e :: ws => (inr e, MkSocket (incoming s) (read_answers s) ws (outgoing s))
  end.

(** [read(fd, buf, len)]: the bytes, none at the end of the stream. *)
Definition sock_read (len : Z) (s : socket) : (bytes + errno) * socket :=
  match read_answers s with
  | [] => (inr EWOULDBLOCK, s)
  | Gives n :: rs =>
      let k := Z.to_nat (Z.min n len) in
      match take k (incoming s) with
      | [] => (inr EWOULDBLOCK, MkSocket (incoming s) rs (write_answers s) (outgoing s))
      | d => (inl d, MkSocket (drop k (incoming s)) rs (write_answers s) (outgoing s))
      end
  | Closed :: rs => (inl [], MkSocket (incoming s) rs (write_answers s) (outgoing s))
  | ReadFails e :: rs => (inr e, MkSocket (incoming s) rs (write_answers s) (outgoing s))
  end.

(** ** [flush_client_output] *)

(** The loop; the number of bytes sent, or [(size_t) -1]. *)
Fixpoint flush_loop (fuel : nat) (total_bytes_sent : Z) : st (ring_buffer * socket) Z := λ '(rb, s),
  match fuel with
  | O => Stop OutOfFuel
  | S fuel' =>
      '(output_buf, readable_len) ← rb_readable rb;
      if readable_len =? 0 then Ok (total_bytes_sent, (rb, s))
      else
        data ← rb_load rb output_buf readable_len;
        match sock_write data s with
        | (inr EINTR, s') => flush_loop fuel' total_bytes_sent (rb, s')
        | (inr EWOULDBLOCK, s') => Ok (total_bytes_sent, (rb, s'))
        | (inr EOTHER, s') => Ok (u64 (-1), (rb, s'))
        | (inl bytes_sent, s') =>
            if bytes_sent =? 0 then Ok (total_bytes_sent, (rb, s'))
            else
              '(_, rb') ← rb_read rb bytes_sent;
              flush_loop fuel' (u64 (total_bytes_sent + bytes_sent)) (rb', s')
        end
  end.

(** Every turn uses up an answer, the last one excepted. *)
Definition flush_fuel (s : socket) : nat := length (write_answers s) + 2.

(** ** Sessions *)

(** The client being served with its input buffer, parser and argument
    collector; the replication backlog; the other clients by descriptor.  A
    client that was disconnected is freed. *)
Record session := MkSession {
  s_world : world;
  s_in : ring_buffer;
  s_parser : Parser;
  s_ch : CommandHandler;
  s_sock : socket;
  s_backlog : ring_buffer;
  s_peers : gmap Z Client;
  s_open : bool
}.

Abbreviation sessM := (st session).

(** The client being served. *)
Definition cl (s : session) : Client := w_client (s_world s).

Definition put_world (w : world) (s : session) : session :=
  MkSession w (s_in s) (s_parser s) (s_ch s) (s_sock s) (s_backlog s) (s_peers s) (s_open s).
Definition put_in (rb : ring_buffer) (s : session) : session :=
  MkSession (s_world s) rb (s_parser s) (s_ch s) (s_sock s) (s_backlog s) (s_peers s) (s_open s).
Definition put_sock (k : socket) (s : session) : session :=
  MkSession (s_world s) (s_in s) (s_parser s) (s_ch s) k (s_backlog s) (s_peers s) (s_open s).
Definition put_backlog (rb : ring_buffer) (s : session) : session :=
  MkSession (s_world s) (s_in s) (s_parser s) (s_ch s) (s_sock s) rb (s_peers s) (s_open s).
Definition put_peers (ps : gmap Z Client) (s : session) : session :=
  MkSession (s_world s) (s_in s) (s_parser s) (s_ch s) (s_sock s) (s_backlog s) ps (s_open s).
Definition put_open (b : bool) (s : session) : session :=
  MkSession (s_world s) (s_in s) (s_parser s) (s_ch s) (s_sock s) (s_backlog s) (s_peers s) b.

Definition on_w {A} (f : cmdM A) : sessM A := λ s,
  match f (s_world s) with Ok (a, w) => Ok (a, put_world w s) | Stop e => Stop e end.

(** A use of the client's memory. *)
Definition alive : sessM unit := λ s, if s_open s then Ok (tt, s) else Stop BadAccess.

Definition flush_client_output : sessM Z := λ s,
  let c := w_client (s_world s) in
  match flush_loop (flush_fuel (s_sock s)) 0 (output_buffer c, s_sock s) with
  | Ok (n, (rb, k)) =>
      Ok (n, put_sock k (put_world (set_client (with_output rb c) (s_world s)) s))
  | Stop e => Stop e
  end.

(** [destroy_client] frees the buffers, the parser and the client. *)
Definition handle_client_disconnection : sessM unit :=
  _ ← alive;
  c ← gets (λ s, w_client (s_world s));
  _ ← when (bool_decide (type c = CLIENT_TYPE_REPLICA)) (on_w (remove_replica (client_fd c)));
  modify (λ s, put_open false (put_world (forget_client (client_fd c) (s_world s)) s)).

(** ** Propagation *)

Section process.
(** The allocator, and the bytes of a pointer and of the padding in memory. *)
Context (max_alloc : Z) (region_ptr padding : bytes).
#[local] Instance the_handler : Handler (CommandHandler * world) := create_handler max_alloc.

(** The bytes of a [struct ring_buffer_struct]. *)
Definition struct_image (rb : ring_buffer) : bytes :=
  le_bytes 8 (read_index rb) ++ le_bytes 8 (write_index rb) ++ region_ptr ++
  le_bytes 8 (size rb) ++ le_bytes 4 (fd rb) ++ padding.

(** [memcpy(dst, client->input_buffer, n)]: the structure, not its bytes. *)
Definition copy_struct (rb : ring_buffer) (n : Z) : res bytes :=
  if n <=? zlen (struct_image rb) then Ok (take (Z.to_nat n) (struct_image rb)) else Stop BadAccess.

Definition advance_offset (n : Z) (w : world) : world :=
  let i := w_info w in
  set_info (MkInfo (role i) (master_replid i) (s64 (master_repl_offset i + n))
              (repl_backlog_base_offset i) (replicas i) (num_replicas i)) w.
Definition advance_base (n : Z) (w : world) : world :=
  let i := w_info w in
  set_info (MkInfo (role i) (master_replid i) (master_repl_offset i)
              (s64 (repl_backlog_base_offset i + n)) (replicas i) (num_replicas i)) w.

Definition rb_op_on (get : session → ring_buffer) (put : ring_buffer → session → session)
    (f : ring_buffer → res (Z * ring_buffer)) : sessM Z := λ s,
  match f (get s) with Ok (rc, rb) => Ok (rc, put rb s) | Stop e => Stop e end.

Definition write_backlog (bytes_parsed : Z) : sessM unit :=
  s ← gets id;
  '(write_buf, writable_len) ← lift (rb_writable (s_backlog s));
  let fits := bytes_parsed <=? writable_len in
  let bytes_to_overwrite := u64 (bytes_parsed - writable_len) in
  _ ← when (negb fits) (
        _ ← rb_op_on s_backlog put_backlog (λ rb, rb_read rb bytes_to_overwrite);
        modify (λ s, put_world (advance_base bytes_to_overwrite (s_world s)) s));
  data ← lift (copy_struct (s_in s) bytes_parsed);
  _ ← rb_op_on s_backlog put_backlog (λ rb, rb' ← rb_store rb write_buf data; Ok (0, rb'));
  rc ← rb_op_on s_backlog put_backlog (λ rb, rb_write rb bytes_parsed);
  when (negb fits && negb (rc =? 0)) (stop ExitFailure).

(** The client at a descriptor: the one being served or another. *)
Definition client_at (r : Z) (s : session) : option Client :=
  if r =? client_fd (w_client (s_world s))
  then (if s_open s then Some (w_client (s_world s)) else None)
  else s_peers s !! r.
Definition put_client_at (r : Z) (c : Client) (s : session) : session :=
  if r =? client_fd (w_client (s_world s))
  then put_world (set_client c (s_world s)) s else put_peers (<[r := c]> (s_peers s)) s.

(** [client_enable_write_events] of the client at a descriptor. *)
Definition enable_write_at (r : Z) : sessM unit := λ s,
  match client_at r s with
  | None => Stop BadAccess
  | Some c =>
      match client_enable_write_events (set_client c (s_world s)) with
      | Ok (_, w) =>
          Ok (tt, put_client_at r (w_client w)
                    (put_world (set_client (w_client (s_world s)) w) s))
      | Stop e => Stop e
      end
  end.

(** One replica gets the bytes, or the client being served is disconnected. *)
Definition propagate_to (M : bytes) (bytes_parsed r : Z) : sessM unit :=
  if r =? 0 then mret tt   (* NULL *)
  else
    s ← gets id;
    c ← lift (of_option BadAccess (client_at r s));
    '(write_buf, writable_len) ← lift (rb_writable (output_buffer c));
    if bytes_parsed <=? writable_len then
      _ ← alive;   (* the bytes are in its input buffer *)
      _ ← when (zlen M <? bytes_parsed) (stop BadAccess);
      rb ← lift (rb_store (output_buffer c) write_buf (slice 0 bytes_parsed M));
      '(rc, rb) ← lift (rb_write rb bytes_parsed);
      _ ← modify (put_client_at r (with_output rb c));
      when (rc =? 0) (enable_write_at r)
    else handle_client_disconnection.

(** The loop over the replicas, whose number is read in every turn. *)
Fixpoint propagate_loop (fuel : nat) (M : bytes) (bytes_parsed i : Z) : sessM unit :=
  match fuel with
  | O => stop OutOfFuel
  | S fuel' =>
      info ← gets (λ s, w_info (s_world s));
      if i <? num_replicas info then
        r ← lift (of_option BadAccess (replicas info !! Z.to_nat i));
        _ ← propagate_to M bytes_parsed r;
        propagate_loop fuel' M bytes_parsed (i + 1)
      else mret tt
  end.

Definition propagate (M : bytes) (bytes_parsed : Z) : sessM unit :=
  _ ← modify (λ s, put_world (advance_offset bytes_parsed (s_world s)) s);
  _ ← write_backlog bytes_parsed;
  info ← gets (λ s, w_info (s_world s));
  propagate_loop (S (Z.to_nat (num_replicas info))) M bytes_parsed 0.

(** ** [process_client_input] *)

(** The enumerators the test of line 163 compares. *)
Definition client_type_number (t : ClientType) : Z :=
  match t with CLIENT_TYPE_REGULAR => 0 | CLIENT_TYPE_REPLICA => 1 | CLIENT_TYPE_MASTER => 2 end.
Definition REPL_STATE_READY_number : Z := 11.

Definition run_parser (parse_fuel : nat) (M : bytes) (readable_len : Z) : sessM Z := λ s,
  match parser_parse M parse_fuel 0 readable_len (s_parser s, (s_ch s, s_world s)) with
  | Ok (pos, (p, (ch, w))) =>
      Ok (pos, MkSession w (s_in s) p ch (s_sock s) (s_backlog s) (s_peers s) (s_open s))
  | Stop e => Stop e
  end.

(** What follows the parsing; whether to go on reading. *)
Definition after_parse (bytes_received writable_len : Z) (M : bytes) (bytes_parsed : Z) : sessM bool :=
  w ← gets s_world;
  _ ← when (bool_decide (role (w_info w) = ROLE_SLAVE) &&
            bool_decide (type (w_client w) = CLIENT_TYPE_MASTER) &&
            (client_type_number (type (w_client w)) =? REPL_STATE_READY_number))
        (modify (λ s, put_world (advance_offset bytes_parsed (s_world s)) s));
  _ ← when (should_propogate_command (w_client w)) (propagate M bytes_parsed);
  _ ← alive;
  rc ← rb_op_on s_in put_in (λ rb, rb_read rb bytes_parsed);
  if negb (rc =? 0) then mret false
  else if bytes_received <? writable_len then _ ← flush_client_output; mret false
  else mret true.

(** What is done with the bytes received. *)
Definition process_received (parse_fuel : nat) (bytes_received writable_len : Z) : sessM bool :=
  rb ← gets s_in;
  '(read_buf, readable_len) ← lift (rb_readable rb);
  M ← lift (rb_load rb read_buf (2 * size rb - read_buf));
  bytes_parsed ← run_parser parse_fuel M readable_len;
  after_parse bytes_received writable_len M bytes_parsed.

Fixpoint process_loop (fuel parse_fuel : nat) : sessM unit :=
  match fuel with
  | O => stop OutOfFuel
  | S fuel' =>
      rb ← gets s_in;
      '(write_buf, writable_len) ← lift (rb_writable rb);
      if writable_len =? 0 then mret tt
      else
        answer ← (λ s, let '(a, k) := sock_read writable_len (s_sock s) in Ok (a, put_sock k s));
        match answer with
        | inr EINTR => process_loop fuel' parse_fuel
        | inr EWOULDBLOCK => _ ← flush_client_output; mret tt
        | inr EOTHER => mret tt
        | inl [] => handle_client_disconnection
        | inl d =>
            _ ← rb_op_on s_in put_in (λ rb, rb' ← rb_store rb write_buf d; Ok (0, rb'));
            rc ← rb_op_on s_in put_in (λ rb, rb_write rb (zlen d));
            if negb (rc =? 0) then mret tt
            else
              go ← process_received parse_fuel (zlen d) writable_len;
              if (go : bool) then process_loop fuel' parse_fuel else mret tt
        end
  end.

(** Every turn uses up an answer of the socket. *)
Definition process_client_input (parse_fuel : nat) : sessM unit := λ s,
  process_loop (S (length (read_answers (s_sock s)))) parse_fuel s.
End process.

(** ** Flushing *)

(** The outcome of a flush of [rb]: the first [k] bytes of the queue are sent
    and gone, the rest is still queued, and nothing is read. *)
Record flushed (rb : ring_buffer) (s : socket) (rb' : ring_buffer) (s' : socket) (k : nat) : Prop := {
  fl_wf : rb_wf rb';
  fl_sent : outgoing s' = outgoing s ++ take k (contents rb);
  fl_rest : contents rb' = drop k (contents rb);
  fl_reads : incoming s' = incoming s ∧ read_answers s' = read_answers s;
  fl_index : size rb' = size rb ∧ write_index rb' = write_index rb
}.

Lemma flushed_nothing rb s s' :
  rb_wf rb → outgoing s' = outgoing s → incoming s' = incoming s → read_answers s' = read_answers s →
  flushed rb s rb s' 0.
Proof. intros. constructor; try done. by rewrite take_0, app_nil_r. Qed.

Lemma flushed_more rb s rb1 s1 k1 rb2 s2 k2 :
  flushed rb s rb1 s1 k1 → flushed rb1 s1 rb2 s2 k2 → (k1 ≤ length (contents rb))%nat →
  flushed rb s rb2 s2 (k1 + k2).
Proof.
  intros [Hwf1 Hs1 Hr1 [Hi1 Hra1] [Hz1 Hx1]] [Hwf2 Hs2 Hr2 [Hi2 Hra2] [Hz2 Hx2]] Hk.
  constructor; [done| | |split; congruence|split; congruence].
  - rewrite Hs2, Hs1, Hr1, <- app_assoc. f_equal. rewrite <- (take_drop k1 (contents rb)) at 3.
    rewrite take_app_add' by (rewrite length_take; lia). done.
  - by rewrite Hr2, Hr1, drop_drop.
Qed.

Lemma flush_send rb s n s' :
  rb_wf rb → sock_write (contents rb) s = (inl n, s') →
  ∃ rb', rb_read rb n = Ok (0, rb') ∧ 0 ≤ n ≤ zlen (contents rb) ∧ flushed rb s rb' s' (Z.to_nat n) ∧
    write_answers s' = drop 1 (write_answers s) ∧ (write_answers s = [] → n = zlen (contents rb)).
Proof.
  intros Hwf Hw. unfold sock_write in Hw.
  assert (0 ≤ n ≤ zlen (contents rb)) as Hn.
  { destruct (write_answers s) as [|[m|e] ws]; [injection Hw as <- _; lia| |done].
    injection Hw as <- _. lia. }
  destruct (rb_read_wf rb n Hwf Hn) as (rb' & Hr & -> & Hwf' & Hc). exists (set_read_index (read_index rb + n) rb).
  split_and!; [done|lia|lia| | |].
  - destruct (write_answers s) as [|[m|e] ws]; [| |done]; injection Hw as <- <-;
      (constructor; [done| |done|done|done]); cbn; [by rewrite Nat2Z.id, firstn_all|done].
  - destruct (write_answers s) as [|[m|e] ws]; [| |done]; by injection Hw as <- <-.
  - intros E. rewrite E in Hw. by injection Hw as <- _.
Qed.

Lemma flush_loop_runs fuel total rb s :
  rb_wf rb → (length (write_answers s) + 2 ≤ fuel)%nat →
  0 ≤ total → total + zlen (contents rb) < 2 ^ 64 →
  ∃ r rb' s' k, flush_loop fuel total (rb, s) = Ok (r, (rb', s')) ∧ flushed rb s rb' s' k ∧
    (k ≤ length (contents rb))%nat ∧ (r = total + Z.of_nat k ∨ r = u64 (-1)) ∧
    (write_answers s = [] → contents rb' = []).
Proof.
  revert total rb s. induction fuel as [|fuel IH]; intros total rb s Hwf Hfuel Ht H64; [lia|].
  cbn [flush_loop]. rewrite rb_readable_wf by done. cbn [mbind res_bind].
  destruct (zlen (contents rb) =? 0) eqn:E0; zbool.
  { exists total, rb, s, 0%nat. split_and!; [done|by apply flushed_nothing|lia|left; lia|].
    intros _. by destruct (contents rb). }
  rewrite rb_load_contents by done. cbn [mbind res_bind].
  destruct (sock_write (contents rb) s) as [[n|e] s1] eqn:Ew.
  - destruct (flush_send rb s n s1 Hwf Ew) as (rb1 & Hr & Hn & Hfl & Hws & Hall).
    destruct (n =? 0) eqn:En; zbool.
    + assert (write_answers s ≠ []) as Hne by (intros E; apply Hall in E; lia).
      exists total, rb, s1, 0%nat. destruct Hfl as [_ Hs _ [Hi Hra] _]. rewrite En, take_0, app_nil_r in Hs.
      split_and!; [done|by apply flushed_nothing|lia|left; lia|done].
    + rewrite Hr. cbn [mbind res_bind]. rewrite (uwrap_small 64) by lia.
      pose proof (fl_rest _ _ _ _ _ Hfl) as Hc1.
      assert (zlen (contents rb1) = zlen (contents rb) - n) as Hl1 by (rewrite Hc1, length_drop; lia).
      destruct (decide (contents rb1 = [])) as [Hnil|Hne].
      * destruct fuel as [|fuel]; [lia|]. cbn [flush_loop].
        rewrite rb_readable_wf by (by destruct Hfl). cbn [mbind res_bind]. rewrite Hnil. cbn [length Z.of_nat Z.eqb].
        exists (total + n), rb1, s1, (Z.to_nat n).
        split_and!; [done|done|lia|left; lia|done].
      * assert (write_answers s ≠ []) as Hwne.
        { intros E. apply Hne, nil_length_inv. apply Hall in E. lia. }
        destruct (IH (total + n) rb1 s1) as (r & rb2 & s2 & k & E & Hfl2 & Hk & Hrv & Hend);
          [by destruct Hfl|rewrite Hws, length_drop; destruct (write_answers s); [done|cbn in *; lia]|lia|lia|].
        exists r, rb2, s2, (Z.to_nat n + k)%nat.
        split_and!; [done|eapply flushed_more; [exact Hfl|done|lia]|lia| |done].
        destruct Hrv as [->| ->]; [left; lia|by right].
  - assert (flushed rb s rb s1 0 ∧ write_answers s ≠ [] ∧ write_answers s1 = drop 1 (write_answers s)) as (Hfl & Hne & Hws).
    { unfold sock_write in Ew. destruct (write_answers s) as [|[m|e'] ws]; [done|done|].
      injection Ew as _ <-. split_and!; [by apply flushed_nothing|done|done]. }
    destruct e.
    + destruct (IH total rb s1) as (r & rb2 & s2 & k & E & Hfl2 & Hk & Hrv & Hend);
        [done|rewrite Hws, length_drop; destruct (write_answers s); [done|cbn in *; lia]|lia|lia|].
      exists r, rb2, s2, k. split_and!; [done| |done|done|done].
      apply (flushed_more rb s rb s1 0 rb2 s2 k Hfl Hfl2). lia.
    + exists total, rb, s1, 0%nat. split_and!; [done|done|lia|left; lia|done].
    + exists (u64 (-1)), rb, s1, 0%nat. split_and!; [done|done|lia|by right|done].
Qed.

Lemma flush_session s :
  rb_wf (out (s_world s)) →
  ∃ n k sk rb, flush_client_output s =
      Ok (n, put_sock sk (put_world (set_client (with_output rb (w_client (s_world s))) (s_world s)) s)) ∧
    flushed (out (s_world s)) (s_sock s) rb sk k ∧ (n = Z.of_nat k ∨ n = u64 (-1)) ∧
    (write_answers (s_sock s) = [] → contents rb = []).
Proof.
  intros Hwf. pose proof (contents_length _ Hwf) as Hl. pose proof Hwf as [_ _ Hsz Hord Hfill _].
  destruct (flush_loop_runs (flush_fuel (s_sock s)) 0 (out (s_world s)) (s_sock s) Hwf)
    as (r & rb & sk & k & E & Hfl & _ & Hr & Hend); [unfold flush_fuel; lia|lia|lia|].
  exists r, k, sk, rb. unfold flush_client_output. unfold out in E. rewrite E. split_and!; [done|done|done|done].
Qed.

(** A socket that takes everything empties the output buffer. *)
Lemma flush_all s :
  rb_wf (out (s_world s)) → write_answers (s_sock s) = [] →
  ∃ rb, rb_wf rb ∧ contents rb = [] ∧ size rb = size (out (s_world s)) ∧
    write_index rb = write_index (out (s_world s)) ∧
    flush_client_output s = Ok (zlen (contents (out (s_world s))),
      put_sock (MkSocket (incoming (s_sock s)) (read_answers (s_sock s)) []
                  (outgoing (s_sock s) ++ contents (out (s_world s))))
        (put_world (set_client (with_output rb (cl s)) (s_world s)) s)).
Proof.
  intros Hwf Hws. unfold flush_client_output, flush_fuel. rewrite Hws. cbn [length Nat.add].
  fold (out (s_world s)). set (o := out (s_world s)) in *. cbn [flush_loop].
  rewrite rb_readable_wf by done. cbn [mbind res_bind].
  destruct (zlen (contents o) =? 0) eqn:E0; zbool.
  - assert (contents o = []) as Hnil by (by destruct (contents o)).
    exists o. split_and!; try done. rewrite Hnil, app_nil_r, <- Hws. by destruct (s_sock s).
  - rewrite rb_load_contents by done. cbn [mbind res_bind]. unfold sock_write at 1. rewrite Hws.
    rewrite (proj2 (Z.eqb_neq _ _)) by done.
    destruct (rb_read_wf o (zlen (contents o)) Hwf) as (rb & -> & Hrb & Hwf' & Hc'); [lia|].
    rewrite Nat2Z.id, drop_all in Hc'. cbn [mbind res_bind].
    rewrite rb_readable_wf, Hc' by done. cbn [mbind res_bind length Z.of_nat Z.eqb].
    exists rb. split_and!; try done; [by subst rb..|].
    pose proof (contents_length o Hwf) as Hl. destruct Hwf as [_ _ Hsz Ho Hf _].
    rewrite (uwrap_small 64) by lia. done.
Qed.

(** Nothing is queued. *)
Lemma flush_nothing s :
  rb_wf (out (s_world s)) → contents (out (s_world s)) = [] → flush_client_output s = Ok (0, s).
Proof.
  intros Hwf Hc. unfold flush_client_output, flush_fuel. fold (out (s_world s)). rewrite Nat.add_comm. cbn [Nat.add flush_loop].
  rewrite rb_readable_wf, Hc by done. cbn [length Z.of_nat mbind res_bind Z.eqb].
  destruct s as [[m [] i cfg os ep] sin p ch k bl ps op]. done.
Qed.

(** A socket that takes [n] bytes and then no more. *)
Lemma flush_some s n :
  rb_wf (out (s_world s)) → write_answers (s_sock s) = [Takes (Z.of_nat n); WriteFails EWOULDBLOCK] →
  ∃ m rb ws, flush_client_output s = Ok (m,
      put_sock (MkSocket (incoming (s_sock s)) (read_answers (s_sock s)) ws
                  (outgoing (s_sock s) ++ take n (contents (out (s_world s)))))
        (put_world (set_client (with_output rb (cl s)) (s_world s)) s)) ∧
    rb_wf rb ∧ contents rb = drop n (contents (out (s_world s))) ∧ size rb = size (out (s_world s)) ∧
    write_index rb = write_index (out (s_world s)).
Proof.
  intros Hwf Hws. unfold flush_client_output, flush_fuel. rewrite Hws. cbn [length Nat.add].
  fold (out (s_world s)). set (o := out (s_world s)) in *. cbn [flush_loop].
  rewrite rb_readable_wf by done. cbn [mbind res_bind].
  destruct (zlen (contents o) =? 0) eqn:E0; zbool.
  { assert (contents o = []) as Hnil by (by destruct (contents o)). rewrite Hnil, take_nil, app_nil_r.
    exists 0, o, (write_answers (s_sock s)). split_and!; try done; [by destruct (s_sock s)|by rewrite drop_nil]. }
  rewrite rb_load_contents by done. cbn [mbind res_bind]. unfold sock_write at 1. rewrite Hws.
  set (k := Z.max 0 (Z.min (Z.of_nat n) (zlen (contents o)))).
  assert (take (Z.to_nat k) (contents o) = take n (contents o) ∧ drop (Z.to_nat k) (contents o) = drop n (contents o)) as [Ht Hd].
  { destruct (decide (n ≤ length (contents o))%nat); [by replace (Z.to_nat k) with n by lia|].
    by rewrite !take_ge, !drop_ge by lia. }
  rewrite Ht. destruct (k =? 0) eqn:Ek; zbool.
  { rewrite Ek in Ht, Hd. exists 0, o, [WriteFails EWOULDBLOCK]. by split_and!. }
  destruct (rb_read_wf o k Hwf) as (rb & -> & Hrb & Hwf' & Hc'); [lia|]. cbn [mbind res_bind].
  rewrite rb_readable_wf by done. cbn [mbind res_bind]. rewrite Hd in Hc'.
  destruct (zlen (contents rb) =? 0); [|rewrite rb_load_contents by done; cbn [mbind res_bind sock_write write_answers]];
    (eexists _, rb, _; split; [reflexivity|]; split_and!; [done|done|by subst rb..]).
Qed.

(** C18: flushing never loses, repeats or reorders a byte: whatever the socket
    takes or refuses, what it got is a prefix of the queue, the rest is still
    queued, and the call returns their number or an error.  If the socket takes
    everything, the queue is empty afterwards. *)
Theorem flush_client_output_sends s :
  rb_wf (out (s_world s)) →
  ∃ n k s', flush_client_output s = Ok (n, s') ∧
    flushed (out (s_world s)) (s_sock s) (out (s_world s')) (s_sock s') k ∧
    (n = Z.of_nat k ∨ n = u64 (-1)) ∧
    (write_answers (s_sock s) = [] → contents (out (s_world s')) = []).
Proof.
  intros Hwf. destruct (flush_session s Hwf) as (n & k & sk & rb & E & Hfl & Hn & Hend). eauto 10.
Qed.

(** ** One request *)

Section request.
Context (max_alloc : Z) (region_ptr padding : bytes) (Hmax : max_alloc < 2 ^ 63).
#[local] Existing Instance the_handler.

(** A client, or the master when no snapshot is due, that has nothing left over
    sent [cmds] in one piece, and reading gives all of it. *)
Record one_request (s : session) (cmds : list (list bytes)) : Prop := {
  rq_open : s_open s = true;
  rq_parser : s_parser s = parser_init;
  rq_client : takes_commands (w_client (s_world s));
  rq_in : rb_wf (s_in s) ∧ contents (s_in s) = [];
  rq_cmds : cmds ≠ [] ∧ Forall (accepted max_alloc) cmds;
  rq_data : incoming (s_sock s) = commands_bytes cmds;
  rq_fits : zlen (commands_bytes cmds) < size (s_in s);
  rq_index : write_index (s_in s) + zlen (commands_bytes cmds) < 2 ^ 64;
  rq_read : ∃ n, read_answers (s_sock s) = [Gives n] ∧ zlen (commands_bytes cmds) ≤ n
}.

Lemma commands_bytes_nonempty cmds : cmds ≠ [] → commands_bytes cmds ≠ [].
Proof. by destruct cmds as [|args cmds]. Qed.

(** The session after bytes that arrived in one piece are in the input buffer. *)
Lemma receive_data s d pf :
  rb_wf (s_in s) → contents (s_in s) = [] → d ≠ [] → incoming (s_sock s) = d → zlen d ≤ size (s_in s) →
  write_index (s_in s) + zlen d < 2 ^ 64 → (∃ n, read_answers (s_sock s) = [Gives n] ∧ zlen d ≤ n) →
  ∃ rb s1, rb_wf rb ∧ contents rb = d ∧ size rb = size (s_in s) ∧
    write_index rb = write_index (s_in s) + zlen d ∧
    s1 = put_in rb (put_sock (MkSocket [] [] (write_answers (s_sock s)) (outgoing (s_sock s))) s) ∧
    process_client_input max_alloc region_ptr padding pf s =
      match process_received max_alloc region_ptr padding pf (zlen d) (size (s_in s)) s1 with
      | Ok (go, s') => (if (go : bool) then process_loop max_alloc region_ptr padding 1 pf else mret tt) s'
      | Stop e => Stop e
      end.
Proof.
  intros Hwf Hc Hne Hd Hfits Hix (n & Hrd & Hn).
  destruct (rb_fill (s_in s) d Hwf) as (rb1 & rb & Hs & Hw & Hwf2 & Hc2 & Hz & Hx);
    [rewrite Hc; cbn; lia|done|].
  rewrite Hc in Hc2. exists rb, (put_in rb (put_sock (MkSocket [] [] (write_answers (s_sock s)) (outgoing (s_sock s))) s)).
  split_and!; try done.
  unfold process_client_input. rewrite Hrd. cbn [length process_loop].
  erewrite st_bind_ok by reflexivity. cbv beta.
  erewrite st_bind_ok by (unfold lift; rewrite rb_writable_wf by done; reflexivity). cbv beta iota.
  rewrite Hc. cbn [length Z.of_nat]. rewrite Z.sub_0_r.
  rewrite (proj2 (Z.eqb_neq _ _)) by (destruct Hwf; lia).
  assert (sock_read (size (s_in s)) (s_sock s) =
    (inl d, MkSocket [] [] (write_answers (s_sock s)) (outgoing (s_sock s)))) as Hread.
  { unfold sock_read. rewrite Hrd, Hd, take_ge, drop_ge by lia. by destruct d. }
  erewrite st_bind_ok by (rewrite Hread; reflexivity). cbv beta.
  destruct d as [|b bs] eqn:Eb; [done|]. cbn match.
  erewrite st_bind_ok by (unfold rb_op_on; cbn [s_in put_sock]; rewrite Hs; reflexivity). cbv beta.
  erewrite st_bind_ok by (unfold rb_op_on; cbn [s_in put_in put_sock]; rewrite Hw; reflexivity). cbv beta.
  reflexivity.
Qed.

Lemma not_ready_number t : (client_type_number t =? REPL_STATE_READY_number) = false.
Proof. by destruct t. Qed.

(** After parsing, the command passed on or not: what was parsed leaves the
    buffer, and the replies are flushed. *)
Lemma after_parse_ends s s1 M n received writable :
  when (should_propogate_command (cl s)) (propagate region_ptr padding M n) s = Ok (tt, s1) →
  s_open s1 = true → rb_wf (s_in s1) → 0 ≤ n ≤ zlen (contents (s_in s1)) → received < writable →
  ∃ rb, rb_wf rb ∧ contents rb = drop (Z.to_nat n) (contents (s_in s1)) ∧ size rb = size (s_in s1) ∧
    write_index rb = write_index (s_in s1) ∧
    after_parse region_ptr padding received writable M n s = (_ ← flush_client_output; mret false) (put_in rb s1).
Proof.
  intros Hp Ho Hwf Hn Hlt. destruct (rb_read_wf (s_in s1) n Hwf Hn) as (rb & Hr & Hrb & Hwf' & Hc').
  exists rb. split_and!; [done|done|by subst rb..|].
  unfold after_parse. erewrite st_bind_ok by reflexivity. cbv beta.
  rewrite not_ready_number, andb_false_r. cbn [when]. erewrite st_bind_ok by reflexivity. cbv beta.
  erewrite st_bind_ok by exact Hp. cbv beta.
  erewrite st_bind_ok by (unfold alive; rewrite Ho; reflexivity). cbv beta.
  erewrite st_bind_ok by (unfold rb_op_on; rewrite Hr; reflexivity). cbv beta.
  cbn [Z.eqb negb]. by rewrite (proj2 (Z.ltb_lt _ _)) by done.
Qed.

Lemma after_parse_plain s M n received writable :
  s_open s = true → should_propogate_command (w_client (s_world s)) = false →
  rb_wf (s_in s) → 0 ≤ n ≤ zlen (contents (s_in s)) → received < writable →
  ∃ rb, rb_wf rb ∧ contents rb = drop (Z.to_nat n) (contents (s_in s)) ∧ size rb = size (s_in s) ∧
    write_index rb = write_index (s_in s) ∧
    after_parse region_ptr padding received writable M n s = (_ ← flush_client_output; mret false) (put_in rb s).
Proof. intros Ho Hm. apply after_parse_ends; [|done]. unfold cl. by rewrite Hm. Qed.

(** Nothing has arrived and nothing is queued. *)
Lemma process_nothing s pf :
  rb_wf (s_in s) → zlen (contents (s_in s)) < size (s_in s) → read_answers (s_sock s) = [] →
  rb_wf (out (s_world s)) → contents (out (s_world s)) = [] →
  process_client_input max_alloc region_ptr padding pf s = Ok (tt, s).
Proof.
  intros Hwf Hroom Hra Hwo Hco. unfold process_client_input. rewrite Hra. cbn [length process_loop].
  erewrite st_bind_ok by reflexivity. cbv beta.
  erewrite st_bind_ok by (unfold lift; rewrite rb_writable_wf by done; reflexivity). cbv beta iota.
  rewrite (proj2 (Z.eqb_neq _ _)) by lia.
  erewrite (st_bind_ok _ _ s (inr EWOULDBLOCK) s) by (unfold sock_read; rewrite Hra; by destruct s). cbv beta iota.
  by erewrite st_bind_ok by (by apply flush_nothing).
Qed.

(** Parsing a request runs its commands. *)
Lemma parse_request s cmds pf w1 :
  one_request s cmds → (commands_steps cmds ≤ pf)%nat →
  for_each handle_command (c_strings <$> cmds) (s_world s) = Ok (tt, w1) →
  ∃ rb rest ch', rb_wf rb ∧ contents rb = commands_bytes cmds ∧ size rb = size (s_in s) ∧
    write_index rb = write_index (s_in s) + zlen (commands_bytes cmds) ∧
    process_client_input max_alloc region_ptr padding pf s =
      match after_parse region_ptr padding (zlen (commands_bytes cmds)) (size (s_in s)) (commands_bytes cmds ++ rest)
              (zlen (commands_bytes cmds))
              (MkSession w1 rb parser_init ch'
                 (MkSocket [] [] (write_answers (s_sock s)) (outgoing (s_sock s)))
                 (s_backlog s) (s_peers s) true) with
      | Ok (go, s') => (if (go : bool) then process_loop max_alloc region_ptr padding 1 pf else mret tt) s'
      | Stop e => Stop e
      end.
Proof.
  intros Hrq Hpf Hrun.
  destruct Hrq as [Ho Hp Hnm [Hwf0 Hc0] [Hne Hacc] Hd Hfits Hix Hrd].
  destruct (receive_data s (commands_bytes cmds) pf Hwf0 Hc0) as (rb & s1 & Hwf & Hc & Hz & Hx & -> & ->);
    [by apply commands_bytes_nonempty|done|lia|done|done|].
  destruct (rb_load_tail rb Hwf) as (rest & HM). rewrite Hc in HM.
  destruct (pipeline_runs max_alloc Hmax (commands_bytes cmds ++ rest) 0 cmds rest (s_ch s) (s_world s))
    as (ch' & Hparse); [done|lia|done|done|]. rewrite Hrun in Hparse.
  exists rb, rest, ch'. split_and!; [done..|].
  unfold process_received. erewrite st_bind_ok by reflexivity. cbv beta. cbn [s_in put_in].
  erewrite st_bind_ok by (unfold lift; rewrite rb_readable_wf by done; reflexivity). cbv beta iota.
  erewrite st_bind_ok by (unfold lift; rewrite HM; reflexivity). cbv beta.
  erewrite st_bind_ok; [reflexivity|]. unfold run_parser. cbn [s_parser s_ch s_world put_in put_sock].
  rewrite Hp, Hc. apply (parser_parse_more _ _ (pf - commands_steps cmds)) in Hparse.
  replace (commands_steps cmds + (pf - commands_steps cmds))%nat with pf in Hparse by lia.
  rewrite Z.add_0_l in Hparse. unfold handler in Hparse. unfold the_handler. rewrite Hparse. cbn. by rewrite Ho.
Qed.
End request.

(** The session after a request was served: [w1] with its output flushed. *)
Definition served (s : session) (w1 : world) (rb rbo : ring_buffer) (ch : CommandHandler) : session :=
  MkSession (set_client (with_output rbo (w_client w1)) w1) rb parser_init ch
    (MkSocket [] [] [] (outgoing (s_sock s) ++ contents (out w1))) (s_backlog s) (s_peers s) true.

Lemma serve_request max_alloc region_ptr padding s cmds pf w1 :
  max_alloc < 2 ^ 63 → one_request max_alloc s cmds → (commands_steps cmds ≤ pf)%nat →
  for_each handle_command (c_strings <$> cmds) (s_world s) = Ok (tt, w1) →
  should_propogate_command (w_client w1) = false → rb_wf (out w1) →
  write_answers (s_sock s) = [] →
  ∃ rb rbo ch, process_client_input max_alloc region_ptr padding pf s = Ok (tt, served s w1 rb rbo ch) ∧
    rb_wf rb ∧ contents rb = [] ∧ size rb = size (s_in s) ∧
    write_index rb = write_index (s_in s) + zlen (commands_bytes cmds) ∧
    rb_wf rbo ∧ contents rbo = [] ∧ size rbo = size (out w1) ∧ write_index rbo = write_index (out w1).
Proof.
  intros Hmax Hrq Hpf Hrun Hmark Hout Hws. pose proof (rq_fits _ _ _ Hrq) as Hfits.
  destruct (parse_request max_alloc region_ptr padding Hmax s cmds pf w1 Hrq Hpf Hrun)
    as (rb & rest & ch' & Hwf & Hc & Hz & Hx & ->).
  match goal with |- context [after_parse _ _ _ _ _ _ ?s0] =>
    destruct (after_parse_plain region_ptr padding s0 (commands_bytes cmds ++ rest) (zlen (commands_bytes cmds))
      (zlen (commands_bytes cmds)) (size (s_in s))) as (rb' & Hwf' & Hc' & Hz' & Hx' & ->) end;
    [done|done|done|cbn; rewrite Hc; lia|done|]. cbn [s_in] in Hc', Hz', Hx'.
  match goal with |- context [mbind _ flush_client_output ?s0] =>
    destruct (flush_all s0) as (rbo & Hwo & Hco & Hzo & Hxo & E) end; [exact Hout|exact Hws|].
  erewrite st_bind_ok by exact E. exists rb', rbo, ch'. rewrite Hc, Nat2Z.id, drop_all in Hc'.
  split_and!; try done; congruence.
Qed.

(** C12: a client that sent any number of complete commands in one piece, the
    last of them not SET, is served in one call when the commands do not fault
    and the socket takes everything: the commands run in order, the input buffer
    is empty again, and the socket has got every reply. *)
Theorem process_client_input_serves max_alloc region_ptr padding s cmds pf w1 :
  max_alloc < 2 ^ 63 → one_request max_alloc s cmds → (commands_steps cmds ≤ pf)%nat →
  for_each handle_command (c_strings <$> cmds) (s_world s) = Ok (tt, w1) →
  should_propogate_command (w_client w1) = false → rb_wf (out w1) →
  write_answers (s_sock s) = [] →
  ∃ s', process_client_input max_alloc region_ptr padding pf s = Ok (tt, s') ∧
    contents (s_in s') = [] ∧ s_parser s' = parser_init ∧ s_open s' = true ∧
    outgoing (s_sock s') = outgoing (s_sock s) ++ contents (out w1) ∧
    contents (out (s_world s')) = [] ∧ w_mem (s_world s') = w_mem w1.
Proof.
  intros Hmax Hrq Hpf Hrun Hmark Hout Hws.
  destruct (serve_request max_alloc region_ptr padding s cmds pf w1 Hmax Hrq Hpf Hrun Hmark Hout Hws)
    as (rb & rbo & ch & E & _ & Hc & _ & _ & _ & Hco & _). eexists. split; [exact E|done].
Qed.

Lemma rb_read_returns rb len : rb_wf rb → 0 ≤ len → ∃ rc rb', rb_read rb len = Ok (rc, rb').
Proof.
  intros Hwf Hl. destruct (decide (zlen (contents rb) < len)).
  - rewrite rb_read_too_much by done. eauto.
  - destruct (rb_read_wf rb len Hwf ltac:(lia)) as (rb' & -> & _). eauto.
Qed.

(** C32: a request that ends with SET and is longer than the 40 bytes of the
    ring buffer structure makes the server read past that structure, replicas
    or not: the structure and not the bytes it manages is copied into the
    replication backlog. *)
Theorem propagation_reads_past_structure max_alloc region_ptr padding s cmds pf w1 :
  max_alloc < 2 ^ 63 → zlen region_ptr = 8 → zlen padding = 4 →
  one_request max_alloc s cmds → (commands_steps cmds ≤ pf)%nat →
  for_each handle_command (c_strings <$> cmds) (s_world s) = Ok (tt, w1) →
  should_propogate_command (w_client w1) = true → rb_wf (s_backlog s) →
  40 < zlen (commands_bytes cmds) →
  process_client_input max_alloc region_ptr padding pf s = Stop BadAccess.
Proof.
  intros Hmax Hptr Hpad Hrq Hpf Hrun Hmark Hbl Hlong.
  destruct (parse_request max_alloc region_ptr padding Hmax s cmds pf w1 Hrq Hpf Hrun)
    as (rb & rest & ch' & Hwf & Hc & Hz & _ & ->).
  unfold after_parse. erewrite st_bind_ok by reflexivity. cbv beta. cbn [s_world].
  rewrite not_ready_number, andb_false_r, Hmark. cbn [when].
  erewrite st_bind_ok by reflexivity. cbv beta.
  erewrite st_bind_stop; [done|]. unfold propagate. erewrite st_bind_ok by reflexivity. cbv beta.
  erewrite st_bind_stop; [done|]. unfold write_backlog. erewrite st_bind_ok by reflexivity. cbv beta.
  erewrite st_bind_ok by (unfold lift; cbn [s_backlog put_world id]; rewrite rb_writable_wf by done; reflexivity).
  cbv beta iota zeta. unfold mbind at 1, st_bind at 1.
  match goal with |- match ?body ?s0 with _ => _ end = _ =>
    assert (∃ s2, body s0 = Ok (tt, s2)) as (s2 & ->) end.
  { unfold when. destruct (negb _); [|by eexists].
    match goal with |- ∃ _, (rb_op_on _ _ (λ rb, rb_read rb ?len) ≫= _) ?s0 = _ =>
      destruct (rb_read_returns (s_backlog s) len Hbl ltac:(apply uwrap_range; lia)) as (rc & rb2 & Hr) end.
    eexists. erewrite st_bind_ok by (unfold rb_op_on; cbn [s_backlog put_world]; rewrite Hr; reflexivity).
    reflexivity. }
  erewrite st_bind_stop; [done|]. unfold lift, copy_struct. cbn [s_in put_world id].
  rewrite (proj2 (Z.leb_gt _ _)); [done|].
  unfold struct_image, le_bytes. rewrite !zlen_app, !length_fmap, !length_seqZ. lia.
Qed.

(** ** Witnesses *)

Definition session0 (data : bytes) : session :=
  MkSession world0 (RingBuffer 0 0 (Some (replicate 128 NUL)) 128 4) parser_init (create_command_handler 256 10)
    (MkSocket data [Gives 100] [] []) (RingBuffer 0 0 (Some (replicate 64 NUL)) 64 6) ∅ true.

Lemma session0_request cmds :
  cmds ≠ [] → Forall (accepted 1048576) cmds → (zlen (commands_bytes cmds) <? 100) = true →
  one_request 1048576 (session0 (commands_bytes cmds)) cmds.
Proof.
  intros Hne Hacc Hl%Z.ltb_lt. constructor; cbn [s_open s_parser s_world s_in s_sock session0]; try done.
  - split; [apply (rb_fresh_wf 128 4); [lia|done]|done].
  - cbn [size]. lia.
  - cbn [write_index]. lia.
  - exists 100. split; [done|lia].
Qed.

Lemma process_client_input_serves_witness :
  let cmds := [[lit "SET"; lit "k"; lit "v"]; [lit "GET"; lit "k"]] in
  ∃ s', process_client_input 1048576 (replicate 8 NUL) (replicate 4 NUL) 40 (session0 (commands_bytes cmds)) =
      Ok (tt, s') ∧
    outgoing (s_sock s') = lit "+OK" ++ CRLF ++ lit "$1" ++ CRLF ++ lit "v" ++ CRLF.
Proof.
  intros cmds.
  destruct (for_each handle_command cmds world0) as [[[] w1]|] eqn:E; [|vm_compute in E; discriminate].
  destruct (process_client_input_serves 1048576 (replicate 8 NUL) (replicate 4 NUL)
    (session0 (commands_bytes cmds)) cmds 40 w1) as (s' & H1 & _ & _ & _ & H2 & _).
  - lia.
  - apply session0_request; [discriminate|repeat constructor; vm_compute; discriminate|vm_compute; reflexivity].
  - vm_compute. lia.
  - exact E.
  - vm_compute in E. injection E as <-. reflexivity.
  - vm_compute in E. injection E as <-. constructor; cbn; try lia. eexists. split; reflexivity.
  - reflexivity.
  - exists s'. split; [exact H1|]. rewrite H2. vm_compute in E. injection E as <-. reflexivity.
Defined.

(** Three bytes are queued; the socket takes two of them and then no more. *)
Definition session_queued : session :=
  let s := session0 [] in
  put_sock (MkSocket [] [] [Takes 2; WriteFails EWOULDBLOCK] [])
    (put_world (set_client (with_output rb_example client0) world0) s).

Lemma flush_client_output_sends_witness :
  ∃ n k s', flush_client_output session_queued = Ok (n, s') ∧
    flushed rb_example (s_sock session_queued) (out (s_world s')) (s_sock s') k ∧
    outgoing (s_sock s') = lit "bc" ∧ contents (out (s_world s')) = lit "d".
Proof.
  destruct (flush_client_output_sends session_queued) as (n & k & s' & H1 & H2 & _).
  - exact rb_example_wf.
  - exists n, k, s'. split; [exact H1|split; [exact H2|]].
    vm_compute in H1. injection H1 as <- <-. by vm_compute.
Defined.

Lemma propagation_reads_past_structure_witness :
  let cmds := [[lit "SET"; lit "key"; lit "a longer value"]] in
  process_client_input 1048576 (replicate 8 NUL) (replicate 4 NUL) 40 (session0 (commands_bytes cmds)) =
    Stop BadAccess.
Proof.
  intros cmds.
  destruct (for_each handle_command cmds world0) as [[[] w1]|] eqn:E; [|vm_compute in E; discriminate].
  apply (propagation_reads_past_structure 1048576 (replicate 8 NUL) (replicate 4 NUL)
    (session0 (commands_bytes cmds)) cmds 40 w1); try reflexivity.
  - apply session0_request; [discriminate|repeat constructor; vm_compute; discriminate|vm_compute; reflexivity].
  - vm_compute. lia.
  - exact E.
  - vm_compute in E. injection E as <-. reflexivity.
  - apply (rb_fresh_wf 64 6); [lia|discriminate].
Defined.
