(* ===== verification/ClientAlloc.v ===== *)
(** * Creating and destroying clients ([src/src/client.c])

    What the allocator and the operating system answer is an argument; what is
    released is recorded, in order. *)

From S2P Require Import Prelude CLib RingBuffer Util Database Rdb RespWriter ServerState.

Definition RING_BUFFER_SIZE : Z := 65536.

Record client_os := ClientOs {
  client_malloc_ok : bool;
  input_os : rb_os;
  output_os : rb_os;
  parser_malloc_ok : bool
}.

(** The fields [create_client] assigns; the others keep the content of the
    memory [malloc] returned, [garbage]. *)
Definition init_client (garbage : Client) (fd : Z) (output : ring_buffer) : Client :=
  MkClient fd output (type garbage) 0 (master_repl_state garbage) (rdb_fd garbage) 0 0
    (repl_offset garbage) (repl_client_state garbage) 0 0 0 NoStream false true.

(** The client and its input buffer, or NULL; what was released. *)
Definition create_client (os : client_os) (garbage : Client) (fd : Z) :
    res (option (Client * ring_buffer) * list os_release) :=
  if negb (client_malloc_ok os) then Ok (None, [])
  else
    '(rc, input, rel1) ← rb_create (input_os os) RING_BUFFER_SIZE;
    match input with
    | Some input =>
        '(rc, output, rel2) ← rb_create (output_os os) RING_BUFFER_SIZE;
        match output with
        | Some output =>
            if negb (parser_malloc_ok os)
            then Ok (None, (rb_destroy (Some input)).2 ++ (rb_destroy (Some output)).2 ++ [Free])
            else Ok (Some (init_client garbage fd output, input), [])
        | None => Ok (None, rel2 ++ [Free])
        end
    | None => Ok (None, rel1 ++ [Free])
    end.

(** [free] of the arguments, the buffer, the ends and the structure. *)
Definition destroy_command_handler : list os_release := [Free; Free; Free; Free].
Definition destroy_parser : list os_release := [Free].
Definition destroy_handler : list os_release := [Free].

Definition destroy_client (c : Client) (input : ring_buffer) : list os_release :=
  Close (client_fd c) :: (rb_destroy (Some input)).2 ++ (rb_destroy (Some (output_buffer c))).2 ++
  destroy_command_handler ++ destroy_parser ++ [Free].

(** ** Resources *)

(** What a creation has acquired when it returns, up to its order. *)
Definition client_acquired (os : client_os) : list os_release :=
  if negb (client_malloc_ok os) then []
  else
    Free :: rb_acquired (input_os os) RING_BUFFER_SIZE ++
    if rb_created (input_os os) RING_BUFFER_SIZE then
      rb_acquired (output_os os) RING_BUFFER_SIZE ++
      if rb_created (output_os os) RING_BUFFER_SIZE && parser_malloc_ok os then [Free] else []
    else [].

(** The input buffer of a client whose output buffer could not be created. *)
Definition client_leaked (os : client_os) : list os_release :=
  if client_malloc_ok os && rb_created (input_os os) RING_BUFFER_SIZE &&
     negb (rb_created (output_os os) RING_BUFFER_SIZE)
  then rb_acquired (input_os os) RING_BUFFER_SIZE else [].

(** A new client: empty well-formed buffers, no events, and nothing of a
    snapshot transfer. *)
Record fresh_client (c : Client) (input : ring_buffer) (fd : Z) : Prop := {
  fresh_fd : client_fd c = fd;
  fresh_in : rb_wf input ∧ contents input = [] ∧ size input = RING_BUFFER_SIZE ∧ write_index input = 0;
  fresh_out : rb_wf (output_buffer c) ∧ contents (output_buffer c) = [] ∧
              size (output_buffer c) = RING_BUFFER_SIZE ∧ write_index (output_buffer c) = 0;
  fresh_events : epoll_events c = 0;
  fresh_transfer : rdb_expected_bytes c = 0 ∧ rdb_received_bytes c = 0 ∧ rdb_written_bytes c = 0 ∧
                   tmp_rdb_fp c = NoStream ∧ rdb_file_offset c = 0 ∧ rdb_file_size c = 0;
  fresh_flags : should_reply c = true ∧ should_propogate_command c = false
}.

(** The successful creation, for the users of clients. *)
Lemma create_client_ok os garbage fd :
  0 < page_size (input_os os) → 0 < page_size (output_os os) →
  client_malloc_ok os && rb_created (input_os os) RING_BUFFER_SIZE &&
    rb_created (output_os os) RING_BUFFER_SIZE && parser_malloc_ok os = true →
  ∃ c input, create_client os garbage fd = Ok (Some (c, input), []) ∧ fresh_client c input fd ∧
    destroy_client c input ≡ₚ Close fd :: destroy_command_handler ++ client_acquired os.
Proof.
  intros Hp1 Hp2 (((Hm & H1)%andb_prop & H2)%andb_prop & H3)%andb_prop.
  pose proof (rb_create_total (input_os os) RING_BUFFER_SIZE Hp1 ltac:(done)) as Hin.
  pose proof (rb_create_total (output_os os) RING_BUFFER_SIZE Hp2 ltac:(done)) as Hout.
  rewrite H1 in Hin. rewrite H2 in Hout.
  destruct Hin as (input & Ei & Hwi & Hci & Hzi & Hxi & Hdi).
  destruct Hout as (output & Eo & Hwo & Hco & Hzo & Hxo & Hdo).
  unfold create_client. rewrite Hm, Ei. cbn [negb]. unfold mbind, res_bind. rewrite Eo, H3. cbn [negb].
  do 2 eexists. split; [done|]. split; [by constructor|].
  unfold destroy_client, client_acquired, destroy_parser. rewrite Hdi, Hm, H1, H2, H3.
  cbn [output_buffer init_client client_fd negb andb]. rewrite Hdo. solve_Permutation.
Qed.

Lemma create_client_cases os garbage fd :
  0 < page_size (input_os os) → 0 < page_size (output_os os) →
  ∃ r released, create_client os garbage fd = Ok (r, released) ∧
    match r with
    | Some (c, input) => released = [] ∧ fresh_client c input fd ∧
        destroy_client c input ≡ₚ Close fd :: destroy_command_handler ++ client_acquired os
    | None => released ++ client_leaked os ≡ₚ client_acquired os
    end.
Proof.
  intros Hp1 Hp2.
  destruct (client_malloc_ok os && rb_created (input_os os) RING_BUFFER_SIZE &&
    rb_created (output_os os) RING_BUFFER_SIZE && parser_malloc_ok os) eqn:Eall.
  { destruct (create_client_ok os garbage fd Hp1 Hp2 Eall) as (c & input & ? & ? & ?).
    by exists (Some (c, input)), []. }
  pose proof (rb_create_total (input_os os) RING_BUFFER_SIZE Hp1 ltac:(done)) as Hin.
  pose proof (rb_create_total (output_os os) RING_BUFFER_SIZE Hp2 ltac:(done)) as Hout.
  unfold create_client, client_acquired, client_leaked.
  destruct (client_malloc_ok os); [cbn [negb andb] in *|by exists None, []]. unfold mbind, res_bind.
  destruct (rb_created (input_os os) _); [destruct Hin as (i & -> & _ & _ & _ & _ & Hdi)|
    rewrite Hin; do 2 eexists; split; [done|]; cbn; solve_Permutation].
  destruct (rb_created (output_os os) _); [destruct Hout as (o & -> & _ & _ & _ & _ & Hdo)|
    rewrite Hout; do 2 eexists; split; [done|]; cbn; solve_Permutation].
  cbn [andb] in Eall. rewrite Eall. cbn [negb andb]. do 2 eexists. split; [done|].
  cbn [negb andb]. rewrite Hdi, Hdo. solve_Permutation.
Qed.

(** C26: whatever the allocator and the operating system answer, creating a
    client returns.  It gives a fresh client, having released nothing, and
    destroying that client releases its descriptor and exactly what was
    acquired; or it gives NULL and has released everything, except when only
    the output buffer cannot be created: then the input buffer's descriptor,
    mapping and memory are leaked. *)
Theorem create_client_total os garbage fd :
  0 < page_size (input_os os) → 0 < page_size (output_os os) →
  ∃ r released, create_client os garbage fd = Ok (r, released) ∧
    match r with
    | Some (c, input) => released = [] ∧ fresh_client c input fd ∧
        destroy_client c input ≡ₚ Close fd :: destroy_command_handler ++ client_acquired os
    | None => released ++ client_leaked os ≡ₚ client_acquired os
    end.
Proof. apply create_client_cases. Qed.

(** ** Witness *)

Definition rb_os_good (fd : Z) : rb_os := RbOs 4096 true (lit "rb.1.0x5581") fd 0 0 true true.
Definition client_memory : Client :=
  MkClient 0 (RingBuffer 0 0 None 0 0) CLIENT_TYPE_REPLICA 99 MASTER_REPL_STATE_PROPAGATE None 1 2 3
    REPL_STATE_ERROR 4 5 6 ClosedStream true false.

(** The second mapping of the output buffer fails: the input buffer is lost. *)
Lemma create_client_total_witness :
  let os := ClientOs true (rb_os_good 6) rb_os_example true in
  ∃ released, create_client os client_memory 5 = Ok (None, released) ∧
    released ++ [Close 6; Munmap 131072; Free] ≡ₚ client_acquired os.
Proof.
  intros os.
  destruct (create_client_total os client_memory 5) as (r & released & E & H);
    [vm_compute; reflexivity|vm_compute; reflexivity|].
  vm_compute in E. injection E as <- <-. eexists. split; [vm_compute; reflexivity|exact H].
Defined.
