(* ===== verification/Propagation.v ===== *)
(** * Passing commands on

    [process_client_input] gives the bytes of a request that ended with SET to the
    replication backlog and to every replica of the table.  With room for them,
    each replica has exactly these bytes behind what was queued for it and is
    watched for room to write; nobody else is touched. *)

From S2P Require Import Prelude CLib RingBuffer Util Database Rdb RespWriter ServerState.
From S2P Require Import Commands CommandSpec RespParser CommandHandler Client ClientAlloc.

(** ** The backlog *)

(** What propagation leaves of the server's record: all but the two offsets. *)
Definition same_replicas (i i' : server_info_t) : Prop :=
  role i' = role i ∧ master_replid i' = master_replid i ∧ replicas i' = replicas i ∧
  num_replicas i' = num_replicas i.

Section backlog.
Context (region_ptr padding : bytes) (Hptr : zlen region_ptr = 8) (Hpad : zlen padding = 4).

Lemma struct_image_length rb : zlen (struct_image region_ptr padding rb) = 40.
Proof. unfold struct_image, le_bytes. rewrite !zlen_app, !length_fmap, !length_seqZ. lia. Qed.

(** Making room for [n] bytes by dropping the oldest. *)
Lemma backlog_room s n :
  rb_wf (s_backlog s) → 0 ≤ n ≤ size (s_backlog s) →
  ∃ rb i, when (negb (n <=? size (s_backlog s) - zlen (contents (s_backlog s))))
        (_ ← rb_op_on s_backlog put_backlog
               (λ rb, rb_read rb (u64 (n - (size (s_backlog s) - zlen (contents (s_backlog s))))));
         modify (λ s', put_world (advance_base (u64 (n - (size (s_backlog s) - zlen (contents (s_backlog s)))))
                                    (s_world s')) s')) s =
      Ok (tt, put_backlog rb (put_world (set_info i (s_world s)) s)) ∧
    same_replicas (w_info (s_world s)) i ∧ rb_wf rb ∧ size rb = size (s_backlog s) ∧
    write_index rb = write_index (s_backlog s) ∧ n ≤ size rb - zlen (contents rb).
Proof.
  intros Hwf Hn. pose proof (contents_length _ Hwf) as Hl. pose proof Hwf as [_ _ Hsz Hord Hfill _].
  destruct (n <=? size (s_backlog s) - zlen (contents (s_backlog s))) eqn:E; cbn [negb when]; zbool.
  - exists (s_backlog s), (w_info (s_world s)). split_and!; try done. by destruct s as [[]].
  - destruct (rb_read_wf (s_backlog s) (n - (size (s_backlog s) - zlen (contents (s_backlog s)))) Hwf)
      as (rb & Hr & Hrb & Hwf' & Hc); [lia|].
    rewrite (uwrap_small 64) by lia.
    erewrite st_bind_ok by (unfold rb_op_on; rewrite Hr; reflexivity).
    eexists rb, _. split; [reflexivity|]. split_and!; try done; [by subst rb..|].
    rewrite Hc, length_drop. subst rb. cbn. lia.
Qed.

Lemma write_backlog_ok s n :
  rb_wf (s_backlog s) → 0 ≤ n ≤ size (s_backlog s) → n ≤ 40 → write_index (s_backlog s) + n < 2 ^ 64 →
  ∃ rb i, write_backlog region_ptr padding n s = Ok (tt, put_backlog rb (put_world (set_info i (s_world s)) s)) ∧
    same_replicas (w_info (s_world s)) i ∧ rb_wf rb ∧ size rb = size (s_backlog s) ∧
    write_index rb = write_index (s_backlog s) + n.
Proof.
  intros Hwf Hn H40 H64. destruct (backlog_room s n Hwf Hn) as (rb & i & Er & Hi & Hwf1 & Hz & Hx & Hroom).
  unfold write_backlog. erewrite st_bind_ok by reflexivity. cbv beta. cbn [id].
  erewrite st_bind_ok by (unfold lift; rewrite rb_writable_wf by done; reflexivity). cbv beta iota zeta.
  erewrite st_bind_ok by exact Er. cbv beta.
  set (data := take (Z.to_nat n) (struct_image region_ptr padding (s_in s))).
  assert (zlen data = n) as Hd.
  { unfold data. pose proof (struct_image_length (s_in s)). rewrite length_take. lia. }
  erewrite st_bind_ok by (unfold lift, copy_struct; rewrite struct_image_length, (proj2 (Z.leb_le _ _)) by lia;
    fold data; reflexivity). cbv beta.
  destruct (rb_fill rb data Hwf1) as (rb1 & rb2 & Hs & Hw & Hwf2 & _ & Hz2 & Hx2); [lia|rewrite Hx; lia|].
  rewrite Hz, Hx in Hs. rewrite Hd in Hw.
  erewrite st_bind_ok by (unfold rb_op_on; cbn [s_backlog put_backlog]; rewrite Hs; reflexivity). cbv beta.
  erewrite st_bind_ok by (unfold rb_op_on; cbn [s_backlog put_backlog]; rewrite Hw; reflexivity). cbv beta.
  exists rb2, i. rewrite andb_false_r. split; [reflexivity|]. split_and!; try done; congruence || lia.
Qed.

(** ** One replica *)

(** A client has room for [d], and has got it. *)
Definition has_room (d : bytes) (c : Client) : Prop :=
  rb_wf (output_buffer c) ∧ zlen d ≤ size (output_buffer c) - zlen (contents (output_buffer c)) ∧
  write_index (output_buffer c) + zlen d < 2 ^ 64.

Definition passed_on (d : bytes) (c c' : Client) : Prop :=
  ∃ rb, c' = with_epoll (Z.lor (epoll_events c) EPOLLOUT) (with_output rb c) ∧ rb_wf rb ∧
    contents rb = contents (output_buffer c) ++ d ∧ size rb = size (output_buffer c) ∧
    write_index rb = write_index (output_buffer c) + zlen d.

(** Watching another client for room to write. *)
Lemma enable_write_peer s r c :
  r ≠ client_fd (cl s) → s_peers s !! r = Some c → epoll_answers (s_world s) = [] →
  enable_write_at r s =
    Ok (tt, put_peers (<[r := with_epoll (Z.lor (epoll_events c) EPOLLOUT) c]> (s_peers s)) s).
Proof.
  intros Hr Hc Hep. unfold enable_write_at, client_at, put_client_at. unfold cl in Hr.
  rewrite (proj2 (Z.eqb_neq _ _)) by done. rewrite Hc.
  unfold client_enable_write_events, epoll_mod. cbn [set_client epoll_answers w_client]. rewrite Hep.
  cbn [s_world put_world w_client set_client]. rewrite (proj2 (Z.eqb_neq _ _)) by done. by destruct s as [[]].
Qed.

Lemma propagate_one s d rest r c :
  s_open s = true → r ≠ 0 → r ≠ client_fd (cl s) → s_peers s !! r = Some c → has_room d c →
  epoll_answers (s_world s) = [] →
  ∃ c', propagate_to (d ++ rest) (zlen d) r s = Ok (tt, put_peers (<[r := c']> (s_peers s)) s) ∧ passed_on d c c'.
Proof.
  intros Ho H0 Hr Hc (Hwf & Hroom & H64) Hep.
  destruct (rb_fill (output_buffer c) d Hwf Hroom H64) as (rb1 & rb & Hs & Hw & Hwf' & Hcs & Hz & Hx).
  eexists. split; [|exists rb; split; [reflexivity|done]].
  unfold propagate_to. rewrite (proj2 (Z.eqb_neq _ _)) by done. erewrite st_bind_ok by reflexivity. cbv beta. cbn [id].
  assert (client_at r s = Some c) as Ha by (unfold client_at; unfold cl in Hr; by rewrite (proj2 (Z.eqb_neq _ _))).
  erewrite st_bind_ok by (unfold lift; rewrite Ha; reflexivity). cbv beta.
  erewrite st_bind_ok by (unfold lift; rewrite rb_writable_wf by done; reflexivity). cbv beta iota.
  rewrite (proj2 (Z.leb_le _ _)) by done. erewrite st_bind_ok by (unfold alive; rewrite Ho; reflexivity). cbv beta.
  rewrite (proj2 (Z.ltb_ge _ _)) by (rewrite zlen_app; lia). cbn [when]. erewrite st_bind_ok by reflexivity. cbv beta.
  assert (slice 0 (zlen d) (d ++ rest) = d) as -> by (unfold slice; rewrite Nat2Z.id; apply take_app_length).
  erewrite st_bind_ok by (unfold lift; rewrite Hs; reflexivity). cbv beta.
  erewrite st_bind_ok by (unfold lift; rewrite Hw; reflexivity). cbv beta iota. cbn [Z.eqb when].
  erewrite st_bind_ok by reflexivity. cbv beta.
  unfold put_client_at. unfold cl in Hr. rewrite (proj2 (Z.eqb_neq _ _)) by done.
  rewrite (enable_write_peer _ r (with_output rb c)); [|done|apply lookup_insert_eq|done].
  cbn [s_peers put_peers]. by rewrite insert_insert_eq.
Qed.

(** ** All replicas *)

(** The table holds [rs]. *)
Definition table (i : server_info_t) (rs : list Z) : Prop :=
  num_replicas i = zlen rs ∧ ∃ unused, replicas i = rs ++ unused.

Lemma table_same i i' rs : same_replicas i i' → table i rs → table i' rs.
Proof. intros (_ & _ & Hr & Hn) [Ht Hu]. split; [congruence|by rewrite Hr]. Qed.

Record all_passed (d : bytes) (rs : list Z) (P P' : gmap Z Client) : Prop := {
  ap_in : ∀ r, r ∈ rs → ∃ c c', P !! r = Some c ∧ P' !! r = Some c' ∧ passed_on d c c';
  ap_out : ∀ r, r ∉ rs → P' !! r = P !! r
}.

(** Every replica of [rs] is another client and has room for [d]. *)
Record can_pass (d : bytes) (rs : list Z) (s : session) : Prop := {
  cp_open : s_open s = true;
  cp_epoll : epoll_answers (s_world s) = [];
  cp_nodup : NoDup rs;
  cp_each : ∀ r, r ∈ rs → r ≠ 0 ∧ r ≠ client_fd (cl s) ∧ ∃ c, s_peers s !! r = Some c ∧ has_room d c
}.

Lemma propagate_loop_all rs pre fuel s d rest :
  can_pass d rs s → table (w_info (s_world s)) (pre ++ rs) → (length rs < fuel)%nat →
  ∃ P, propagate_loop fuel (d ++ rest) (zlen d) (zlen pre) s = Ok (tt, put_peers P s) ∧
    all_passed d rs (s_peers s) P.
Proof.
  revert pre fuel s. induction rs as [|r rs IH]; intros pre fuel s [Ho Hep Hnd Heach] [Hn [u Hu]] Hf;
    (destruct fuel as [|fuel]; [simpl in Hf; lia|]); cbn [propagate_loop];
    erewrite st_bind_ok by reflexivity; cbv beta; rewrite Hn.
  { rewrite app_nil_r, Z.ltb_irrefl. exists (s_peers s). split; [by destruct s|].
    split; [by intros r ?%elem_of_nil|done]. }
  destruct (Heach r) as (H0 & Hr & c & Hc & Hroom); [apply list_elem_of_here|].
  apply NoDup_cons in Hnd as [Hni Hnd].
  rewrite (proj2 (Z.ltb_lt _ _)) by (rewrite zlen_app; simpl length; lia).
  assert (replicas (w_info (s_world s)) !! Z.to_nat (zlen pre) = Some r) as Hat.
  { rewrite Hu, Nat2Z.id, <- app_assoc. by apply list_lookup_middle. }
  rewrite Hat. erewrite st_bind_ok by reflexivity. cbv beta.
  destruct (propagate_one s d rest r c Ho H0 Hr Hc Hroom Hep) as (c' & E & Hp). erewrite st_bind_ok by exact E. cbv beta.
  destruct (IH (pre ++ [r]) fuel (put_peers (<[r := c']> (s_peers s)) s)) as (P & El & [Hin Hout]).
  - constructor; try done. intros q Hq. destruct (Heach q) as (? & ? & cq & ? & ?); [by apply list_elem_of_further|].
    split_and!; [done|done|]. exists cq. split; [|done]. cbn [s_peers put_peers].
    rewrite lookup_insert_ne; [done|]. by intros ->.
  - rewrite <- app_assoc. split; [done|by exists u].
  - simpl in Hf. lia.
  - exists P. rewrite zlen_app in El. split; [exact El|]. cbn [s_peers put_peers] in Hin, Hout. constructor.
    + intros q [->|Hq]%elem_of_cons.
      * exists c, c'. split_and!; [done| |done]. by rewrite Hout, lookup_insert_eq.
      * destruct (Hin q Hq) as (c1 & c2 & H1 & H2). exists c1, c2. split; [|done].
        rewrite lookup_insert_ne in H1; [done|]. by intros ->.
    + intros q [Hne Hq]%not_elem_of_cons. by rewrite Hout, lookup_insert_ne.
Qed.

(** The backlog and the offsets change, and every replica gets the bytes. *)
Lemma propagate_runs s d rest rs :
  can_pass d rs s → table (w_info (s_world s)) rs → rb_wf (s_backlog s) → zlen d ≤ size (s_backlog s) → zlen d ≤ 40 →
  write_index (s_backlog s) + zlen d < 2 ^ 64 →
  ∃ rb i P, propagate region_ptr padding (d ++ rest) (zlen d) s =
      Ok (tt, put_peers P (put_backlog rb (put_world (set_info i (s_world s)) s))) ∧
    same_replicas (w_info (s_world s)) i ∧ rb_wf rb ∧ size rb = size (s_backlog s) ∧
    write_index rb = write_index (s_backlog s) + zlen d ∧ all_passed d rs (s_peers s) P.
Proof.
  intros Hcp Ht Hwf Hn H40 H64.
  destruct (write_backlog_ok (put_world (advance_offset (zlen d) (s_world s)) s) (zlen d) Hwf) as
    (rb & i & E & Hsame & Hwb & Hzb & Hxb); [split; [lia|done]|done|done|].
  destruct (propagate_loop_all rs [] (S (Z.to_nat (num_replicas i)))
    (put_backlog rb (put_world (set_info i (s_world s)) s)) d rest) as (P & El & HP).
  - by destruct Hcp.
  - by eapply table_same.
  - destruct Hsame as (_ & _ & _ & Hni). cbn in Hni. destruct Ht as [Hnr _]. rewrite Hni, Hnr. lia.
  - exists rb, i, P. split_and!; try done. unfold propagate. erewrite st_bind_ok by reflexivity. cbv beta.
    erewrite st_bind_ok by exact E. cbv beta. erewrite st_bind_ok by reflexivity. exact El.
Qed.
End backlog.
