(* ===== verification/Replication.v ===== *)
(** * [src/src/replication.c] and the handshake commands of [src/src/commands.c]

    The two ends of replication: the replica's link to its master, a state
    machine that asks for a snapshot and receives it, and the master's output
    to a replica.  Both run on the [session] of the client they serve. *)

From S2P Require Import Prelude CLib RingBuffer Util Database Rdb RespWriter ServerState.
From S2P Require Import Commands CommandSpec RespParser CommandHandler Client.

(** An assignment to the fields of the client being served. *)
Definition on_client (f : Client → Client) : sessM unit :=
  on_w (modify (λ w, set_client (f (w_client w)) w)).

(** ** The handshake commands *)

Definition send_command (args : list bytes) (next : ReplicaClientState) : sessM unit :=
  _ ← on_w (reply (add_array_reply (Some args) (zlen args)));
  _ ← flush_client_output;
  on_client (with_repl_client_state next).

Definition send_ping_command : sessM unit := send_command [lit "PING"] REPL_STATE_SENT_PING.

Definition send_replconf_listening_port_command (replica_port : bytes) : sessM unit :=
  send_command [lit "REPLCONF"; lit "listening-port"; replica_port] REPL_STATE_SENT_REPLCONF_PORT.

Definition send_replconf_capa_command : sessM unit :=
  send_command [lit "REPLCONF"; lit "capa"; lit "psync2"] REPL_STATE_SENT_REPLCONF_CAPA.

Definition send_psync_command : sessM unit :=
  send_command [lit "PSYNC"; lit "?"; lit "-1"] REPL_STATE_SENT_PSYNC.

(** ** The replica: receiving the snapshot *)

(** A stream opened for writing is empty; its bytes are in the file when it is
    closed. *)
Definition put_file (path data : bytes) (w : world) : world :=
  let os := w_os w in
  set_os (OsFiles (<[path := data]> (files os)) (mkdir_ok os) (fopen_w_ok os) (path_malloc_ok os)) w.

Definition TEMP_SNAPSHOT : bytes := lit "temp_snapshot.rdb".

Definition set_transfer (f : Client → Z * Z * Z * stream) : sessM unit :=
  on_client (λ c, let '(e, r, n, fp) := f c in with_transfer e r n fp c).

(** The temporary file; whether there is a stream. *)
Definition open_temp : sessM bool :=
  s ← gets id;
  match tmp_rdb_fp (cl s) with
  | NoStream =>
      let os := w_os (s_world s) in
      path ← lift (of_option BadAccess
                     (construct_file_path (path_malloc_ok os) (dir (w_config (s_world s))) TEMP_SNAPSHOT));
      if negb (fopen_w_ok os) then mret false
      else
        _ ← modify (λ s, put_world (put_file path [] (s_world s)) s);
        _ ← set_transfer (λ c, (rdb_expected_bytes c, rdb_received_bytes c, rdb_written_bytes c,
                                OpenStream path []));
        mret true
  | _ => mret true
  end.

Definition read_sock (len : Z) : sessM (bytes + errno) := λ s,
  let '(a, k) := sock_read len (s_sock s) in Ok (a, put_sock k s).

(** How the reading part of a turn ends: leave the function, start the next
    turn, or write out, with the value of [bytes_read]. *)
Inductive received := Leave | Again | WriteOut (bytes_read : option Z).

(** The length asked for is what is missing, whatever room there is; a failed
    [rb_write] is only reported. *)
Definition receive_bytes (bytes_read : option Z) : sessM received :=
  c ← gets cl;
  if rdb_received_bytes c <? rdb_expected_bytes c then
    rb ← gets s_in;
    '(write_buf, writable_len) ← lift (rb_writable rb);
    if writable_len =? 0 then mret Leave
    else
      answer ← read_sock (s64 (rdb_expected_bytes c - rdb_received_bytes c));
      match answer with
      | inr EINTR => mret Again
      | inr _ => mret Leave
      | inl [] => mret Leave
      | inl d =>
          _ ← rb_op_on s_in put_in (λ rb, rb' ← rb_store rb write_buf d; Ok (0, rb'));
          _ ← rb_op_on s_in put_in (λ rb, rb_write rb (zlen d));
          _ ← set_transfer (λ c, (rdb_expected_bytes c, s64 (rdb_received_bytes c + zlen d),
                                  rdb_written_bytes c, tmp_rdb_fp c));
          mret (WriteOut (Some (zlen d)))
      end
  else mret (WriteOut bytes_read).

(** [fwrite] of [bytes_read] bytes from the read position. *)
Definition write_temp (bytes_read : Z) : sessM unit :=
  s ← gets id;
  '(read_buf, readable_len) ← lift (rb_readable (s_in s));
  match tmp_rdb_fp (cl s) with
  | OpenStream path written =>
      data ← lift (rb_load (s_in s) read_buf (u64 bytes_read));
      _ ← set_transfer (λ c, (rdb_expected_bytes c, rdb_received_bytes c,
                              s64 (rdb_written_bytes c + zlen data), OpenStream path (written ++ data)));
      _ ← rb_op_on s_in put_in (λ rb, rb_read rb (zlen data));
      mret tt
  | _ => stop BadAccess
  end.

(** [fclose]; the pointer is kept. *)
Definition close_temp : sessM unit :=
  c ← gets cl;
  match tmp_rdb_fp c with
  | OpenStream path written =>
      _ ← modify (λ s, put_world (put_file path written (s_world s)) s);
      set_transfer (λ c, (rdb_expected_bytes c, rdb_received_bytes c, rdb_written_bytes c, ClosedStream))
  | _ => stop BadAccess
  end.

Definition load_temp : sessM unit :=
  w ← gets s_world;
  _ ← on_w (on_db (rdb_load_data_from_file (w_os w) (dir (w_config w)) TEMP_SNAPSHOT));
  _ ← on_client (with_repl_client_state REPL_STATE_READY);
  on_w client_enable_read_events.

Fixpoint receive_loop (fuel : nat) (bytes_read : option Z) : sessM unit :=
  match fuel with
  | O => stop OutOfFuel
  | S fuel' =>
      r ← receive_bytes bytes_read;
      match r with
      | Leave => mret tt
      | Again => receive_loop fuel' (Some (-1))
      | WriteOut bytes_read' =>
          n ← lift (of_option Indeterminate bytes_read');
          _ ← write_temp n;
          c ← gets cl;
          if rdb_written_bytes c =? rdb_expected_bytes c then _ ← close_temp; load_temp
          else receive_loop fuel' bytes_read'
      end
  end.

(** Every turn uses up an answer of the socket, the last one excepted. *)
Definition replica_receive_rdb_snapshot : sessM unit :=
  opened ← open_temp;
  if (opened : bool) then
    s ← gets id;
    receive_loop (length (read_answers (s_sock s)) + 2) None
  else mret tt.

(** ** The replica: data or room on the link to the master *)

(** The position of the first CRLF. *)
Fixpoint find_crlf (b : bytes) (i : Z) : option Z :=
  match b with
  | c :: b' =>
      if bool_decide (c = CR) && bool_decide (b' !! 0%nat = Some LF) then Some i
      else find_crlf b' (i + 1)
  | [] => None
  end.

(** [$<length>\r\n]: another first character, or no digits, is only reported.
    Bytes are taken from the buffer; the socket is not read. *)
Definition receive_header : sessM unit :=
  rb ← gets s_in;
  '(read_buf, readable_len) ← lift (rb_readable rb);
  if readable_len <? 4 then mret tt
  else
    M ← lift (rb_load rb read_buf (2 * size rb - read_buf));
    match find_crlf (take (Z.to_nat readable_len) M) 0 with
    | None => mret tt
    | Some crlf_pos =>
        let length := st_value (strtol (drop 1 M)) in
        let bytes_to_consume := crlf_pos + 2 in
        rc ← rb_op_on s_in put_in (λ rb, rb_read rb bytes_to_consume);
        if negb (rc =? 0) then mret tt
        else
          _ ← set_transfer (λ c, (length, 0, rdb_written_bytes c, tmp_rdb_fp c));
          _ ← on_client (with_repl_client_state REPL_STATE_RECEIVING_RDB_DATA);
          replica_receive_rdb_snapshot
    end.

Section replication.
Context (max_alloc : Z) (region_ptr padding : bytes).

Definition replica_handle_master_data (parse_fuel : nat) : sessM unit :=
  s ← gets id;
  match repl_client_state (cl s) with
  | REPL_STATE_CONNECTING =>
      _ ← send_ping_command; on_client (with_repl_client_state REPL_STATE_SENT_PING)
  | REPL_STATE_SENT_PING | REPL_STATE_SENT_REPLCONF_PORT | REPL_STATE_SENT_REPLCONF_CAPA
  | REPL_STATE_SENT_PSYNC => process_client_input max_alloc region_ptr padding parse_fuel
  | REPL_STATE_RECEIVED_PONG =>
      _ ← send_replconf_listening_port_command (port (w_config (s_world s)));
      on_client (with_repl_client_state REPL_STATE_SENT_REPLCONF_PORT)
  | REPL_STATE_RECEIVED_REPLCONF_PORT_OK =>
      _ ← send_replconf_capa_command; on_client (with_repl_client_state REPL_STATE_SENT_REPLCONF_CAPA)
  | REPL_STATE_RECEIVED_REPLCONF_CAPA_OK =>
      _ ← send_psync_command; on_client (with_repl_client_state REPL_STATE_SENT_PSYNC)
  | REPL_STATE_RECEIVED_FULLRESYNC_RESPONSE => receive_header
  | REPL_STATE_RECEIVING_RDB_DATA => replica_receive_rdb_snapshot
  | REPL_STATE_READY => process_client_input max_alloc region_ptr padding parse_fuel
  | REPL_STATE_NONE | REPL_STATE_ERROR => mret tt
  end.

(** ** The master: sending the snapshot *)

(** The most one call transfers. *)
Definition MAX_RW_COUNT : Z := 2147479552.

(** [sendfile(fd, file, &offset, count)]: at the end of the file nothing is sent;
    a count that is negative as a [ssize_t] is refused. *)
Definition sendfile (file : bytes) (offset count : Z) (k : socket) : (Z + errno) * socket :=
  if 2 ^ 63 <=? count then (inr EOTHER, k)
  else
    match slice offset (Z.min count MAX_RW_COUNT) file with
    | [] => (inl 0, k)
    | data => sock_write data k
    end.

(** The loop: whether it was left by [break], not by [return].  The count is the
    one computed before it; an unknown descriptor fails. *)
Fixpoint send_loop (fuel : nat) (remaining_bytes : Z) : sessM bool :=
  match fuel with
  | O => stop OutOfFuel
  | S fuel' =>
      s ← gets id;
      match rdb_fd (cl s) ≫= (files (w_os (s_world s)) !!.) with
      | None => mret false
      | Some file =>
          let '(answer, k) := sendfile file (rdb_file_offset (cl s)) remaining_bytes (s_sock s) in
          _ ← modify (put_sock k);
          match answer with
          | inr EWOULDBLOCK => mret true
          | inr EINTR => send_loop fuel' remaining_bytes
          | inr EOTHER => mret false
          | inl bytes_sent =>
              if bytes_sent =? 0 then mret true
              else
                _ ← on_client (λ c, with_file_offset (rdb_file_offset c + bytes_sent) c);
                send_loop fuel' remaining_bytes
          end
      end
  end.

(** Every turn uses up an answer or sends a byte. *)
Definition send_fuel (s : session) : nat :=
  length (write_answers (s_sock s)) +
  length (default [] (rdb_fd (cl s) ≫= (files (w_os (s_world s)) !!.))) + 2.

(** [!client->type == CLIENT_TYPE_REPLICA] holds for regular clients only. *)
Definition master_send_rdb_snapshot : sessM unit :=
  s ← gets id;
  if bool_decide (type (cl s) = CLIENT_TYPE_REGULAR) then mret tt
  else
    let remaining_bytes := u64 (rdb_file_size (cl s) - rdb_file_offset (cl s)) in
    broke ← send_loop (send_fuel s) remaining_bytes;
    if negb (broke : bool) then mret tt
    else
      c ← gets cl;
      if rdb_file_offset c =? rdb_file_size c then
        _ ← on_w client_disable_write_events;
        on_client (with_master_repl_state MASTER_REPL_STATE_PROPAGATE)
      else mret tt.

(** ** The master: continuing after a partial resynchronisation *)

(** [memcpy(client->output_buffer, data, n)] writes over the structure and not
    the bytes it manages.  The counters come first; the rest of the structure
    (pointer, size, descriptor) is only followed if it is unchanged. *)
Definition overwrite_struct (rb : ring_buffer) (data : bytes) : res ring_buffer :=
  let old := struct_image region_ptr padding rb in
  if zlen old <? zlen data then Stop BadAccess
  else
    let new := data ++ drop (length data) old in
    if bool_decide (drop 16 new = drop 16 old)
    then Ok (RingBuffer (le_val (slice 0 8 new)) (le_val (slice 8 8 new)) (region rb) (size rb) (fd rb))
    else Stop Indeterminate.

(** A replica that is ahead is disconnected, and the function goes on. *)
Definition continue_psync : sessM unit :=
  s ← gets id;
  let info := w_info (s_world s) in
  let master_offset := master_repl_offset info in
  let replica_offset := repl_offset (cl s) in
  if replica_offset =? master_offset then
    _ ← on_client (with_master_repl_state MASTER_REPL_STATE_PROPAGATE);
    on_w client_disable_write_events
  else
    _ ← when (master_offset <=? replica_offset) handle_client_disconnection;
    let bytes_to_send := s64 (master_offset - replica_offset) in
    if bytes_to_send <=? 0 then mret tt
    else
      '(read_buf, readable_len) ← lift (rb_readable (s_backlog s));
      if readable_len <? bytes_to_send then handle_client_disconnection
      else
        let relative_offset := replica_offset - repl_backlog_base_offset info in
        data ← lift (rb_load (s_backlog s) (read_buf + relative_offset) bytes_to_send);
        _ ← alive;
        rb ← lift (overwrite_struct (output_buffer (cl s)) data);
        _ ← on_client (with_output rb);
        bytes_sent ← flush_client_output;
        when (0 <? bytes_sent)
          (on_client (λ c, with_repl_offset (s64 (repl_offset c + bytes_sent)) c)).

Definition master_handle_replica_out : sessM unit :=
  c ← gets cl;
  match master_repl_state c with
  | MASTER_REPL_STATE_PROPAGATE => _ ← flush_client_output; mret tt
  | MASTER_REPL_STATE_SENDING_RDB_DATA => master_send_rdb_snapshot
  | MASTER_REPL_STATE_PSYNC => continue_psync
  end.
End replication.

(** [begin_fullresync], which nothing calls. *)
Definition begin_fullresync : cmdM unit :=
  i ← gets w_info;
  _ ← reply (add_fullresync_reply (master_replid i) (master_repl_offset i));
  _ ← redis_db_save;
  '(path, db_file_size) ← open_snapshot;
  _ ← modify (λ w, set_client (start_full path db_file_size (w_client w)) w);
  _ ← reply (write_begin_bulk_string db_file_size);
  client_enable_write_events.
