(* ===== verification/ReplicationSpec.v ===== *)
(** * The replica's side of replication: proofs

    Receiving a snapshot in pieces, the handshake with the master, and how the
    link can stop making progress. *)

From S2P Require Import Prelude CLib RingBuffer Util Database Rdb RespWriter ServerState.
From S2P Require Import Commands CommandSpec RespParser CommandHandler Client ClientAlloc Replication.

(** ** Receiving the snapshot *)

(** [got] of the [N] bytes are in the temporary file, and [waiting] is in the
    input buffer. *)
Record receiving (N : Z) (path got waiting : bytes) (s : session) : Prop := {
  rv_in : rb_wf (s_in s) ∧ contents (s_in s) = waiting ∧ zlen waiting < size (s_in s);
  rv_index : write_index (s_in s) + (N - zlen got) < 2 ^ 64;
  rv_counts : rdb_expected_bytes (cl s) = N ∧ rdb_received_bytes (cl s) = zlen got ∧
              rdb_written_bytes (cl s) = zlen got;
  rv_file : tmp_rdb_fp (cl s) = OpenStream path got;
  rv_len : zlen got ≤ N < 2 ^ 63
}.

(** The session with these counters, input buffer and socket. *)
Definition transferred (N : Z) (path got : bytes) (rb : ring_buffer) (k : socket) (s : session) : session :=
  put_in rb (put_sock k (put_world (set_client
    (with_transfer N (zlen got) (zlen got) (OpenStream path got) (cl s)) (s_world s)) s)).

(** Bytes [d] are read into the input buffer. *)
Lemma receive_bytes_ok N path got waiting s d k br :
  receiving N path got waiting s → zlen got < N →
  sock_read (N - zlen got) (s_sock s) = (inl d, k) → d ≠ [] →
  zlen d ≤ size (s_in s) - zlen waiting → zlen d ≤ N - zlen got →
  ∃ rb, rb_wf rb ∧ contents rb = waiting ++ d ∧ size rb = size (s_in s) ∧
    write_index rb = write_index (s_in s) + zlen d ∧
    receive_bytes br s = Ok (WriteOut (Some (zlen d)),
      put_in rb (put_sock k (put_world (set_client
        (with_transfer N (zlen got + zlen d) (zlen got) (OpenStream path got) (cl s)) (s_world s)) s))).
Proof.
  intros [(Hwf & Hc & Hroom) Hix (He & Hr & Hw) Hfp Hlen] Hlt Hread Hne Hfit Hmiss.
  destruct (rb_fill (s_in s) d Hwf) as (rb1 & rb & Hs & Hwr & Hwf2 & Hc2 & Hz & Hx); [rewrite Hc; lia|lia|].
  rewrite Hc in Hc2. exists rb. split_and!; try done. unfold receive_bytes.
  erewrite st_bind_ok by reflexivity. cbv beta. rewrite He, Hr, (proj2 (Z.ltb_lt _ _)) by done.
  erewrite st_bind_ok by reflexivity. cbv beta.
  erewrite st_bind_ok by (unfold lift; rewrite rb_writable_wf by done; reflexivity). cbv beta iota.
  rewrite Hc, (proj2 (Z.eqb_neq _ _)) by lia.
  erewrite st_bind_ok by (unfold read_sock; rewrite swrap_small by lia; rewrite Hread; reflexivity).
  cbv beta. destruct d as [|b d]; [done|].
  erewrite st_bind_ok by (unfold rb_op_on; cbn [s_in put_sock]; rewrite Hs; reflexivity). cbv beta.
  erewrite st_bind_ok by (unfold rb_op_on; cbn [s_in put_in put_sock]; rewrite Hwr; reflexivity). cbv beta.
  unfold set_transfer, on_client, on_w, modify.
  erewrite st_bind_ok by reflexivity. cbn [cl s_world put_in put_sock w_client].
  unfold cl in He, Hr, Hw, Hfp. cbv beta iota. rewrite He, Hr, Hw, Hfp. rewrite swrap_small by lia. reflexivity.
Qed.

(** The first [n] bytes of the input buffer are written to the file. *)
Lemma write_temp_ok N received path got n rb k s :
  rb_wf rb → (n ≤ length (contents rb))%nat → zlen got + Z.of_nat n < 2 ^ 63 →
  let d := take n (contents rb) in
  ∃ rb', rb_wf rb' ∧ contents rb' = drop n (contents rb) ∧ size rb' = size rb ∧ write_index rb' = write_index rb ∧
    write_temp (Z.of_nat n) (put_in rb (put_sock k (put_world (set_client
        (with_transfer N received (zlen got) (OpenStream path got) (cl s)) (s_world s)) s))) =
      Ok (tt, put_in rb' (put_sock k (put_world (set_client
        (with_transfer N received (zlen (got ++ d)) (OpenStream path (got ++ d)) (cl s)) (s_world s)) s))).
Proof.
  intros Hwf Hn Hl d. destruct (rb_read_wf rb (Z.of_nat n) Hwf) as (rb' & Hrd & Hrb & Hwf' & Hc'); [lia|].
  rewrite Nat2Z.id in Hc'. exists rb'. split_and!; try done; [by subst rb'..|].
  assert (zlen d = Z.of_nat n) as Hd by (unfold d; rewrite length_take; lia).
  unfold write_temp. erewrite st_bind_ok by reflexivity. cbv beta. cbn [id s_in put_in].
  erewrite st_bind_ok by (unfold lift; rewrite rb_readable_wf by done; reflexivity). cbv beta iota.
  cbn [cl s_world put_in put_sock put_world w_client set_client tmp_rdb_fp with_transfer].
  erewrite st_bind_ok by (unfold lift; rewrite (uwrap_small 64), rb_load_prefix by (done || lia); reflexivity).
  cbv beta. rewrite Nat2Z.id. fold d. rewrite Hd. unfold set_transfer, on_client, on_w, modify.
  erewrite st_bind_ok by reflexivity. cbv beta.
  erewrite st_bind_ok by (unfold rb_op_on; cbn [s_in put_in put_sock put_world]; rewrite Hrd; reflexivity).
  clearbody d. cbn. rewrite swrap_small, zlen_app, Hd by lia. reflexivity.
Qed.

(** One turn that reads [d]. *)
Lemma receive_turn N path got waiting s d k fuel br :
  receiving N path got waiting s → zlen got < N →
  sock_read (N - zlen got) (s_sock s) = (inl d, k) → d ≠ [] →
  zlen d ≤ size (s_in s) - zlen waiting → zlen d ≤ N - zlen got →
  let got' := got ++ take (length d) (waiting ++ d) in
  ∃ rb, receiving N path got' (drop (length d) (waiting ++ d)) (transferred N path got' rb k s) ∧
    size rb = size (s_in s) ∧ write_index rb = write_index (s_in s) + zlen d ∧
    receive_loop (S fuel) br s =
      (if zlen got' =? N then _ ← close_temp; load_temp else receive_loop fuel (Some (zlen d)))
        (transferred N path got' rb k s).
Proof.
  intros Hrv Hlt Hread Hne Hfit Hmiss got'.
  destruct (receive_bytes_ok N path got waiting s d k br Hrv Hlt Hread Hne Hfit Hmiss) as (rb1 & Hwf1 & Hc1 & Hz1 & Hx1 & E1).
  destruct Hrv as [(_ & _ & Hroom) Hix _ _ Hlen].
  assert (zlen got' = zlen got + zlen d) as Hl'.
  { unfold got'. rewrite zlen_app, length_take, length_app. lia. }
  destruct (write_temp_ok N (zlen got') path got (length d) rb1 k s Hwf1) as (rb & Hwf & Hc & Hz & Hx & E2);
    [rewrite Hc1, length_app; lia|lia|]. rewrite Hc1 in Hc, E2. fold got' in E2.
  rewrite <- Hl' in E1. exists rb. split; [|split; [congruence|split; [congruence|]]].
  { constructor; cbn -[got']; [|lia|done|done|lia]. split_and!; [done|done|rewrite length_drop, length_app; lia]. }
  cbn [receive_loop]. erewrite st_bind_ok by exact E1. cbv beta iota.
  erewrite st_bind_ok by reflexivity. cbv beta. erewrite st_bind_ok by exact E2. cbv beta.
  erewrite st_bind_ok by reflexivity. reflexivity.
Qed.

(** Reads that give at most [n] bytes each. *)
Definition reads_fit (n : Z) (rs : list read_answer) : Prop :=
  Forall (λ a, match a with Gives m => m ≤ n | _ => True end) rs.

(** What the next reads give, up to the first one that gives nothing. *)
Fixpoint given (rs : list read_answer) : Z :=
  match rs with
  | Gives n :: rs' => if 0 <? n then n + given rs' else 0
  | ReadFails EINTR :: rs' => given rs'
  | _ => 0
  end.

Lemma given_nonneg rs : 0 ≤ given rs.
Proof. induction rs as [|[n| |[]] rs IH]; cbn; try lia. destruct (0 <? n) eqn:E; zbool; lia. Qed.

Lemma transferred_same N path got waiting k s :
  receiving N path got waiting s → transferred N path got (s_in s) k s = put_sock k s.
Proof.
  intros [_ _ (He & Hr & Hw) Hfp _]. unfold transferred, cl, put_sock, put_in, put_world, set_client, with_transfer in *.
  destruct s as [w sin p ch sk bl peers op]. destruct w as [m c i cfg os ep]. destruct c. cbn in *. by subst.
Qed.

(** What a read of at most [len] bytes gives. *)
Lemma sock_read_cases len k :
  0 < len →
  (∃ e k', sock_read len k = (inr e, k') ∧ incoming k' = incoming k ∧ outgoing k' = outgoing k ∧
     write_answers k' = write_answers k ∧ read_answers k' `suffix_of` read_answers k ∧ (e = EINTR → read_answers k = ReadFails EINTR :: read_answers k') ∧
     (e ≠ EINTR → given (read_answers k) = 0 ∨ incoming k = [])) ∨
  (∃ k', sock_read len k = (inl [], k') ∧ incoming k' = incoming k ∧ outgoing k' = outgoing k ∧
     write_answers k' = write_answers k ∧ read_answers k' `suffix_of` read_answers k ∧
     given (read_answers k) = 0) ∨
  (∃ n d k', sock_read len k = (inl d, k') ∧ d ≠ [] ∧ incoming k = d ++ incoming k' ∧ outgoing k' = outgoing k ∧
     write_answers k' = write_answers k ∧ read_answers k = Gives n :: read_answers k' ∧ 0 < n ∧
     zlen d = Z.min n (Z.min len (zlen (incoming k)))).
Proof.
  intros Hl. unfold sock_read. destruct (read_answers k) as [|[n| |e] rs] eqn:Er.
  - left. exists EWOULDBLOCK, k. rewrite Er. split_and!; try done. by left.
  - destruct (take (Z.to_nat (Z.min n len)) (incoming k)) as [|b d] eqn:Ed.
    + left. eexists EWOULDBLOCK, _. split_and!; try done; [by apply suffix_cons_r|]. intros _. cbn [given].
      destruct (0 <? n) eqn:En; [right|by left]. zbool.
      apply (f_equal length) in Ed. rewrite length_take in Ed. apply nil_length_inv. cbn in Ed. lia.
    + assert (0 < n).
      { destruct (decide (0 < n)); [done|]. by replace (Z.to_nat (Z.min n len)) with 0%nat in Ed by lia. }
      right. right. eexists n, (b :: d), _. split_and!; try done; cbn [incoming read_answers].
      * by rewrite <- Ed, take_drop.
      * rewrite <- Ed, length_take. lia.
  - right. left. eexists. split_and!; try done. by apply suffix_cons_r.
  - left. eexists e, _. split_and!; try done; [by apply suffix_cons_r|by intros ->|]. intros He. left. by destruct e.
Qed.

(** A read that brings nothing. *)
Lemma receive_bytes_none N path got waiting s a k br :
  receiving N path got waiting s → zlen got < N → sock_read (N - zlen got) (s_sock s) = (a, k) →
  (∀ d, a = inl d → d = []) →
  receive_bytes br s = Ok (match a with inr EINTR => Again | _ => Leave end, put_sock k s).
Proof.
  intros [(Hwf & Hc & Hroom) _ (He & Hr & _) _ Hlen] Hlt Hread Hd. unfold receive_bytes.
  erewrite st_bind_ok by reflexivity. cbv beta. rewrite He, Hr, (proj2 (Z.ltb_lt _ _)) by done.
  erewrite st_bind_ok by reflexivity. cbv beta.
  erewrite st_bind_ok by (unfold lift; rewrite rb_writable_wf by done; reflexivity). cbv beta iota.
  rewrite Hc, (proj2 (Z.eqb_neq _ _)) by lia.
  erewrite st_bind_ok by (unfold read_sock; rewrite swrap_small by lia; rewrite Hread; reflexivity).
  cbv beta. destruct a as [d|e]; [by rewrite (Hd d eq_refl)|by destruct e].
Qed.

(** The outcome of a call that takes [j] bytes from the socket: they go behind
    what was waiting, and as many from the front go to the file; the snapshot is
    loaded once it is complete, and it is complete if the reads give enough. *)
Definition receives (N : Z) (path got waiting : bytes) (s : session) (r : res (unit * session)) : Prop :=
  ∃ j rb k, let stream := waiting ++ incoming (s_sock s) in
    let got' := got ++ take j stream in
    let waiting' := take (length waiting) (drop j stream) in
    (j ≤ length (incoming (s_sock s)))%nat ∧
    receiving N path got' waiting' (transferred N path got' rb k s) ∧
    (size rb = size (s_in s) ∧ write_index rb = write_index (s_in s) + Z.of_nat j) ∧
    incoming k = drop j (incoming (s_sock s)) ∧
    outgoing k = outgoing (s_sock s) ∧ write_answers k = write_answers (s_sock s) ∧
    (read_answers k `suffix_of` read_answers (s_sock s) ∧
      ((0 < j)%nat → (length (read_answers k) < length (read_answers (s_sock s)))%nat)) ∧
    r = (if zlen got' =? N then _ ← close_temp; load_temp else mret tt) (transferred N path got' rb k s) ∧
    (N - zlen got ≤ given (read_answers (s_sock s)) → N - zlen got ≤ zlen (incoming (s_sock s)) → zlen got' = N).

Lemma receives_nothing N path got waiting s k :
  receiving N path got waiting s → zlen got < N →
  incoming k = incoming (s_sock s) → outgoing k = outgoing (s_sock s) →
  write_answers k = write_answers (s_sock s) → read_answers k `suffix_of` read_answers (s_sock s) →
  given (read_answers (s_sock s)) = 0 ∨ incoming (s_sock s) = [] →
  receives N path got waiting s (Ok (tt, put_sock k s)).
Proof.
  intros Hrv Hlt Hin Hout Hws Hsuf Hnone. exists 0%nat, (s_in s), k. cbn zeta.
  rewrite take_0, app_nil_r, !drop_0, take_app_length, (transferred_same _ _ _ waiting) by done.
  rewrite (proj2 (Z.eqb_neq _ _)) by lia. split_and!; try done; [lia|by destruct Hrv|lia|lia|].
  intros Hg Hi. destruct Hnone as [H0|H0]; rewrite H0 in *; cbn in *; lia.
Qed.

(** The rest of the loop after a turn that read [d]. *)
Lemma receives_more N path got waiting s rb d k r :
  let got1 := got ++ take (length d) (waiting ++ d) in
  incoming (s_sock s) = d ++ incoming k → outgoing k = outgoing (s_sock s) →
  write_answers k = write_answers (s_sock s) → (∃ a, read_answers (s_sock s) = a :: read_answers k) →
  size rb = size (s_in s) → write_index rb = write_index (s_in s) + zlen d →
  (N - zlen got ≤ given (read_answers (s_sock s)) → N - zlen got ≤ zlen (incoming (s_sock s)) →
   N - zlen got - zlen d ≤ given (read_answers k)) →
  receives N path got1 (drop (length d) (waiting ++ d)) (transferred N path got1 rb k s) r →
  receives N path got waiting s r.
Proof.
  intros got1 Hin Hout Hws [a Hras] Hz Hx Hgv (j & rb' & k' & Hj & Hrv & [Hz' Hx'] & Hin' & Hout' & Hws' & [Hsuf' Hlt'] & Hr & Hall).
  cbn [s_sock transferred put_in put_sock put_world s_in] in *.
  assert (zlen got1 = zlen got + zlen d) as Hl1.
  { unfold got1. rewrite zlen_app, length_take, length_app. lia. }
  assert (drop (length d) (waiting ++ d) ++ incoming k = drop (length d) (waiting ++ incoming (s_sock s))) as Ht.
  { rewrite Hin, app_assoc, (drop_app_le (waiting ++ d)) by (rewrite length_app; lia). done. }
  assert (length (drop (length d) (waiting ++ d)) = length waiting) as Hlw.
  { rewrite length_drop, length_app. lia. }
  assert (∀ i, got1 ++ take i (drop (length d) (waiting ++ incoming (s_sock s))) =
               got ++ take (length d + i) (waiting ++ incoming (s_sock s))) as Hg1.
  { intros i. unfold got1. rewrite <- app_assoc. f_equal.
    rewrite <- (take_drop (length d) (take (length d + i) (waiting ++ incoming (s_sock s)))).
    rewrite take_take, Nat.min_l, skipn_firstn_comm by lia.
    replace (length d + i - length d)%nat with i by lia. f_equal.
    rewrite Hin, app_assoc, (take_app_le (waiting ++ d)) by (rewrite length_app; lia). done. }
  rewrite Ht, Hlw in *. rewrite drop_drop, Hg1 in *.
  exists (length d + j)%nat, rb', k'. cbn zeta. split_and!; try done; try congruence.
  - rewrite Hin, length_app. lia.
  - lia.
  - by rewrite Hin', Hin, drop_app_add.
  - rewrite Hras. by apply suffix_cons_r.
  - intros _. rewrite Hras. apply suffix_length in Hsuf'. cbn. lia.
  - intros Hg Hi. rewrite <- Hg1. specialize (Hgv Hg Hi). rewrite <- Hg1 in Hall. rewrite Hin, zlen_app in Hi.
    apply Hall; lia.
Qed.

Lemma receive_loop_runs fuel N path got waiting s br :
  receiving N path got waiting s → zlen got < N →
  reads_fit (size (s_in s) - zlen waiting) (read_answers (s_sock s)) →
  (length (read_answers (s_sock s)) < fuel)%nat → receives N path got waiting s (receive_loop fuel br s).
Proof.
  revert got waiting s br. induction fuel as [|fuel IH]; intros got waiting s br Hrv Hlt Hfit Hfuel; [lia|].
  destruct (sock_read_cases (N - zlen got) (s_sock s)) as
    [(e & k & Hread & Hin & Hout & Hws & Hsuf & Hintr & Hnone)|[(k & Hread & Hin & Hout & Hws & Hsuf & Hnone)|
     (n & d & k & Hread & Hne & Hin & Hout & Hws & Hras & Hn & Hd)]]; [lia| | |].
  - cbn [receive_loop]. erewrite st_bind_ok by (by eapply receive_bytes_none). cbv beta.
    destruct (decide (e = EINTR)) as [->|Hee].
    + specialize (Hintr eq_refl). rewrite Hintr in Hfit, Hfuel. apply Forall_cons in Hfit as [_ Hfit].
      destruct (IH got waiting (put_sock k s) (Some (-1))) as (j & rb & k' & H); [by destruct Hrv|done|done|cbn in *; lia|].
      exists j, rb, k'. cbn [s_sock put_sock s_in] in H. rewrite Hin, Hout, Hws in H.
      destruct H as (? & ? & [? ?] & ? & ? & ? & [? Hl] & ? & Hall). rewrite Hintr. split_and!; try done; [by apply suffix_cons_r|].
      intros Hj. specialize (Hl Hj). cbn. lia.
    + destruct e; [done|..]; apply receives_nothing; auto.
  - cbn [receive_loop]. erewrite st_bind_ok by (eapply receive_bytes_none; [done..|by intros ? [= <-]]).
    cbv beta iota. apply receives_nothing; auto.
  - rewrite Hras in Hfit, Hfuel. apply Forall_cons in Hfit as [Hfn Hfit].
    destruct (receive_turn N path got waiting s d k fuel br Hrv Hlt Hread Hne) as (rb & Hrv' & Hz & Hx & ->); [lia|lia|].
    apply (receives_more N path got waiting s rb d k); [done..|by exists (Gives n)|done|done| |].
    { rewrite Hras. cbn [given]. rewrite (proj2 (Z.ltb_lt 0 n)) by done.
      pose proof (given_nonneg (read_answers k)). lia. }
    set (got1 := got ++ take (length d) (waiting ++ d)) in *.
    assert (length (drop (length d) (waiting ++ d)) = length waiting) as Hlw by (rewrite length_drop, length_app; lia).
    destruct (zlen got1 =? N) eqn:EN; zbool.
    + exists 0%nat, rb, k. cbn zeta. rewrite take_0, app_nil_r, !drop_0, take_app_length.
      split_and!; try done; [lia|cbn; lia|lia|]. by rewrite (proj2 (Z.eqb_eq _ _)).
    + apply IH; [done| |cbn; by rewrite Hz, Hlw|cbn in *; lia].
      destruct Hrv' as [_ _ _ _ Hlen']. lia.
Qed.

(** What loading the snapshot leaves alone. *)
Record loading_leaves (s s' : session) : Prop := {
  ll_session : s_open s' = s_open s ∧ s_parser s' = s_parser s ∧ s_peers s' = s_peers s ∧ s_backlog s' = s_backlog s;
  ll_server : w_info (s_world s') = w_info (s_world s) ∧ w_config (s_world s') = w_config (s_world s) ∧
              epoll_answers (s_world s') = epoll_answers (s_world s);
  ll_client : type (cl s') = type (cl s) ∧ client_fd (cl s') = client_fd (cl s) ∧
              should_reply (cl s') = should_reply (cl s) ∧ out (s_world s') = out (s_world s)
}.

(** The end of the transfer: the file is closed and loaded. *)
Lemma finish_transfer N path got waiting s rc m :
  receiving N path got waiting s → epoll_answers (s_world s) = [] →
  rdb_load_data_from_file (w_os (put_file path got (s_world s))) (dir (w_config (s_world s))) TEMP_SNAPSHOT
    (w_mem (s_world s)) = Ok (rc, m) →
  ∃ s', (_ ← close_temp; load_temp) s = Ok (tt, s') ∧
    w_mem (s_world s') = m ∧ files (w_os (s_world s')) = <[path := got]> (files (w_os (s_world s))) ∧
    repl_client_state (cl s') = REPL_STATE_READY ∧ tmp_rdb_fp (cl s') = ClosedStream ∧
    epoll_events (cl s') = Z.lor (epoll_events (cl s)) EPOLLIN ∧
    s_in s' = s_in s ∧ s_sock s' = s_sock s ∧ loading_leaves s s'.
Proof.
  intros [_ _ _ Hfp _] Hep Hload.
  unfold close_temp. erewrite (st_bind_ok _ _ s tt).
  2:{ erewrite st_bind_ok by reflexivity. cbv beta. rewrite Hfp. reflexivity. }
  cbv beta. unfold load_temp. erewrite st_bind_ok by reflexivity. cbv beta.
  erewrite st_bind_ok.
  2:{ unfold on_w, on_db. cbn [s_world put_world w_os w_config w_mem set_client put_file set_os cl] in *.
      rewrite Hload. reflexivity. }
  cbv beta. erewrite st_bind_ok by reflexivity. unfold client_enable_read_events, epoll_mod, on_w.
  cbn [s_world put_world set_client epoll_answers set_mem put_file set_os]. rewrite Hep.
  eexists. split; [reflexivity|]. by split_and!.
Qed.

(** The temporary file is opened by the first call. *)
Lemma open_temp_ok N path waiting s :
  tmp_rdb_fp (cl s) = NoStream → fopen_w_ok (w_os (s_world s)) = true →
  construct_file_path (path_malloc_ok (w_os (s_world s))) (dir (w_config (s_world s))) TEMP_SNAPSHOT = Some path →
  rdb_expected_bytes (cl s) = N → rdb_received_bytes (cl s) = 0 → rdb_written_bytes (cl s) = 0 →
  rb_wf (s_in s) → contents (s_in s) = waiting → zlen waiting < size (s_in s) →
  write_index (s_in s) + N < 2 ^ 64 → 0 ≤ N < 2 ^ 63 →
  ∃ s1, open_temp s = Ok (true, s1) ∧ receiving N path [] waiting s1 ∧
    s1 = put_world (set_client (with_transfer N 0 0 (OpenStream path []) (cl s)) (put_file path [] (s_world s))) s.
Proof.
  intros Hfp Hw Hp HN Hr Hwr Hwf Hc Hroom Hix Hlen. unfold open_temp. erewrite st_bind_ok by reflexivity. cbv beta.
  cbn [id]. rewrite Hfp. cbv zeta. erewrite st_bind_ok by (unfold lift; rewrite Hp; reflexivity). cbv beta.
  rewrite Hw. cbn [negb]. erewrite st_bind_ok by reflexivity. cbv beta.
  erewrite st_bind_ok by reflexivity. eexists. split; [reflexivity|].
  unfold cl in *. cbn. rewrite HN, Hr, Hwr. split; [|done].
  constructor; cbn; try done; lia.
Qed.

(** A call during the transfer. *)
Lemma receive_continues N path got waiting s :
  receiving N path got waiting s → zlen got < N →
  reads_fit (size (s_in s) - zlen waiting) (read_answers (s_sock s)) →
  receives N path got waiting s (replica_receive_rdb_snapshot s).
Proof.
  intros Hrv Hlt Hfit. unfold replica_receive_rdb_snapshot.
  erewrite (st_bind_ok open_temp).
  2:{ unfold open_temp. erewrite st_bind_ok by reflexivity. cbn [id]. rewrite (rv_file _ _ _ _ _ Hrv). reflexivity. }
  cbv beta iota. erewrite st_bind_ok by reflexivity. cbv beta.
  apply receive_loop_runs; [done..|cbn; lia].
Qed.

(** C16: whatever else the socket does (short reads, interruptions, nothing
    there, the end of the stream), as long as no read gives more bytes than the
    input buffer has room for (the code limits a read by what is missing, not by
    the room), a call during the transfer appends to the temporary file, in
    order and without a gap, the first bytes of what was waiting in the buffer
    followed by what is in the socket, as many as it takes from the socket, and
    keeps the counters; no byte is taken beyond the announced length; when the
    file is complete it is closed and loaded; and it is complete if what is
    missing has arrived and the reads give it. *)
Theorem replica_receive_keeps_every_byte N path got waiting s :
  receiving N path got waiting s → zlen got < N →
  reads_fit (size (s_in s) - zlen waiting) (read_answers (s_sock s)) →
  receives N path got waiting s (replica_receive_rdb_snapshot s).
Proof. apply receive_continues. Qed.

(** ** The link to the master *)

(** A link at rest: nothing on its way, the output flushed, [pending] waiting in
    the input buffer, room for [a] more bytes in and [b] more out. *)
Record link (pending : bytes) (a b : Z) (st : ReplicaClientState) (s : session) : Prop := {
  lk_open : s_open s = true;
  lk_parser : s_parser s = parser_init;
  lk_type : type (cl s) = CLIENT_TYPE_MASTER;
  lk_state : repl_client_state (cl s) = st;
  lk_in : rb_wf (s_in s) ∧ contents (s_in s) = pending ∧ size (s_in s) = RING_BUFFER_SIZE ∧
          write_index (s_in s) + a < 2 ^ 64;
  lk_out : rb_wf (out (s_world s)) ∧ contents (out (s_world s)) = [] ∧
           size (out (s_world s)) = RING_BUFFER_SIZE ∧ write_index (out (s_world s)) + b < 2 ^ 64;
  lk_ch : 256 ≤ buf_size (s_ch s);
  lk_mark : should_propogate_command (cl s) = false;
  lk_sock : incoming (s_sock s) = [] ∧ read_answers (s_sock s) = [] ∧ write_answers (s_sock s) = [];
  lk_transfer : rdb_received_bytes (cl s) = 0 ∧ rdb_written_bytes (cl s) = 0 ∧ tmp_rdb_fp (cl s) = NoStream
}.

(** What the handshake leaves alone. *)
Record same_server (s s' : session) : Prop := {
  ss_mem : w_mem (s_world s') = w_mem (s_world s);
  ss_config : w_config (s_world s') = w_config (s_world s);
  ss_os : w_os (s_world s') = w_os (s_world s);
  ss_epoll : epoll_answers (s_world s') = epoll_answers (s_world s);
  ss_events : epoll_events (cl s') = epoll_events (cl s);
  ss_rest : w_info (s_world s') = w_info (s_world s) ∧ s_backlog s' = s_backlog s ∧ s_peers s' = s_peers s;
  ss_client : client_fd (cl s') = client_fd (cl s) ∧ should_reply (cl s') = should_reply (cl s)
}.

Lemma same_server_trans s1 s2 s3 : same_server s1 s2 → same_server s2 s3 → same_server s1 s3.
Proof. intros [? ? ? ? ? (? & ? & ?) (? & ?)] [? ? ? ? ? (? & ? & ?) (? & ?)]. constructor; split_and?; congruence. Qed.

(** [d] arrives and is there to be read at once. *)
Definition deliver (d : bytes) (s : session) : session :=
  let k := s_sock s in
  put_sock (MkSocket (incoming k ++ d)
              (read_answers k ++ match d with [] => [] | _ => [Gives (zlen d)] end)
              (write_answers k) (outgoing k)) s.

Section link.
Context (max_alloc : Z) (region_ptr padding : bytes) (pf : nat).
#[local] Instance link_handler : Handler (CommandHandler * world) := the_handler max_alloc.

(** One event of the link, with what arrived before it. *)
Definition link_event (d : bytes) : sessM unit :=
  _ ← modify (deliver d); replica_handle_master_data max_alloc region_ptr padding pf.

Lemma deliver_nothing s : read_answers (s_sock s) = [] → deliver [] s = s.
Proof.
  intros Hr. unfold deliver. rewrite Hr, !app_nil_r, <- Hr. by destruct s as [? ? ? ? [] ? ? ?].
Qed.

(** Sending a command of the handshake. *)
Lemma send_command_ok pending a b st s args next :
  link pending a b st s → args ≠ [] → zlen (encode (RArray args)) ≤ Z.min b RING_BUFFER_SIZE →
  ∃ s', send_command args next s = Ok (tt, s') ∧
    link pending a (b - zlen (encode (RArray args))) next s' ∧ same_server s s' ∧
    outgoing (s_sock s') = outgoing (s_sock s) ++ encode (RArray args).
Proof.
  intros [Ho Hp Ht Hs Hin (Hwf & Hc & Hz & Hx) Hch Hm (Hi & Hra & Hws) Htr] Hne Hlen.
  set (r := RArray args) in *.
  destruct (add_reply_appends r I (out (s_world s)) Hwf) as (rb1 & E1 & Hwf1 & Hc1 & Hz1 & Hx1).
  { rewrite Hc, Hz. cbn [length Z.of_nat]. unfold r at 2. destruct args; [done|]. cbn [slack_of]. lia. }
  { lia. }
  rewrite Hc in Hc1. cbn [app] in Hc1.
  unfold send_command.
  erewrite (st_bind_ok _ _ s tt (put_world (set_client (with_output rb1 (cl s)) (s_world s)) s)).
  2:{ unfold on_w, reply. change (add_array_reply (Some args) (zlen args)) with (add_reply r).
      unfold out in E1. rewrite E1. reflexivity. }
  cbv beta.
  destruct (flush_all (put_world (set_client (with_output rb1 (cl s)) (s_world s)) s)) as
    (rb2 & Hwf2 & Hc2 & Hz2 & Hx2 & E2); [exact Hwf1|exact Hws|].
  erewrite st_bind_ok by exact E2. cbv beta. eexists. split; [reflexivity|].
  cbn [out s_world put_world set_client w_client cl with_output output_buffer] in *.
  split_and!; [|done|by rewrite <- Hc1].
  constructor; cbn -[encode]; try done. unfold out in *. split_and!; try done; [congruence|lia].
Qed.

(** ** Lines of the master *)

(** The collector keeps the text of a line. *)
Lemma simple_text_kept ch w txt :
  zlen txt < buf_size ch →
  ∃ ch1 ch2, begin_simple_string_handler (ch, w) = Ok (tt, (set_used 0 ch, w)) ∧
    chars_handler txt (set_used 0 ch, w) = Ok (tt, (ch1, w)) ∧ buf_size ch2 = buf_size ch ∧
    end_simple_string_handler (ch1, w) =
      match handle_simple_string_reply (cstr txt) w with
      | Ok (u, w') => Ok (u, (ch2, w'))
      | Stop e => Stop e
      end.
Proof.
  intros Hl. unfold buf_size in *. set (b1 := write_at (buf ch) 0 txt).
  assert (b1 = (Some <$> txt) ++ drop (length txt) (buf ch)) as Hb1 by (unfold b1; by rewrite write_at_eq by lia).
  assert (length b1 = length (buf ch)) as Hlen.
  { rewrite Hb1, length_app, length_fmap, length_drop. lia. }
  set (ch1 := set_used (zlen txt) (set_buf b1 ch)).
  assert (read_buf ch1 0 (zlen txt) = Some txt) as Hread.
  { unfold read_buf, slice. cbn [buf ch1 set_used set_buf]. rewrite Hb1, Z.sub_0_r, Nat2Z.id.
    change (Z.to_nat 0) with 0%nat. rewrite drop_0, <- (length_fmap Some txt), take_app_length.
    apply mapM_Some. by apply Forall2_fmap_l, Forall_Forall2_diag, Forall_true. }
  exists ch1, (set_buf (<[length txt := Some NUL]> b1) ch1). split_and!; [done| |cbn; by rewrite length_insert, Hlen|].
  - unfold chars_handler. erewrite st_bind_ok by reflexivity. cbv beta. unfold buf_size.
    cbn [fst set_used buf_used buf]. rewrite (proj2 (Z.leb_le _ _)) by lia. reflexivity.
  - unfold end_simple_string_handler. erewrite st_bind_ok by reflexivity. cbv beta. unfold buf_size.
    cbn [fst buf_used buf set_buf set_used ch1]. rewrite (proj2 (Z.ltb_lt _ _)) by (rewrite Hlen; lia).
    erewrite st_bind_ok by reflexivity. cbv beta.
    erewrite st_bind_ok by (unfold lift; fold ch1; rewrite Hread; reflexivity).
    unfold on_world. cbn. by rewrite Nat2Z.id.
Qed.

Lemma find_cr_at txt rest pos n :
  CR ∉ txt → (length txt < n)%nat → find_cr (take n (txt ++ CR :: rest)) pos = pos + zlen txt.
Proof.
  revert pos n. induction txt as [|c txt IH]; intros pos [|n] Hcr Hn; cbn in Hn; try lia.
  - cbn. by rewrite Z.add_0_r.
  - cbn. rewrite bool_decide_eq_false_2 by set_solver. rewrite IH; [lia|set_solver|lia].
Qed.

(** A line is handed to the handshake, and the parser is where it was. *)
Lemma line_parsed M txt tail end_ ch w fuel :
  M = lit "+" ++ txt ++ CRLF ++ tail → CR ∉ txt → zlen txt < buf_size ch → zlen txt + 3 ≤ end_ →
  waits_for_snapshot (ch, w) = false →
  ∃ ch', buf_size ch' = buf_size ch ∧
    parser_parse M (S (S fuel)) 0 end_ (parser_init, (ch, w)) =
      match handle_simple_string_reply (cstr txt) w with
      | Ok (_, w') => parser_parse M fuel (zlen txt + 3) end_ (parser_init, (ch', w'))
      | Stop e => Stop e
      end.
Proof.
  intros -> Hcr Hl Hend Hwait.
  destruct (simple_text_kept ch w txt Hl) as (ch1 & ch' & E1 & E2 & Hb & E3). exists ch'. split; [done|].
  set (M := lit "+" ++ txt ++ CRLF ++ tail). cbn [parser_parse].
  erewrite st_bind_ok by reflexivity. cbv beta. cbn [expects_snapshot link_handler the_handler create_handler]. rewrite Hwait.
  erewrite st_bind_ok by reflexivity. cbv beta. cbn [s_top s_parse parser_init run_parse].
  erewrite (st_bind_ok _ _ _ (MkResult true 1)
    (MkParser (MkState STATE_SIMPLE 0 Parse_simple End_simple_string) [s_top parser_init], (set_used 0 ch, w))).
  2:{ unfold parse_initial. rewrite (proj2 (Z.eqb_neq _ _)) by lia.
      erewrite st_bind_ok by reflexivity. cbv beta. erewrite st_bind_ok by reflexivity. cbv beta.
      erewrite st_bind_ok by reflexivity. cbv beta. rewrite bool_decide_eq_true_2 by done.
      erewrite st_bind_ok by (unfold on_handler; cbn [begin_simple_string link_handler the_handler create_handler]; rewrite E1; reflexivity).
      cbv beta. erewrite st_bind_ok by reflexivity. reflexivity. }
  cbv beta. cbn [keep_going new_begin].
  erewrite st_bind_ok by reflexivity. cbv beta. cbn [expects_snapshot link_handler the_handler create_handler].
  change (waits_for_snapshot (set_used 0 ch, w)) with (waits_for_snapshot (ch, w)). rewrite Hwait.
  erewrite st_bind_ok by reflexivity. cbv beta. cbn [s_top s_parse run_parse].
  unfold mbind at 1, st_bind at 1. unfold parse_simple. rewrite (proj2 (Z.eqb_neq _ _)) by lia. cbv zeta.
  assert (find_cr (slice 1 (end_ - 1) M) 1 = 1 + zlen txt) as ->.
  { unfold slice, M. change (Z.to_nat 1) with 1%nat. cbn [lit drop app CRLF]. apply find_cr_at; [done|lia]. }
  erewrite st_bind_ok.
  2:{ unfold chars_between. rewrite (proj2 (Z.ltb_ge _ _)) by lia.
      rewrite (slice_app_mid (lit "+") txt (CRLF ++ tail)) by (cbn; lia).
      unfold on_handler. cbn [chars link_handler the_handler create_handler]. rewrite E2. reflexivity. }
  cbv beta. rewrite (proj2 (Z.ltb_ge _ _)) by lia.
  erewrite st_bind_ok.
  2:{ unfold byte_at, lift, M. rewrite lookup_app_r, lookup_app_r by (cbn; lia).
      replace (Z.to_nat (1 + zlen txt + 1) - length (lit "+") - length txt)%nat with 1%nat by (cbn; lia).
      reflexivity. }
  cbv beta. rewrite bool_decide_eq_true_2 by done. erewrite st_bind_ok by reflexivity. cbv beta.
  cbn [s_end s_top callback]. unfold mbind, st_bind, on_handler. cbn [end_simple_string link_handler the_handler create_handler].
  rewrite E3. destruct (handle_simple_string_reply (cstr txt) w) as [[[] w']|]; [|done].
  cbn [keep_going new_begin]. unfold on_parser, modify. cbn.
  by replace (1 + zlen txt + 2) with (zlen txt + 3) by lia.
Qed.

(** A line is parsed alone: behind it there is nothing, or the line made the
    link wait for a snapshot. *)
Lemma line_parsed_alone txt rest tail ch w w1 :
  CR ∉ txt → zlen txt < buf_size ch → waits_for_snapshot (ch, w) = false → (3 ≤ pf)%nat →
  handle_simple_string_reply (cstr txt) w = Ok (tt, w1) →
  waits_for_snapshot (ch, w1) = true ∨ rest = [] →
  let d := lit "+" ++ txt ++ CRLF ++ rest in
  ∃ ch', buf_size ch' = buf_size ch ∧
    parser_parse (d ++ tail) pf 0 (zlen d) (parser_init, (ch, w)) =
      Ok (zlen txt + 3, (parser_init, (ch', w1))).
Proof.
  intros Hcr Hl Hwait Hpf Hh Hnext d.
  assert (zlen d = zlen txt + 3 + zlen rest) as Hld by (unfold d; rewrite !zlen_app; cbn; lia).
  destruct (line_parsed (d ++ tail) txt (rest ++ tail) (zlen d) ch w (pf - 2)) as (ch' & Hb & Hparse);
    [unfold d; by rewrite <- !app_assoc|done|done|lia|done|].
  exists ch'. split; [done|]. rewrite Hh in Hparse. replace (S (S (pf - 2))) with pf in Hparse by lia. rewrite Hparse.
  destruct (pf - 2)%nat as [|f] eqn:Ef; [lia|]. cbn [parser_parse]. erewrite st_bind_ok by reflexivity. cbv beta.
  cbn [expects_snapshot link_handler the_handler create_handler].
  change (waits_for_snapshot (ch', w1)) with (waits_for_snapshot (ch, w1)).
  destruct (waits_for_snapshot (ch, w1)) eqn:Ew; [done|]. destruct Hnext as [[=]| ->].
  erewrite st_bind_ok by reflexivity. cbv beta. cbn [s_top s_parse parser_init run_parse].
  unfold parse_initial. rewrite (proj2 (Z.eqb_eq _ _)) by (rewrite Hld; cbn [length]; lia). reflexivity.
Qed.

Lemma waits_link pending a b st s next :
  link pending a b st s →
  waits_for_snapshot (s_ch s, set_client (with_repl_client_state next (cl s)) (s_world s)) =
    bool_decide (next = REPL_STATE_RECEIVED_FULLRESYNC_RESPONSE).
Proof.
  intros Hlk. unfold waits_for_snapshot. cbn [snd set_client w_client with_repl_client_state type repl_client_state].
  by rewrite (bool_decide_eq_true_2 (type _ = _)) by apply Hlk.
Qed.

(** A line arrives in one piece with [rest] behind it. *)
Lemma line_received a b st s txt rest next :
  let d := lit "+" ++ txt ++ CRLF ++ rest in
  link [] a b st s → st ≠ REPL_STATE_RECEIVED_FULLRESYNC_RESPONSE → CR ∉ txt → zlen txt < 256 →
  zlen d ≤ Z.min a (RING_BUFFER_SIZE - 1) →
  handle_simple_string_reply (cstr txt) (s_world s) =
    Ok (tt, set_client (with_repl_client_state next (cl s)) (s_world s)) →
  next = REPL_STATE_RECEIVED_FULLRESYNC_RESPONSE ∨ rest = [] → (3 ≤ pf)%nat →
  ∃ s', process_client_input max_alloc region_ptr padding pf (deliver d s) = Ok (tt, s') ∧
    link rest (a - zlen d) b next s' ∧ same_server s s' ∧ outgoing (s_sock s') = outgoing (s_sock s).
Proof.
  intros d Hlk Hst Hcr Hl Hlen Hh Hnext Hpf. pose proof (waits_link _ _ _ _ _ next Hlk) as Hw1.
  pose proof Hlk as [Ho Hp Ht Hs (Hwf & Hc & Hz & Hx) (Hwfo & Hco & Hzo & Hxo) Hch Hm (Hi & Hra & Hws) Htr].
  destruct (receive_data max_alloc region_ptr padding (deliver d s) d pf) as (rb & s1 & Hwf1 & Hc1 & Hz1 & Hx1 & -> & ->);
    cbn [deliver put_sock s_in s_sock incoming read_answers write_answers outgoing];
    [done|done|done|by rewrite Hi|lia|lia|exists (zlen d); rewrite Hra; by split_and!|].
  cbn [deliver put_sock s_in] in Hx1, Hz1.
  destruct (rb_load_tail rb Hwf1) as (tail & HM). rewrite Hc1 in HM.
  unfold process_received. erewrite st_bind_ok by reflexivity. cbv beta. cbn [s_in put_in put_sock deliver].
  erewrite st_bind_ok by (unfold lift; rewrite rb_readable_wf by done; reflexivity). cbv beta iota.
  erewrite st_bind_ok by (unfold lift; rewrite HM; reflexivity). cbv beta. rewrite Hc1.
  destruct (line_parsed_alone txt rest tail (s_ch s) (s_world s) _ Hcr ltac:(lia) ltac:(
      unfold waits_for_snapshot; unfold cl in Hs; cbn; rewrite Hs, (bool_decide_eq_false_2 (st = _)) by done;
      apply andb_false_r) Hpf Hh) as (ch' & Hb & Hparse).
  { rewrite Hw1. destruct Hnext as [->| ->]; [left; by apply bool_decide_eq_true_2|by right]. }
  fold d in Hparse. erewrite st_bind_ok by (unfold run_parser; cbn [s_parser s_ch s_world put_in put_sock deliver];
    rewrite Hp; unfold link_handler in Hparse; rewrite Hparse; reflexivity). cbv beta.
  assert (zlen d = zlen txt + 3 + zlen rest) as Hld by (unfold d; rewrite !zlen_app; cbn; lia).
  match goal with |- context [after_parse _ _ _ _ _ _ ?s0] =>
    destruct (after_parse_plain region_ptr padding s0 (d ++ tail) (zlen txt + 3) (zlen d) (size (s_in s)))
      as (rb' & Hwf' & Hc' & Hz' & Hx' & ->) end;
    [done|done|done|cbn; rewrite Hc1; lia|lia|]. cbn [s_in put_in put_sock deliver] in Hc', Hz', Hx'.
  match goal with |- context [mbind _ flush_client_output ?s0] =>
    destruct (flush_all s0) as (rbo & Hwo & Hcno & Hzno & Hxno & E) end; [exact Hwfo|exact Hws|].
  erewrite st_bind_ok by exact E. eexists. split; [reflexivity|].
  rewrite Hc1 in Hc'. replace (drop (Z.to_nat (zlen txt + 3)) d) with rest in Hc'.
  2:{ unfold d. change (lit "+" ++ txt ++ CRLF ++ rest) with ((byte_of 43 :: txt) ++ CRLF ++ rest).
      rewrite drop_app_ge by (cbn; lia). replace (Z.to_nat (zlen txt + 3) - length (byte_of 43 :: txt))%nat with 2%nat by (cbn; lia).
      done. }
  unfold out in *. cbn [s_world put_in put_sock set_client w_client with_repl_client_state output_buffer cl] in *.
  split_and!; [|done|cbn; unfold out; cbn; unfold out, cl in *; rewrite Hco, app_nil_r; done].
  clearbody d. constructor; cbn; try done; [split_and!; try done; [congruence|lia]| |lia].
  unfold cl in *. split_and!; try done; [congruence|lia].
Qed.

(** The commands the replica sends, in their order. *)
Definition send_steps (cfg : server_config_t) : list (ReplicaClientState * list bytes * ReplicaClientState) :=
  [(REPL_STATE_CONNECTING, [lit "PING"], REPL_STATE_SENT_PING);
   (REPL_STATE_RECEIVED_PONG, [lit "REPLCONF"; lit "listening-port"; port cfg], REPL_STATE_SENT_REPLCONF_PORT);
   (REPL_STATE_RECEIVED_REPLCONF_PORT_OK, [lit "REPLCONF"; lit "capa"; lit "psync2"],
      REPL_STATE_SENT_REPLCONF_CAPA);
   (REPL_STATE_RECEIVED_REPLCONF_CAPA_OK, [lit "PSYNC"; lit "?"; lit "-1"], REPL_STATE_SENT_PSYNC)].

Lemma link_sends a b st s args next :
  (st, args, next) ∈ send_steps (w_config (s_world s)) →
  link [] a b st s → zlen (encode (RArray args)) ≤ Z.min b RING_BUFFER_SIZE →
  ∃ s', link_event [] s = Ok (tt, s') ∧ link [] a (b - zlen (encode (RArray args))) next s' ∧
    same_server s s' ∧ outgoing (s_sock s') = outgoing (s_sock s) ++ encode (RArray args).
Proof.
  intros Hst Hlk Hlen. assert (args ≠ []) as Hne.
  { repeat (apply elem_of_cons in Hst as [Hst|Hst]; [by injection Hst as -> -> ->|]). by apply elem_of_nil in Hst. }
  destruct (send_command_ok [] a b st s args next Hlk Hne Hlen) as (s' & E & Hlk' & Hsame & Hout).
  assert (on_client (with_repl_client_state next) s' = Ok (tt, s')) as Eset.
  { unfold on_client, on_w, modify. destruct Hlk' as [_ _ _ Hs _ _ _ _ _ _].
    destruct s' as [[m c i cfg os ep] sin p ch k bl ps op]. destruct c. cbn in *. by subst. }
  exists s'. split; [|done]. unfold link_event. erewrite st_bind_ok by reflexivity. cbv beta.
  rewrite deliver_nothing by apply Hlk. unfold replica_handle_master_data.
  erewrite st_bind_ok by reflexivity. cbv beta. cbn [id]. rewrite (lk_state _ _ _ _ _ Hlk).
  repeat (apply elem_of_cons in Hst as [Hst|Hst];
    [injection Hst as -> -> ->; erewrite st_bind_ok by exact E; exact Eset|]). by apply elem_of_nil in Hst.
Qed.

(** The replies the replica waits for, in their order. *)
Definition reply_steps : list (ReplicaClientState * bytes * ReplicaClientState) :=
  [(REPL_STATE_SENT_PING, lit "PONG", REPL_STATE_RECEIVED_PONG);
   (REPL_STATE_SENT_REPLCONF_PORT, lit "OK", REPL_STATE_RECEIVED_REPLCONF_PORT_OK);
   (REPL_STATE_SENT_REPLCONF_CAPA, lit "OK", REPL_STATE_RECEIVED_REPLCONF_CAPA_OK)].

(** In the states that wait for a reply, an event reads input. *)
Lemma link_event_reads d s :
  repl_client_state (cl s) ∈ [REPL_STATE_SENT_PING; REPL_STATE_SENT_REPLCONF_PORT;
    REPL_STATE_SENT_REPLCONF_CAPA; REPL_STATE_SENT_PSYNC; REPL_STATE_READY] →
  link_event d s = process_client_input max_alloc region_ptr padding pf (deliver d s).
Proof.
  intros Hs. unfold link_event. erewrite st_bind_ok by reflexivity. cbv beta.
  unfold replica_handle_master_data. erewrite st_bind_ok by reflexivity. cbv beta.
  unfold id, cl in *. cbn [deliver put_sock s_world].
  destruct (repl_client_state (w_client (s_world s))); try done; exfalso; revert Hs;
    rewrite !elem_of_cons, elem_of_nil; naive_solver.
Qed.

Lemma link_reply a b st s txt next :
  (st, txt, next) ∈ reply_steps → link [] a b st s → (3 ≤ pf)%nat →
  zlen (encode (RSimple txt)) ≤ a →
  ∃ s', link_event (encode (RSimple txt)) s = Ok (tt, s') ∧
    link [] (a - zlen (encode (RSimple txt))) b next s' ∧ same_server s s' ∧
    outgoing (s_sock s') = outgoing (s_sock s).
Proof.
  intros Hst Hlk Hpf Hlen. pose proof (lk_state _ _ _ _ _ Hlk) as Hs. pose proof (lk_type _ _ _ _ _ Hlk) as Ht.
  rewrite link_event_reads by (repeat (apply elem_of_cons in Hst as [[= -> -> ->]|Hst];
    [rewrite Hs; set_solver|]); by apply elem_of_nil in Hst).
  change (encode (RSimple txt)) with (lit "+" ++ txt ++ CRLF ++ []) in *.
  assert (zlen (lit "+" ++ txt ++ CRLF ++ []) < 10) as Hshort by
    (repeat (apply elem_of_cons in Hst as [[= -> -> ->]|Hst]; [done|]); by apply elem_of_nil in Hst).
  apply (line_received a b st s txt [] next); try done.
  - repeat (apply elem_of_cons in Hst as [[= -> -> ->]|Hst]; [done|]); by apply elem_of_nil in Hst.
  - repeat (apply elem_of_cons in Hst as [[= -> -> ->]|Hst];
      [apply (bool_decide_unpack _); by vm_compute|]); by apply elem_of_nil in Hst.
  - revert Hshort. rewrite !zlen_app. lia.
  - unfold RING_BUFFER_SIZE. lia.
  - unfold handle_simple_string_reply. erewrite st_bind_ok by reflexivity. cbv beta zeta.
    unfold cl in Hs, Ht. rewrite Hs, Ht, bool_decide_eq_true_2 by done.
    repeat (apply elem_of_cons in Hst as [[= -> -> ->]|Hst]; [reflexivity|]); by apply elem_of_nil in Hst.
  - by right.
Qed.

(** The answer to PSYNC, with what is behind it. *)
Lemma link_fullresync a b s txt rest :
  let d := lit "+" ++ txt ++ CRLF ++ rest in
  link [] a b REPL_STATE_SENT_PSYNC s → (3 ≤ pf)%nat → take 9 txt = lit "FULLRESYN" → no_nul txt →
  CR ∉ txt → zlen txt < 256 → zlen d ≤ Z.min a (RING_BUFFER_SIZE - 1) →
  ∃ s', link_event d s = Ok (tt, s') ∧
    link rest (a - zlen d) b REPL_STATE_RECEIVED_FULLRESYNC_RESPONSE s' ∧ same_server s s' ∧
    outgoing (s_sock s') = outgoing (s_sock s).
Proof.
  intros d Hlk Hpf Htxt Hnul Hcr Hl Hlen. pose proof (lk_state _ _ _ _ _ Hlk) as Hs.
  pose proof (lk_type _ _ _ _ _ Hlk) as Ht. rewrite link_event_reads by (rewrite Hs; set_solver).
  apply (line_received a b REPL_STATE_SENT_PSYNC s txt rest); try done; [|by left].
  unfold handle_simple_string_reply. erewrite st_bind_ok by reflexivity. cbv beta zeta.
  unfold cl in Hs, Ht. rewrite Hs, Ht, bool_decide_eq_true_2, cstr_id, Htxt by done. done.
Qed.

(** ** The header of the snapshot *)

Definition header (N : Z) : bytes := lit "$" ++ fmt_ld N ++ CRLF.

Lemma find_crlf_at pre rest i :
  CR ∉ pre → find_crlf (pre ++ CRLF ++ rest) i = Some (i + zlen pre).
Proof.
  revert i. induction pre as [|c pre IH]; intros i Hcr; cbn [app find_crlf CRLF length].
  - rewrite !bool_decide_eq_true_2 by done. cbn. by rewrite Z.add_0_r.
  - rewrite bool_decide_eq_false_2 by set_solver. cbn [andb].
    change (CR :: LF :: rest) with (CRLF ++ rest). rewrite IH by set_solver. f_equal. lia.
Qed.

(** An event that finds the whole header goes on to receive, with [extra] left
    in the buffer. *)
Lemma header_consumed a b s N extra d :
  link (header N ++ extra) a b REPL_STATE_RECEIVED_FULLRESYNC_RESPONSE s → 0 ≤ N ≤ LONG_MAX →
  ∃ rb, rb_wf rb ∧ contents rb = extra ∧ size rb = size (s_in s) ∧ write_index rb = write_index (s_in s) ∧
    link_event d s = replica_receive_rdb_snapshot (put_world (set_client
      (with_repl_client_state REPL_STATE_RECEIVING_RDB_DATA (with_transfer N 0 0 NoStream (cl s)))
      (s_world s)) (put_in rb (deliver d s))).
Proof.
  intros [Ho Hp Ht Hs (Hwf & Hc & Hz & Hx) _ _ _ _ (Hr & Hw & Hfp)] HN.
  pose proof (fmt_ld_length N ltac:(unfold LONG_MIN; lia)) as Hl.
  assert (zlen (header N) = zlen (fmt_ld N) + 3) as Hlh by (unfold header; rewrite !zlen_app; cbn; lia).
  destruct (rb_read_wf (s_in s) (zlen (header N)) Hwf) as (rb & Hrd & Hrb & Hwf' & Hc'); [rewrite Hc, zlen_app; lia|].
  rewrite Hc, Nat2Z.id, drop_app_length in Hc'. exists rb. split_and!; [done|done|by subst rb..|].
  destruct (rb_load_tail (s_in s) Hwf) as (tail & HM). rewrite Hc in HM.
  unfold link_event. erewrite st_bind_ok by reflexivity. cbv beta. unfold replica_handle_master_data.
  erewrite st_bind_ok by reflexivity. cbv beta. cbn [id]. change (cl (deliver d s)) with (cl s). rewrite Hs.
  unfold receive_header. erewrite st_bind_ok by reflexivity. cbv beta. cbn [deliver put_sock s_in].
  erewrite st_bind_ok by (unfold lift; rewrite rb_readable_wf by done; reflexivity). cbv beta iota.
  rewrite Hc, (proj2 (Z.ltb_ge _ _)) by (rewrite zlen_app; lia).
  erewrite st_bind_ok by (unfold lift; rewrite HM; reflexivity). cbv beta.
  rewrite Nat2Z.id, take_app_length. unfold header at 1. rewrite <- !app_assoc.
  rewrite (app_assoc (lit "$") (fmt_ld N)), find_crlf_at by (apply not_elem_of_app; split;
    [apply (bool_decide_unpack _); by vm_compute|by apply fmt_ld_no_cr]).
  cbv zeta. rewrite zlen_app. change (zlen (lit "$")) with 1.
  replace (0 + (1 + zlen (fmt_ld N)) + 2) with (zlen (header N)) by lia.
  erewrite st_bind_ok by (unfold rb_op_on; cbn [s_in put_sock deliver]; rewrite Hrd; reflexivity). cbv beta. cbn [Z.eqb negb].
  change (drop 1 (header N ++ extra ++ tail)) with ((fmt_ld N ++ CRLF) ++ extra ++ tail).
  rewrite <- !app_assoc, strtol_fmt_ld; [|unfold LONG_MIN; lia|by intros ? ? [= <- _]]. cbn [st_value].
  unfold set_transfer, on_client, on_w, modify. do 2 erewrite st_bind_ok by reflexivity.
  unfold cl in *. cbn. rewrite Hw, Hfp. reflexivity.
Qed.

(** The temporary file can be opened, at [path]. *)
Definition temp_ok (s : session) (path : bytes) : Prop :=
  fopen_w_ok (w_os (s_world s)) = true ∧
  construct_file_path (path_malloc_ok (w_os (s_world s))) (dir (w_config (s_world s))) TEMP_SNAPSHOT = Some path.

(** The session when the transfer starts. *)
Definition transfer_start (N : Z) (path : bytes) (rb : ring_buffer) (s : session) : session :=
  put_world (set_client (with_repl_client_state REPL_STATE_RECEIVING_RDB_DATA
    (with_transfer N 0 0 (OpenStream path []) (cl s))) (put_file path [] (s_world s))) (put_in rb s).

Lemma deliver_fits n d s :
  reads_fit n (read_answers (s_sock s)) → zlen d ≤ n → reads_fit n (read_answers (s_sock (deliver d s))).
Proof. intros Hr Hd. cbn. apply Forall_app. split; [done|]. destruct d; constructor; [done|constructor]. Qed.

Lemma link_starts a b s N extra d path :
  link (header N ++ extra) a b REPL_STATE_RECEIVED_FULLRESYNC_RESPONSE s → 0 < N ≤ Z.min a LONG_MAX →
  zlen extra < RING_BUFFER_SIZE → zlen d ≤ RING_BUFFER_SIZE - zlen extra → temp_ok s path →
  ∃ rb, size rb = RING_BUFFER_SIZE ∧ write_index rb = write_index (s_in s) ∧
    receiving N path [] extra (transfer_start N path rb (deliver d s)) ∧
    receives N path [] extra (transfer_start N path rb (deliver d s)) (link_event d s).
Proof.
  intros Hlk HN Hex Hd [Hw Hp]. unfold LONG_MAX in *.
  destruct (header_consumed a b s N extra d Hlk) as (rb & Hwf & Hc & Hz & Hx & E); [unfold LONG_MAX; lia|].
  destruct Hlk as [_ _ _ _ (_ & _ & Hz0 & Hx0) _ _ _ (_ & Hra & _) _].
  rewrite Hz0 in Hz. exists rb. split; [done|]. split; [done|]. rewrite E. unfold replica_receive_rdb_snapshot.
  match goal with |- context [mbind _ open_temp ?s0] => set (s2 := s0) end.
  destruct (open_temp_ok N path extra s2) as (s1 & E1 & Hrv & ->); try done; [cbn; lia|cbn; lia|lia|].
  split; [exact Hrv|]. erewrite st_bind_ok by exact E1. cbv beta iota.
  erewrite st_bind_ok by reflexivity. cbv beta.
  apply (receive_loop_runs _ N path [] extra); [exact Hrv|cbn; lia| |cbn; lia].
  cbn [id s_in s_sock put_world put_in s2 deliver put_sock read_answers]. rewrite Hra, Hz.
  apply Forall_app. split; [constructor|]. destruct d; constructor; [lia|constructor].
Qed.

(** The last event: the whole snapshot has arrived behind its header. *)
Lemma link_loads a b s F path rc m :
  link (header (zlen F)) a b REPL_STATE_RECEIVED_FULLRESYNC_RESPONSE s → 0 < zlen F ≤ Z.min a RING_BUFFER_SIZE →
  temp_ok s path → epoll_answers (s_world s) = [] →
  rdb_load_data_from_file (w_os (put_file path F (s_world s))) (dir (w_config (s_world s))) TEMP_SNAPSHOT
    (w_mem (s_world s)) = Ok (rc, m) →
  ∃ s', link_event F s = Ok (tt, s') ∧ repl_client_state (cl s') = REPL_STATE_READY ∧
    w_mem (s_world s') = m ∧ files (w_os (s_world s')) !! path = Some F ∧
    (rb_wf (s_in s') ∧ contents (s_in s') = [] ∧ size (s_in s') = RING_BUFFER_SIZE ∧
       write_index (s_in s') + (a - zlen F) < 2 ^ 64) ∧
    s_sock s' = MkSocket [] [] [] (outgoing (s_sock s)) ∧
    epoll_events (cl s') = Z.lor (epoll_events (cl s)) EPOLLIN ∧ loading_leaves s s'.
Proof.
  intros Hlk HN Htemp Hep Hload. unfold RING_BUFFER_SIZE in *.
  rewrite <- (app_nil_r (header _)) in Hlk.
  destruct (link_starts a b s (zlen F) [] F path Hlk) as (rb & Hz & Hx & _ & Hrec);
    [unfold LONG_MAX; lia|done|unfold RING_BUFFER_SIZE; cbn; lia|done|].
  destruct Hlk as [Ho _ _ _ (_ & _ & _ & Hx0) _ _ _ (Hi & Hra & Hws) _].
  destruct Hrec as (j & rb' & k & Hj & Hrv & [Hz' Hx'] & Hin & Hout & Hwk & [_ Hrk] & -> & Hall).
  cbn [s_sock transfer_start put_world put_in deliver put_sock incoming read_answers outgoing] in *.
  rewrite Hi, Hra in *. cbn [app length] in *.
  assert (F ≠ []) as Hne by (intros ->; cbn in HN; lia).
  specialize (Hall ltac:(destruct F; [done|]; cbn [given]; rewrite (proj2 (Z.ltb_lt 0 _)) by lia; lia) ltac:(lia)).
  assert (take j F = F) as HF by (apply take_ge; rewrite length_take in Hall; lia).
  assert (drop j F = []) as HF' by (apply drop_ge; rewrite length_take in Hall; lia).
  assert (j = length F) as -> by (rewrite length_take in Hall; lia).
  rewrite HF, HF' in *. rewrite (proj2 (Z.eqb_eq _ _)) by done.
  destruct (finish_transfer (zlen F) path F _ _ rc m Hrv) as (s' & E & Hm & Hf & Hst & _ & Hev & Hsin & Hsk & Hll);
    [done| |].
  { cbn in Hload |- *. unfold rdb_load_data_from_file in *. cbn in *. by rewrite insert_insert_eq. }
  exists s'. split; [exact E|]. split_and!; try done.
  - rewrite Hf. apply lookup_insert_eq.
  - rewrite Hsin. destruct Hrv as [(Hwf & _) _ _ _ _]. exact Hwf.
  - rewrite Hsin. destruct Hrv as [(_ & Hc & _) _ _ _ _]. exact Hc.
  - rewrite Hsin. cbn. by rewrite Hz'.
  - rewrite Hsin. cbn [s_in transferred put_in]. rewrite Hx'. cbn [s_in transfer_start put_world put_in].
    rewrite Hx. lia.
  - rewrite Hsk. cbn. destruct F; [done|]. specialize (Hrk ltac:(cbn; lia)). destruct k as [i ra wa o]. cbn in *.
    destruct ra; [|cbn in Hrk; lia]. congruence.
  - destruct Hll. by constructor.
Qed.

(** ** The whole handshake *)

(** What arrives on the link before each event: replies one by one, the
    announcement with the header of the snapshot, and the snapshot. *)
Definition handshake_script (txt F : bytes) : list bytes :=
  [[]; encode (RSimple (lit "PONG")); []; encode (RSimple (lit "OK")); []; encode (RSimple (lit "OK")); [];
   encode (RSimple txt) ++ header (zlen F); F].

(** What the replica sends meanwhile. *)
Definition handshake_requests (replica_port : bytes) : list (list bytes) :=
  [[lit "PING"]; [lit "REPLCONF"; lit "listening-port"; replica_port];
   [lit "REPLCONF"; lit "capa"; lit "psync2"]; [lit "PSYNC"; lit "?"; lit "-1"]].

Lemma encode_bulk_length x : zlen x < 2 ^ 62 → zlen (encode_bulk x) ≤ zlen x + 25.
Proof.
  intros Hx. unfold encode_bulk. rewrite !zlen_app.
  pose proof (fmt_ld_length (zlen x) ltac:(unfold LONG_MIN, LONG_MAX; lia)).
  change (zlen (lit "$")) with 1. change (zlen CRLF) with 2. lia.
Qed.

Lemma request_length replica_port args :
  zlen replica_port < 6 → args ∈ handshake_requests replica_port → zlen (encode (RArray args)) ≤ 150.
Proof.
  intros Hp Hin. assert (args = [lit "REPLCONF"; lit "listening-port"; replica_port] ∨
    zlen (encode (RArray args)) ≤ 150) as [->|]; [|cbn [encode fmap list_fmap concat]|done].
  { repeat (apply elem_of_cons in Hin as [->|Hin]; [first [by left|by right; vm_compute]|]).
    by apply elem_of_nil in Hin. }
  rewrite !zlen_app. pose proof (encode_bulk_length replica_port ltac:(lia)).
  assert (zlen (encode_bulk (lit "REPLCONF")) = 14) as -> by done.
  assert (zlen (encode_bulk (lit "listening-port")) = 21) as -> by done.
  change (zlen (@nil byte)) with 0. change (zlen (lit "*")) with 1. change (zlen CRLF) with 2.
  assert (zlen (fmt_ld (zlen [lit "REPLCONF"; lit "listening-port"; replica_port])) = 1) as -> by done. lia.
Qed.

(** A step of the handshake: the request of a state, or the reply it waits for. *)
Lemma handshake_send a b st s args next :
  (st, args, next) ∈ send_steps (w_config (s_world s)) → link [] a b st s →
  zlen (port (w_config (s_world s))) < 6 → 150 ≤ b →
  ∃ s', link_event [] s = Ok (tt, s') ∧ link [] a (b - 150) next s' ∧ same_server s s' ∧
    outgoing (s_sock s') = outgoing (s_sock s) ++ encode (RArray args).
Proof.
  intros Hst Hlk Hp Hb.
  assert (zlen (encode (RArray args)) ≤ 150) as Hlen.
  { apply (request_length (port (w_config (s_world s)))); [done|].
    repeat (apply elem_of_cons in Hst as [[= _ -> _]|Hst]; [set_solver|]). by apply elem_of_nil in Hst. }
  destruct (link_sends a b st s args next Hst Hlk) as (s' & E & Hlk' & Hsame & Hout);
    [unfold RING_BUFFER_SIZE; lia|].
  exists s'. split_and!; try done. destruct Hlk'. constructor; try done.
  destruct lk_out0 as (? & ? & ? & ?). split_and!; try done. lia.
Qed.

(** A request and its reply: the [i]-th of both tables. *)
Lemma handshake_exchange (i : nat) a b st s args mid txt next :
  send_steps (w_config (s_world s)) !! i = Some (st, args, mid) → reply_steps !! i = Some (mid, txt, next) →
  link [] a b st s → (3 ≤ pf)%nat → zlen (port (w_config (s_world s))) < 6 → 150 ≤ b → 10 ≤ a →
  ∃ s', for_each link_event [[]; encode (RSimple txt)] s = Ok (tt, s') ∧
    link [] (a - 10) (b - 150) next s' ∧ same_server s s' ∧
    outgoing (s_sock s') = outgoing (s_sock s) ++ encode (RArray args).
Proof.
  intros Hs%list_elem_of_lookup_2 Hr%list_elem_of_lookup_2 Hlk Hpf Hp Hb Ha.
  destruct (handshake_send a b st s args mid Hs Hlk Hp Hb) as (s1 & E1 & L1 & S1 & O1).
  assert (zlen (encode (RSimple txt)) ≤ 10) as Hlen by
    (repeat (apply elem_of_cons in Hr as [[= -> -> ->]|Hr]; [done|]); by apply elem_of_nil in Hr).
  destruct (link_reply a (b - 150) mid s1 txt next Hr L1 Hpf) as (s2 & E2 & L2 & S2 & O2); [lia|].
  exists s2. split_and!; [|destruct L2; constructor; try done|by eapply same_server_trans|by rewrite O2].
  - cbn [for_each]. erewrite st_bind_ok by exact E1. by erewrite st_bind_ok by exact E2.
  - destruct lk_in0 as (? & ? & ? & ?). split_and!; try done. lia.
Qed.

(** The three exchanges and the last request. *)
Lemma handshake_asks a b s :
  link [] a b REPL_STATE_CONNECTING s → (3 ≤ pf)%nat → zlen (port (w_config (s_world s))) < 6 →
  600 ≤ b → 30 ≤ a →
  ∃ s', for_each link_event (take 7 (handshake_script [] [])) s = Ok (tt, s') ∧
    link [] (a - 30) (b - 600) REPL_STATE_SENT_PSYNC s' ∧ same_server s s' ∧
    outgoing (s_sock s') = outgoing (s_sock s) ++
      concat ((λ args, encode (RArray args)) <$> handshake_requests (port (w_config (s_world s)))).
Proof.
  intros Hlk Hpf Hp Hb Ha.
  destruct (handshake_exchange 0 _ _ _ s _ _ _ _ eq_refl eq_refl Hlk Hpf Hp) as (s1 & E1 & L1 & S1 & O1); [lia..|].
  pose proof (ss_config _ _ S1) as C1.
  destruct (handshake_exchange 1 _ _ _ s1 _ _ _ _ eq_refl eq_refl L1 Hpf) as (s2 & E2 & L2 & S2 & O2);
    [by rewrite C1|lia..|].
  pose proof (ss_config _ _ (same_server_trans _ _ _ S1 S2)) as C2.
  destruct (handshake_exchange 2 _ _ _ s2 _ _ _ _ eq_refl eq_refl L2 Hpf) as (s3 & E3 & L3 & S3 & O3);
    [by rewrite C2|lia..|].
  pose proof (same_server_trans _ _ _ (same_server_trans _ _ _ S1 S2) S3) as S4. pose proof (ss_config _ _ S4) as C3.
  destruct (handshake_send _ _ _ s3 _ _ (list_elem_of_lookup_2 (send_steps (w_config (s_world s3))) 3 _ eq_refl) L3) as (s4 & E4 & L4 & S5 & O4);
    [by rewrite C3|lia|].
  exists s4. split_and!; [| |by eapply same_server_trans|].
  - change (take 7 (handshake_script [] [])) with
      ([[]; encode (RSimple (lit "PONG"))] ++ [[]; encode (RSimple (lit "OK"))] ++ [[]; encode (RSimple (lit "OK"))] ++ [[]]).
    rewrite for_each_app. erewrite st_bind_ok by exact E1. cbv beta.
    rewrite for_each_app. erewrite st_bind_ok by exact E2. cbv beta.
    rewrite for_each_app. erewrite st_bind_ok by exact E3. cbv beta. cbn [for_each]. by erewrite st_bind_ok by exact E4.
  - replace (a - 30) with (a - 10 - 10 - 10) by lia. by replace (b - 600) with (b - 150 - 150 - 150 - 150) by lia.
  - rewrite O4, O3, O2, O1, C1. cbn [handshake_requests fmap list_fmap concat]. by rewrite app_nil_r, <- !app_assoc.
Qed.
End link.

(** A replica whose link is new reaches the READY state when the master
    answers as it should: one event per request and reply, then the
    announcement together with the header of the snapshot, then the snapshot.
    It has sent PING, both REPLCONFs and PSYNC in this order, its temporary file
    is the snapshot, its memory is what loading that file gives, nothing is left
    in its input buffer, and it waits for commands of the master. *)
Theorem replica_handshake_completes max_alloc region_ptr padding pf s txt F path rc m :
  link [] (2 ^ 62) (2 ^ 62) REPL_STATE_CONNECTING s → (3 ≤ pf)%nat → zlen (port (w_config (s_world s))) < 6 →
  take 9 txt = lit "FULLRESYN" → no_nul txt → CR ∉ txt → zlen txt < 256 → 0 < zlen F ≤ RING_BUFFER_SIZE →
  temp_ok s path → epoll_answers (s_world s) = [] →
  rdb_load_data_from_file (w_os (put_file path F (s_world s))) (dir (w_config (s_world s))) TEMP_SNAPSHOT
    (w_mem (s_world s)) = Ok (rc, m) →
  ∃ s', for_each (link_event max_alloc region_ptr padding pf) (handshake_script txt F) s = Ok (tt, s') ∧
    repl_client_state (cl s') = REPL_STATE_READY ∧ w_mem (s_world s') = m ∧
    files (w_os (s_world s')) !! path = Some F ∧
    outgoing (s_sock s') = outgoing (s_sock s) ++
      concat ((λ args, encode (RArray args)) <$> handshake_requests (port (w_config (s_world s)))) ∧
    contents (s_in s') = [] ∧ epoll_events (cl s') = Z.lor (epoll_events (cl s)) EPOLLIN.
Proof.
  intros Hlk Hpf Hport Ht9 Hnul Hcr Hl HF Htemp Hep Hload. set (p := port (w_config (s_world s))) in *.
  pose proof (fmt_ld_length (zlen F) ltac:(unfold LONG_MIN, LONG_MAX, RING_BUFFER_SIZE in *; lia)) as Hfmt.
  unfold RING_BUFFER_SIZE in *.
  destruct (handshake_asks max_alloc region_ptr padding pf _ _ s Hlk Hpf Hport) as (s1 & E1 & L1 & S1 & O1); [lia..|].
  destruct (link_fullresync max_alloc region_ptr padding pf _ _ s1 txt (header (zlen F)) L1 Hpf) as (s2 & E2 & L2 & S2 & O2);
    [done..|unfold RING_BUFFER_SIZE, header; rewrite !zlen_app; cbn; lia|].
  pose proof (same_server_trans _ _ _ S1 S2) as [Hm Hc Ho He Hev _ _].
  destruct (link_loads max_alloc region_ptr padding pf _ _ s2 F path rc m L2) as (s3 & E3 & Hst & Hmem & Hf & (_ & Hin & _) & Hsk & Hev3 & _).
  - unfold header. rewrite !zlen_app. unfold RING_BUFFER_SIZE. cbn. lia.
  - unfold temp_ok. by rewrite Ho, Hc.
  - by rewrite He.
  - rewrite Hm, Hc. unfold put_file. by rewrite Ho.
  - exists s3. split_and!; [|done..|rewrite Hsk; cbn [outgoing]; by rewrite O2, O1|done|by rewrite Hev3, Hev].
    change (handshake_script txt F) with (take 7 (handshake_script [] []) ++ [encode (RSimple txt) ++ header (zlen F); F]).
    rewrite for_each_app. erewrite st_bind_ok by exact E1. cbv beta. cbn [for_each].
    erewrite st_bind_ok; [by erewrite st_bind_ok by exact E3|]. cbn [encode]. by rewrite <- !app_assoc.
Qed.

(** ** How the link stops *)

Lemma header_awaited max_alloc region_ptr padding pf d s pending :
  repl_client_state (cl s) = REPL_STATE_RECEIVED_FULLRESYNC_RESPONSE →
  rb_wf (s_in s) → contents (s_in s) = pending → zlen pending < 4 ∨ find_crlf pending 0 = None →
  link_event max_alloc region_ptr padding pf d s = Ok (tt, deliver d s).
Proof.
  intros Hs Hwf Hc Hno. unfold link_event. erewrite st_bind_ok by reflexivity. cbv beta.
  unfold replica_handle_master_data. erewrite st_bind_ok by reflexivity. cbv beta. cbn [id].
  change (cl (deliver d s)) with (cl s). rewrite Hs. unfold receive_header.
  erewrite st_bind_ok by reflexivity. cbv beta. cbn [deliver put_sock s_in].
  erewrite st_bind_ok by (unfold lift; rewrite rb_readable_wf by done; reflexivity). cbv beta iota. rewrite Hc.
  destruct (zlen pending <? 4) eqn:E4; [done|]. zbool. destruct Hno as [|Hno]; [lia|].
  destruct (rb_load_tail (s_in s) Hwf) as (tail & HM). rewrite Hc in HM.
  erewrite st_bind_ok by (unfold lift; rewrite HM; reflexivity). cbv beta.
  by rewrite Nat2Z.id, take_app_length, Hno.
Qed.

(** C35: once the announcement has been read without the whole header of the
    snapshot behind it, the replica never reads from its master again: whatever
    arrives stays in the socket, and the link stays in the same state for ever. *)
Theorem late_header_never_read max_alloc region_ptr padding pf s pending a b ds :
  link pending a b REPL_STATE_RECEIVED_FULLRESYNC_RESPONSE s →
  zlen pending < 4 ∨ find_crlf pending 0 = None →
  ∃ s', for_each (link_event max_alloc region_ptr padding pf) ds s = Ok (tt, s') ∧
    repl_client_state (cl s') = REPL_STATE_RECEIVED_FULLRESYNC_RESPONSE ∧
    contents (s_in s') = pending ∧ incoming (s_sock s') = concat ds.
Proof.
  intros [_ _ _ Hs (Hwf & Hc & _) _ _ _ (Hi & _) _] Hno.
  change (concat ds) with ([] ++ concat ds). rewrite <- Hi. clear Hi.
  revert s Hs Hwf Hc. induction ds as [|d ds IH]; intros s Hs Hwf Hc.
  - exists s. cbn [for_each concat]. by rewrite app_nil_r.
  - destruct (IH (deliver d s)) as (s' & E & Hs' & Hc' & Hi'); [done..|]. exists s'. split_and!; try done.
    + cbn [for_each]. by erewrite st_bind_ok by (by eapply header_awaited).
    + rewrite Hi'. cbn. by rewrite <- app_assoc.
Qed.

(** A transfer in progress, with nothing but [waiting] kept back. *)
Record in_transfer (N : Z) (path got waiting : bytes) (s : session) : Prop := {
  it_receiving : receiving N path got waiting s;
  it_state : repl_client_state (cl s) = REPL_STATE_RECEIVING_RDB_DATA;
  it_reads : reads_fit (size (s_in s) - zlen waiting) (read_answers (s_sock s));
  it_missing : zlen got + zlen (incoming (s_sock s)) < N
}.

(** What a call that does not complete the snapshot leaves. *)
Lemma receives_partly N path got waiting s r :
  receives N path got waiting s r → repl_client_state (cl s) = REPL_STATE_RECEIVING_RDB_DATA →
  reads_fit (size (s_in s) - zlen waiting) (read_answers (s_sock s)) →
  zlen got + zlen (incoming (s_sock s)) < N →
  ∃ got' waiting' s', r = Ok (tt, s') ∧ in_transfer N path got' waiting' s' ∧ size (s_in s') = size (s_in s) ∧
    w_mem (s_world s') = w_mem (s_world s) ∧ length waiting' = length waiting ∧
    zlen got' + zlen (incoming (s_sock s')) = zlen got + zlen (incoming (s_sock s)).
Proof.
  intros (j & rb & k & Hj & Hrv & [Hz _] & Hin & Hout & Hws & [[used Hsuf] _] & -> & _) Hst Hfit Hlt.
  set (stream := waiting ++ incoming (s_sock s)) in *. set (got' := got ++ take j stream) in *.
  set (waiting' := take (length waiting) (drop j stream)) in *.
  assert (zlen got' = zlen got + Z.of_nat j) as Hg'.
  { unfold got', stream. rewrite zlen_app, length_take, length_app. lia. }
  assert (length waiting' = length waiting) as Hw'.
  { unfold waiting', stream. rewrite length_take, length_drop, length_app. lia. }
  rewrite (proj2 (Z.eqb_neq _ _)) by lia.
  assert (zlen got' + zlen (incoming k) = zlen got + zlen (incoming (s_sock s))) as Htot.
  { rewrite Hin, length_drop. lia. }
  exists got', waiting', (transferred N path got' rb k s). clearbody got' waiting'.
  split_and!; try done. constructor; [done|done| |cbn; lia].
  cbn. rewrite Hz, Hw'. rewrite Hsuf in Hfit. by apply Forall_app in Hfit as [_ Hfit].
Qed.

Lemma in_transfer_event max_alloc region_ptr padding pf N path got waiting d s :
  in_transfer N path got waiting s → zlen d ≤ size (s_in s) - zlen waiting →
  zlen got + zlen (incoming (s_sock s)) + zlen d < N →
  ∃ got' waiting' s', link_event max_alloc region_ptr padding pf d s = Ok (tt, s') ∧
    in_transfer N path got' waiting' s' ∧ size (s_in s') = size (s_in s) ∧
    w_mem (s_world s') = w_mem (s_world s) ∧ length waiting' = length waiting ∧
    zlen got' + zlen (incoming (s_sock s')) = zlen got + zlen (incoming (s_sock s)) + zlen d.
Proof.
  intros [Hrv Hst Hfit Hlt] Hd Hmiss.
  assert (link_event max_alloc region_ptr padding pf d s = replica_receive_rdb_snapshot (deliver d s)) as ->.
  { unfold link_event. erewrite st_bind_ok by reflexivity. cbv beta. unfold replica_handle_master_data.
    erewrite st_bind_ok by reflexivity. cbv beta. cbn [id]. change (cl (deliver d s)) with (cl s). by rewrite Hst. }
  assert (receiving N path got waiting (deliver d s)) as Hrv' by (by destruct Hrv).
  pose proof (deliver_fits _ d s Hfit Hd) as Hfit'.
  destruct (receives_partly N path got waiting (deliver d s) (replica_receive_rdb_snapshot (deliver d s)))
    as (got' & waiting' & s' & E & Hit & Hz & Hm & Hw & Htot); [|done|done|cbn; rewrite zlen_app; lia|].
  - apply receive_continues; [done|lia|done].
  - exists got', waiting', s'. cbn in Htot. rewrite zlen_app in Htot. split_and!; try done. lia.
Qed.

Lemma in_transfer_events max_alloc region_ptr padding pf N path got waiting ds s :
  in_transfer N path got waiting s → Forall (λ d, zlen d ≤ size (s_in s) - zlen waiting) ds →
  zlen got + zlen (incoming (s_sock s)) + zlen (concat ds) < N →
  ∃ s', for_each (link_event max_alloc region_ptr padding pf) ds s = Ok (tt, s') ∧
    repl_client_state (cl s') = REPL_STATE_RECEIVING_RDB_DATA ∧ w_mem (s_world s') = w_mem (s_world s).
Proof.
  revert got waiting s. induction ds as [|d ds IH]; intros got waiting s Hit Hds Hmiss.
  { exists s. by destruct Hit. }
  apply Forall_cons in Hds as [Hd Hds]. cbn [concat] in Hmiss. rewrite zlen_app in Hmiss.
  destruct (in_transfer_event max_alloc region_ptr padding pf N path got waiting d s Hit Hd)
    as (got' & waiting' & s1 & E & Hit1 & Hz & Hm & Hw & Htot); [lia|].
  destruct (IH got' waiting' s1 Hit1) as (s' & E' & Hst & Hm'); [by rewrite Hz, Hw|lia|].
  exists s'. split_and!; [|done|congruence]. cbn [for_each]. by erewrite st_bind_ok by exact E.
Qed.

(** C36: when the first bytes of the snapshot arrive together with its header,
    the replica does not notice the end of the snapshot: it counts only what it
    reads after the header, so that when every byte has arrived, in whatever
    pieces, it is still receiving and has loaded nothing.  (It would need as many
    further bytes as came with the header.) *)
Theorem snapshot_with_header_waits max_alloc region_ptr padding pf s extra d ds path a b :
  let N := zlen (extra ++ concat (d :: ds)) in
  link (header N ++ extra) a b REPL_STATE_RECEIVED_FULLRESYNC_RESPONSE s →
  extra ≠ [] → zlen extra < RING_BUFFER_SIZE → N ≤ Z.min a LONG_MAX →
  Forall (λ d, zlen d ≤ RING_BUFFER_SIZE - zlen extra) (d :: ds) → temp_ok s path →
  ∃ s', for_each (link_event max_alloc region_ptr padding pf) (d :: ds) s = Ok (tt, s') ∧
    repl_client_state (cl s') = REPL_STATE_RECEIVING_RDB_DATA ∧ w_mem (s_world s') = w_mem (s_world s).
Proof.
  intros N Hlk Hne Hex HN Hds Htemp. pose proof Hds as [Hd Hds']%Forall_cons.
  assert (N = zlen extra + zlen d + zlen (concat ds)) as HNeq by (unfold N; cbn [concat]; rewrite !zlen_app; lia).
  assert (0 < zlen extra) by (destruct extra; [done|cbn; lia]).
  destruct (link_starts max_alloc region_ptr padding pf a b s N extra d path Hlk) as (rb & Hz & _ & Hrv & Hrec);
    [lia|done|done|done|].
  destruct Hlk as [_ _ _ _ _ _ _ _ (Hi & Hra & _) _].
  destruct (receives_partly _ _ _ _ _ _ Hrec) as (got' & waiting' & s1 & E & Hit & Hz1 & Hm & Hw & Htot).
  - done.
  - change (read_answers (s_sock (transfer_start N path rb (deliver d s)))) with (read_answers (s_sock (deliver d s))).
    change (size (s_in (transfer_start N path rb (deliver d s)))) with (size rb). rewrite Hz.
    apply deliver_fits; [rewrite Hra; constructor|done].
  - cbn. rewrite Hi. cbn. lia.
  - cbn in Htot. rewrite Hi in Htot. cbn in Htot.
    destruct (in_transfer_events max_alloc region_ptr padding pf N path got' waiting' ds s1 Hit) as (s' & E' & Hst & Hm').
    + rewrite Hz1, Hw. change (size (s_in (transfer_start N path rb (deliver d s)))) with (size rb). by rewrite Hz.
    + lia.
    + exists s'. split_and!; [|done|by rewrite Hm', Hm]. cbn [for_each]. by erewrite st_bind_ok by exact E.
Qed.

(** ** Witnesses *)

(** A buffer of a client that holds [data]. *)
Definition client_rb (data : bytes) (d : Z) : ring_buffer :=
  RingBuffer 0 (zlen data) (Some (data ++ replicate (Z.to_nat (RING_BUFFER_SIZE - zlen data)) NUL)) RING_BUFFER_SIZE d.

Lemma client_rb_holds data d :
  zlen data ≤ RING_BUFFER_SIZE → d ≠ -1 → rb_wf (client_rb data d) ∧ contents (client_rb data d) = data.
Proof.
  intros Hl Hd. assert (zlen (data ++ replicate (Z.to_nat (RING_BUFFER_SIZE - zlen data)) NUL) = RING_BUFFER_SIZE) as Hz.
  { rewrite zlen_app, length_replicate. lia. }
  split.
  - constructor; cbn [client_rb fd region size read_index write_index]; unfold RING_BUFFER_SIZE in *; try lia; eauto.
  - unfold contents. cbn [client_rb region read_index write_index]. rewrite Z.sub_0_r.
    set (W := data ++ _) in *. apply list_eq. intros k. unfold ring_slice. rewrite list_lookup_fmap.
    destruct (decide (k < length data)%nat) as [Hk|Hk].
    + rewrite lookup_seqZ_lt by lia. cbn [fmap option_fmap option_map]. rewrite Z.add_0_l. unfold ring_get.
      rewrite Hz, Z.mod_small by (unfold RING_BUFFER_SIZE in *; lia).
      rewrite Nat2Z.id. unfold W. rewrite lookup_total_app_l by done. by rewrite list_lookup_lookup_total_lt.
    + rewrite lookup_seqZ_ge by lia. cbn. by rewrite lookup_ge_None_2 by lia.
Qed.

(** The link of a replica whose input buffer holds [data]. *)
Definition link_client (st : ReplicaClientState) : Client :=
  with_type CLIENT_TYPE_MASTER (with_repl_client_state st (init_client client_memory 5 (client_rb [] 6))).

Definition link_session (data : bytes) (st : ReplicaClientState) : session :=
  MkSession (set_client (link_client st) world0) (client_rb data 7) parser_init (create_command_handler 256 10)
    (MkSocket [] [] [] []) (RingBuffer 0 0 (Some (replicate 64 NUL)) 64 8) ∅ true.

Lemma link_session_link data st :
  (zlen data <? 1000) = true → link data (2 ^ 62) (2 ^ 62) st (link_session data st).
Proof.
  intros Hl%Z.ltb_lt. destruct (client_rb_holds data 7) as [Hwf Hc]; [unfold RING_BUFFER_SIZE; lia|done|].
  destruct (client_rb_holds [] 6) as [Hwo Hco]; [done|done|].
  constructor; cbn [link_session s_open s_parser s_in s_ch s_sock cl s_world w_client set_client link_client with_type
    with_repl_client_state init_client type repl_client_state should_propogate_command]; try done;
    split_and!; try done; cbn; lia.
Qed.

Lemma temp_ok_session data st : temp_ok (link_session data st) (lit "/tmp/redis-data/temp_snapshot.rdb").
Proof. split; [done|]. vm_compute. reflexivity. Qed.

(** Three of five bytes arrive, in two reads with an interruption between. *)
Lemma replica_receive_keeps_every_byte_witness :
  let c := with_transfer 5 1 1 (OpenStream (lit "f") (lit "a")) (link_client REPL_STATE_RECEIVING_RDB_DATA) in
  let s := MkSession (set_client c world0) (client_rb [] 7) parser_init (create_command_handler 256 10)
             (MkSocket (lit "bcd") [Gives 2; ReadFails EINTR; Gives 4] [] []) (RingBuffer 0 0 None 0 0) ∅ true in
  receives 5 (lit "f") (lit "a") [] s (replica_receive_rdb_snapshot s).
Proof.
  intros c s. destruct (client_rb_holds [] 7) as [Hwf Hc]; [vm_compute; discriminate|discriminate|].
  apply (replica_receive_keeps_every_byte 5 (lit "f") (lit "a") [] s).
  - constructor; [split; [exact Hwf|split; [exact Hc|reflexivity]]|reflexivity|split; [reflexivity|split; reflexivity]|
      reflexivity|split; [vm_compute; discriminate|reflexivity]].
  - reflexivity.
  - repeat constructor; vm_compute; discriminate.
Defined.

(** A snapshot of another version: it is received, and refused when it is loaded. *)
Lemma replica_handshake_completes_witness :
  let s := link_session [] REPL_STATE_CONNECTING in
  ∃ s', for_each (link_event 1048576 [] [] 3) (handshake_script (lit "FULLRESYNC x 0") (lit "REDIS0011")) s = Ok (tt, s') ∧
    repl_client_state (cl s') = REPL_STATE_READY ∧
    files (w_os (s_world s')) !! lit "/tmp/redis-data/temp_snapshot.rdb" = Some (lit "REDIS0011").
Proof.
  intros s.
  destruct (replica_handshake_completes 1048576 [] [] 3 s (lit "FULLRESYNC x 0") (lit "REDIS0011")
    (lit "/tmp/redis-data/temp_snapshot.rdb") 1 (w_mem world0)) as (s' & E & Hst & _ & Hf & _).
  - apply link_session_link. reflexivity.
  - lia.
  - vm_compute. reflexivity.
  - vm_compute. reflexivity.
  - apply (bool_decide_unpack _). vm_compute. exact I.
  - apply (bool_decide_unpack _). vm_compute. exact I.
  - vm_compute. reflexivity.
  - vm_compute. split; [reflexivity|discriminate].
  - apply temp_ok_session.
  - reflexivity.
  - vm_compute. reflexivity.
  - exists s'. split; [exact E|]. split; [exact Hst|exact Hf].
Defined.

(** The header comes one event later. *)
Lemma late_header_never_read_witness :
  ∃ s', for_each (link_event 1048576 [] [] 3) [header 18; lit "REDIS0003"; lit "more"]
      (link_session [] REPL_STATE_RECEIVED_FULLRESYNC_RESPONSE) = Ok (tt, s') ∧
    incoming (s_sock s') = header 18 ++ lit "REDIS0003more".
Proof.
  destruct (late_header_never_read 1048576 [] [] 3 (link_session [] REPL_STATE_RECEIVED_FULLRESYNC_RESPONSE) []
    (2 ^ 62) (2 ^ 62) [header 18; lit "REDIS0003"; lit "more"]) as (s' & E & _ & _ & Hi).
  - apply link_session_link. reflexivity.
  - left. reflexivity.
  - exists s'. split; [exact E|]. rewrite Hi. reflexivity.
Defined.

(** The first five bytes of the snapshot come with the header. *)
Lemma snapshot_with_header_waits_witness :
  ∃ s', for_each (link_event 1048576 [] [] 3) [lit "00"; lit "03"]
      (link_session (header 9 ++ lit "REDIS") REPL_STATE_RECEIVED_FULLRESYNC_RESPONSE) = Ok (tt, s') ∧
    repl_client_state (cl s') = REPL_STATE_RECEIVING_RDB_DATA.
Proof.
  destruct (snapshot_with_header_waits 1048576 [] [] 3
    (link_session (header 9 ++ lit "REDIS") REPL_STATE_RECEIVED_FULLRESYNC_RESPONSE) (lit "REDIS") (lit "00") [lit "03"]
    (lit "/tmp/redis-data/temp_snapshot.rdb") (2 ^ 62) (2 ^ 62)) as (s' & E & Hst & _).
  - apply link_session_link. vm_compute. reflexivity.
  - discriminate.
  - vm_compute. reflexivity.
  - vm_compute. discriminate.
  - repeat constructor; vm_compute; discriminate.
  - apply temp_ok_session.
  - exists s'. split; [exact E|exact Hst].
Defined.
