(* ===== verification/MasterSpec.v ===== *)
(** * The master's side of replication: proofs

    Answering the handshake of a replica, sending the snapshot whatever the
    socket does, and the two ends together. *)

From S2P Require Import Prelude CLib RingBuffer Util Database Rdb RespWriter ServerState.
From S2P Require Import Commands CommandSpec RespParser CommandHandler Client ClientAlloc.
From S2P Require Import Replication ReplicationSpec.

(** ** Sending the snapshot *)

(** [F] is being sent, and [o] bytes of it are. *)
Record sending (path F : bytes) (o : Z) (s : session) : Prop := {
  sd_type : type (cl s) ≠ CLIENT_TYPE_REGULAR;
  sd_file : rdb_fd (cl s) = Some path ∧ files (w_os (s_world s)) !! path = Some F;
  sd_size : rdb_file_size (cl s) = zlen F ∧ zlen F < 2 ^ 63;
  sd_offset : rdb_file_offset (cl s) = o ∧ 0 ≤ o ≤ zlen F
}.

(** The session with this offset and socket. *)
Definition sent_to (o : Z) (k : socket) (s : session) : session :=
  put_sock k (put_world (set_client (with_file_offset o (cl s)) (s_world s)) s).

Lemma sending_sent path F o o' k s :
  sending path F o s → 0 ≤ o' ≤ zlen F → sending path F o' (sent_to o' k s).
Proof. intros [? ? ? ?] Ho. by constructor. Qed.

Lemma sent_to_same o k s : rdb_file_offset (cl s) = o → sent_to o k s = put_sock k s.
Proof.
  intros H. unfold sent_to, put_sock, put_world, set_client, with_file_offset, cl in *.
  destruct s as [[m c i cfg os ep] sin p ch k0 bl ps op]. destruct c. cbn in *. by subst.
Qed.

(** What a call of [sendfile] on the file does. *)
Lemma sendfile_cases F o n k :
  0 ≤ o ≤ zlen F → zlen F - o ≤ n < 2 ^ 63 →
  (o = zlen F ∧ sendfile F o n k = (inl 0, k)) ∨
  (o < zlen F ∧ ∃ e k', sendfile F o n k = (inr e, k') ∧ outgoing k' = outgoing k ∧ incoming k' = incoming k ∧
     read_answers k' = read_answers k ∧ write_answers k = WriteFails e :: write_answers k') ∨
  (o < zlen F ∧ ∃ d k', sendfile F o n k = (inl (zlen d), k') ∧ d `prefix_of` drop (Z.to_nat o) F ∧
     outgoing k' = outgoing k ++ d ∧ incoming k' = incoming k ∧ read_answers k' = read_answers k ∧
     write_answers k' = drop 1 (write_answers k) ∧
     (write_answers k = [] → zlen d = Z.min n (Z.min MAX_RW_COUNT (zlen F - o)))).
Proof.
  intros Ho Hn. unfold sendfile. rewrite (proj2 (Z.leb_gt _ _)) by lia.
  set (d := slice o (Z.min n MAX_RW_COUNT) F).
  assert (d `prefix_of` drop (Z.to_nat o) F) as Hpre.
  { unfold d, slice. eexists. by rewrite take_drop. }
  assert (zlen d = Z.min (Z.min n MAX_RW_COUNT) (zlen F - o)) as Hd.
  { unfold d, slice, MAX_RW_COUNT. rewrite length_take, length_drop. lia. }
  destruct (decide (o = zlen F)) as [->|Hlt].
  { left. split; [done|]. destruct d; [done|]. cbn in Hd. lia. }
  right. clearbody d. destruct d as [|x d']; [unfold MAX_RW_COUNT in *; cbn in Hd; lia|].
  set (d := x :: d') in *. clearbody d.
  unfold sock_write. destruct (write_answers k) as [|[m|e] ws] eqn:Ew.
  - right. split; [lia|]. exists d. eexists. split; [reflexivity|]. split_and!; try done. intros _. lia.
  - right. split; [lia|]. set (j := Z.max 0 (Z.min m (zlen d))).
    exists (take (Z.to_nat j) d). eexists. split; [f_equal; f_equal; rewrite length_take; lia|].
    split_and!; try done. etrans; [apply prefix_take|done].
  - left. split; [lia|]. exists e. eexists. by split_and!.
Qed.

(** The outcome of the loop: some more bytes of the file are sent, in order.  It
    is left by [break] if all are, and all are if the socket takes everything. *)
Definition sends (F : bytes) (o : Z) (s : session) (r : res (bool * session)) : Prop :=
  ∃ broke o' k, r = Ok (broke, sent_to o' k s) ∧ o ≤ o' ≤ zlen F ∧
    outgoing k = outgoing (s_sock s) ++ slice o (o' - o) F ∧ incoming k = incoming (s_sock s) ∧
    read_answers k = read_answers (s_sock s) ∧ (o' = zlen F → broke = true) ∧
    (write_answers (s_sock s) = [] → o' = zlen F ∧ write_answers k = []).

Lemma sends_nothing path F o s broke k :
  sending path F o s → outgoing k = outgoing (s_sock s) → incoming k = incoming (s_sock s) →
  read_answers k = read_answers (s_sock s) → (o = zlen F → broke = true) →
  (write_answers (s_sock s) = [] → o = zlen F ∧ write_answers k = []) →
  sends F o s (Ok (broke, put_sock k s)).
Proof.
  intros [_ _ _ [Ho Hor]] Hout Hin Hra Hbr Hws. exists broke, o, k. rewrite sent_to_same by done.
  split_and!; try done; try lia. unfold slice. rewrite Z.sub_diag. cbn. by rewrite app_nil_r.
Qed.

Lemma sends_more F o s d k r :
  0 ≤ o → d `prefix_of` drop (Z.to_nat o) F → outgoing k = outgoing (s_sock s) ++ d →
  incoming k = incoming (s_sock s) → read_answers k = read_answers (s_sock s) →
  write_answers k = drop 1 (write_answers (s_sock s)) →
  sends F (o + zlen d) (sent_to (o + zlen d) k s) r → sends F o s r.
Proof.
  intros Ho [rest Hd] Hout Hin Hra Hws (broke & o' & k' & -> & Ho' & Hout' & Hin' & Hra' & Hbr & Hall).
  cbn [s_sock sent_to put_sock] in *. exists broke, o', k'. split_and!; try done; try congruence; try lia.
  - rewrite Hout', Hout, <- app_assoc. f_equal. unfold slice.
    rewrite Z2Nat.inj_add, <- drop_drop, Hd by lia. rewrite Nat2Z.id, drop_app_length.
    replace (Z.to_nat (o' - o)) with (length d + Z.to_nat (o' - (o + zlen d)))%nat by lia.
    by rewrite take_app_add.
  - intros E. apply Hall. by rewrite Hws, E.
Qed.

Lemma send_loop_runs fuel path F o n s :
  sending path F o s → zlen F - o ≤ n < 2 ^ 63 → 0 < n ∨ o = zlen F →
  (length (write_answers (s_sock s)) + Z.to_nat (zlen F - o) < fuel)%nat → sends F o s (send_loop fuel n s).
Proof.
  revert o s. induction fuel as [|fuel IH]; intros o s Hs Hn Hpos Hfuel; [lia|].
  pose proof Hs as [Hty [Hfd Hf] [Hsz Hmax] [Ho Hor]].
  cbn [send_loop]. erewrite st_bind_ok by reflexivity. cbv beta. cbn [id].
  rewrite Hfd. cbn [mbind option_bind]. rewrite Hf, Ho.
  destruct (sendfile_cases F o n (s_sock s)) as
    [[-> Hsf]|[(Hlt & e & k & Hsf & Hout & Hin & Hra & Hws)|(Hlt & d & k & Hsf & Hpre & Hout & Hin & Hra & Hws & Hall)]];
    [lia|lia|rewrite Hsf; erewrite st_bind_ok by reflexivity; cbv beta..].
  - cbn [Z.eqb]. by eapply sends_nothing.
  - assert (write_answers (s_sock s) = [] → o = zlen F ∧ write_answers k = []) as Hno by (intros E0; by rewrite E0 in Hws).
    destruct e; [|by eapply sends_nothing|by eapply sends_nothing; [..|lia|]].
    destruct (IH o (put_sock k s)) as (broke & o' & k' & E & H);
      [by destruct Hs|done|done|cbn; rewrite Hws in Hfuel; cbn in Hfuel; lia|].
    exists broke, o', k'. cbn [s_sock put_sock] in H. rewrite Hout, Hin, Hra in H.
    destruct H as (? & ? & ? & ? & ? & _). split_and!; try done; try lia. intros E0. by rewrite E0 in Hws.
  - destruct (zlen d =? 0) eqn:E0; zbool.
    + assert (d = []) as -> by (by destruct d). rewrite app_nil_r in Hout.
      eapply sends_nothing; try done. intros Hnil. specialize (Hall Hnil). unfold MAX_RW_COUNT in Hall. cbn in Hall. lia.
    + assert (o + zlen d ≤ zlen F).
      { destruct Hpre as [rest Hd]. apply (f_equal length) in Hd. rewrite length_drop, length_app in Hd. lia. }
      apply (sends_more F o s d k); try done; [lia|].
      assert (on_client (λ c, with_file_offset (rdb_file_offset c + zlen d) c) (put_sock k s) =
        Ok (tt, sent_to (o + zlen d) k s)) as E.
      { unfold on_client, on_w, modify. cbn. unfold cl in Ho. by rewrite Ho. }
      erewrite st_bind_ok by exact E. apply IH; [by eapply sending_sent; [|lia]|lia|lia|].
      cbn [s_sock sent_to put_sock]. rewrite Hws, length_drop. lia.
Qed.

(** The session when the call returns. *)
Definition sent_result (F : bytes) (o : Z) (k : socket) (s : session) : session :=
  let s' := sent_to o k s in
  if o =? zlen F then
    put_world (set_client (with_master_repl_state MASTER_REPL_STATE_PROPAGATE
      (with_epoll (Z.land (epoll_events (cl s)) (Z.lnot EPOLLOUT)) (cl s'))) (s_world s')) s'
  else s'.

Lemma send_snapshot_runs path F o s :
  sending path F o s → epoll_answers (s_world s) = [] →
  ∃ o' k, master_send_rdb_snapshot s = Ok (tt, sent_result F o' k s) ∧ o ≤ o' ≤ zlen F ∧
    outgoing k = outgoing (s_sock s) ++ slice o (o' - o) F ∧ incoming k = incoming (s_sock s) ∧
    read_answers k = read_answers (s_sock s) ∧
    (write_answers (s_sock s) = [] → o' = zlen F ∧ write_answers k = []).
Proof.
  intros Hs Hep. pose proof Hs as [Hty [Hfd Hf] [Hsz Hmax] [Ho Hor]].
  unfold master_send_rdb_snapshot. erewrite st_bind_ok by reflexivity. cbv beta. cbn [id].
  rewrite bool_decide_eq_false_2 by done. cbv zeta. rewrite Hsz, Ho, (uwrap_small 64) by lia.
  destruct (send_loop_runs (send_fuel s) path F o (zlen F - o) s Hs) as
    (broke & o' & k & E & Ho' & Hout & Hin & Hra & Hbr & Hall); [lia|lia| |].
  { unfold send_fuel. rewrite Hfd. cbn [mbind option_bind]. rewrite Hf. cbn. lia. }
  exists o', k. split; [|done]. erewrite st_bind_ok by exact E. cbv beta. unfold sent_result.
  destruct (o' =? zlen F) eqn:EF; zbool.
  - rewrite (Hbr EF). cbn [negb]. erewrite st_bind_ok by reflexivity. cbv beta.
    change (rdb_file_offset (cl (sent_to o' k s))) with o'.
    change (rdb_file_size (cl (sent_to o' k s))) with (rdb_file_size (cl s)). rewrite Hsz, (proj2 (Z.eqb_eq _ _)) by done.
    erewrite st_bind_ok by (unfold on_w, client_disable_write_events, epoll_mod; cbn; rewrite Hep; reflexivity).
    reflexivity.
  - destruct broke; [|done]. cbn [negb]. erewrite st_bind_ok by reflexivity. cbv beta.
    change (rdb_file_offset (cl (sent_to o' k s))) with o'.
    change (rdb_file_size (cl (sent_to o' k s))) with (rdb_file_size (cl s)). by rewrite Hsz, (proj2 (Z.eqb_neq _ _)) by done.
Qed.

(** C17: whatever the socket does (short writes, refusals, interruptions, errors),
    one call of the master's snapshot sender returns and has sent a further
    contiguous part of the file, in order and nothing else: the queued replies
    stay queued.  The replica is set to receive commands, and its write events
    are off, exactly when the whole file is sent, which happens at once if the
    socket takes everything. *)
Theorem master_sends_the_snapshot path F o s :
  sending path F o s → epoll_answers (s_world s) = [] →
  master_repl_state (cl s) = MASTER_REPL_STATE_SENDING_RDB_DATA →
  ∃ o' s', master_send_rdb_snapshot s = Ok (tt, s') ∧ o ≤ o' ≤ zlen F ∧
    rdb_file_offset (cl s') = o' ∧
    outgoing (s_sock s') = outgoing (s_sock s) ++ slice o (o' - o) F ∧
    out (s_world s') = out (s_world s) ∧
    (if o' =? zlen F
     then master_repl_state (cl s') = MASTER_REPL_STATE_PROPAGATE ∧
          epoll_events (cl s') = Z.land (epoll_events (cl s)) (Z.lnot EPOLLOUT)
     else master_repl_state (cl s') = MASTER_REPL_STATE_SENDING_RDB_DATA) ∧
    (write_answers (s_sock s) = [] → o' = zlen F).
Proof.
  intros Hs Hep Hst. destruct (send_snapshot_runs path F o s Hs Hep) as (o' & k & E & Ho & Hout & _ & _ & Hws).
  exists o', (sent_result F o' k s). split; [done|]. split; [done|].
  unfold sent_result. destruct (o' =? zlen F); (split_and!; try done; by apply Hws).
Qed.

(** ** Answering the handshake *)

(** A client at rest that is not a master: nothing on its way in or out, room
    for [a] more bytes in and [b] more out. *)
Record idle (a b : Z) (s : session) : Prop := {
  id_open : s_open s = true;
  id_parser : s_parser s = parser_init;
  id_type : type (cl s) ≠ CLIENT_TYPE_MASTER;
  id_in : rb_wf (s_in s) ∧ contents (s_in s) = [] ∧ size (s_in s) = RING_BUFFER_SIZE ∧
          write_index (s_in s) + a < 2 ^ 64;
  id_out : rb_wf (out (s_world s)) ∧ contents (out (s_world s)) = [] ∧
           size (out (s_world s)) = RING_BUFFER_SIZE ∧ write_index (out (s_world s)) + b < 2 ^ 64;
  id_sock : incoming (s_sock s) = [] ∧ read_answers (s_sock s) = [] ∧ write_answers (s_sock s) = []
}.

(** The output buffer [rb] is that of [w] with [d] appended. *)
Definition appended (w : world) (d : bytes) (rb : ring_buffer) : Prop :=
  rb_wf rb ∧ contents rb = contents (out w) ++ d ∧ size rb = size (out w) ∧
  write_index rb = write_index (out w) + zlen d.

Lemma reply_appends slack f d w :
  appends slack f d → rb_wf (out w) → zlen d + slack ≤ size (out w) - zlen (contents (out w)) →
  write_index (out w) + zlen d < 2 ^ 64 →
  ∃ rb, reply f w = Ok (tt, set_client (with_output rb (w_client w)) w) ∧ appended w d rb.
Proof.
  intros Hf Hwf Hfit H64. destruct (Hf (out w) Hwf Hfit H64) as (rb & E & H). exists rb. split; [|done].
  unfold reply. unfold out in E. by rewrite E.
Qed.

(** A command that only answers [d]. *)
Definition answers (args : list bytes) (d : bytes) : Prop :=
  ∀ w, rb_wf (out w) → zlen d + 1 ≤ size (out w) - zlen (contents (out w)) → write_index (out w) + zlen d < 2 ^ 64 →
    ∃ rb, handle_command args w =
      Ok (tt, set_client (with_output rb (with_propogate false (w_client w))) w) ∧ appended w d rb.

Lemma ping_answers : answers [lit "PING"] (encode (RSimple (lit "PONG"))).
Proof.
  intros w Hwf Hfit H64.
  destruct (reply_appends 0 (add_simple_string_reply (lit "PONG")) (encode (RSimple (lit "PONG")))
    (set_client (with_propogate false (w_client w)) w)) as (rb & E & Happ);
    [by apply (add_reply_appends (RSimple (lit "PONG")))|done|unfold out in *; cbn in *; lia|unfold out in *; cbn in *; lia|].
  exists rb. split; [|done]. unfold handle_command. erewrite st_bind_ok by reflexivity. cbv beta.
  erewrite st_bind_ok by reflexivity. cbv beta zeta. change (get_command_type (lit "PING")) with CMD_PING. cbn [dispatch].
  erewrite st_bind_ok by exact E. reflexivity.
Qed.

Lemma replconf_answers x y :
  x ≠ lit "GETACK" → answers [lit "REPLCONF"; x; y] (encode (RSimple (lit "OK"))).
Proof.
  intros Hx w Hwf Hfit H64.
  destruct (reply_appends 0 (add_simple_string_reply (lit "OK")) (encode (RSimple (lit "OK")))
    (set_client (with_propogate false (w_client w)) w)) as (rb & E & Happ);
    [by apply (add_reply_appends (RSimple (lit "OK")))|done|unfold out in *; cbn in *; lia|unfold out in *; cbn in *; lia|].
  exists rb. split; [|done]. unfold handle_command. erewrite st_bind_ok by reflexivity. cbv beta.
  erewrite st_bind_ok by reflexivity. cbv beta zeta.
  change (get_command_type (lit "REPLCONF")) with CMD_REPLCONF. cbn [dispatch].
  erewrite st_bind_ok; [reflexivity|]. unfold handle_replconf. cbn [length].
  rewrite (bool_decide_eq_false_2 (_ = Some (lit "GETACK"))) by (intros [= E0]; done).
  rewrite andb_false_r. cbn [andb]. exact E.
Qed.

(** [PSYNC] of a replica that cannot continue: the announcement and the header
    are queued, the snapshot is saved and open, write events are on, and the
    client is one of the replicas. *)
Definition new_replica (i : server_info_t) (r : Z) : server_info_t :=
  MkInfo (role i) (master_replid i) (master_repl_offset i) (repl_backlog_base_offset i)
    (<[Z.to_nat (num_replicas i) := r]> (replicas i)) (num_replicas i + 1).

Definition announcement (i : server_info_t) : bytes :=
  lit "FULLRESYNC " ++ master_replid i ++ lit " " ++ fmt_ld (master_repl_offset i).

Definition after_psync (w : world) (path F : bytes) (os' : os_files) (rb : ring_buffer) : world :=
  let c := start_full path (zlen F) (as_replica (with_propogate false (w_client w))) in
  set_client (with_epoll (Z.lor (epoll_events c) EPOLLOUT) (with_output rb c))
    (set_os os' (set_info (new_replica (w_info w) (client_fd (w_client w))) w)).

Lemma fullresync_text i :
  zlen (master_replid i) ≤ 40 → no_nul (master_replid i) → LONG_MIN ≤ master_repl_offset i ≤ LONG_MAX →
  appends 0 (add_fullresync_reply (master_replid i) (master_repl_offset i)) (encode (RSimple (announcement i))).
Proof.
  intros Hl Hn Ho. unfold add_fullresync_reply. pose proof (fmt_ld_length (master_repl_offset i) Ho).
  fold (announcement i). rewrite snprintf_fits.
  - rewrite cstr_term; [by apply (add_reply_appends (RSimple _))|]. unfold announcement, no_nul in *.
    rewrite !not_elem_of_app. split_and!; [apply (bool_decide_unpack _); by vm_compute|done|
      apply (bool_decide_unpack _); by vm_compute|apply fmt_ld_no_nul].
  - unfold announcement. rewrite !zlen_app. cbn. lia.
Qed.

Lemma psync_full w replid offset b os' path F :
  partial_resync_offset (w_info w) replid offset = None → num_replicas (w_info w) < MAX_REPLICAS →
  zlen (master_replid (w_info w)) ≤ 40 → no_nul (master_replid (w_info w)) →
  LONG_MIN ≤ master_repl_offset (w_info w) ≤ LONG_MAX →
  rdb_save_data_to_file (db (w_mem w)) (dir (w_config w)) (dbfilename (w_config w)) (w_os w) = Ok (b, os') →
  construct_file_path (path_malloc_ok os') (dir (w_config w)) (dbfilename (w_config w)) = Some path →
  files os' !! path = Some F → epoll_answers w = [] → rb_wf (out w) →
  let d := encode (RSimple (announcement (w_info w))) ++ header (zlen F) in
  zlen d ≤ size (out w) - zlen (contents (out w)) → write_index (out w) + zlen d < 2 ^ 64 →
  ∃ rb, handle_command [lit "PSYNC"; replid; offset] w = Ok (tt, after_psync w path F os' rb) ∧ appended w d rb.
Proof.
  intros Hpart Hnum Hl Hn Ho Hsave Hpath HF Hep Hwf d Hfit H64. unfold d in *. rewrite zlen_app in *.
  set (w1 := set_info (new_replica (w_info w) (client_fd (w_client w)))
               (set_client (as_replica (with_propogate false (w_client w))) w)).
  destruct (reply_appends 0 _ _ w1 (fullresync_text (w_info w) Hl Hn Ho)) as (rb1 & E1 & Hwf1 & Hc1 & Hz1 & Hx1);
    [exact Hwf|unfold out in *; cbn in *; lia|unfold out in *; cbn in *; lia|].
  set (w2 := set_client (start_full path (zlen F) (with_output rb1 (w_client w1))) (set_os os' w1)).
  assert (appends 0 (write_begin_bulk_string (zlen F)) (header (zlen F))) as Hhd by (apply write_begin_bulk_appends; lia).
  change (out w1) with (out w) in Hc1, Hz1, Hx1.
  destruct (reply_appends 0 _ _ w2 Hhd) as (rb2 & E2 & Hwf2 & Hc2 & Hz2 & Hx2);
    change (out w2) with rb1 in *; [done|rewrite Hc1, Hz1, zlen_app; lia|lia|].
  exists rb2. split.
  2:{ unfold appended. rewrite Hc2, Hz2, Hx2, Hc1, Hz1, Hx1, zlen_app. split_and!; try done; [by rewrite app_assoc|lia]. }
  unfold handle_command. erewrite st_bind_ok by reflexivity. cbv beta. erewrite st_bind_ok by reflexivity. cbv beta zeta.
  change (get_command_type (lit "PSYNC")) with CMD_PSYNC. cbn [dispatch].
  erewrite st_bind_ok; [reflexivity|]. unfold handle_psync. cbn [length]. change (Z.of_nat 3 <? 3) with false. cbn match.
  erewrite st_bind_ok by reflexivity. cbv beta. erewrite st_bind_ok by reflexivity. cbv beta.
  erewrite st_bind_ok by reflexivity. cbv beta. cbn [w_info set_client]. rewrite Hpart.
  erewrite (st_bind_ok add_replica _ _ tt w1).
  2:{ unfold add_replica. cbn [w_info set_client]. by rewrite (proj2 (Z.ltb_lt _ _)) by done. }
  cbv beta. erewrite st_bind_ok by exact E1. cbv beta.
  erewrite st_bind_ok by (unfold redis_db_save; cbn [w_mem w_config w_os set_client w1 set_info]; rewrite Hsave; reflexivity).
  cbv beta. erewrite st_bind_ok by (unfold open_snapshot; cbn [w_config w_os set_os set_client w1 set_info]; rewrite Hpath, HF; reflexivity).
  cbv beta iota. erewrite st_bind_ok by reflexivity. cbv beta.
  erewrite st_bind_ok by exact E2. unfold client_enable_write_events, epoll_mod. cbn. by rewrite Hep.
Qed.

Section master.
Context (max_alloc : Z) (region_ptr padding : bytes) (pf : nat) (Hmax : max_alloc < 2 ^ 63).

(** An event of a client with [d] arrived. *)
Definition client_event (d : bytes) : sessM unit :=
  _ ← modify (deliver d); process_client_input max_alloc region_ptr padding pf.

(** A request of an idle client whose handler leaves [w1], with [r] to send. *)
Lemma idle_request a b s args w1 r :
  idle a b s → accepted max_alloc args → zlen (encode (RArray args)) ≤ Z.min a (RING_BUFFER_SIZE - 1) →
  (commands_steps [args] ≤ pf)%nat →
  handle_command (c_strings args) (s_world s) = Ok (tt, w1) → should_propogate_command (w_client w1) = false →
  type (w_client w1) ≠ CLIENT_TYPE_MASTER → appended (s_world s) r (out w1) → zlen r ≤ b →
  ∃ s', client_event (encode (RArray args)) s = Ok (tt, s') ∧
    idle (a - zlen (encode (RArray args))) (b - zlen r) s' ∧
    outgoing (s_sock s') = outgoing (s_sock s) ++ r ∧
    s_world s' = set_client (with_output (out (s_world s')) (w_client w1)) w1 ∧
    s_backlog s' = s_backlog s ∧ s_peers s' = s_peers s.
Proof.
  intros [Ho Hp Ht (Hwf & Hc & Hz & Hx) (Hwfo & Hco & Hzo & Hxo) (Hi & Hra & Hws)] Hacc Hlen Hpf Hh Hm Ht1
    (Hwf1 & Hc1 & Hz1 & Hx1) Hr.
  set (d := encode (RArray args)) in *.
  assert (commands_bytes [args] = d) as Hd by (unfold commands_bytes; cbn; by rewrite app_nil_r).
  destruct (serve_request max_alloc region_ptr padding (deliver d s) [args] pf w1) as
    (rb & rbo & ch & E & Hwfb & Hcb & Hzb & Hxb & Hwo & Hcno & Hzno & Hxno); try done.
  - constructor; rewrite ?Hd; cbn [deliver put_sock s_open s_parser s_world s_in s_sock incoming read_answers]; try done.
    + by apply regular_takes.
    + split; [done|by apply Forall_singleton].
    + by rewrite Hi.
    + lia.
    + lia.
    + exists (zlen d). rewrite Hra. by split_and!.
  - cbn [fmap list_fmap for_each]. erewrite st_bind_ok by exact Hh. reflexivity.
  - exists (served (deliver d s) w1 rb rbo ch).
    cbn [deliver put_sock s_in] in Hzb, Hxb. rewrite Hd in Hxb. rewrite Hco in Hc1. cbn [app] in Hc1.
    split_and!; [unfold client_event; by erewrite st_bind_ok by reflexivity| |cbn [served s_sock outgoing deliver put_sock]; by rewrite Hc1|done..].
    clearbody d. constructor; cbn; try done; (split_and!; try done; [congruence|lia]).
Qed.
End master.

(** ** Witness *)

Definition replica_client (path : bytes) (n : Z) : Client :=
  start_full path n (as_replica (init_client client_memory 5 (client_rb (lit "queued") 6))).

(** The socket takes three bytes, is interrupted, takes two, and is full. *)
Lemma master_sends_the_snapshot_witness :
  let w := MkWorld (w_mem world0) (replica_client (lit "dump.rdb") 9) (w_info world0) (w_config world0)
             (OsFiles {[lit "dump.rdb" := lit "REDIS0003"]} true true true) [] in
  let s := MkSession w (client_rb [] 7) parser_init (create_command_handler 256 10)
             (MkSocket [] [] [Takes 3; WriteFails EINTR; Takes 2; WriteFails EWOULDBLOCK] (lit "x"))
             (RingBuffer 0 0 None 0 0) ∅ true in
  ∃ s', master_send_rdb_snapshot s = Ok (tt, s') ∧ outgoing (s_sock s') = lit "xREDIS" ∧
    rdb_file_offset (cl s') = 5 ∧ out (s_world s') = out w.
Proof.
  intros w s.
  destruct (master_sends_the_snapshot (lit "dump.rdb") (lit "REDIS0003") 0 s) as (o & s' & E & _ & Ho & Hs & Hq & _).
  - constructor; [discriminate|split; reflexivity|split; [reflexivity|vm_compute; reflexivity]|
      split; [reflexivity|split; [reflexivity|vm_compute; discriminate]]].
  - reflexivity.
  - reflexivity.
  - exists s'. split; [exact E|]. rewrite Hs, Ho. injection E as E. rewrite <- E in Ho. cbn in Ho. subst o. rewrite <- E.
    split; [reflexivity|]. split; reflexivity.
Defined.

(** ** Continuing without a snapshot *)

(** C37: a replica that has to catch up more bytes than the ring buffer structure
    has (40) makes the master write past that structure: the missing bytes are
    copied over the structure of the output buffer, and not into the buffer. *)
Theorem continue_psync_overruns region_ptr padding s :
  let n := master_repl_offset (w_info (s_world s)) - repl_offset (cl s) in
  s_open s = true → zlen region_ptr = 8 → zlen padding = 4 → rb_wf (s_backlog s) →
  40 < n < 2 ^ 63 → n ≤ zlen (contents (s_backlog s)) →
  continue_psync region_ptr padding s = Stop BadAccess.
Proof.
  intros n Ho Hptr Hpad Hwf Hn Hfit. unfold continue_psync. erewrite st_bind_ok by reflexivity. cbv beta zeta. cbn [id].
  assert (40 < master_repl_offset (w_info (s_world s)) - repl_offset (cl s)) as Hgap by (fold n; lia).
  rewrite (proj2 (Z.eqb_neq (repl_offset _) _)), (proj2 (Z.leb_gt (master_repl_offset _) _)) by lia. cbn [when].
  erewrite st_bind_ok by reflexivity. cbv beta. fold n. rewrite (swrap_small 64 n) by lia.
  rewrite (proj2 (Z.leb_gt _ _)) by lia.
  erewrite st_bind_ok by (unfold lift; rewrite rb_readable_wf by done; reflexivity). cbv beta iota.
  rewrite (proj2 (Z.ltb_ge _ _)) by lia. unfold mbind at 1, st_bind at 1, lift at 1.
  unfold rb_load. destruct (region (s_backlog s)) as [W|]; [|done]. destruct (_ && _); [|done].
  erewrite st_bind_ok by (unfold alive; rewrite Ho; reflexivity). cbv beta.
  erewrite st_bind_stop; [done|]. unfold lift, overwrite_struct, ring_slice. rewrite length_fmap, length_seqZ.
  rewrite (proj2 (Z.ltb_lt _ _)); [done|]. unfold struct_image, le_bytes. rewrite !zlen_app, !length_fmap, !length_seqZ. lia.
Qed.

Lemma continue_psync_overruns_witness :
  let c := with_repl_offset 0 (as_replica (init_client client_memory 5 (client_rb [] 6))) in
  let i := MkInfo ROLE_MASTER (lit "id") 41 0 (replicate 16 0) 1 in
  let s := MkSession (set_client c (set_info i world0)) (client_rb [] 7) parser_init (create_command_handler 256 10)
             (MkSocket [] [] [] []) (client_rb (replicate 41 NUL) 8) ∅ true in
  continue_psync (replicate 8 NUL) (replicate 4 NUL) s = Stop BadAccess.
Proof.
  intros c i s. destruct (client_rb_holds (replicate 41 NUL) 8) as [Hwf Hc]; [vm_compute; discriminate|discriminate|].
  apply (continue_psync_overruns (replicate 8 NUL) (replicate 4 NUL) s); try reflexivity.
  - exact Hwf.
  - split; reflexivity.
Defined.
