(* ===== verification/Sync.v ===== *)
(** * A master and a replica together

    The two ends of the link run in turns, what one sends being what arrives at
    the other, until the replica has the master's keyspace. *)

From S2P Require Import Prelude CLib RingBuffer Util Database Rdb RespWriter ServerState.
From S2P Require Import Commands CommandSpec RespParser CommandHandler Client ClientAlloc.
From S2P Require Import Replication ReplicationSpec MasterSpec.

(** What a session has sent since it was last asked. *)
Definition take_sent (s : session) : bytes * session :=
  let k := s_sock s in
  (outgoing k, put_sock (MkSocket (incoming k) (read_answers k) (write_answers k) []) s).

Lemma take_sent_link pending a b st s : link pending a b st s → link pending a b st (take_sent s).2.
Proof. intros []. by constructor. Qed.
Lemma take_sent_idle a b s : idle a b s → idle a b (take_sent s).2.
Proof. intros []. by constructor. Qed.

Section sync.
Context (max_alloc : Z) (region_ptr padding : bytes) (pf : nat).
Context (Hmax : 1000 ≤ max_alloc < 2 ^ 63) (Hpf : (16 ≤ pf)%nat).

(** The master's turn: what the replica sent is served; otherwise, if the master
    watches for room to write, there is room. *)
Definition master_turn (d : bytes) : sessM unit :=
  match d with
  | [] =>
      s ← gets id;
      when (negb (Z.land (epoll_events (cl s)) EPOLLOUT =? 0)) (master_handle_replica_out region_ptr padding)
  | _ => client_event max_alloc region_ptr padding pf d
  end.

(** A turn of the replica, then one of the master. *)
Definition exchange : st (session * session) unit := λ '(m, r),
  let '(d, m) := take_sent m in
  match link_event max_alloc region_ptr padding pf d r with
  | Stop e => Stop e
  | Ok (_, r) =>
      let '(d', r) := take_sent r in
      match master_turn d' m with Ok (_, m) => Ok (tt, (m, r)) | Stop e => Stop e end
  end.

(** An exchange, with what else is known of it: the sessions of other clients are
    not touched, and each end is of the type whose events the exchange handles. *)
Record exchanged (x y : session * session) : Prop := {
  ex_run : exchange x = Ok (tt, y);
  ex_open : s_open y.1 = true ∧ s_open y.2 = true;
  ex_peers : s_peers y.1 = s_peers x.1 ∧ s_peers y.2 = s_peers x.2;
  ex_turn : type (cl x.2) = CLIENT_TYPE_MASTER ∧
    ∃ r1, link_event max_alloc region_ptr padding pf (outgoing (s_sock x.1)) x.2 = Ok (tt, r1) ∧
      match outgoing (s_sock r1) with
      | [] => Z.land (epoll_events (cl x.1)) EPOLLOUT ≠ 0 → type (cl x.1) = CLIENT_TYPE_REPLICA
      | _ => type (cl x.1) = CLIENT_TYPE_REGULAR
      end
}.

(** The master [m] since [m0]: it has only answered, and [d] is on its way. *)
Record master_at (m0 : session) (a b : Z) (d : bytes) (m : session) : Prop := {
  ma_idle : idle a b m;
  ma_sent : outgoing (s_sock m) = d;
  ma_world : ∃ c, s_world m = set_client c (s_world m0) ∧ type c = CLIENT_TYPE_REGULAR ∧
               epoll_events c = epoll_events (cl m0) ∧ client_fd c = client_fd (cl m0);
  ma_rest : s_backlog m = s_backlog m0 ∧ s_peers m = s_peers m0
}.

(** The replica [r] since [r0]; all it sent has been taken. *)
Record replica_at (r0 : session) (pending : bytes) (a b : Z) (st : ReplicaClientState) (r : session) : Prop := {
  ra_link : link pending a b st r;
  ra_sent : outgoing (s_sock r) = [];
  ra_same : same_server r0 r
}.

Lemma master_quiet m0 a b d m :
  master_at m0 a b d m → Z.land (epoll_events (cl m0)) EPOLLOUT = 0 →
  master_turn [] (take_sent m).2 = Ok (tt, (take_sent m).2) ∧ master_at m0 a b [] (take_sent m).2.
Proof.
  intros [Hid Hs (c & Hw & Ht & He & Hf) Hrest] Hev. split.
  - unfold master_turn. erewrite st_bind_ok by reflexivity. cbv beta. cbn [id].
    change (cl (take_sent m).2) with (cl m). unfold cl in *. rewrite Hw. cbn [w_client set_client].
    rewrite He, Hev. reflexivity.
  - constructor; [by apply take_sent_idle|done|by exists c|done].
Qed.

(** A command that only answers is served. *)
Lemma master_answers m0 a b args d m :
  master_at m0 a b [] m → answers args d → c_strings args = args → args ≠ [] → accepted max_alloc args →
  (length args ≤ 3)%nat → zlen (encode (RArray args)) ≤ Z.min a 150 → zlen d ≤ Z.min b 10 →
  ∃ m', master_turn (encode (RArray args)) (take_sent m).2 = Ok (tt, m') ∧ master_at m0 (a - 150) (b - 10) d m'.
Proof.
  intros [Hid%take_sent_idle Hs (c & Hw & Ht & He & Hf) [Hbl Hps]] Hans Hc Hne Hacc Hn Hlen Hd.
  pose proof Hid as [_ _ _ _ (Hwfo & Hco & Hzo & Hxo) _].
  destruct (Hans (s_world (take_sent m).2)) as (rb & E & Happ);
    [done|rewrite Hco, Hzo; unfold RING_BUFFER_SIZE; cbn; lia|lia|].
  destruct (idle_request max_alloc region_ptr padding pf ltac:(lia) a b (take_sent m).2 args
    (set_client (with_output rb (with_propogate false (w_client (s_world (take_sent m).2)))) (s_world (take_sent m).2)) d)
    as (m' & Em & Hid' & Hout & Hw' & Hbl' & Hps'); try done.
  - unfold RING_BUFFER_SIZE. lia.
  - cbn. unfold command_steps. lia.
  - by rewrite Hc.
  - cbn. rewrite Hw. cbn. by rewrite Ht.
  - lia.
  - exists m'. split.
    + unfold master_turn. destruct (encode (RArray args)) eqn:Ee; [done|exact Em].
    + constructor.
      * destruct Hid' as [? ? ? (? & ? & ? & ?) (? & ? & ? & ?) ?].
        constructor; try done; (split_and!; try done; lia).
      * by rewrite Hout.
      * change (s_world (take_sent m).2) with (s_world m) in Hw'. rewrite Hw in Hw'.
        eexists. split; [rewrite Hw'; reflexivity|done].
      * by rewrite Hbl', Hps'.
Qed.

(** A turn in which the replica sends its request and it is answered. *)
Lemma exchange_request m0 r0 m r am bm ar br st args mid d :
  master_at m0 am bm [] m → replica_at r0 [] ar br st r →
  (st, args, mid) ∈ send_steps (w_config (s_world r0)) → zlen (port (w_config (s_world r0))) < 6 →
  answers args d → c_strings args = args → args ≠ [] → accepted max_alloc args → (length args ≤ 3)%nat →
  zlen d ≤ 10 → 150 ≤ am → 10 ≤ bm → 150 ≤ br →
  ∃ m' r', exchanged (m, r) (m', r') ∧ master_at m0 (am - 150) (bm - 10) d m' ∧
    replica_at r0 [] ar (br - 150) mid r'.
Proof.
  intros Hm [Hlk Hsent Hsame] Hst Hport Hans Hc Hne Hacc Hn Hd Ham Hbm Hbr.
  destruct (handshake_send max_alloc region_ptr padding pf ar br st r args mid) as (r1 & E & Hlk1 & Hsame1 & Hout);
    [by rewrite (ss_config _ _ Hsame)|done|by rewrite (ss_config _ _ Hsame)|done|].
  rewrite Hsent in Hout. cbn [app] in Hout.
  assert (zlen (encode (RArray args)) ≤ 150) as Hlen.
  { apply (request_length (port (w_config (s_world r0)))); [done|].
    repeat (apply elem_of_cons in Hst as [[= _ -> _]|Hst]; [set_solver|]). by apply elem_of_nil in Hst. }
  destruct (master_answers m0 am bm args d m Hm Hans Hc Hne Hacc Hn) as (m' & Em & Hm'); [lia|lia|].
  exists m', (take_sent r1).2. split_and!; [|done|constructor; [by apply take_sent_link|done|]].
  - pose proof Hm as [_ Hsm (c & Hw & Ht & _) [_ Hpm]]. pose proof Hm' as [[Hom' _ _ _ _ _] _ _ [_ Hpm']].
    constructor; cbn [fst snd].
    + unfold exchange. cbn [take_sent]. rewrite Hsm, E, Hout. change (put_sock _ m) with (take_sent m).2. rewrite Em. done.
    + split; [done|apply Hlk1].
    + split; [congruence|apply Hsame1].
    + split; [apply Hlk|]. exists r1. rewrite Hsm, Hout. split; [done|]. destruct (encode _) eqn:Ee; [by destruct args|].
      unfold cl. by rewrite Hw.
  - eapply same_server_trans; [exact Hsame|]. by destruct Hsame1.
Qed.

(** A turn in which the replica gets its answer and has nothing to send. *)
Lemma exchange_reply m0 r0 m r am bm ar br mid txt next :
  master_at m0 am bm (encode (RSimple txt)) m → replica_at r0 [] ar br mid r →
  (mid, txt, next) ∈ reply_steps → Z.land (epoll_events (cl m0)) EPOLLOUT = 0 → 10 ≤ ar →
  ∃ m' r', exchanged (m, r) (m', r') ∧ master_at m0 am bm [] m' ∧ replica_at r0 [] (ar - 10) br next r'.
Proof.
  intros Hm [Hlk Hsent Hsame] Hst Hev Har.
  assert (zlen (encode (RSimple txt)) ≤ 10) as Hlen by
    (repeat (apply elem_of_cons in Hst as [[= -> -> ->]|Hst]; [done|]); by apply elem_of_nil in Hst).
  destruct (link_reply max_alloc region_ptr padding pf ar br mid r txt next Hst Hlk) as (r1 & E & Hlk1 & Hsame1 & Hout);
    [lia|lia|]. rewrite Hsent in Hout.
  destruct (master_quiet m0 am bm _ m Hm Hev) as [Em Hm'].
  exists (take_sent m).2, (take_sent r1).2. split_and!; [|done|constructor; [|done|]].
  - pose proof Hm as [_ Hsm (c & Hw & Ht & He & _) [_ Hpm]]. pose proof Hm' as [[Hom' _ _ _ _ _] _ _ [_ Hpm']].
    constructor; cbn [fst snd].
    + unfold exchange. cbn [take_sent]. rewrite Hsm, E, Hout. change (put_sock _ m) with (take_sent m).2. by rewrite Em.
    + split; [done|apply Hlk1].
    + split; [done|apply Hsame1].
    + split; [apply Hlk|]. exists r1. rewrite Hsm, Hout. split; [done|]. unfold cl in *. rewrite Hw. cbn. by rewrite He, Hev.
  - apply take_sent_link. destruct Hlk1 as [? ? ? ? (? & ? & ? & ?) ? ? ? ? ?]. constructor; try done. split_and!; try done. lia.
  - eapply same_server_trans; [exact Hsame|]. by destruct Hsame1.
Qed.

(** Both, for the [i]-th entries of the tables. *)
Lemma exchange_both (i : nat) m0 r0 m r am bm ar br st args mid txt next :
  master_at m0 am bm [] m → replica_at r0 [] ar br st r →
  send_steps (w_config (s_world r0)) !! i = Some (st, args, mid) → reply_steps !! i = Some (mid, txt, next) →
  zlen (port (w_config (s_world r0))) < 6 → Z.land (epoll_events (cl m0)) EPOLLOUT = 0 →
  answers args (encode (RSimple txt)) → c_strings args = args → args ≠ [] → accepted max_alloc args →
  (length args ≤ 3)%nat → 150 ≤ am → 10 ≤ bm → 150 ≤ br → 10 ≤ ar →
  ∃ m' r', nsteps exchanged 2 (m, r) (m', r') ∧
    master_at m0 (am - 150) (bm - 10) [] m' ∧ replica_at r0 [] (ar - 10) (br - 150) next r'.
Proof.
  intros Hm Hr Hs%list_elem_of_lookup_2 Hst%list_elem_of_lookup_2 Hport Hev Hans Hc Hne Hacc Hn Ham Hbm Hbr Har.
  assert (zlen (encode (RSimple txt)) ≤ 10) as Hlen by
    (clear Hs; repeat (apply elem_of_cons in Hst as [[= -> -> ->]|Hst]; [done|]); by apply elem_of_nil in Hst).
  destruct (exchange_request m0 r0 m r am bm ar br st args mid _ Hm Hr Hs Hport Hans Hc Hne Hacc Hn Hlen)
    as (m1 & r1 & E1 & Hm1 & Hr1); [lia..|].
  destruct (exchange_reply m0 r0 m1 r1 _ _ _ _ mid txt next Hm1 Hr1 Hst Hev) as (m2 & r2 & E2 & Hm2 & Hr2); [lia|].
  exists m2, r2. split_and!; try done. eapply nsteps_l; [exact E1|]. by apply nsteps_once.
Qed.

(** ** The announcement and the snapshot *)

(** The master's information is usable in an announcement. *)
Definition announces (i : server_info_t) : Prop :=
  num_replicas i < MAX_REPLICAS ∧ zlen (master_replid i) ≤ 40 ∧ no_nul (master_replid i) ∧
  CR ∉ master_replid i ∧ LONG_MIN ≤ master_repl_offset i ≤ LONG_MAX.

(** The master sends [F] to its new replica. *)
Record master_sends (m0 : session) (a b : Z) (path F : bytes) (d : bytes) (m : session) : Prop := {
  ms_idle : idle a b m;
  ms_sending : sending path F 0 m;
  ms_state : master_repl_state (cl m) = MASTER_REPL_STATE_SENDING_RDB_DATA ∧ type (cl m) = CLIENT_TYPE_REPLICA;
  ms_events : Z.land (epoll_events (cl m)) EPOLLOUT = EPOLLOUT;
  ms_epoll : epoll_answers (s_world m) = [];
  ms_sent : outgoing (s_sock m) = d;
  ms_writes : write_answers (s_sock m) = [];
  ms_info : w_info (s_world m) = new_replica (w_info (s_world m0)) (client_fd (cl m0));
  ms_rest : w_mem (s_world m) = w_mem (s_world m0) ∧ s_backlog m = s_backlog m0 ∧ s_peers m = s_peers m0
}.

Lemma announcement_length i :
  announces i → zlen (announcement i) < 80 ∧ CR ∉ announcement i ∧ no_nul (announcement i) ∧
  take 9 (announcement i) = lit "FULLRESYN".
Proof.
  intros (_ & Hl & Hn & Hcr & Ho). pose proof (fmt_ld_length _ Ho).
  unfold announcement, no_nul in *. rewrite !zlen_app, !not_elem_of_app. split_and!; try done;
    try (apply (bool_decide_unpack _); by vm_compute); [cbn; lia|apply fmt_ld_no_cr|apply fmt_ld_no_nul].
Qed.

(** A turn in which the replica asks for synchronisation. *)
Lemma exchange_psync m0 r0 m r am bm ar br saved os' path F :
  master_at m0 am bm [] m → replica_at r0 [] ar br REPL_STATE_RECEIVED_REPLCONF_CAPA_OK r →
  zlen (port (w_config (s_world r0))) < 6 → announces (w_info (s_world m0)) → epoll_answers (s_world m0) = [] →
  rdb_save_data_to_file (db (w_mem (s_world m0))) (dir (w_config (s_world m0))) (dbfilename (w_config (s_world m0)))
    (w_os (s_world m0)) = Ok (saved, os') →
  construct_file_path (path_malloc_ok os') (dir (w_config (s_world m0))) (dbfilename (w_config (s_world m0))) = Some path →
  files os' !! path = Some F → zlen F ≤ RING_BUFFER_SIZE → 150 ≤ am → 150 ≤ bm → 150 ≤ br →
  ∃ m' r', exchanged (m, r) (m', r') ∧ replica_at r0 [] ar (br - 150) REPL_STATE_SENT_PSYNC r' ∧
    master_sends m0 (am - 150) (bm - 150) path F (encode (RSimple (announcement (w_info (s_world m0)))) ++ header (zlen F)) m'.
Proof.
  intros Hm [Hlk Hsent Hsame] Hport Hann Hep Hsave Hpath HF HlF Ham Hbm Hbr.
  set (args := [lit "PSYNC"; lit "?"; lit "-1"]). pose proof (ss_config _ _ Hsame) as Hcfg.
  destruct (handshake_send max_alloc region_ptr padding pf ar br REPL_STATE_RECEIVED_REPLCONF_CAPA_OK r args
    REPL_STATE_SENT_PSYNC (list_elem_of_lookup_2 (send_steps (w_config (s_world r))) 3 _ eq_refl) Hlk)
    as (r1 & E & Hlk1 & Hsame1 & Hout); [by rewrite Hcfg|done|]. rewrite Hsent in Hout. cbn [app] in Hout.
  destruct Hm as [Hid%take_sent_idle Hs (c & Hw & Ht & He & Hf) [Hbl Hps]]. pose proof Hid as [_ _ _ _ (Hwfo & Hco & Hzo & Hxo) _].
  change (s_world (take_sent m).2) with (s_world m) in *. rewrite Hw in *.
  destruct (announcement_length _ Hann) as (Hal & _). destruct Hann as (Hnum & Hl & Hn & Hcr & Ho).
  pose proof (fmt_ld_length (zlen F) ltac:(unfold LONG_MIN, LONG_MAX, RING_BUFFER_SIZE in *; lia)) as Hfl.
  set (i := w_info (s_world m0)) in *.
  set (d := encode (RSimple (announcement i)) ++ header (zlen F)).
  assert (zlen d ≤ 120) as Hd.
  { unfold d, header. cbn [encode]. rewrite !zlen_app. change (zlen CRLF) with 2.
    change (zlen (lit "+")) with 1. change (zlen (lit "$")) with 1. lia. }
  destruct (psync_full (set_client c (s_world m0)) (lit "?") (lit "-1") saved os' path F) as (rb & Eh & Happ); try done.
  { unfold RING_BUFFER_SIZE in *. rewrite Hco, Hzo. cbn [length w_info set_client]. fold i d. lia. }
  { cbn [w_info set_client]. fold i d. lia. }
  cbn [w_info set_client] in Happ. fold i d in Happ.
  destruct (idle_request max_alloc region_ptr padding pf ltac:(lia) am bm (take_sent m).2 args _ d Hid
    ltac:(split_and!; [split; [done|repeat constructor; done]|cbn; lia|cbn; lia]) ltac:(vm_compute zlen; unfold RING_BUFFER_SIZE; lia)
    ltac:(cbn; lia) ltac:(change (s_world (take_sent m).2) with (s_world m); rewrite Hw; exact Eh))
    as (m' & Em & Hid' & Hom & Hwm & Hbl' & Hps'); [done|done|by change (s_world (take_sent m).2) with (s_world m); rewrite Hw|lia|].
  exists m', (take_sent r1).2. split_and!.
  - constructor; cbn [fst snd].
    + unfold exchange. cbn [take_sent]. rewrite Hs, E, Hout. change (put_sock _ m) with (take_sent m).2.
      change (master_turn (encode (RArray args))) with (client_event max_alloc region_ptr padding pf (encode (RArray args))).
      by rewrite Em.
    + split; [apply Hid'|apply Hlk1].
    + split; [exact Hps'|apply Hsame1].
    + split; [apply Hlk|]. exists r1. rewrite Hs, Hout. split; [done|]. cbn. unfold cl. by rewrite Hw.
  - constructor; [by apply take_sent_link|done|]. eapply same_server_trans; [exact Hsame|]. by destruct Hsame1.
  - pose proof Hid' as [_ _ _ (? & ? & ? & ?) (? & ? & ? & ?) (_ & _ & Hws')].
    assert (zlen (encode (RArray args)) ≤ 150) by (by vm_compute).
    constructor; [|  |unfold cl; rewrite Hwm; cbn..| | | | |]; try done.
    + destruct Hid'. constructor; try done; (split_and!; try done; lia).
    + constructor; unfold cl; rewrite Hwm; cbn; try done; split; try done; unfold RING_BUFFER_SIZE in *; lia.
    + apply mask_set.
    + by rewrite Hwm.
    + by rewrite Hwm; cbn; rewrite Hf.
    + rewrite Hwm, Hbl', Hps'. done.
Qed.

(** What the master is afterwards: it passes commands on to its replica. *)
Record master_done (m0 : session) (a b : Z) (d : bytes) (m : session) : Prop := {
  md_idle : idle a b m;
  md_state : master_repl_state (cl m) = MASTER_REPL_STATE_PROPAGATE ∧ type (cl m) = CLIENT_TYPE_REPLICA;
  md_events : Z.land (epoll_events (cl m)) EPOLLOUT = 0;
  md_sent : outgoing (s_sock m) = d;
  md_info : w_info (s_world m) = new_replica (w_info (s_world m0)) (client_fd (cl m0));
  md_rest : w_mem (s_world m) = w_mem (s_world m0) ∧ s_backlog m = s_backlog m0 ∧ s_peers m = s_peers m0 ∧
            epoll_answers (s_world m) = []
}.

(** A turn in which the replica gets the announcement and the header, and the
    snapshot is sent. *)
Lemma exchange_announce m0 r0 m r path F am bm ar br :
  master_sends m0 am bm path F (encode (RSimple (announcement (w_info (s_world m0)))) ++ header (zlen F)) m →
  replica_at r0 [] ar br REPL_STATE_SENT_PSYNC r → announces (w_info (s_world m0)) →
  zlen F ≤ RING_BUFFER_SIZE → 150 ≤ ar →
  ∃ m' r', exchanged (m, r) (m', r') ∧ master_done m0 am bm F m' ∧
    replica_at r0 (header (zlen F)) (ar - 150) br REPL_STATE_RECEIVED_FULLRESYNC_RESPONSE r'.
Proof.
  intros [Hid Hsd [Hst Hty] Hev Hep Hout Hws Hi Hrest] [Hlk Hsent Hsame] Hann HlF Har.
  destruct (announcement_length _ Hann) as (Hal & Hcr & Hn & Ht9). set (txt := announcement (w_info (s_world m0))) in *.
  pose proof (fmt_ld_length (zlen F) ltac:(unfold LONG_MIN, LONG_MAX, RING_BUFFER_SIZE in *; lia)) as Hfl.
  assert (encode (RSimple txt) ++ header (zlen F) = lit "+" ++ txt ++ CRLF ++ header (zlen F)) as Hd
    by (cbn [encode]; by rewrite <- !app_assoc).
  assert (zlen (lit "+" ++ txt ++ CRLF ++ header (zlen F)) ≤ 150) as Hld.
  { unfold header. rewrite !zlen_app. change (zlen CRLF) with 2.
    change (zlen (lit "+")) with 1. change (zlen (lit "$")) with 1. lia. }
  destruct (link_fullresync max_alloc region_ptr padding pf ar br r txt (header (zlen F)) Hlk) as
    (r1 & E & Hlk1 & Hsame1 & Hout1); [lia|done|done|done|lia|unfold RING_BUFFER_SIZE; lia|]. rewrite Hsent in Hout1.
  assert (sending path F 0 (take_sent m).2) as Hsd' by (by destruct Hsd).
  destruct (send_snapshot_runs path F 0 (take_sent m).2 Hsd' Hep) as (o' & k & Em & Ho' & Hok & Hik & Hrk & Hall).
  destruct (Hall Hws) as [-> Hwk]. cbn [s_sock take_sent snd put_sock outgoing app] in Hok.
  rewrite Z.sub_0_r, slice_all in Hok by done.
  exists (sent_result F (zlen F) k (take_sent m).2), (take_sent r1).2. split_and!.
  - constructor; cbn [fst snd].
    + unfold exchange. cbn [take_sent]. rewrite Hout, Hd, E, Hout1. change (put_sock _ m) with (take_sent m).2.
      unfold master_turn. erewrite st_bind_ok by reflexivity. cbv beta. cbn [id].
      change (cl (take_sent m).2) with (cl m). rewrite Hev. cbn [when EPOLLOUT Z.eqb negb].
      unfold master_handle_replica_out. erewrite st_bind_ok by reflexivity. cbv beta.
      change (cl (take_sent m).2) with (cl m). rewrite Hst. by rewrite Em.
    + unfold sent_result. rewrite Z.eqb_refl. split; [apply Hid|apply Hlk1].
    + unfold sent_result. rewrite Z.eqb_refl. split; [done|apply Hsame1].
    + split; [apply Hlk|]. exists r1. rewrite Hout, Hd, Hout1. by split.
  - unfold sent_result. rewrite Z.eqb_refl. constructor; try done; [|cbn; apply mask_clear|by destruct Hrest as (? & ? & ?)].
    destruct Hid as [? ? Ht ? ? (Hi1 & Hi2 & _)]. constructor; try done. cbn. rewrite Hik, Hrk. done.
  - constructor; [|done|eapply same_server_trans; [exact Hsame|]; by destruct Hsame1].
    apply take_sent_link. destruct Hlk1 as [? ? ? ? (? & ? & ? & ?) ? ? ? ? ?]. constructor; try done. split_and!; try done. lia.
Qed.

(** What the replica is afterwards: it waits for commands of its master. *)
Record replica_done (r0 : session) (a b : Z) (m : mem) (r : session) : Prop := {
  rd_mem : w_mem (s_world r) = m;
  rd_link : s_open r = true ∧ s_parser r = parser_init ∧ type (cl r) = CLIENT_TYPE_MASTER ∧
            repl_client_state (cl r) = REPL_STATE_READY;
  rd_in : rb_wf (s_in r) ∧ contents (s_in r) = [] ∧ size (s_in r) = RING_BUFFER_SIZE ∧ write_index (s_in r) + a < 2 ^ 64;
  rd_out : rb_wf (out (s_world r)) ∧ contents (out (s_world r)) = [] ∧
           size (out (s_world r)) = RING_BUFFER_SIZE ∧ write_index (out (s_world r)) + b < 2 ^ 64;
  rd_sock : s_sock r = MkSocket [] [] [] [];
  rd_same : w_info (s_world r) = w_info (s_world r0) ∧ epoll_answers (s_world r) = [] ∧
            s_backlog r = s_backlog r0 ∧ s_peers r = s_peers r0 ∧
            client_fd (cl r) = client_fd (cl r0) ∧ should_reply (cl r) = should_reply (cl r0)
}.

(** The last turn: the snapshot arrives and is loaded. *)
Lemma exchange_snapshot m0 r0 m r path F am bm ar br rc mem' :
  master_done m0 am bm F m → replica_at r0 (header (zlen F)) ar br REPL_STATE_RECEIVED_FULLRESYNC_RESPONSE r →
  0 < zlen F ≤ Z.min ar RING_BUFFER_SIZE → temp_ok r0 path → epoll_answers (s_world r0) = [] →
  rdb_load_data_from_file (w_os (put_file path F (s_world r0))) (dir (w_config (s_world r0))) TEMP_SNAPSHOT
    (w_mem (s_world r0)) = Ok (rc, mem') →
  ∃ m' r', exchanged (m, r) (m', r') ∧ master_done m0 am bm [] m' ∧ replica_done r0 (ar - zlen F) br mem' r'.
Proof.
  intros [Hid [Hst Hty] Hev Hout Hi Hrest] [Hlk Hsent [Hm Hc Ho He Hevs (Hri & Hrb & Hrp) (Hrf & Hrr)]] HF Htemp Hep Hload.
  destruct (link_loads max_alloc region_ptr padding pf ar br r F path rc mem' Hlk HF) as
    (r1 & E & Hst1 & Hm1 & Hf1 & Hin1 & Hsk1 & Hev1 & [(Hl1 & Hl2 & Hl3 & Hl4) (Hl5 & Hl6 & Hl7) (Hl8 & Hl9 & Hl10 & Hl11)]).
  - unfold temp_ok. by rewrite Ho, Hc.
  - by rewrite He.
  - unfold put_file. by rewrite Ho, Hc, Hm.
  - assert (outgoing (s_sock r1) = []) as Hout1 by (by rewrite Hsk1).
    exists (take_sent m).2, (take_sent r1).2. split_and!.
    + constructor; cbn [fst snd].
      * unfold exchange. cbn [take_sent]. rewrite Hout, E, Hout1. change (put_sock _ m) with (take_sent m).2.
        unfold master_turn. erewrite st_bind_ok by reflexivity. cbv beta. cbn [id].
        change (cl (take_sent m).2) with (cl m). by rewrite Hev.
      * split; [apply Hid|]. cbn. rewrite Hl1. apply Hlk.
      * split; [done|]. exact Hl3.
      * split; [apply Hlk|]. exists r1. rewrite Hout, Hout1. by split.
    + constructor; try done. by apply take_sent_idle.
    + destruct Hlk as [Ho1 Hp1 Ht1 _ _ Hout2 _ _ _ _].
      constructor; unfold cl in *; change (s_world (take_sent r1).2) with (s_world r1).
      * done.
      * split_and!; [by rewrite <- Ho1|by rewrite <- Hp1|congruence|done].
      * exact Hin1.
      * rewrite Hl11. exact Hout2.
      * cbn. by rewrite Hsk1.
      * split_and!; try congruence; by rewrite <- ?Hrb, <- ?Hrp.
Qed.
End sync.

(** A master and a replica that has just connected to it, with room for [a] more
    bytes in every buffer. *)
Record connected (a : Z) (m r : session) (path : bytes) : Prop := {
  cn_master : idle a a m ∧ type (cl m) = CLIENT_TYPE_REGULAR ∧ Z.land (epoll_events (cl m)) EPOLLOUT = 0;
  cn_replica : link [] a a REPL_STATE_CONNECTING r;
  cn_sent : outgoing (s_sock m) = [] ∧ outgoing (s_sock r) = [];
  cn_epoll : epoll_answers (s_world m) = [] ∧ epoll_answers (s_world r) = [];
  cn_port : zlen (port (w_config (s_world r))) < 6 ∧ no_nul (port (w_config (s_world r)));
  cn_info : announces (w_info (s_world m));
  cn_files : mkdir_ok (w_os (s_world m)) = true ∧ fopen_w_ok (w_os (s_world m)) = true ∧
             path_malloc_ok (w_os (s_world m)) = true;
  cn_temp : temp_ok r path
}.

Lemma handshake_accepted max_alloc p args :
  1000 ≤ max_alloc → zlen p < 6 → no_nul p → args ∈ handshake_requests p →
  accepted max_alloc args ∧ c_strings args = args ∧ args ≠ [] ∧ (length args ≤ 3)%nat.
Proof.
  intros Hmax Hp Hn Hin. assert (zlen p ≤ INT_MAX) by (unfold INT_MAX; lia).
  unfold accepted, command_fits, c_strings.
  repeat (apply elem_of_cons in Hin as [->|Hin];
    [split_and!; [done|repeat (apply Forall_cons; split; [done|]); apply Forall_nil; done|cbn; lia|
       cbn [concat]; rewrite ?length_app; cbn; lia|
       cbn [fmap list_fmap]; rewrite ?(cstr_id p) by done; reflexivity|done|cbn; lia]|]).
  by apply elem_of_nil in Hin.
Qed.

(** The three questions and answers of the handshake. *)
Lemma handshake_together max_alloc region_ptr padding pf a m r path :
  1000 ≤ max_alloc < 2 ^ 63 → (16 ≤ pf)%nat → connected a m r path → 1000 ≤ a →
  ∃ m' r', nsteps (exchanged max_alloc region_ptr padding pf) 6 (m, r) (m', r') ∧
    master_at m (a - 450) (a - 30) [] m' ∧
    replica_at r [] (a - 30) (a - 450) REPL_STATE_RECEIVED_REPLCONF_CAPA_OK r'.
Proof.
  intros Hmax Hpf [(Hid & Hty & Hev) Hlk [Hsm Hsr] [Hem Her] [Hport Hpn] _ _ _] Ha.
  assert (master_at m a a [] m) as Hm0.
  { constructor; [done|done| |done]. exists (cl m). split_and!; try done. unfold cl. by destruct (s_world m). }
  assert (replica_at r [] a a REPL_STATE_CONNECTING r) as Hr0 by (by constructor).
  pose proof (λ i args H, handshake_accepted max_alloc (port (w_config (s_world r))) args ltac:(lia) Hport Hpn
    (list_elem_of_lookup_2 (handshake_requests (port (w_config (s_world r)))) i args H)) as Hacc.
  destruct (Hacc 0%nat _ eq_refl) as (A0 & C0 & N0 & L0).
  destruct (exchange_both max_alloc region_ptr padding pf Hmax Hpf 0 m r m r _ _ _ _ _ _ _ _ _ Hm0 Hr0
    eq_refl eq_refl Hport Hev ping_answers C0 N0 A0 L0) as (m1 & r1 & E1 & Hm1 & Hr1); [lia..|].
  destruct (Hacc 1%nat _ eq_refl) as (A1 & C1 & N1 & L1).
  destruct (exchange_both max_alloc region_ptr padding pf Hmax Hpf 1 m r m1 r1 _ _ _ _ _ _ _ _ _ Hm1 Hr1
    eq_refl eq_refl Hport Hev (replconf_answers (lit "listening-port") _ ltac:(done)) C1 N1 A1 L1) as (m2 & r2 & E2 & Hm2 & Hr2); [lia..|].
  destruct (Hacc 2%nat _ eq_refl) as (A2 & C2 & N2 & L2).
  destruct (exchange_both max_alloc region_ptr padding pf Hmax Hpf 2 m r m2 r2 _ _ _ _ _ _ _ _ _ Hm2 Hr2
    eq_refl eq_refl Hport Hev (replconf_answers (lit "capa") _ ltac:(done)) C2 N2 A2 L2) as (m3 & r3 & E3 & Hm3 & Hr3); [lia..|].
  exists m3, r3. split_and!.
  - change 6%nat with (2 + (2 + 2))%nat. eapply nsteps_trans; [exact E1|]. by eapply nsteps_trans.
  - replace (a - 450) with (a - 150 - 150 - 150) by lia. by replace (a - 30) with (a - 10 - 10 - 10) by lia.
  - replace (a - 450) with (a - 150 - 150 - 150) by lia. by replace (a - 30) with (a - 10 - 10 - 10) by lia.
Qed.

(** The nine turns, and the two ends afterwards. *)
Lemma synchronised max_alloc region_ptr padding pf a m r path A A0 F :
  1000 ≤ max_alloc < 2 ^ 63 → (16 ≤ pf)%nat → connected a m r path → 2 * RING_BUFFER_SIZE ≤ a →
  db_rep (w_mem (s_world m)) A → storable A → db_rep (w_mem (s_world r)) A0 → adb_room 256 A0 →
  rdb_image (db (w_mem (s_world m))) = Ok F → zlen F ≤ RING_BUFFER_SIZE →
  ∃ m' r' mem', nsteps (exchanged max_alloc region_ptr padding pf) 9 (m, r) (m', r') ∧
    (same_clock (w_mem (s_world r)) mem' ∧ db_rep mem' ((reloaded <$> A) ∪ A0)) ∧
    master_done m (a - 600) (a - 180) [] m' ∧ replica_done r (a - 180 - zlen F) (a - 600) mem' r'.
Proof.
  intros Hmax Hpf Hcn Ha Hdb Hst Hdb0 HA0 Himg HlF. unfold RING_BUFFER_SIZE in Ha.
  destruct (handshake_together max_alloc region_ptr padding pf a m r path Hmax Hpf Hcn) as (m1 & r1 & E1 & Hm1 & Hr1); [lia|].
  destruct Hcn as [_ _ _ [Hem Her] [Hport _] Hann (Hmk & Hfo & Hpm) Htemp].
  destruct (image_loads_over _ _ _ _ Hdb Hdb0 HA0 Hst) as (F' & mem' & Himg' & Hl15 & Hdb' & Hload).
  assert (F' = F) as -> by congruence.
  destruct (construct_file_path_some (dir (w_config (s_world m))) (dbfilename (w_config (s_world m)))) as [pm Hpath].
  pose proof (save_file _ _ _ _ F pm Hmk Hfo Hpm Himg Hpath) as Hsave.
  destruct (exchange_psync max_alloc region_ptr padding pf Hmax Hpf m r m1 r1 _ _ _ _ true _ pm F Hm1 Hr1 Hport Hann Hem Hsave)
    as (m2 & r2 & E2 & Hr2 & Hm2); [cbn; by rewrite Hpm|apply lookup_insert_eq|done|lia..|].
  destruct (exchange_announce max_alloc region_ptr padding pf Hpf m r m2 r2 pm F _ _ _ _ Hm2 Hr2 Hann HlF)
    as (m3 & r3 & E3 & Hm3 & Hr3); [lia|].
  destruct (exchange_snapshot max_alloc region_ptr padding pf m r m3 r3 path F _ _ _ _ 0 mem' Hm3 Hr3)
    as (m4 & r4 & E4 & Hm4 & Hr4); [unfold RING_BUFFER_SIZE in *; lia|done|done| |].
  { destruct Htemp as [_ Hp]. apply (Hload _ _ _ path); cbn; [done|apply lookup_insert_eq]. }
  exists m4, r4, mem'. split; [|split; [done|split]].
  - change 9%nat with (6 + 3)%nat. eapply nsteps_trans; [exact E1|]. eapply nsteps_l; [exact E2|].
    eapply nsteps_l; [exact E3|]. by apply nsteps_once.
  - replace (a - 600) with (a - 450 - 150) by lia. by replace (a - 180) with (a - 30 - 150) by lia.
  - replace (a - 600) with (a - 450 - 150) by lia. by replace (a - 180) with (a - 30 - 150) by lia.
Qed.

Lemma exchanged_run max_alloc region_ptr padding pf n i x y :
  nsteps (exchanged max_alloc region_ptr padding pf) n x y →
  for_each (λ _, exchange max_alloc region_ptr padding pf) (seq i n) x = Ok (tt, y).
Proof.
  intros H. revert i. induction H as [x|n x y z [E _ _ _] _ IH]; intros i; [done|].
  cbn [seq for_each]. erewrite st_bind_ok by exact E. apply IH.
Qed.


(** ** Witness *)

Definition sample_mem : mem :=
  match redis_db_set (lit "k") (TYPE_STRING (lit "v")) 0 (mem_init (λ _, (1, 0))) with
  | Ok (_, m) => m
  | Stop _ => mem_init (λ _, (1, 0))
  end.

Lemma sample_mem_rep : db_rep sample_mem {[lit "k" := (AStr (lit "v"), 0)]}.
Proof.
  destruct (mem_init_rep (λ _, (1, 0))) as (M & P & Ho).
  destruct (set_str_own _ M P ∅ (lit "k") (lit "v") 0 Ho) as (m & E & _ & _ & Hr).
  - constructor; [vm_compute; reflexivity|]. intros ? ? ?. by rewrite lookup_empty.
  - unfold sample_mem, redis_db_set. by rewrite E.
Qed.

Definition master_session : session :=
  MkSession (set_mem sample_mem (set_client (with_epoll EPOLLIN (with_type CLIENT_TYPE_REGULAR
      (init_client client_memory 5 (client_rb [] 6)))) world0))
    (client_rb [] 7) parser_init (create_command_handler 256 10) (MkSocket [] [] [] [])
    (RingBuffer 0 0 (Some (replicate 64 NUL)) 64 8) ∅ true.

Lemma sample_connected :
  connected (2 ^ 62) master_session (link_session [] REPL_STATE_CONNECTING) (lit "/tmp/redis-data/temp_snapshot.rdb").
Proof.
  destruct (client_rb_holds [] 6) as [Hwo Hco]; [done|done|].
  destruct (client_rb_holds [] 7) as [Hwi Hci]; [done|done|].
  constructor; try done.
  - split; [vm_compute; reflexivity|apply (bool_decide_unpack _); by vm_compute].
  - split_and!; [by vm_compute|by vm_compute|apply (bool_decide_unpack _); by vm_compute|apply (bool_decide_unpack _); by vm_compute| |];
      by vm_compute.
Qed.

