(* ===== verification/Server.v ===== *)
(** * [src/src/redis-server.c]: start-up, the event loop and shutdown

    A server is the globals and the connections by descriptor.  An event is
    handled on the [session] of its client; what the operating system answers is
    given to the model. *)

From S2P Require Import Prelude CLib RingBuffer Util LinkedList Database Rdb RespWriter ServerState.
From S2P Require Import Commands RespParser CommandHandler Client ClientAlloc Replication.

(** ** Data *)

(** What belongs to one client: its input buffer, parser, argument collector and
    socket are kept beside the [Client]. *)
Record conn := MkConn {
  cn_client : Client;
  cn_in : ring_buffer;
  cn_parser : Parser;
  cn_ch : CommandHandler;
  cn_sock : socket
}.

Record server := MkServer {
  sv_mem : mem;
  sv_info : server_info_t;
  sv_config : server_config_t;
  sv_os : os_files;
  sv_epoll : list bool;
  sv_backlog : ring_buffer;
  sv_conns : gmap Z conn
}.

Abbreviation svM := (st server).

(** ** One client at a time *)

Definition server_world (c : Client) (sv : server) : world :=
  MkWorld (sv_mem sv) c (sv_info sv) (sv_config sv) (sv_os sv) (sv_epoll sv).

Definition session_of (fd : Z) (cn : conn) (sv : server) : session :=
  MkSession (server_world (cn_client cn) sv) (cn_in cn) (cn_parser cn) (cn_ch cn) (cn_sock cn)
    (sv_backlog sv) (cn_client <$> delete fd (sv_conns sv)) true.

Definition with_conn_client (c : Client) (cn : conn) : conn :=
  MkConn c (cn_in cn) (cn_parser cn) (cn_ch cn) (cn_sock cn).

(** The server after a session: the globals, the clients of the others, and the
    served one unless it was freed. *)
Definition after_session (fd : Z) (s : session) (sv : server) : server :=
  let w := s_world s in
  let others := map_imap (λ r cn, Some (match s_peers s !! r with
                                        | Some c => with_conn_client c cn
                                        | None => cn
                                        end)) (delete fd (sv_conns sv)) in
  MkServer (w_mem w) (w_info w) (w_config w) (w_os w) (epoll_answers w) (s_backlog s)
    (if s_open s
     then <[fd := MkConn (w_client w) (s_in s) (s_parser s) (s_ch s) (s_sock s)]> others else others).

(** A freed client is not served: using its pointer is a fault. *)
Definition serve (fd : Z) (f : sessM unit) : svM unit := λ sv,
  match sv_conns sv !! fd with
  | None => Stop BadAccess
  | Some cn =>
      match f (session_of fd cn sv) with
      | Ok (_, s) => Ok (tt, after_session fd s sv)
      | Stop e => Stop e
      end
  end.

Definition client_type (fd : Z) : svM ClientType := λ sv,
  match sv_conns sv !! fd with
  | None => Stop BadAccess
  | Some cn => Ok (type (cn_client cn), sv)
  end.

(** ** Events *)

Definition EPOLLERR : Z := 8.
Definition EPOLLHUP : Z := 16.

(** What the calls for a new connection answer. *)
Record accept_os := AcceptOs {
  connect_fd : Z;
  connect_fcntl : Z * Z;
  connect_client : client_os;
  connect_memory : Client;
  connect_add_ok : bool;
  connect_sock : socket
}.

(** The listening socket, whose pointer is NULL, or a client. *)
Inductive epoll_event := NewConnection (os : accept_os) | Ready (fd events : Z).

Section events.
Context (max_alloc : Z) (region_ptr padding : bytes) (parse_fuel : nat).

(** After [create_client]: the fields the caller assigns, [create_command_handler(256, 10)],
    [parser_init] and the registration.  A client that could not be created is
    followed all the same. *)
Definition register (fd : Z) (created : option (Client * ring_buffer)) (add_ok : bool) (sock : socket)
    (init : Client → Client) (events : cmdM unit) : svM unit := λ sv,
  match created with
  | None => Stop BadAccess
  | Some (client, input) =>
      if negb add_ok then Stop ExitFailure
      else
        '(_, w) ← events (server_world (init client) sv);
        Ok (tt, MkServer (w_mem w) (w_info w) (w_config w) (w_os w) (epoll_answers w) (sv_backlog sv)
                  (<[fd := MkConn (w_client w) input parser_init (create_command_handler 256 10) sock]>
                     (sv_conns sv)))
  end.

Definition accept_client (os : accept_os) : svM unit :=
  if connect_fd os =? -1 then stop ExitFailure
  else
    _ ← lift (set_non_blocking (connect_fcntl os).1 (connect_fcntl os).2);
    '(client, _) ← lift (create_client (connect_client os) (connect_memory os) (connect_fd os));
    register (connect_fd os) client (connect_add_ok os) (connect_sock os)
      (with_type CLIENT_TYPE_REGULAR) client_enable_read_events.

Definition handle_input (fd : Z) : svM unit :=
  t ← client_type fd;
  match t with
  | CLIENT_TYPE_REGULAR => serve fd (process_client_input max_alloc region_ptr padding parse_fuel)
  | CLIENT_TYPE_MASTER => serve fd (replica_handle_master_data max_alloc region_ptr padding parse_fuel)
  | CLIENT_TYPE_REPLICA => mret tt
  end.

Definition handle_output (fd : Z) : svM unit :=
  t ← client_type fd;
  match t with
  | CLIENT_TYPE_REPLICA => serve fd (master_handle_replica_out region_ptr padding)
  | CLIENT_TYPE_MASTER => serve fd (replica_handle_master_data max_alloc region_ptr padding parse_fuel)
  | CLIENT_TYPE_REGULAR => serve fd (_ ← flush_client_output; mret tt)
  end.

Definition has (events flag : Z) : bool := negb (Z.land events flag =? 0).

(** [events & EPOLLIN | EPOLLOUT] is [(events & EPOLLIN) | EPOLLOUT], and the
    test for a hang-up likewise. *)
Definition handle_event (ev : epoll_event) : svM unit :=
  match ev with
  | NewConnection os => accept_client os
  | Ready fd events =>
      if negb (Z.lor (Z.land events EPOLLIN) EPOLLOUT =? 0) then
        _ ← when (has events EPOLLIN) (handle_input fd);
        when (has events EPOLLOUT) (handle_output fd)
      else if negb (Z.lor (Z.land events EPOLLHUP) EPOLLERR =? 0) then
        serve fd handle_client_disconnection
      else mret tt
  end.

(** What [epoll_wait] answers, and whether a signal has asked to stop by the end
    of the turn. *)
Inductive wait_answer := Waited (evs : list epoll_event) (stop_server : bool) | WaitFailed (interrupted stop_server : bool).

(** The events of one answer.  An event carries the pointer its client was
    registered with: for a descriptor that has been accepted in the same turn, that
    is the pointer of an earlier client, which has been freed. *)
Fixpoint handle_events (fresh : list Z) (evs : list epoll_event) : svM unit :=
  match evs with
  | [] => mret tt
  | NewConnection os :: evs' =>
      _ ← handle_event (NewConnection os);
      handle_events (connect_fd os :: fresh) evs'
  | Ready fd events :: evs' =>
      if bool_decide (fd ∈ fresh) then stop BadAccess
      else
        _ ← handle_event (Ready fd events);
        handle_events fresh evs'
  end.

(** The loop; whether it was left. *)
Fixpoint event_loop (waits : list wait_answer) : svM bool :=
  match waits with
  | [] => mret false
  | Waited evs stop_server :: waits' =>
      _ ← handle_events [] evs;
      if stop_server then mret true else event_loop waits'
  | WaitFailed interrupted stop_server :: waits' =>
      if negb interrupted then stop ExitFailure
      else if stop_server then mret true else event_loop waits'
  end.

(** ** Shutdown *)

(** The backlog that could not be created is NULL. *)
Definition backlog_pointer (rb : ring_buffer) : option ring_buffer :=
  match region rb with Some _ => Some rb | None => None end.

(** The keyspace is saved and released, then the handler and the backlog; what
    these two release. *)
Definition shutdown : svM (list os_release) := λ sv,
  '(_, os) ← rdb_save_data_to_file (db (sv_mem sv)) (dir (sv_config sv)) (dbfilename (sv_config sv)) (sv_os sv);
  '(_, m) ← redis_db_destroy (sv_mem sv);
  Ok (destroy_handler ++ (rb_destroy (backlog_pointer (sv_backlog sv))).2,
      MkServer m (sv_info sv) (sv_config sv) os (sv_epoll sv) (sv_backlog sv) (sv_conns sv)).

(** ** The command line *)

Definition MAX_PATH_LENGTH : Z := 256.
Definition DEFAULT_PORT : Z := 6379.
Definition REPL_BACKLOG_SIZE : Z := 1048576.

(** [strcpy] into an array of [n] bytes. *)
Definition strcpy (n : Z) (src : bytes) : res bytes :=
  if zlen src <? n then Ok src else Stop BadAccess.

Record arguments := MkArguments { op_config : server_config_t; op_role : server_role_t; op_port : Z }.

Definition default_options : arguments :=
  MkArguments (MkConfig (lit "/tmp/redis-data") (lit "dump.rdb") [] [] []) ROLE_MASTER DEFAULT_PORT.

Fixpoint parse_args (argv : list bytes) (o : arguments) : res arguments :=
  let cfg := op_config o in
  match argv with
  | [] => Ok o
  | arg :: rest =>
      if streq arg "--dir" then
        match rest with
        | v :: rest' =>
            parse_args rest' (MkArguments (MkConfig (cstr (snprintf MAX_PATH_LENGTH v)) (dbfilename cfg) (port cfg)
                                           (master_host cfg) (master_port cfg)) (op_role o) (op_port o))
        | [] => Ok o
        end
      else if streq arg "--dbfilename" then
        match rest with
        | v :: rest' =>
            parse_args rest' (MkArguments (MkConfig (dir cfg) (cstr (snprintf MAX_PATH_LENGTH v)) (port cfg)
                                           (master_host cfg) (master_port cfg)) (op_role o) (op_port o))
        | [] => Ok o
        end
      else if streq arg "--port" then
        match rest with
        | v :: rest' =>
            p ← strcpy 6 v;
            parse_args rest' (MkArguments (MkConfig (dir cfg) (dbfilename cfg) p (master_host cfg) (master_port cfg))
                                (op_role o) (s32 (st_value (strtol v))))
        | [] => Ok o
        end
      else if streq arg "--replicaof" then
        match rest with
        | h :: p :: rest' =>
            host ← strcpy 128 h;
            mport ← strcpy 6 p;
            parse_args rest' (MkArguments (MkConfig (dir cfg) (dbfilename cfg) (port cfg) host mport)
                                ROLE_SLAVE (op_port o))
        | _ => parse_args rest o
        end
      else parse_args rest o
  end.

(** ** Start-up *)

(** What the calls answer: [resolved] is the answer of [getaddrinfo], for each
    address the descriptor of [socket] and whether [connect] succeeds; [list_allocs]
    and [table_allocs] are the outcomes of the allocations of lists and their nodes
    and of the arrays of the table while the server runs (then success). *)
Record start_os := StartOs {
  backlog_os : rb_os;
  epoll_create_rc : Z;
  resolved : option (list (Z * bool));
  master_fcntl : Z * Z;
  master_client : client_os;
  master_memory : Client;
  master_add_ok : bool;
  master_sock : socket;
  listen_fd : Z;
  setsockopt_rc : Z;
  bind_rc : Z;
  listen_rc : Z;
  listen_fcntl : Z * Z;
  listen_add_ok : bool;
  epoll_mods : list bool;
  start_files : os_files;
  list_allocs : list bool;
  table_allocs : list (bool * bool * bool);
  wall_clock : nat → Z * Z
}.

(** The loop over the addresses: the first that connects. *)
Fixpoint connect_master (addrs : list (Z * bool)) : res Z :=
  match addrs with
  | [] => Stop ExitFailure
  | (fd, connected) :: addrs' =>
      if fd =? -1 then Stop ExitFailure
      else if (connected : bool) then Ok fd else connect_master addrs'
  end.

Definition info_init (role : server_role_t) : server_info_t :=
  MkInfo role (lit "8371b4fb1155b71f4a04d3e1bc3e18c4a990aeeb") 0 0 (replicate 16 0) 0.

(** The pointer to a backlog that could not be created stays NULL. *)
Definition NULL_BUFFER : ring_buffer := RingBuffer 0 0 None 0 (-1).

(** The link to the master, in its first state. *)
Definition connect_to_master (os : start_os) : svM unit :=
  addrs ← lift (of_option ExitFailure (resolved os));
  fd ← lift (connect_master addrs);
  '(client, _) ← lift (create_client (master_client os) (master_memory os) fd);
  _ ← lift (set_non_blocking (master_fcntl os).1 (master_fcntl os).2);
  register fd client (master_add_ok os) (master_sock os)
    (λ c, with_repl_client_state REPL_STATE_CONNECTING (with_type CLIENT_TYPE_MASTER c))
    client_enable_write_events.

(** The snapshot of the last run is loaded by a replica only. *)
Definition load_at_start : svM unit := λ sv,
  if bool_decide (role (sv_info sv) = ROLE_SLAVE) then
    '(_, m) ← rdb_load_data_from_file (sv_os sv) (dir (sv_config sv)) (dbfilename (sv_config sv)) (sv_mem sv);
    Ok (tt, MkServer m (sv_info sv) (sv_config sv) (sv_os sv) (sv_epoll sv) (sv_backlog sv) (sv_conns sv))
  else Ok (tt, sv).

Definition listen_socket (os : start_os) : res unit :=
  if listen_fd os =? -1 then Stop ExitFailure
  else if negb (setsockopt_rc os =? 0) then Stop ExitFailure
  else if bind_rc os =? -1 then Stop ExitFailure
  else if listen_rc os =? -1 then Stop ExitFailure
  else
    _ ← set_non_blocking (listen_fcntl os).1 (listen_fcntl os).2;
    if negb (listen_add_ok os) then Stop ExitFailure else Ok tt.

(** The memory behind [redis_db_create()]. *)
Definition mem_start (os : start_os) : mem :=
  MkMem redis_db_create (MkHeap ∅ ∅ 1 (list_allocs os)) (table_allocs os) (wall_clock os) 0.

(** Everything before the event loop. *)
Definition set_up (os : start_os) (argv : list bytes) : res server :=
  '(_, backlog, _) ← rb_create (backlog_os os) REPL_BACKLOG_SIZE;
  if epoll_create_rc os =? -1 then Stop ExitFailure
  else
    o ← parse_args argv default_options;
    let sv := MkServer (mem_start os) (info_init (op_role o)) (op_config o) (start_files os)
                (epoll_mods os) (default NULL_BUFFER backlog) ∅ in
    '(_, sv) ← (if bool_decide (op_role o = ROLE_SLAVE) then connect_to_master os sv else Ok (tt, sv));
    '(_, sv) ← load_at_start sv;
    _ ← listen_socket os;
    Ok sv.

(** [start_server(argc, argv)], [argv] without the program's name: the server
    still waiting, or stopped with what it released. *)
Definition start_server (os : start_os) (argv : list bytes) (waits : list wait_answer) :
    res (option (list os_release) * server) :=
  sv ← set_up os argv;
  '(stopped, sv) ← event_loop waits sv;
  if (stopped : bool) then '(rel, sv) ← shutdown sv; Ok (Some rel, sv) else Ok (None, sv).

(** [main]. *)
Definition main := start_server.
End events.
