(* ===== verification/ServerSpec.v ===== *)
(** * The server: proofs

    Which events are handled and which are lost, a client from its connection to
    its replies, and start-up and shutdown with the snapshot file. *)

From S2P Require Import Prelude CLib RingBuffer Util Database Rdb RespWriter ServerState.
From S2P Require Import Commands CommandSpec Reference Halting RespParser CommandHandler Wire Client ClientAlloc.
From S2P Require Import Replication ReplicationSpec Sync Server.

(** ** The connections around a session *)

Lemma with_same_client cn : with_conn_client (cn_client cn) cn = cn.
Proof. by destruct cn. Qed.

(** What a session leaves of the connection of another client. *)
Lemma after_session_peer fd s sv r :
  r ≠ fd → sv_conns (after_session fd s sv) !! r =
    (λ cn, from_option (λ c, with_conn_client c cn) cn (s_peers s !! r)) <$> sv_conns sv !! r.
Proof.
  intros Hne. unfold after_session. cbn [sv_conns].
  assert (∀ o : gmap Z conn, (if s_open s then <[fd := MkConn (w_client (s_world s)) (s_in s) (s_parser s) (s_ch s) (s_sock s)]> o else o) !! r = o !! r) as ->
    by (intros o; destruct (s_open s); [by rewrite lookup_insert_ne|done]).
  rewrite map_lookup_imap, lookup_delete_ne by done. destruct (sv_conns sv !! r) as [cn|]; [|done].
  cbn. by destruct (s_peers s !! r).
Qed.

(** A session that leaves another client alone leaves its connection alone. *)
Lemma after_session_others fd s sv r :
  s_peers s !! r = (cn_client <$> delete fd (sv_conns sv)) !! r → r ≠ fd →
  sv_conns (after_session fd s sv) !! r = sv_conns sv !! r.
Proof.
  intros Hp Hne. rewrite after_session_peer, Hp, lookup_fmap, lookup_delete_ne by done.
  destruct (sv_conns sv !! r) as [cn|]; [|done]. cbn. by rewrite with_same_client.
Qed.

Lemma after_session_self fd s sv :
  s_open s = true →
  sv_conns (after_session fd s sv) !! fd =
    Some (MkConn (w_client (s_world s)) (s_in s) (s_parser s) (s_ch s) (s_sock s)).
Proof. intros Ho. unfold after_session. cbn [sv_conns]. by rewrite Ho, lookup_insert_eq. Qed.

(** A session that changes nothing. *)
Lemma after_session_same fd cn sv :
  sv_conns sv !! fd = Some cn → after_session fd (session_of fd cn sv) sv = sv.
Proof.
  intros Hcn. destruct sv as [m i cfg os ep bl conns]. cbn [sv_conns] in Hcn. unfold after_session. cbn. f_equal.
  apply map_eq. intros r. destruct (decide (r = fd)) as [->|Hne].
  - rewrite lookup_insert_eq, Hcn. by destruct cn.
  - rewrite lookup_insert_ne, map_lookup_imap, lookup_fmap, lookup_delete_ne by done.
    destruct (conns !! r) as [cn'|]; [|done]. cbn. by rewrite with_same_client.
Qed.

Lemma after_session_freed fd s sv :
  s_open s = false → sv_conns (after_session fd s sv) !! fd = None.
Proof.
  intros Ho. unfold after_session. cbn [sv_conns]. rewrite Ho, map_lookup_imap, lookup_delete_eq. done.
Qed.

(** ** Events *)

Section events.
Context (max_alloc : Z) (region_ptr padding : bytes) (pf : nat).
Abbreviation handle_event := (handle_event max_alloc region_ptr padding pf).
Abbreviation event_loop := (event_loop max_alloc region_ptr padding pf).

(** The branch that tests for input or room to write is always taken. *)
Lemma handle_ready fd events sv :
  handle_event (Ready fd events) sv =
    (_ ← when (has events EPOLLIN) (handle_input max_alloc region_ptr padding pf fd);
     when (has events EPOLLOUT) (handle_output max_alloc region_ptr padding pf fd)) sv.
Proof.
  unfold handle_event. cbn [Server.handle_event]. rewrite (proj2 (Z.eqb_neq _ _)); [done|].
  intros H. apply Z.lor_eq_0_iff in H as [_ H]. done.
Qed.

(** C34: a hang-up or an error of a connection is never handled by itself: without
    room to write, and without input or on the connection of a replica, an
    event changes nothing, so that a client that has gone stays connected and
    keeps its descriptor and memory; in particular the master never reads what
    its replicas send. *)
Theorem hang_up_never_handled fd events sv cn :
  sv_conns sv !! fd = Some cn → has events EPOLLOUT = false →
  has events EPOLLIN = false ∨ type (cn_client cn) = CLIENT_TYPE_REPLICA →
  handle_event (Ready fd events) sv = Ok (tt, sv).
Proof.
  intros Hcn Hout Hin. rewrite handle_ready, Hout. destruct (has events EPOLLIN); [|done].
  destruct Hin as [|Ht]; [done|]. cbn [when]. unfold handle_input.
  erewrite st_bind_ok; [reflexivity|]. erewrite st_bind_ok by (unfold client_type; rewrite Hcn; reflexivity).
  cbv beta. by rewrite Ht.
Qed.

(** The end of the stream frees the client. *)
Lemma closed_frees s rs :
  rb_wf (s_in s) → zlen (contents (s_in s)) < size (s_in s) → s_open s = true →
  type (cl s) ≠ CLIENT_TYPE_REPLICA → read_answers (s_sock s) = Closed :: rs →
  ∃ s', process_client_input max_alloc region_ptr padding pf s = Ok (tt, s') ∧ s_open s' = false.
Proof.
  intros Hwf Hroom Ho Ht Hra. unfold process_client_input. cbn [process_loop].
  erewrite st_bind_ok by reflexivity. cbv beta.
  erewrite st_bind_ok by (unfold lift; rewrite rb_writable_wf by done; reflexivity). cbv beta iota.
  rewrite (proj2 (Z.eqb_neq _ _)) by lia.
  erewrite st_bind_ok by (unfold sock_read; rewrite Hra; reflexivity). cbv beta iota.
  unfold handle_client_disconnection.
  erewrite st_bind_ok by (unfold alive; cbn [s_open put_sock]; rewrite Ho; reflexivity). cbv beta.
  erewrite st_bind_ok by reflexivity. cbv beta. unfold cl in Ht. cbn [s_world put_sock].
  rewrite bool_decide_eq_false_2 by done. erewrite st_bind_ok by reflexivity. eexists. split; reflexivity.
Qed.

(** C33: when the master closes the link of a replica that is READY, the replica
    uses freed memory: the end of the stream is both input and room to write,
    the first handler frees the client and the second is run on it. *)
Theorem master_close_use_after_free fd events sv cn rs :
  sv_conns sv !! fd = Some cn → type (cn_client cn) = CLIENT_TYPE_MASTER →
  repl_client_state (cn_client cn) = REPL_STATE_READY →
  rb_wf (cn_in cn) → zlen (contents (cn_in cn)) < size (cn_in cn) →
  read_answers (cn_sock cn) = Closed :: rs →
  has events EPOLLIN = true → has events EPOLLOUT = true →
  handle_event (Ready fd events) sv = Stop BadAccess.
Proof.
  intros Hcn Ht Hst Hwf Hroom Hra Hin Hout. rewrite handle_ready, Hin, Hout. cbn [when].
  destruct (closed_frees (session_of fd cn sv) rs) as (s' & E & Hcl); [done..|cbn; by rewrite Ht|done|].
  erewrite (st_bind_ok _ _ _ tt (after_session fd s' sv)).
  - cbv beta. unfold handle_output. erewrite st_bind_stop; [done|]. unfold client_type.
    by rewrite after_session_freed.
  - unfold handle_input. erewrite st_bind_ok by (unfold client_type; rewrite Hcn; reflexivity). cbv beta. rewrite Ht.
    unfold serve. rewrite Hcn. unfold replica_handle_master_data. erewrite st_bind_ok by reflexivity. cbv beta.
    cbn [id]. change (cl (session_of fd cn sv)) with (cn_client cn). by rewrite Hst, E.
Qed.

(** ** A client from its connection to its replies *)

(** The operating system and the allocator give what a client needs. *)
Definition client_granted (os : client_os) : Prop :=
  0 < page_size (input_os os) ∧ 0 < page_size (output_os os) ∧
  client_malloc_ok os && rb_created (input_os os) RING_BUFFER_SIZE &&
    rb_created (output_os os) RING_BUFFER_SIZE && parser_malloc_ok os = true.

Definition fcntl_granted (a : Z * Z) : Prop := a.1 ≠ -1 ∧ a.2 ≠ -1.

Lemma set_non_blocking_granted a : fcntl_granted a → set_non_blocking a.1 a.2 = Ok (Z.lor a.1 O_NONBLOCK).
Proof. intros [H1 H2]. unfold set_non_blocking. by rewrite !(proj2 (Z.eqb_neq _ _)) by done. Qed.

Record connection_granted (os : accept_os) : Prop := {
  cg_fd : connect_fd os ≠ -1;
  cg_fcntl : fcntl_granted (connect_fcntl os);
  cg_client : client_granted (connect_client os);
  cg_add : connect_add_ok os = true
}.

(** The connection of a client created as [c]. *)
Definition new_conn (c : Client) (input : ring_buffer) (k : socket) : conn :=
  MkConn c input parser_init (create_command_handler 256 10) k.

Lemma accept_ok os sv :
  connection_granted os → sv_epoll sv = [] →
  ∃ c input, fresh_client c input (connect_fd os) ∧
    handle_event (NewConnection os) sv =
      Ok (tt, MkServer (sv_mem sv) (sv_info sv) (sv_config sv) (sv_os sv) [] (sv_backlog sv)
        (<[connect_fd os := new_conn (with_epoll EPOLLIN (with_type CLIENT_TYPE_REGULAR c)) input (connect_sock os)]>
           (sv_conns sv))).
Proof.
  intros [Hfd Hnb (Hp1 & Hp2 & Hall) Hadd] Hep.
  destruct (create_client_ok _ (connect_memory os) (connect_fd os) Hp1 Hp2 Hall) as (c & input & E & Hf & _).
  exists c, input. split; [done|]. unfold handle_event. cbn [Server.handle_event]. unfold accept_client.
  rewrite (proj2 (Z.eqb_neq _ _)) by done.
  erewrite st_bind_ok by (unfold lift; rewrite set_non_blocking_granted by done; reflexivity). cbv beta.
  erewrite st_bind_ok by (unfold lift; rewrite E; reflexivity). cbv beta iota. unfold register. rewrite Hadd. cbn [negb].
  unfold client_enable_read_events, epoll_mod. cbn [epoll_answers server_world w_client]. rewrite Hep. cbn.
  by rewrite (fresh_events _ _ _ Hf), Hep.
Qed.

End events.

(** ** Start-up and shutdown *)

Definition files_granted (os : os_files) : Prop :=
  mkdir_ok os = true ∧ fopen_w_ok os = true ∧ path_malloc_ok os = true.

(** Loading the file into a new database gives [A]. *)
Definition file_holds (os : os_files) (cfg : server_config_t) (A : adb) : Prop :=
  ∀ m0, db_rep m0 ∅ →
    ∃ m, rdb_load_data_from_file os (dir cfg) (dbfilename cfg) m0 = Ok (0, m) ∧ db_rep m A.

Lemma shutdown_holds_from m sv A :
  db_rep m A → db (sv_mem sv) = db m → (∃ r, redis_db_destroy (sv_mem sv) = Ok r) → storable A →
  files_granted (sv_os sv) →
  ∃ released sv', shutdown sv = Ok (released, sv') ∧ file_holds (sv_os sv') (sv_config sv) (reloaded <$> A) ∧
    sv_config sv' = sv_config sv.
Proof.
  intros Hdb Em [[blocks m1] Hd] Hst (Hmk & Hfo & Hpm).
  destruct (image_loads _ _ _ Hdb (mem_init_rep (λ _, (0, 0))) Hst) as (F & _ & Himg & _).
  destruct (construct_file_path_some (dir (sv_config sv)) (dbfilename (sv_config sv))) as [path Hpath].
  pose proof (save_file _ _ _ _ F path Hmk Hfo Hpm Himg Hpath) as Hsave.
  unfold shutdown. rewrite Em, Hsave. cbn [mbind res_bind]. rewrite Hd. cbn [mbind res_bind].
  do 2 eexists. split; [done|]. split; [|done]. intros m0 Hm0. cbn [sv_os].
  destruct (image_loads _ _ _ Hdb Hm0 Hst) as (F' & m' & Himg' & _ & Hr & Hload).
  assert (F' = F) as -> by congruence. exists m'. split; [|done].
  apply (Hload _ _ _ path); cbn; [by rewrite Hpm|apply lookup_insert_eq].
Qed.

Lemma shutdown_holds sv A :
  db_rep (sv_mem sv) A → storable A → files_granted (sv_os sv) →
  ∃ released sv', shutdown sv = Ok (released, sv') ∧ file_holds (sv_os sv') (sv_config sv) (reloaded <$> A) ∧
    sv_config sv' = sv_config sv.
Proof.
  intros Hdb. apply (shutdown_holds_from (sv_mem sv)); [done|done|].
  destruct Hdb as (M & P & Ho). destruct (destroy_own _ M P A Ho) as (h' & Hd & _). by eexists.
Qed.


(** The program gets past its preparations. *)
Record start_granted (os : start_os) (argv : list bytes) (o : arguments) : Prop := {
  sg_args : parse_args argv default_options = Ok o;
  sg_backlog : 0 < page_size (backlog_os os);
  sg_epoll : epoll_create_rc os ≠ -1;
  sg_listen : listen_socket os = Ok tt
}.

Lemma backlog_returns os : 0 < page_size os → ∃ rc b rel, rb_create os REPL_BACKLOG_SIZE = Ok (rc, b, rel).
Proof.
  intros Hp. pose proof (rb_create_total os REPL_BACKLOG_SIZE Hp ltac:(done)) as H.
  destruct (rb_created os REPL_BACKLOG_SIZE); [destruct H as (rb & -> & _)|rewrite H]; eauto.
Qed.

Lemma master_set_up os argv o :
  start_granted os argv o → op_role o = ROLE_MASTER →
  ∃ backlog, set_up os argv = Ok (MkServer (mem_start os) (info_init ROLE_MASTER) (op_config o)
    (start_files os) (epoll_mods os) backlog ∅).
Proof.
  intros [Ha Hp He Hl] Hrole. destruct (backlog_returns _ Hp) as (rc & b & rel & Hb). eexists.
  unfold set_up. rewrite Hb. cbn [mbind res_bind]. rewrite (proj2 (Z.eqb_neq _ _)) by done.
  rewrite Ha. cbn [mbind res_bind]. rewrite Hrole. cbn [bool_decide decide_rel]. cbn. by rewrite Hl.
Qed.

(** C38: a master never loads its snapshot (the test of the role is the reverse
    of what its comment says), and it saves when it stops: whatever keyspace the
    file held when the program was started, it holds the empty one after the
    program was started and stopped. *)
Theorem master_restart_discards_snapshot max_alloc region_ptr padding pf os argv o :
  start_granted os argv o → op_role o = ROLE_MASTER → files_granted (start_files os) →
  ∃ released sv', start_server max_alloc region_ptr padding pf os argv [Waited [] true] = Ok (Some released, sv') ∧
    file_holds (sv_os sv') (op_config o) ∅.
Proof.
  intros Hsg Hrole Hf. destruct (master_set_up os argv o Hsg Hrole) as (bl & E).
  match type of E with _ = Ok ?sv0 => set (sv := sv0) in E end.
  destruct (shutdown_holds_from (mem_init (wall_clock os)) sv ∅) as (rel & sv' & Es & Hh & _).
  - apply mem_init_rep.
  - done.
  - by eexists.
  - split; [by rewrite map_size_empty; lia|]. intros k a Hk. by rewrite lookup_empty in Hk.
  - done.
  - exists rel, sv'. split; [|by rewrite fmap_empty in Hh].
    unfold start_server. rewrite E. cbn [mbind res_bind].
    change (event_loop _ _ _ _ _ sv) with (Ok (true, sv)). cbn [mbind res_bind]. by rewrite Es.
Qed.

(** The master can be reached on [fd], and nothing has been exchanged with it. *)
Record link_granted (os : start_os) (fd : Z) : Prop := {
  lg_address : ∃ addrs, resolved os = Some addrs ∧ connect_master addrs = Ok fd;
  lg_fcntl : fcntl_granted (master_fcntl os);
  lg_client : client_granted (master_client os);
  lg_add : master_add_ok os = true;
  lg_events : epoll_mods os = [];
  lg_sock : master_sock os = MkSocket [] [] [] []
}.

Lemma connect_ok os fd sv :
  link_granted os fd → sv_epoll sv = [] →
  ∃ c input, fresh_client c input fd ∧
    connect_to_master os sv = Ok (tt, MkServer (sv_mem sv) (sv_info sv) (sv_config sv) (sv_os sv) [] (sv_backlog sv)
      (<[fd := new_conn (with_epoll EPOLLOUT
           (with_repl_client_state REPL_STATE_CONNECTING (with_type CLIENT_TYPE_MASTER c))) input (MkSocket [] [] [] [])]>
         (sv_conns sv))).
Proof.
  intros [(addrs & Hr & Hc) Hnb (Hp1 & Hp2 & Hall) Hadd _ Hsock] Hep.
  destruct (create_client_ok _ (master_memory os) fd Hp1 Hp2 Hall) as (c & input & E & Hf & _).
  exists c, input. split; [done|]. unfold connect_to_master.
  erewrite st_bind_ok by (unfold lift; rewrite Hr; reflexivity). cbv beta.
  erewrite st_bind_ok by (unfold lift; rewrite Hc; reflexivity). cbv beta.
  erewrite st_bind_ok by (unfold lift; rewrite E; reflexivity). cbv beta iota.
  erewrite st_bind_ok by (unfold lift; rewrite set_non_blocking_granted by done; reflexivity). cbv beta.
  unfold register. rewrite Hadd. cbn [negb].
  unfold client_enable_write_events, epoll_mod. cbn [epoll_answers server_world w_client]. rewrite Hep. cbn.
  by rewrite (fresh_events _ _ _ Hf), Hep, Hsock.
Qed.

(** C27: a server started with a master's address is linked to it when its event
    loop begins: the link is its only connection, at the start of the handshake,
    with empty buffers and its write events on, which makes it send PING first;
    unlike a master it has loaded its own snapshot. *)
Theorem replica_starts_linked os argv o fd rc m :
  start_granted os argv o → op_role o = ROLE_SLAVE → link_granted os fd →
  rdb_load_data_from_file (start_files os) (dir (op_config o)) (dbfilename (op_config o))
    (mem_start os) = Ok (rc, m) →
  ∃ sv cn, set_up os argv = Ok sv ∧ sv_conns sv = {[fd := cn]} ∧ sv_mem sv = m ∧ sv_config sv = op_config o ∧
    epoll_events (cn_client cn) = EPOLLOUT ∧
    link [] (2 ^ 62) (2 ^ 62) REPL_STATE_CONNECTING (session_of fd cn sv).
Proof.
  intros [Ha Hp He Hl] Hrole Hlg Hload. destruct (backlog_returns _ Hp) as (brc & b & rel & Hb).
  set (sv0 := MkServer (mem_start os) (info_init ROLE_SLAVE) (op_config o) (start_files os)
                (epoll_mods os) (default NULL_BUFFER b) ∅).
  destruct (connect_ok os fd sv0 Hlg (lg_events _ _ Hlg)) as (c & input & [_ Hin Hout _ Htr Hfl] & E).
  do 2 eexists. split.
  - unfold set_up. rewrite Hb. cbn [mbind res_bind]. rewrite (proj2 (Z.eqb_neq _ _)) by done.
    rewrite Ha. cbn [mbind res_bind]. rewrite Hrole. rewrite bool_decide_eq_true_2 by done. fold sv0. rewrite E.
    unfold load_at_start. cbn [mbind res_bind sv_info sv0 info_init role sv_os sv_config sv_mem].
    rewrite bool_decide_eq_true_2, Hload by done. cbn [mbind res_bind]. rewrite Hl. reflexivity.
  - cbn [sv_conns sv_mem sv_config sv0]. split_and!; [done|done|done|done|].
    destruct Hin as (? & ? & ? & Hxi). destruct Hout as (? & ? & ? & Hxo).
    destruct Htr as (_ & ? & ? & ? & _). destruct Hfl. constructor; cbn; try done; unfold out; cbn;
      split_and!; try done; [rewrite Hxi|rewrite Hxo]; lia.
Qed.

(** ** Witnesses *)

Definition sample_rb (fd : Z) : ring_buffer := RingBuffer 0 0 (Some (replicate 64 NUL)) 64 fd.
Definition sample_client (t : ClientType) (st : ReplicaClientState) : Client :=
  with_type t (with_repl_client_state st (init_client client_memory 9 (sample_rb 5))).
Definition sample_files : os_files := OsFiles ∅ true true true.
Definition sample_server (conns : gmap Z conn) : server :=
  MkServer (mem_init tick_clock) (info_init ROLE_MASTER) (op_config default_options) sample_files [] (sample_rb 4) conns.

(** A replica hangs up. *)
Lemma hang_up_never_handled_witness :
  let sv := sample_server {[9 := new_conn (sample_client CLIENT_TYPE_REPLICA REPL_STATE_NONE) (sample_rb 6)
                                  (MkSocket (lit "x") [Closed] [] [])]} in
  handle_event 1048576 [] [] 40 (Ready 9 (EPOLLHUP + EPOLLERR + EPOLLIN)) sv = Ok (tt, sv).
Proof.
  intros sv. eapply (hang_up_never_handled 1048576 [] [] 40 9 _ sv); [reflexivity|reflexivity|right; reflexivity].
Defined.

Lemma master_close_use_after_free_witness :
  handle_event 1048576 [] [] 40 (Ready 9 (EPOLLIN + EPOLLOUT))
    (sample_server {[9 := new_conn (sample_client CLIENT_TYPE_MASTER REPL_STATE_READY) (sample_rb 6)
                           (MkSocket [] [Closed] [] [])]}) = Stop BadAccess.
Proof.
  eapply (master_close_use_after_free 1048576 [] [] 40 9); try reflexivity.
  apply (rb_fresh_wf 64 6); [lia|discriminate].
Defined.

Definition sample_accept (data : bytes) : accept_os :=
  AcceptOs 9 (2, 0) (ClientOs true (rb_os_good 10) (rb_os_good 11) true) client_memory true
    (MkSocket data [Gives 4096] [] []).

Lemma client_granted_sample a b : (a =? -1) = false → (b =? -1) = false →
  client_granted (ClientOs true (rb_os_good a) (rb_os_good b) true).
Proof.
  intros Ha Hb. split; [done|]. split; [done|]. cbn. unfold rb_created, got_map, got_fd, got_struct. cbn. by rewrite Ha, Hb.
Qed.

Definition sample_start (files : os_files) : start_os :=
  StartOs (rb_os_good 3) 4 (Some [(5, false); (6, true)]) (2, 0) (ClientOs true (rb_os_good 7) (rb_os_good 8) true)
    client_memory true (MkSocket [] [] [] []) 9 0 0 0 (2, 0) true [] files [] [] tick_clock.

Lemma sample_granted files argv o :
  parse_args argv default_options = Ok o → start_granted (sample_start files) argv o.
Proof. intros H. constructor; [exact H|done|done|reflexivity]. Qed.

(** A replica whose last snapshot has a key is started and stopped. *)
Definition kept : adb := {[lit "k" := (AStr (lit "v"), 0)]}.
Definition kept_image : bytes := match rdb_image (db sample_mem) with Ok F => F | Stop _ => [] end.
Definition kept_files : os_files := OsFiles {[lit "/tmp/redis-data/dump.rdb" := kept_image]} true true true.

Definition replica_args : list bytes := [lit "--replicaof"; lit "localhost"; lit "6379"].
Definition kept_server : server :=
  match set_up (sample_start kept_files) replica_args with Ok sv => sv | Stop _ => sample_server ∅ end.

Lemma kept_storable : storable kept.
Proof.
  assert (rdb_string_ok (lit "k") ∧ rdb_string_ok (lit "v")) as [Hk Hv]
    by (split; (split; [by apply (bool_decide_unpack _)|split; [vm_compute; reflexivity|done]])).
  unfold kept. split; [rewrite map_size_singleton; lia|]. intros k a [<- <-]%lookup_singleton_Some.
  split; [exact Hk|]. split; [reflexivity|]. by exists (lit "v").
Qed.

Lemma kept_server_rep : db_rep (sv_mem kept_server) kept.
Proof.
  destruct (image_loads sample_mem kept (mem_init tick_clock) sample_mem_rep (mem_init_rep _) kept_storable)
    as (F & m' & Himg & _ & Hr & Hload).
  assert (kept_image = F) as <- by (unfold kept_image; by rewrite Himg).
  specialize (Hload kept_files (lit "/tmp/redis-data") (lit "dump.rdb") (lit "/tmp/redis-data/dump.rdb") eq_refl eq_refl).
  assert (match rdb_load_data_from_file kept_files (lit "/tmp/redis-data") (lit "dump.rdb") (mem_init tick_clock) with
          | Ok (_, m) => m = sv_mem kept_server
          | Stop _ => False
          end) as Hm by (vm_compute; reflexivity).
  rewrite Hload in Hm. rewrite <- Hm.
  replace kept with (reloaded <$> kept); [exact Hr|]. unfold kept. by rewrite map_fmap_singleton.
Qed.

Lemma kept_set_up : set_up (sample_start kept_files) replica_args = Ok kept_server.
Proof.
  assert (match set_up (sample_start kept_files) replica_args with Ok _ => true | Stop _ => false end = true) as H
    by (vm_compute; reflexivity).
  unfold kept_server. by destruct (set_up (sample_start kept_files) replica_args).
Qed.


Definition old_files : os_files := OsFiles {[lit "/tmp/redis-data/dump.rdb" := lit "REDIS0003"]} true true true.

Lemma master_restart_discards_snapshot_witness :
  ∃ released sv', start_server 1048576 [] [] 40 (sample_start old_files) [lit "--port"; lit "7000"] [Waited [] true] =
      Ok (Some released, sv') ∧ file_holds (sv_os sv') (MkConfig (lit "/tmp/redis-data") (lit "dump.rdb") (lit "7000") [] []) ∅.
Proof.
  apply (master_restart_discards_snapshot 1048576 [] [] 40 (sample_start old_files) [lit "--port"; lit "7000"]
    (MkArguments (MkConfig (lit "/tmp/redis-data") (lit "dump.rdb") (lit "7000") [] []) ROLE_MASTER 7000)).
  - apply sample_granted. vm_compute. reflexivity.
  - reflexivity.
  - split; [|split]; reflexivity.
Defined.

Lemma replica_starts_linked_witness :
  ∃ sv cn, set_up (sample_start sample_files) [lit "--replicaof"; lit "localhost"; lit "6379"] = Ok sv ∧
    sv_conns sv = {[6 := cn]} ∧ link [] (2 ^ 62) (2 ^ 62) REPL_STATE_CONNECTING (session_of 6 cn sv).
Proof.
  destruct (replica_starts_linked (sample_start sample_files) [lit "--replicaof"; lit "localhost"; lit "6379"]
    (MkArguments (MkConfig (lit "/tmp/redis-data") (lit "dump.rdb") [] (lit "localhost") (lit "6379")) ROLE_SLAVE 6379)
    6 (-1) (mem_init tick_clock)) as (sv & cn & E & Hc & _ & _ & _ & Hl).
  - apply sample_granted. vm_compute. reflexivity.
  - reflexivity.
  - constructor; [eexists; split; reflexivity|split; discriminate|apply client_granted_sample; reflexivity|reflexivity..].
  - reflexivity.
  - exists sv, cn. split; [exact E|]. split; [exact Hc|exact Hl].
Defined.
