(* ===== verification/Acts.v ===== *)
(** * What clients and replicas do to a server

    The vocabulary of [Clients] and [Replicas]: connections that wait for a request
    and replicas with what is queued for them, the acts of clients and replicas, and
    the reference that says what each act answers: a keyspace and one queue of bytes
    for every replica. *)

From S2P Require Import Prelude CLib RingBuffer Util Database Rdb RespWriter ServerState.
From S2P Require Import Commands CommandSpec Reference RespParser CommandHandler Wire Client ClientAlloc.
From S2P Require Import Propagation Replication Server ServerSpec.

Section acts.
Context (max_alloc : Z) (pf : nat).

(** ** The connections *)

(** A counter that [k] more requests do not exhaust. *)
Definition lasts (k x : Z) : Prop := x + k * RING_BUFFER_SIZE < 2 ^ 64.

(** A client, or the master of a replica that has loaded its snapshot. *)
Definition sends_requests (c : Client) : Prop :=
  type c = CLIENT_TYPE_REGULAR ∨ type c = CLIENT_TYPE_MASTER ∧ repl_client_state c = REPL_STATE_READY.

(** One that sends requests, with nothing left over on either side. *)
Record idle_conn (k fd : Z) (cn : conn) : Prop := {
  ic_fd : client_fd (cn_client cn) = fd;
  ic_type : sends_requests (cn_client cn) ∧ should_reply (cn_client cn) = true;
  ic_parser : cn_parser cn = parser_init;
  ic_in : rb_wf (cn_in cn) ∧ contents (cn_in cn) = [] ∧ size (cn_in cn) = RING_BUFFER_SIZE ∧
          lasts k (write_index (cn_in cn));
  ic_out : rb_wf (output_buffer (cn_client cn)) ∧ contents (output_buffer (cn_client cn)) = [] ∧
           size (output_buffer (cn_client cn)) = RING_BUFFER_SIZE ∧
           lasts k (write_index (output_buffer (cn_client cn)));
  ic_sock : incoming (cn_sock cn) = [] ∧ read_answers (cn_sock cn) = [] ∧ write_answers (cn_sock cn) = []
}.

(** A replica to which commands are passed on, with [q] queued for it. *)
Record replica_conn (k : Z) (q : bytes) (cn : conn) : Prop := {
  rc_state : type (cn_client cn) = CLIENT_TYPE_REPLICA ∧
             master_repl_state (cn_client cn) = MASTER_REPL_STATE_PROPAGATE;
  rc_out : rb_wf (output_buffer (cn_client cn)) ∧ contents (output_buffer (cn_client cn)) = q ∧
           size (output_buffer (cn_client cn)) = RING_BUFFER_SIZE ∧
           lasts k (write_index (output_buffer (cn_client cn)))
}.

(** The server has the keyspace and clock [s] and the replicas with the queues
    [Q], [k] more events and [n] more arguments to spare, and its clients in [D]
    are waiting. *)
Record waits (D : gset Z) (Q : gmap Z bytes) (clk : nat → Z * Z) (s : ks) (k n : Z) (sv : server) : Prop := {
  wt_db : db_rep (sv_mem sv) s.1 ∧ adb_room n s.1;
  wt_clock : clock (sv_mem sv) = clk ∧ ticks (sv_mem sv) = s.2;
  wt_table : ∃ rs, table (sv_info sv) rs ∧ NoDup rs ∧ ∀ r, r ∈ rs ↔ is_Some (Q !! r);
  wt_epoll : sv_epoll sv = [];
  wt_backlog : rb_wf (sv_backlog sv) ∧ 40 ≤ size (sv_backlog sv) ∧ lasts k (write_index (sv_backlog sv));
  wt_conns : ∀ fd, fd ∈ D → ∃ cn, sv_conns sv !! fd = Some cn ∧ idle_conn k fd cn;
  wt_replicas : ∀ r q, Q !! r = Some q → r ≠ 0 ∧ ∃ cn, sv_conns sv !! r = Some cn ∧ replica_conn k q cn
}.

(** What the network does to the socket of a connection: bytes arrive for a client
    and will be read at once; a replica will take [n] bytes and no more. *)
Definition socket_gets (d : bytes) (k : socket) : socket :=
  MkSocket (incoming k ++ d) (read_answers k ++ [Gives (zlen d)]) (write_answers k) (outgoing k).
Definition socket_takes (n : nat) (k : socket) : socket :=
  MkSocket (incoming k) (read_answers k) [Takes (Z.of_nat n); WriteFails EWOULDBLOCK] (outgoing k).

Definition with_sock (f : socket → socket) (cn : conn) : conn :=
  MkConn (cn_client cn) (cn_in cn) (cn_parser cn) (cn_ch cn) (f (cn_sock cn)).
Definition at_sock (fd : Z) (f : socket → socket) (sv : server) : server :=
  MkServer (sv_mem sv) (sv_info sv) (sv_config sv) (sv_os sv) (sv_epoll sv) (sv_backlog sv)
    (alter (with_sock f) fd (sv_conns sv)).

(** A request the theorem speaks about: commands on the keyspace, complete, that
    fit the input buffer; one that ends with SET has to fit the 40 bytes that are
    copied for the replicas. *)
Record request_ok (cmds : list (list bytes)) : Prop := {
  ro_cmds : cmds ≠ [] ∧ Forall (accepted max_alloc) cmds;
  ro_data : forallb data_command (c_strings <$> cmds) = true;
  ro_size : zlen (commands_bytes cmds) < RING_BUFFER_SIZE;
  ro_fuel : (commands_steps cmds ≤ pf)%nat;
  ro_mark : mark_after (c_strings <$> cmds) false = true → zlen (commands_bytes cmds) ≤ 40
}.

Definition replies_ok (rs : list resp) : Prop := Forall resp_ok rs ∧ zlen (encodes rs) < RING_BUFFER_SIZE.

Lemma mark_after_any cmds b : cmds ≠ [] → mark_after cmds b = mark_after cmds false.
Proof. by destruct cmds. Qed.

Lemma lasts_less k k' x : k' ≤ k → lasts k x → lasts k' x.
Proof. unfold lasts, RING_BUFFER_SIZE. lia. Qed.
Lemma lasts_used k x n : lasts k x → n < RING_BUFFER_SIZE → lasts (k - 1) (x + n).
Proof. unfold lasts, RING_BUFFER_SIZE. lia. Qed.
Lemma lasts_room k x n : lasts k x → 1 ≤ k → n < RING_BUFFER_SIZE → x + n < 2 ^ 64.
Proof. unfold lasts, RING_BUFFER_SIZE. lia. Qed.

Lemma idle_less k k' fd cn : k' ≤ k → idle_conn k fd cn → idle_conn k' fd cn.
Proof.
  intros Hk [Hf Ht Hp (? & ? & ? & ?) (? & ? & ? & ?) Hs].
  constructor; try done; split_and!; try done; by eapply lasts_less.
Qed.

Lemma replica_less k k' q cn : k' ≤ k → replica_conn k q cn → replica_conn k' q cn.
Proof. intros Hk [Ht (? & ? & ? & ?)]. constructor; [done|]. split_and!; try done. by eapply lasts_less. Qed.

(** Nobody is both. *)
Lemma idle_not_replica k k' fd q cn : idle_conn k fd cn → ¬ replica_conn k' q cn.
Proof. intros [_ [[Ht|[Ht _]] _] _ _ _ _] [[Ht' _] _]; congruence. Qed.

Lemma waits_apart D Q clk s k n sv fd : waits D Q clk s k n sv → fd ∈ D → Q !! fd = None.
Proof.
  intros Hw HD. destruct (Q !! fd) as [q|] eqn:E; [|done]. destruct (wt_conns _ _ _ _ _ _ _ Hw fd HD) as (cn & Hcn & Hi).
  destruct (wt_replicas _ _ _ _ _ _ _ Hw fd q E) as (_ & cn' & Hcn' & Hr). rewrite Hcn in Hcn'. injection Hcn' as <-.
  by destruct (idle_not_replica _ _ _ _ _ Hi Hr).
Qed.

Lemma waits_less D Q clk s k k' n sv : k' ≤ k → waits D Q clk s k n sv → waits D Q clk s k' n sv.
Proof.
  intros Hk [Hdb Hc Ht He (? & ? & ?) Hcn Hr]. constructor; try done.
  - split_and!; try done. by eapply lasts_less.
  - intros fd Hfd. destruct (Hcn fd Hfd) as (cn & ? & ?). exists cn. split; [done|]. by eapply idle_less.
  - intros r q Hq. destruct (Hr r q Hq) as (? & cn & ? & ?). split; [done|]. exists cn. split; [done|]. by eapply replica_less.
Qed.

(** What a request adds to the queues. *)
Definition passed (cmds : list (list bytes)) : bytes :=
  if mark_after (c_strings <$> cmds) false then commands_bytes cmds else [].

Definition queues_fit (Q : gmap Z bytes) (cmds : list (list bytes)) : Prop :=
  ∀ r q, Q !! r = Some q → zlen q + zlen (passed cmds) ≤ RING_BUFFER_SIZE.

Definition sent (fd : Z) (sv : server) : bytes := from_option (λ cn, outgoing (cn_sock cn)) [] (sv_conns sv !! fd).

(** ** What clients and replicas do *)

(** A client connects; one that is connected sends a request, and there may be
    [room] to write to it, as there always is for the link to a master; a replica
    has room for [n] more bytes, and may have sent [input], as one does that
    answers commands; or there is room to write to one that waits for nothing, or
    input of a replica, whose input is not read. *)
Inductive act :=
| Connects (os : accept_os)
| Sends (fd : Z) (cmds : list (list bytes)) (room : bool)
| Drains (r : Z) (n : nat) (input : bool)
| Idles (fd events : Z).

Definition act_fd (a : act) : Z :=
  match a with Connects os => connect_fd os | Sends fd _ _ => fd | Drains r _ _ => r | Idles fd _ => fd end.
Definition both (other : bool) (flag : Z) : Z := if other then Z.lor EPOLLIN EPOLLOUT else flag.
Definition act_event (a : act) : epoll_event :=
  match a with
  | Connects os => NewConnection os
  | Sends fd _ room => Ready fd (both room EPOLLIN)
  | Drains r _ input => Ready r (both input EPOLLOUT)
  | Idles fd events => Ready fd events
  end.
Definition act_sock (a : act) : option (socket → socket) :=
  match a with
  | Connects _ | Idles _ _ => None
  | Sends _ cmds _ => Some (socket_gets (commands_bytes cmds))
  | Drains _ n _ => Some (socket_takes n)
  end.
Definition act_arrives (sv : server) (a : act) : server :=
  match act_sock a with Some f => at_sock (act_fd a) f sv | None => sv end.
Definition act_args (a : act) : Z := match a with Sends _ cmds _ => total_args cmds | _ => 0 end.

Definition acts_args (acts : list act) : Z := foldr (λ a n, act_args a + n) 0 acts.

(** *** The reference: a keyspace and a queue for every replica *)

Inductive answer := Replies (rs : list resp) | Passed_on (d : bytes).
Definition answer_bytes (a : answer) : bytes := match a with Replies rs => encodes rs | Passed_on d => d end.
Definition answer_ok (a : answer) : Prop := match a with Replies rs => replies_ok rs | Passed_on _ => True end.

Definition queues_after (Q : gmap Z bytes) (a : act) : gmap Z bytes :=
  match a with
  | Connects _ | Idles _ _ => Q
  | Sends _ cmds _ => (λ q, q ++ passed cmds) <$> Q
  | Drains r n _ => alter (drop n) r Q
  end.

Definition spec_act (clk : nat → Z * Z) (Q : gmap Z bytes) (a : act) (s : ks) : res (answer * ks) :=
  match a with
  | Connects _ | Idles _ _ => Ok (Replies [], s)
  | Sends _ cmds _ => '(rs, s') ← spec_commands clk (c_strings <$> cmds) s; Ok (Replies rs, s')
  | Drains r n _ => Ok (Passed_on (take n (default [] (Q !! r))), s)
  end.

Fixpoint spec_acts (clk : nat → Z * Z) (Q : gmap Z bytes) (acts : list act) (s : ks) : res (list (Z * answer) * ks) :=
  match acts with
  | [] => Ok ([], s)
  | a :: acts' =>
      '(r, s1) ← spec_act clk Q a s;
      '(answers, s2) ← spec_acts clk (queues_after Q a) acts' s1;
      Ok ((act_fd a, r) :: answers, s2)
  end.

(** The bytes for one connection among the answers. *)
Definition sent_to (fd : Z) (answers : list (Z * answer)) : bytes :=
  concat ((λ a, if a.1 =? fd then answer_bytes a.2 else []) <$> answers).

Definition connected (acts : list act) : list Z :=
  omap (λ a, match a with Connects os => Some (connect_fd os) | _ => None end) acts.

(** A new connection gets a descriptor of its own and has sent nothing yet; a
    request comes from a client that is waiting, and if it is passed on the
    replicas have room for it. *)
Definition act_ok (D : gset Z) (Q : gmap Z bytes) (a : act) : Prop :=
  match a with
  | Connects os => connection_granted os ∧ connect_sock os = MkSocket [] [] [] [] ∧ connect_fd os ∉ D ∧
                   Q !! connect_fd os = None
  | Sends fd cmds _ => fd ∈ D ∧ request_ok cmds ∧ queues_fit Q cmds
  | Drains r _ _ => is_Some (Q !! r)
  | Idles fd events => fd ∈ D ∧ has events EPOLLIN = false ∨ is_Some (Q !! fd) ∧ has events EPOLLOUT = false
  end.
Definition clients_after (D : gset Z) (a : act) : gset Z :=
  match a with Connects os => {[connect_fd os]} ∪ D | _ => D end.
Fixpoint acts_ok (D : gset Z) (Q : gmap Z bytes) (acts : list act) : Prop :=
  match acts with
  | [] => True
  | a :: acts' => act_ok D Q a ∧ acts_ok (clients_after D a) (queues_after Q a) acts'
  end.

(** ** Lemmas *)

Lemma acts_args_cons a acts : acts_args (a :: acts) = act_args a + acts_args acts.
Proof. done. Qed.

Lemma act_args_nonneg a : 0 ≤ act_args a.
Proof. destruct a; cbn [act_args]; unfold total_args; lia. Qed.

Lemma acts_args_nonneg acts : 0 ≤ acts_args acts.
Proof.
  induction acts as [|a acts IH]; [done|]. rewrite acts_args_cons.
  pose proof (act_args_nonneg a). lia.
Qed.

Lemma acts_ok_fresh D Q acts fd : acts_ok D Q acts → fd ∈ connected acts → fd ∉ D ∧ Q !! fd = None.
Proof.
  revert D Q. induction acts as [|a acts IH]; intros D Q Hok Hin; [by apply elem_of_nil in Hin|]. destruct Hok as [Ha Hok].
  destruct a as [os|fd' cmds room|r n input|fd' ev]; cbn [clients_after queues_after] in Hok; cbn in Hin; [| | |by eapply IH].
  - apply elem_of_cons in Hin as [->|Hin]; [by destruct Ha as (_ & _ & ? & ?)|]. destruct (IH _ _ Hok Hin). set_solver.
  - destruct (IH _ _ Hok Hin) as [HD HQ]. split; [done|]. rewrite lookup_fmap in HQ. by apply fmap_None in HQ.
  - destruct (IH _ _ Hok Hin) as [HD HQ]. split; [done|]. destruct (decide (fd = r)) as [->|]; [|by rewrite lookup_alter_ne in HQ].
    rewrite lookup_alter_eq in HQ. by apply fmap_None in HQ.
Qed.

Lemma queues_after_none Q a r : queues_after Q a !! r = None ↔ Q !! r = None.
Proof.
  destruct a as [os|fd cmds room|r' n input|fd ev]; cbn [queues_after]; [done|by rewrite lookup_fmap, fmap_None| |done].
  destruct (decide (r = r')) as [->|]; [by rewrite lookup_alter_eq, fmap_None|by rewrite lookup_alter_ne].
Qed.

(** Whose connection it is. *)
Lemma act_fd_known D Q a : act_ok D Q a → act_fd a ∈ D ∨ act_fd a ∈ connected [a] ∨ is_Some (Q !! act_fd a).
Proof.
  destruct a as [os|fd cmds room|r n input|fd ev]; cbn; [set_solver|by intros [? _]; left|by right; right|].
  intros [[? _]|[? _]]; [by left|by right; right].
Qed.
End acts.
