(* ===== verification/Clients.v ===== *)
(** * Many clients and replicas at once

    Clients connect and send requests, replicas take what was passed on to them,
    and the master of a server that is itself a replica sends it commands, in any
    order and several in one turn of the event loop.  The server is shown to be
    serialisable: it answers as the reference machine of [Reference] does when it
    runs the requests one after the other in the order of the events, everyone gets
    the replies to its own requests and no others, every replica gets the requests
    that end with SET, byte for byte and in order, and the other connections are
    left alone. *)

From S2P Require Import Prelude CLib RingBuffer Util Database Rdb RespWriter ServerState.
From S2P Require Import Commands CommandSpec Reference RespParser CommandHandler Wire Client ClientAlloc.
From S2P Require Import Propagation Replication ReplicationSpec Server ServerSpec Acts.

(** ** One request *)

Section clients.
Context (max_alloc : Z) (region_ptr padding : bytes) (pf : nat).
Context (Hmax : max_alloc < 2 ^ 63) (Hptr : zlen region_ptr = 8) (Hpad : zlen padding = 4).
Abbreviation handle_event := (handle_event max_alloc region_ptr padding pf).
Abbreviation event_loop := (event_loop max_alloc region_ptr padding pf).
Abbreviation request_ok := (request_ok max_alloc pf).
Abbreviation act_ok := (act_ok max_alloc pf).
Abbreviation acts_ok := (acts_ok max_alloc pf).

(** A request is served whether or not it is passed on to the replicas [rs]. *)
Lemma serve_any s cmds w1 rs :
  one_request max_alloc s cmds → (commands_steps cmds ≤ pf)%nat →
  for_each handle_command (c_strings <$> cmds) (s_world s) = Ok (tt, w1) →
  rb_wf (out w1) → write_answers (s_sock s) = [] → table (w_info w1) rs →
  (should_propogate_command (w_client w1) = true →
     zlen (commands_bytes cmds) ≤ 40 ∧ can_pass (commands_bytes cmds) rs (put_world w1 s)) →
  rb_wf (s_backlog s) → 40 ≤ size (s_backlog s) → write_index (s_backlog s) + zlen (commands_bytes cmds) < 2 ^ 64 →
  ∃ rb rbo ch bl i P, process_client_input max_alloc region_ptr padding pf s =
      Ok (tt, put_peers P (put_backlog bl (served s (set_info i w1) rb rbo ch))) ∧
    same_replicas (w_info w1) i ∧
    (rb_wf bl ∧ size bl = size (s_backlog s) ∧ write_index bl ≤ write_index (s_backlog s) + zlen (commands_bytes cmds)) ∧
    (if should_propogate_command (w_client w1) then all_passed (commands_bytes cmds) rs (s_peers s) P
     else P = s_peers s) ∧
    rb_wf rb ∧ contents rb = [] ∧ size rb = size (s_in s) ∧
    write_index rb = write_index (s_in s) + zlen (commands_bytes cmds) ∧
    rb_wf rbo ∧ contents rbo = [] ∧ size rbo = size (out w1) ∧ write_index rbo = write_index (out w1).
Proof.
  intros Hrq Hpf Hrun Hout Hws Htab Hmark Hbl Hbz Hb64. pose proof (rq_fits _ _ _ Hrq) as Hfits.
  destruct (parse_request max_alloc region_ptr padding Hmax s cmds pf w1 Hrq Hpf Hrun)
    as (rb & rest & ch' & Hwf & Hc & Hz & Hx & ->). set (d := commands_bytes cmds) in *.
  match goal with |- context [after_parse _ _ _ _ _ _ ?s'] => set (s0 := s') end.
  assert (∃ bl i P, when (should_propogate_command (cl s0)) (propagate region_ptr padding (d ++ rest) (zlen d)) s0 =
      Ok (tt, put_peers P (put_backlog bl (put_world (set_info i w1) s0))) ∧ same_replicas (w_info w1) i ∧
      (rb_wf bl ∧ size bl = size (s_backlog s) ∧ write_index bl ≤ write_index (s_backlog s) + zlen d) ∧
      (if should_propogate_command (w_client w1) then all_passed d rs (s_peers s) P else P = s_peers s))
    as (bl & i & P & Ep & Hi & Hbl' & HP).
  { change (cl s0) with (w_client w1). destruct (should_propogate_command (w_client w1)); cbn [when].
    - destruct (Hmark eq_refl) as [H40 [Ho He Hn Hr]].
      destruct (propagate_runs region_ptr padding Hptr Hpad s0 d rest rs)
        as (bl & i & P & E & Hi & Hwb & Hzb & Hxb & HP); try done; [cbn; lia|].
      exists bl, i, P. split_and!; try done. cbn [s_backlog s0] in Hxb. lia.
    - exists (s_backlog s), (w_info w1), (s_peers s). split_and!; try done; [by destruct w1|lia]. }
  destruct (after_parse_ends region_ptr padding s0 _ (d ++ rest) (zlen d) (zlen d) (size (s_in s)) Ep)
    as (rb' & Hwf' & Hc' & Hz' & Hx' & ->); [done|done|cbn; rewrite Hc; lia|done|].
  cbn [s_in put_peers put_backlog put_world s0] in Hc', Hz', Hx'.
  match goal with |- context [mbind _ flush_client_output ?s1] =>
    destruct (flush_all s1) as (rbo & Hwo & Hco & Hzo & Hxo & E) end; [exact Hout|exact Hws|].
  erewrite st_bind_ok by exact E. exists rb', rbo, ch', bl, i, P. rewrite Hc, Nat2Z.id, drop_all in Hc'.
  split_and!; try apply Hbl'; try done; congruence.
Qed.

(** *** A request *)

(** The session of a client whose request has just arrived. *)
Lemma arrived_request fd cn sv cmds k :
  idle_conn k fd cn → 1 ≤ k → request_ok cmds →
  one_request max_alloc (session_of fd (with_sock (socket_gets (commands_bytes cmds)) cn) sv) cmds.
Proof.
  intros [_ [Ht _] Hp (Hwf & Hc & Hz & Hl) _ (Hi & Hr & Hw)] Hk [Hne Hd Hs Hf _].
  constructor; cbn; try done.
  - intros Hm. destruct Ht as [Ht|[_ ->]]; [congruence|done].
  - by rewrite Hi.
  - by rewrite Hz.
  - by eapply lasts_room.
  - rewrite Hr. eexists. split; [reflexivity|]. lia.
Qed.

(** The event of one that sends requests, by the run of its session. *)
Lemma ready_serves fd cn sv s' :
  sv_conns sv !! fd = Some cn → sends_requests (cn_client cn) →
  process_client_input max_alloc region_ptr padding pf (session_of fd cn sv) = Ok (tt, s') →
  handle_event (Ready fd EPOLLIN) sv = Ok (tt, after_session fd s' sv).
Proof.
  intros Hcn Ht Es. rewrite handle_ready.
  change (has EPOLLIN EPOLLIN) with true. change (has EPOLLIN EPOLLOUT) with false. cbn [when].
  erewrite st_bind_ok; [reflexivity|]. unfold handle_input.
  erewrite st_bind_ok by (unfold client_type; rewrite Hcn; reflexivity). cbv beta.
  destruct Ht as [Ht|[Ht Hst]]; rewrite Ht; unfold serve; rewrite Hcn; [by rewrite Es|].
  unfold replica_handle_master_data. erewrite st_bind_ok by reflexivity. cbv beta. cbn [id].
  change (cl (session_of fd cn sv)) with (cn_client cn). by rewrite Hst, Es.
Qed.

(** Room to write to one that waits is of no consequence, and neither is input of a
    replica. *)
Lemma room_ignored k fd cn sv :
  sv_conns sv !! fd = Some cn → idle_conn k fd cn → handle_output max_alloc region_ptr padding pf fd sv = Ok (tt, sv).
Proof.
  intros Hcn [_ [Ht _] _ (Hwi & Hci & Hzi & _) (Hwo & Hco & _) (_ & Hra & _)]. unfold handle_output.
  erewrite st_bind_ok by (unfold client_type; rewrite Hcn; reflexivity). cbv beta.
  pose proof (after_session_same fd cn sv Hcn) as Hsame. destruct Ht as [Ht|[Ht Hst]]; rewrite Ht; unfold serve; rewrite Hcn.
  - erewrite st_bind_ok by (by apply flush_nothing). cbn [mret st_ret]. by rewrite Hsame.
  - unfold replica_handle_master_data. erewrite st_bind_ok by reflexivity. cbv beta. cbn [id].
    change (cl (session_of fd cn sv)) with (cn_client cn). rewrite Hst.
    rewrite process_nothing; [by rewrite Hsame|done| |done|done|done].
    cbn [s_in session_of]. rewrite Hci, Hzi. done.
Qed.

Lemma input_ignored fd cn sv :
  sv_conns sv !! fd = Some cn → type (cn_client cn) = CLIENT_TYPE_REPLICA →
  handle_input max_alloc region_ptr padding pf fd sv = Ok (tt, sv).
Proof.
  intros Hcn Ht. unfold handle_input. erewrite st_bind_ok by (unfold client_type; rewrite Hcn; reflexivity). cbv beta.
  by rewrite Ht.
Qed.

Lemma idle_ignored D Q clk s k n sv fd ev :
  waits D Q clk s k n sv → act_ok D Q (Idles fd ev) → handle_event (Ready fd ev) sv = Ok (tt, sv).
Proof.
  intros Hw [[HD Hev]|[[q Hq] Hev]]; rewrite handle_ready, Hev; cbn [when].
  - erewrite st_bind_ok by reflexivity. cbv beta. destruct (has ev EPOLLOUT); [|done].
    destruct (wt_conns _ _ _ _ _ _ _ Hw fd HD) as (cn & Hcn & Hi). by eapply room_ignored.
  - destruct (wt_replicas _ _ _ _ _ _ _ Hw fd q Hq) as (_ & cn & Hcn & [[Ht _] _]).
    destruct (has ev EPOLLIN); [|by erewrite st_bind_ok]. cbn [when]. by erewrite st_bind_ok by (by eapply input_ignored).
Qed.

(** Input and room to write at once. *)
Lemma ready_both fd sv :
  handle_event (Ready fd (Z.lor EPOLLIN EPOLLOUT)) sv =
    (_ ← handle_event (Ready fd EPOLLIN); handle_event (Ready fd EPOLLOUT)) sv.
Proof.
  unfold mbind, st_bind. rewrite !handle_ready. unfold mbind, st_bind.
  change (has (Z.lor EPOLLIN EPOLLOUT) EPOLLIN) with true. change (has (Z.lor EPOLLIN EPOLLOUT) EPOLLOUT) with true.
  change (has EPOLLIN EPOLLIN) with true. change (has EPOLLIN EPOLLOUT) with false. cbn [when].
  destruct (handle_input _ _ _ _ fd sv) as [[[] sv1]|]; [|done]. cbn [mret st_ret]. rewrite handle_ready.
  change (has EPOLLOUT EPOLLIN) with false. change (has EPOLLOUT EPOLLOUT) with true. cbn [when].
  by erewrite st_bind_ok.
Qed.

(** The queues have room for a request that is passed on. *)
Lemma waits_pass D Q clk s k n sv fd cn cmds rs w1 :
  waits D Q clk s k n sv → fd ∈ D → sv_conns sv !! fd = Some cn → 1 ≤ k → request_ok cmds → queues_fit Q cmds →
  mark_after (c_strings <$> cmds) false = true → NoDup rs → (∀ r, r ∈ rs ↔ is_Some (Q !! r)) →
  epoll_answers w1 = [] → client_fd (w_client w1) = fd →
  can_pass (commands_bytes cmds) rs (put_world w1 (session_of fd (with_sock (socket_gets (commands_bytes cmds)) cn)
    (at_sock fd (socket_gets (commands_bytes cmds)) sv))).
Proof.
  intros Hw HD Hcn Hk Hro Hfit Hm Hnd Hrs Hep Hfd. pose proof (waits_apart _ _ _ _ _ _ _ _ Hw HD) as Hapart.
  constructor; [done|done|done|]. intros r Hr. apply Hrs in Hr as [q Hq].
  destruct (wt_replicas _ _ _ _ _ _ _ Hw r q Hq) as (H0 & cn' & Hcn' & [_ (Hwf & Hc & Hz & Hl)]).
  assert (r ≠ fd) as Hne by (intros ->; congruence). split_and!; [done|unfold cl; cbn [s_world put_world]; by rewrite Hfd|].
  exists (cn_client cn'). split.
  - cbn. by rewrite lookup_fmap, lookup_delete_ne, lookup_alter_ne, Hcn'.
  - specialize (Hfit r q Hq). unfold passed in Hfit. rewrite Hm in Hfit. destruct Hro as [_ _ Hs _ _].
    split_and!; [done|rewrite Hc, Hz; lia|by eapply lasts_room].
Qed.

(** The replicas after the session of another client. *)
Lemma passed_replica k q d fd r cn sv s P :
  r ≠ fd → sv_conns sv !! r = Some cn → replica_conn k q cn → 1 ≤ k → zlen d < RING_BUFFER_SIZE →
  s_peers s = P → (∃ c c', (cn_client <$> delete fd (sv_conns sv)) !! r = Some c ∧ P !! r = Some c' ∧ passed_on d c c') →
  ∃ cn', sv_conns (after_session fd s sv) !! r = Some cn' ∧ replica_conn (k - 1) (q ++ d) cn' ∧ cn_sock cn' = cn_sock cn.
Proof.
  intros Hne Hcn [Ht (Hwf & Hc & Hz & Hl)] Hk Hd HP (c & c' & H1 & H2 & rb & -> & Hwf' & Hc' & Hz' & Hx').
  rewrite lookup_fmap, lookup_delete_ne, Hcn in H1 by done. injection H1 as <-.
  rewrite after_session_peer, Hcn, HP, H2 by done. eexists. split; [reflexivity|]. split; [|done].
  constructor; [done|]. cbn. split_and!; [done|by rewrite Hc', Hc|congruence|rewrite Hx'; by apply lasts_used].
Qed.

(** The server after a request of [fd]. *)
Record request_done (Q : gmap Z bytes) (k fd : Z) (cmds : list (list bytes)) (rs : list resp) (s' : ks)
    (sv sv' : server) : Prop := {
  rd_db : db_rep (sv_mem sv') s'.1;
  rd_clock : clock (sv_mem sv') = clock (sv_mem sv) ∧ ticks (sv_mem sv') = s'.2;
  rd_info : same_replicas (sv_info sv) (sv_info sv');
  rd_epoll : sv_epoll sv' = sv_epoll sv;
  rd_backlog : rb_wf (sv_backlog sv') ∧ size (sv_backlog sv') = size (sv_backlog sv) ∧
               lasts (k - 1) (write_index (sv_backlog sv'));
  rd_self : ∃ cn, sv_conns sv' !! fd = Some cn ∧ idle_conn (k - 1) fd cn ∧
              outgoing (cn_sock cn) = sent fd sv ++ encodes rs;
  rd_replicas : ∀ r q, Q !! r = Some q → ∃ cn, sv_conns sv' !! r = Some cn ∧
                  replica_conn (k - 1) (q ++ passed cmds) cn ∧ outgoing (cn_sock cn) = sent r sv;
  rd_others : ∀ r, r ≠ fd → Q !! r = None → sv_conns sv' !! r = sv_conns sv !! r
}.

Lemma request_runs D Q clk s k n sv fd cmds rs s' :
  waits D Q clk s k n sv → fd ∈ D → 1 ≤ k → total_args cmds ≤ n → request_ok cmds → queues_fit Q cmds →
  spec_commands clk (c_strings <$> cmds) s = Ok (rs, s') → replies_ok rs →
  ∃ sv', handle_event (Ready fd EPOLLIN) (at_sock fd (socket_gets (commands_bytes cmds)) sv) = Ok (tt, sv') ∧
    request_done Q k fd cmds rs s' sv sv'.
Proof.
  intros Hw HD Hk Hn Hro Hfit Espec [Hrok Hrlen]. pose proof (waits_apart _ _ _ _ _ _ _ _ Hw HD) as Hapart.
  pose proof Hw as [[Hdb HA] [Hclk Ht] (reps & Htab & Hnd & Hreps) Hep (Hbw & Hbz & Hbl) Hconns Hrep].
  destruct (Hconns fd HD) as (cn & Hcn & Hidle).
  set (d := commands_bytes cmds). set (sv1 := at_sock fd (socket_gets d) sv). set (cn1 := with_sock (socket_gets d) cn).
  assert (sv_conns sv1 !! fd = Some cn1) as Hcn1 by (cbn; by rewrite lookup_alter_eq, Hcn).
  set (s0 := session_of fd cn1 sv1).
  pose proof (arrived_request fd cn sv1 cmds k Hidle Hk Hro) as Hrq. fold d cn1 s0 in Hrq.
  pose proof Hidle as [Hfd [Hty Hsr] _ (_ & _ & Hzi & Hil) (Hwo & Hco & Hzo & Hlo) (_ & _ & Hws)].
  pose proof Hro as [Hne Hdata Hsize Hfuel Hmark].
  destruct (commands_do (c_strings <$> cmds) (s_world s0) s.1 rs s') as (w1 & Erun & Hrp).
  { constructor; [done|eapply room_weaken; [|exact HA]; unfold total_args in Hn; lia|done|done]. }
  { rewrite c_strings_total. by eapply room_weaken. }
  { done. }
  { cbn [s_world s0 session_of server_world w_mem sv1 at_sock sv_mem]. rewrite Hclk, Ht. by destruct s. }
  { split_and!; [done|..]; change (out (s_world s0)) with (output_buffer (cn_client cn)).
    - rewrite Hco, Hzo. cbn [length Z.of_nat]. lia.
    - by eapply lasts_room. }
  pose proof Hrp as [Hdb1 [Hk1 Ht1] Hout1 Hc1 [Hz1 Hx1] Hcl1 (Hi1 & Hcf1 & Hos1 & Hep1)].
  rewrite mark_after_any in Hcl1 by (by destruct cmds, Hne). set (b := mark_after (c_strings <$> cmds) false) in *.
  assert (should_propogate_command (w_client w1) = b) as Hb by (by rewrite Hcl1).
  destruct (serve_any s0 cmds w1 reps Hrq Hfuel Erun Hout1 Hws) as
    (rb & rbo & ch & bl & i & P & E & Hsame & (Hbw' & Hbz' & Hbx') & HP & Hwi & Hci & Hzi' & Hxi & Hwo' & Hco' & Hzo' & Hxo');
    [by rewrite Hi1| |done|done|by eapply lasts_room|].
  { rewrite Hb. intros Hm. split; [by apply Hmark|]. eapply waits_pass; try done; [by rewrite Hep1|by rewrite Hcl1]. }
  rewrite Hb in HP. set (s2 := put_peers P (put_backlog bl (served s0 (set_info i w1) rb rbo ch))) in *.
  exists (after_session fd s2 sv1). split; [by eapply ready_serves|]. constructor.
  - done.
  - split; [exact Hk1|exact Ht1].
  - unfold same_replicas. rewrite Hi1 in Hsame. exact Hsame.
  - exact Hep1.
  - split_and!; [done|done|]. cbn [after_session sv_backlog s2 put_peers put_backlog s_backlog].
    eapply (lasts_used k) in Hbl; [|exact Hsize]. unfold lasts in Hbl |- *. change (s_backlog s0) with (sv_backlog sv) in Hbx'. lia.
  - rewrite after_session_self by done. eexists. split; [reflexivity|]. split.
    + constructor; cbn; rewrite ?Hcl1; try done.
      * split_and!; [done|done|by rewrite Hzi'|rewrite Hxi; by apply lasts_used].
      * split_and!; [done|done| |]; unfold out in *; [rewrite Hzo'; cbn; by rewrite Hz1|].
        rewrite Hxo'. cbn. rewrite Hx1. by apply lasts_used.
    + cbn [cn_sock s2 served s_sock put_peers put_backlog outgoing]. change (out (set_info i w1)) with (out w1).
      rewrite Hc1. change (out (s_world s0)) with (output_buffer (cn_client cn)). unfold sent. by rewrite Hco, Hcn.
  - intros r q Hq. destruct (Hrep r q Hq) as (_ & cnr & Hcnr & Hrc). assert (r ≠ fd) as Hrf by (intros ->; congruence).
    assert (sv_conns sv1 !! r = Some cnr) as Hcnr1 by (cbn; by rewrite lookup_alter_ne).
    unfold passed, sent. fold b d. rewrite Hcnr. cbn [from_option]. destruct b.
    + destruct (passed_replica k q d fd r cnr sv1 s2 P Hrf Hcnr1 Hrc Hk Hsize eq_refl) as (cn' & H1 & H2 & H3);
        [apply HP, Hreps; by eexists|]. exists cn'. by rewrite H3.
    + rewrite app_nil_r, after_session_others, Hcnr1; [|cbn [s2 s_peers put_peers]; by rewrite HP|done].
      exists cnr. split_and!; [done| |done]. eapply replica_less; [|done]. lia.
  - intros r Hrf Hr. rewrite after_session_others; [cbn; by rewrite lookup_alter_ne| |done].
    cbn [s2 s_peers put_peers]. destruct b; [|by rewrite HP]. rewrite (ap_out _ _ _ _ HP); [done|].
    rewrite Hreps, Hr. apply is_Some_None.
Qed.

Lemma request_served D Q clk s k n sv fd cmds room rs s' :
  waits D Q clk s k n sv → fd ∈ D → 1 ≤ k → total_args cmds ≤ n → request_ok cmds → queues_fit Q cmds →
  spec_commands clk (c_strings <$> cmds) s = Ok (rs, s') → replies_ok rs →
  ∃ sv', handle_event (Ready fd (both room EPOLLIN)) (at_sock fd (socket_gets (commands_bytes cmds)) sv) = Ok (tt, sv') ∧
    waits D ((λ q, q ++ passed cmds) <$> Q) clk s' (k - 1) (n - total_args cmds) sv' ∧
    (∀ r, r ≠ fd → Q !! r = None → sv_conns sv' !! r = sv_conns sv !! r) ∧
    (∀ r, r ≠ fd → sent r sv' = sent r sv) ∧ sent fd sv' = sent fd sv ++ encodes rs.
Proof.
  intros Hw HD Hk Hn Hro Hfit Espec Hrs.
  destruct (request_runs D Q clk s k n sv fd cmds rs s' Hw HD Hk Hn Hro Hfit Espec Hrs)
    as (sv' & E & [Hdb [Hck Htk] Hinfo Hep (Hbw & Hbz & Hbl) (cn & Hcn & Hic & Ho) Hrep Hoth]).
  exists sv'. split.
  { destruct room; [|exact E]. cbn [both]. rewrite ready_both. erewrite st_bind_ok by exact E. cbv beta.
    rewrite handle_ready. change (has EPOLLOUT EPOLLIN) with false. change (has EPOLLOUT EPOLLOUT) with true. cbn [when].
    erewrite st_bind_ok by reflexivity. by eapply room_ignored. }
  destruct Hw as [[_ HA] [Hclk _] (reps & Htab & Hnd & Hreps) Hep0 (_ & Hbz0 & _) Hconns Hrep0].
  split_and!.
  - constructor.
    + split; [done|]. eapply (spec_commands_room clk (c_strings <$> cmds) s); [lia| |exact Espec].
      rewrite c_strings_total. by replace (n - total_args cmds + total_args cmds) with n by lia.
    + split; [congruence|done].
    + exists reps. split_and!; [by eapply table_same|done|]. intros r. rewrite Hreps, lookup_fmap. symmetry. apply fmap_is_Some.
    + congruence.
    + split_and!; [done|by rewrite Hbz|done].
    + intros r Hr. destruct (decide (r = fd)) as [->|Hne]; [by exists cn|].
      destruct (Hconns r Hr) as (cn2 & Hcn2 & Hi2). exists cn2. rewrite Hoth; [|done|].
      * split; [done|]. eapply idle_less; [|done]. lia.
      * destruct (Q !! r) as [q|] eqn:Eq; [|done]. destruct (Hrep0 r q Eq) as (_ & cn3 & Hcn3 & Hr3).
        rewrite Hcn2 in Hcn3. injection Hcn3 as <-. by destruct (idle_not_replica _ _ _ _ _ Hi2 Hr3).
    + intros r q'. rewrite lookup_fmap. intros (q & Hq & ->)%fmap_Some. destruct (Hrep0 r q Hq) as (H0 & _).
      split; [done|]. destruct (Hrep r q Hq) as (cn' & ? & ? & _). by exists cn'.
  - done.
  - intros r Hr. destruct (Q !! r) as [q|] eqn:Eq.
    + destruct (Hrep r q Eq) as (cn' & Hcn' & _ & Hs). unfold sent at 1. by rewrite Hcn'.
    + unfold sent. by rewrite Hoth.
  - unfold sent at 1. by rewrite Hcn.
Qed.

(** *** What a replica takes *)

Lemma replica_drained D Q clk s k n sv r q m input :
  waits D Q clk s k n sv → Q !! r = Some q →
  ∃ sv', handle_event (Ready r (both input EPOLLOUT)) (at_sock r (socket_takes m) sv) = Ok (tt, sv') ∧
    waits D (alter (drop m) r Q) clk s k n sv' ∧
    (∀ r', r' ≠ r → sv_conns sv' !! r' = sv_conns sv !! r') ∧ sent r sv' = sent r sv ++ take m q.
Proof.
  intros Hw Hq. pose proof Hw as [Hdb Hck (reps & Htab & Hnd & Hreps) Hep Hbl Hconns Hrep].
  destruct (Hrep r q Hq) as (H0 & cn & Hcn & [[Hty Hst] (Hwf & Hc & Hz & Hl)]).
  set (sv1 := at_sock r (socket_takes m) sv). set (cn1 := with_sock (socket_takes m) cn).
  assert (sv_conns sv1 !! r = Some cn1) as Hcn1 by (cbn; by rewrite lookup_alter_eq, Hcn).
  set (s0 := session_of r cn1 sv1).
  destruct (flush_some s0 m Hwf eq_refl) as (x & rb & ws & E & Hwf' & Hc' & Hz' & Hx').
  change (out (s_world s0)) with (output_buffer (cn_client cn)) in *. rewrite Hc in Hc', E.
  match type of E with _ = Ok (_, ?s') => set (s2 := s') in E end.
  assert (∀ r', r' ≠ r → sv_conns (after_session r s2 sv1) !! r' = sv_conns sv !! r') as Hoth.
  { intros r' Hne. rewrite after_session_others by done. cbn. by rewrite lookup_alter_ne. }
  exists (after_session r s2 sv1). split; [|split; [|split; [done|]]].
  - assert (handle_event (Ready r (both input EPOLLOUT)) sv1 = handle_event (Ready r EPOLLOUT) sv1) as ->.
    { destruct input; [|done]. cbn [both]. rewrite ready_both. erewrite st_bind_ok; [reflexivity|].
      rewrite handle_ready. by erewrite st_bind_ok by (by eapply input_ignored). }
    rewrite handle_ready. change (has EPOLLOUT EPOLLIN) with false. change (has EPOLLOUT EPOLLOUT) with true. cbn [when].
    erewrite st_bind_ok by reflexivity. cbv beta. unfold handle_output.
    erewrite st_bind_ok by (unfold client_type; rewrite Hcn1; reflexivity). cbv beta. cbn [cn1 with_sock cn_client]. rewrite Hty.
    unfold serve. rewrite Hcn1. unfold master_handle_replica_out. erewrite st_bind_ok by reflexivity. cbv beta.
    change (cl (session_of r cn1 sv1)) with (cn_client cn). rewrite Hst. by erewrite st_bind_ok by exact E.
  - constructor; try done.
    + exists reps. split_and!; [done|done|]. intros r'. rewrite Hreps.
      destruct (decide (r' = r)) as [->|]; [by rewrite lookup_alter_eq, fmap_is_Some|by rewrite lookup_alter_ne].
    + intros fd HD. rewrite Hoth; [by apply Hconns|]. intros ->.
      pose proof (waits_apart _ _ _ _ _ _ _ _ Hw HD). congruence.
    + intros r' q'. destruct (decide (r' = r)) as [->|Hne].
      * rewrite lookup_alter_eq, Hq. intros [= <-]. split; [done|]. rewrite after_session_self by done.
        eexists. split; [reflexivity|]. constructor; [done|]. cbn. split_and!; [done|done|congruence|by rewrite Hx'].
      * rewrite lookup_alter_ne, Hoth by done. apply Hrep.
  - unfold sent. rewrite after_session_self by done. by rewrite Hcn.
Qed.

(** One turn of the event loop: everything arrives, then [epoll_wait] reports it. *)
Definition round (acts : list act) : svM unit := λ sv,
  match event_loop [Waited (act_event <$> acts) false] (foldl act_arrives sv acts) with
  | Ok (_, sv') => Ok (tt, sv')
  | Stop e => Stop e
  end.

(** The same acts one at a time. *)
Definition turn (a : act) : svM unit := λ sv, handle_event (act_event a) (act_arrives sv a).

(** *** What arrives for one connection commutes with the events of another *)

Definition moved (f : server → server) (r : res (unit * server)) : res (unit * server) :=
  match r with Ok (x, sv) => Ok (x, f sv) | Stop e => Stop e end.

Lemma after_session_sock fd fd' f s sv :
  fd ≠ fd' → after_session fd s (at_sock fd' f sv) = at_sock fd' f (after_session fd s sv).
Proof.
  intros Hne. unfold after_session, at_sock. cbn [sv_conns]. f_equal. apply map_eq. intros r.
  assert (map_imap (λ r cn, Some (match s_peers s !! r with Some c => with_conn_client c cn | None => cn end))
      (delete fd (alter (with_sock f) fd' (sv_conns sv))) =
    alter (with_sock f) fd' (map_imap (λ r cn, Some (match s_peers s !! r with Some c => with_conn_client c cn | None => cn end))
      (delete fd (sv_conns sv)))) as ->.
  { apply map_eq. intros j. rewrite map_lookup_imap. destruct (decide (j = fd')) as [->|Hj].
    - rewrite lookup_alter_eq, map_lookup_imap, !lookup_delete_ne, lookup_alter_eq by done.
      destruct (sv_conns sv !! fd') as [cn|]; [|done]. cbn. by destruct (s_peers s !! fd').
    - rewrite lookup_alter_ne, map_lookup_imap by done. destruct (decide (j = fd)) as [->|Hj'].
      + by rewrite !lookup_delete_eq.
      + by rewrite !lookup_delete_ne, lookup_alter_ne by done. }
  destruct (s_open s); [|done]. by rewrite alter_insert_ne by done.
Qed.

Lemma serve_sock fd fd' g f sv :
  fd ≠ fd' → serve fd f (at_sock fd' g sv) = moved (at_sock fd' g) (serve fd f sv).
Proof.
  intros Hne. unfold serve. cbn [sv_conns at_sock]. rewrite lookup_alter_ne by done.
  destruct (sv_conns sv !! fd) as [cn|]; [|done].
  assert (session_of fd cn (at_sock fd' g sv) = session_of fd cn sv) as ->.
  { unfold session_of. cbn [sv_conns at_sock sv_backlog]. f_equal. apply map_eq. intros r.
    rewrite !lookup_fmap. destruct (decide (r = fd)) as [->|]; [by rewrite !lookup_delete_eq|].
    rewrite !lookup_delete_ne by done. destruct (decide (r = fd')) as [->|]; [|by rewrite lookup_alter_ne].
    rewrite lookup_alter_eq. by destruct (sv_conns sv !! fd'). }
  destruct (f (session_of fd cn sv)) as [[[] s']|]; [|done]. cbn [moved]. by rewrite after_session_sock.
Qed.

Lemma typed_serve_sock fd fd' g (f : ClientType → svM unit) sv :
  fd ≠ fd' → (∀ t sv, f t (at_sock fd' g sv) = moved (at_sock fd' g) (f t sv)) →
  (t ← client_type fd; f t) (at_sock fd' g sv) = moved (at_sock fd' g) ((t ← client_type fd; f t) sv).
Proof.
  intros Hne Hf. unfold mbind, st_bind, client_type. cbn [sv_conns at_sock]. rewrite lookup_alter_ne by done.
  destruct (sv_conns sv !! fd) as [cn|]; [|done]. apply Hf.
Qed.

Lemma ready_sock fd ev fd' g sv :
  fd ≠ fd' → handle_event (Ready fd ev) (at_sock fd' g sv) = moved (at_sock fd' g) (handle_event (Ready fd ev) sv).
Proof.
  intros Hne. rewrite !handle_ready. unfold mbind, st_bind.
  assert (∀ b (f : svM unit), (∀ sv, f (at_sock fd' g sv) = moved (at_sock fd' g) (f sv)) →
    ∀ sv, when b f (at_sock fd' g sv) = moved (at_sock fd' g) (when b f sv)) as Hwhen by (by intros []).
  rewrite (Hwhen _ (handle_input max_alloc region_ptr padding pf fd)).
  - destruct (when (has ev EPOLLIN) _ sv) as [[[] sv1]|]; [|done]. cbn [moved]. apply Hwhen. intros sv'.
    unfold handle_output. apply typed_serve_sock; [done|]. intros [] ?; by apply serve_sock.
  - intros sv'. unfold handle_input. apply typed_serve_sock; [done|]. intros [] ?; [by apply serve_sock|done|by apply serve_sock].
Qed.

Lemma event_sock a fd g sv :
  act_fd a ≠ fd → handle_event (act_event a) (at_sock fd g sv) = moved (at_sock fd g) (handle_event (act_event a) sv).
Proof.
  intros Hne. destruct a as [os|fd' cmds room|fd' n input|fd' ev]; cbn [act_event act_fd] in *.
  1: unfold handle_event. cbn [Server.handle_event]. unfold accept_client. destruct (_ =? -1); [done|].
    unfold mbind, st_bind, lift.
    destruct (set_non_blocking _ _); [|done].
    destruct (create_client _ _ _) as [[[[c input]|] rel]|]; [|done|done].
    unfold register. destruct (connect_add_ok os); [|done]. cbn [negb].
    change (server_world _ (at_sock fd g sv)) with (server_world (with_type CLIENT_TYPE_REGULAR c) sv).
    destruct (client_enable_read_events _) as [[[] w]|]; [|done]. cbn [mbind res_bind moved].
    unfold at_sock. cbn [sv_conns sv_mem sv_info sv_config sv_os sv_epoll sv_backlog].
    by rewrite alter_insert_ne by done.
  all: by apply ready_sock.
Qed.

Lemma event_arrivals a acts sv :
  act_fd a ∉ act_fd <$> acts →
  handle_event (act_event a) (foldl act_arrives sv acts) =
    moved (λ sv, foldl act_arrives sv acts) (handle_event (act_event a) sv).
Proof.
  revert sv. induction acts as [|b acts IH]; intros sv Hn; [cbn [foldl]; by destruct (handle_event _ sv) as [[[] ?]|]|].
  rewrite fmap_cons, not_elem_of_cons in Hn. destruct Hn as [Hne Hn]. cbn [foldl]. rewrite IH by done.
  unfold act_arrives at 2 4. destruct (act_sock b) as [f|]; [|done]. rewrite event_sock by done.
  by destruct (handle_event _ sv) as [[[] ?]|].
Qed.

(** The first of several events, when it is not one for a client just accepted. *)
Lemma handle_events_cons fresh ev evs sv :
  (∀ fd events, ev = Ready fd events → fd ∉ fresh) →
  handle_events max_alloc region_ptr padding pf fresh (ev :: evs) sv =
    (_ ← handle_event ev;
     handle_events max_alloc region_ptr padding pf
       (match ev with NewConnection os => connect_fd os :: fresh | Ready _ _ => fresh end) evs) sv.
Proof. intros H. destruct ev as [os|fd events]; [done|]. cbn [handle_events]. by rewrite bool_decide_eq_false_2 by (by eapply H). Qed.

Lemma act_event_fd a fd events : act_event a = Ready fd events → fd = act_fd a.
Proof. destruct a; by intros [= <- <-]. Qed.
Lemma act_connect_fd a os : act_event a = NewConnection os → act_fd a = connect_fd os.
Proof. destruct a; by intros [= <-]. Qed.

(** A turn of the event loop is its events one at a time. *)
Lemma round_turns acts sv : NoDup (act_fd <$> acts) → round acts sv = for_each turn acts sv.
Proof.
  intros Hnd. unfold round. cbn [Server.event_loop]. unfold mbind, st_bind.
  assert (∀ fresh, (∀ fd, fd ∈ fresh → fd ∉ act_fd <$> acts) →
    handle_events max_alloc region_ptr padding pf fresh (act_event <$> acts) (foldl act_arrives sv acts) =
      for_each turn acts sv) as Hall.
  { revert sv Hnd. induction acts as [|a acts IH]; intros sv Hnd fresh Hfresh; [done|].
    rewrite fmap_cons in Hnd, Hfresh. apply NoDup_cons in Hnd as [Hn Hnd]. cbn [fmap list_fmap for_each foldl].
    rewrite handle_events_cons.
    2: { intros fd events Hev Hin. apply (Hfresh fd Hin). rewrite (act_event_fd a fd events Hev). by left. }
    unfold mbind, st_bind. rewrite event_arrivals by done. unfold turn at 1.
    destruct (handle_event (act_event a) (act_arrives sv a)) as [[[] sv1]|]; [|done]. cbn [moved]. apply IH; [done|].
    intros fd Hin. destruct (act_event a) as [os|fd' events] eqn:Ea.
    - apply elem_of_cons in Hin as [->|Hin]; [by rewrite <- (act_connect_fd a os Ea)|]. intros Hfd. apply (Hfresh fd Hin). by right.
    - intros Hfd. apply (Hfresh fd Hin). by right. }
  rewrite (Hall []) by (intros fd Hin; by apply elem_of_nil in Hin).
  destruct (for_each turn acts sv) as [[[] sv']|]; done.
Qed.

Lemma rounds_turns rounds sv :
  Forall (λ acts, NoDup (act_fd <$> acts)) rounds → for_each round rounds sv = for_each turn (concat rounds) sv.
Proof.
  revert sv. induction rounds as [|acts rounds IH]; intros sv Hnd; [done|]. apply Forall_cons in Hnd as [Hn Hnd].
  cbn [for_each concat]. rewrite for_each_app. unfold mbind, st_bind. rewrite round_turns by done.
  destruct (for_each turn acts sv) as [[[] sv1]|]; [|done]. by apply IH.
Qed.

(** *** The events implement the machine *)

(** A client that connects joins those who wait. *)
Lemma connection_accepted D Q clk s k n sv os :
  waits D Q clk s k n sv → 1 ≤ k → act_ok D Q (Connects os) →
  ∃ sv', handle_event (NewConnection os) sv = Ok (tt, sv') ∧
    waits ({[connect_fd os]} ∪ D) Q clk s (k - 1) n sv' ∧
    (∀ r, r ≠ connect_fd os → sv_conns sv' !! r = sv_conns sv !! r) ∧ sent (connect_fd os) sv' = [].
Proof.
  intros Hw Hk (Hcg & Hsock & Hnew & HnQ).
  assert (lasts (k - 1) 0) as H0.
  { destruct Hw as [_ _ _ _ ([_ _ Hs Ho _ _] & _ & Hl) _ _]. apply (lasts_less k); [lia|]. unfold lasts in *. lia. }
  eapply (waits_less D Q clk s k (k - 1)) in Hw as [Hdb Hc Ht He Hb Hcn Hr]; [|lia].
  destruct (accept_ok max_alloc region_ptr padding pf os sv Hcg He)
    as (c & input & [Hfd (Hwi & Hci & Hzi & Hxi) (Hwo & Hco & Hzo & Hxo) _ _ [Hrep Hprop]] & E).
  eexists. split; [exact E|]. split; [|split].
  - constructor; cbn [sv_mem sv_info sv_config sv_os sv_epoll sv_backlog sv_conns]; try done.
    + intros fd. rewrite elem_of_union, elem_of_singleton. destruct (decide (fd = connect_fd os)) as [->|Hne].
      * intros _. rewrite lookup_insert_eq. eexists. split; [reflexivity|].
        constructor; cbn; rewrite ?Hsock, ?Hxi, ?Hxo; split_and?; try done. by left.
      * intros [?|Hin]; [done|]. rewrite lookup_insert_ne by done. by apply Hcn.
    + intros r q Hq. rewrite lookup_insert_ne by congruence. by apply Hr.
  - intros r Hr'. cbn. by rewrite lookup_insert_ne.
  - unfold sent. cbn. rewrite lookup_insert_eq. cbn. by rewrite Hsock.
Qed.

Lemma turn_ok D Q clk s k n sv a r s' :
  waits D Q clk s k n sv → 1 ≤ k → act_args a ≤ n → act_ok D Q a → (∀ fd, fd ∈ connected [a] → sv_conns sv !! fd = None) →
  spec_act clk Q a s = Ok (r, s') → answer_ok r →
  ∃ sv', turn a sv = Ok (tt, sv') ∧ waits (clients_after D a) (queues_after Q a) clk s' (k - 1) (n - act_args a) sv' ∧
    (∀ r, r ≠ act_fd a → Q !! r = None → sv_conns sv' !! r = sv_conns sv !! r) ∧
    (∀ r, r ≠ act_fd a → sent r sv' = sent r sv) ∧
    sent (act_fd a) sv' = sent (act_fd a) sv ++ answer_bytes r.
Proof.
  intros Hw Hk Hn Ha Hnew Espec Hrs.
  destruct a as [os|fd cmds room|fd m input|fd ev]; cbn [act_args spec_act clients_after queues_after act_fd] in *.
  - injection Espec as <- <-. destruct (connection_accepted D Q clk s k n sv os Hw Hk Ha) as (sv' & E & Hw' & Ho & Hs).
    exists sv'. rewrite Z.sub_0_r. split_and!; [done|done|by intros; apply Ho|by intros; unfold sent; rewrite Ho|].
    rewrite Hs. unfold sent. rewrite Hnew by (cbn; set_solver). done.
  - destruct (spec_commands clk _ s) as [[rs s1]|] eqn:E; [|done]. injection Espec as <- <-. destruct Ha as (HD & Hro & Hfit).
    destruct (request_served D Q clk s k n sv fd cmds room rs s1 Hw HD Hk Hn Hro Hfit E Hrs) as (sv' & Ee & Hsv'). by exists sv'.
  - injection Espec as <- <-. destruct Ha as [q Hq].
    destruct (replica_drained D Q clk s k n sv fd q m input Hw Hq) as (sv' & E & Hw' & Ho & Hs).
    exists sv'. rewrite Z.sub_0_r, Hq. split_and!; [done| |by intros; apply Ho|by intros; unfold sent; rewrite Ho|done].
    eapply waits_less; [|exact Hw']. lia.
  - injection Espec as <- <-. exists sv. rewrite Z.sub_0_r. split_and!; [|by eapply waits_less; [|exact Hw]; lia|done|done|].
    + unfold turn. cbn. by eapply idle_ignored.
    + cbn. by rewrite app_nil_r.
Qed.

Lemma turns_ok acts D Q clk s k n sv answers s' :
  waits D Q clk s k n sv → zlen acts ≤ k → acts_args acts ≤ n → acts_ok D Q acts →
  (∀ fd, fd ∈ connected acts → sv_conns sv !! fd = None) →
  spec_acts clk Q acts s = Ok (answers, s') → Forall (λ a, answer_ok a.2) answers →
  ∃ sv', for_each turn acts sv = Ok (tt, sv') ∧
    waits (foldl clients_after D acts) (foldl queues_after Q acts) clk s' (k - zlen acts) (n - acts_args acts) sv' ∧
    (∀ fd, sent fd sv' = sent fd sv ++ sent_to fd answers) ∧
    (∀ r, r ∉ D → r ∉ connected acts → Q !! r = None → sv_conns sv' !! r = sv_conns sv !! r).
Proof.
  revert D Q s k n sv answers. induction acts as [|a acts IH]; intros D Q s k n sv answers Hw Hk Hn Hok Hnew Espec Hrs.
  { injection Espec as <- <-. exists sv. cbn. rewrite !Z.sub_0_r. split_and!; try done. intros fd. by rewrite app_nil_r. }
  destruct Hok as [Ha Hok]. cbn [spec_acts] in Espec. rewrite length_cons in Hk. rewrite acts_args_cons in Hn.
  destruct (spec_act clk Q a s) as [[r s1]|] eqn:E1; [|done]. cbn [mbind res_bind] in Espec.
  destruct (spec_acts clk _ acts s1) as [[answers' s2]|] eqn:E2; [|done]. injection Espec as <- <-.
  apply Forall_cons in Hrs as [Hr1 Hrs]. cbn [snd] in Hr1.
  pose proof (acts_args_nonneg acts) as Hpos.
  assert (∀ fd, fd ∈ connected [a] ∨ fd ∈ connected acts → fd ∈ connected (a :: acts)) as Hcn by (destruct a; cbn; set_solver).
  destruct (turn_ok D Q clk s k n sv a r s1 Hw) as (sv1 & Et & Hw1 & Ho1 & Hso & Hs1); [lia|lia|done|by auto|done|done|].
  destruct (IH _ _ s1 (k - 1) (n - act_args a) sv1 answers' Hw1) as (sv' & Ets & Hw' & Hsent & Hother); [lia|lia|done| |done|done|].
  { intros fd Hfd. destruct (acts_ok_fresh _ _ _ _ _ _ Hok Hfd) as [HnD HnQ]. rewrite queues_after_none in HnQ.
    rewrite Ho1; [apply Hnew; auto| |done]. intros ->.
    destruct (act_fd_known _ _ _ _ _ Ha) as [H|[H|[q H]]]; [|by destruct a; cbn in *; set_solver|congruence].
    destruct a; cbn in *; set_solver. }
  exists sv'. split_and!.
  - cbn [for_each]. by erewrite st_bind_ok by exact Et.
  - rewrite length_cons, acts_args_cons. cbn [foldl].
    replace (k - Z.of_nat (S (length acts))) with (k - 1 - zlen acts) by lia.
    by replace (n - (act_args a + acts_args acts)) with (n - act_args a - acts_args acts) by lia.
  - intros fd. rewrite Hsent. unfold sent_to. cbn [fmap list_fmap concat fst snd]. rewrite app_assoc. f_equal.
    destruct (Z.eqb_spec (act_fd a) fd) as [<-|Hne]; [done|]. rewrite app_nil_r. by apply Hso.
  - intros q Hq Hqc HqQ. assert (q ≠ act_fd a) as Hne.
    { intros ->. destruct (act_fd_known _ _ _ _ _ Ha) as [?|[?|[? ?]]]; [done|by apply Hqc, Hcn; left|congruence]. }
    rewrite Hother; [by apply Ho1| | |by apply queues_after_none].
    + destruct a as [os| | |]; cbn in *; [set_solver|done..].
    + intros ?. by apply Hqc, Hcn; right.
Qed.
End clients.

(** C1: the server is serialisable. Clients connect and send requests, replicas
    take bytes when they can, and the master of a server that is a replica sends
    commands, any number of them in one turn of the event loop and in any
    interleaving, and whatever else is reported ready with them. Each request is
    a pipeline of commands on the keyspace ([data_command]) that arrives in one
    piece and fits the input buffer; one that ends with SET has at most 40
    bytes, and there is room for it in the queues of the replicas (a longer one
    is a fault of the code, which copies the buffer structure); the clients'
    sockets take every byte, the replies to a request fit the output buffer, and
    no command is one on which the reference machine faults (a list read as a
    string). Then every event is handled without a fault; the sockets have got
    exactly the replies of the reference machine that runs the requests one
    after the other in the order of the events, each client those to its own
    requests; every replica has got, or has still queued for it, the bytes of
    the requests that end with SET, in the same order and nothing else; the
    database holds the machine's keyspace, every client waits for its next
    request with nothing left in its buffers, and no other connection has
    changed. *)
Theorem clients_are_serialised max_alloc region_ptr padding pf D Q s sv rounds answers s' :
  let acts := concat rounds in
  max_alloc < 2 ^ 63 → zlen region_ptr = 8 → zlen padding = 4 →
  waits D Q (clock (sv_mem sv)) s (zlen acts) (acts_args acts) sv → acts_ok max_alloc pf D Q acts →
  Forall (λ round, NoDup (act_fd <$> round)) rounds → (∀ fd, fd ∈ connected acts → sv_conns sv !! fd = None) →
  spec_acts (clock (sv_mem sv)) Q acts s = Ok (answers, s') → Forall (λ a, answer_ok a.2) answers →
  ∃ sv', for_each (round max_alloc region_ptr padding pf) rounds sv = Ok (tt, sv') ∧
    (∀ fd, sent fd sv' = sent fd sv ++ sent_to fd answers) ∧ db_rep (sv_mem sv') s'.1 ∧
    waits (foldl clients_after D acts) (foldl queues_after Q acts) (clock (sv_mem sv)) s' 0 0 sv' ∧
    (∀ r, r ∉ D → r ∉ connected acts → Q !! r = None → sv_conns sv' !! r = sv_conns sv !! r).
Proof.
  intros acts Hmax Hptr Hpad Hw Hok Hnd Hnew Espec Hrs.
  destruct (turns_ok max_alloc region_ptr padding pf Hmax Hptr Hpad acts D Q (clock (sv_mem sv)) s (zlen acts) (acts_args acts) sv answers s')
    as (sv' & E & Hw' & Hsent & Hother); [done|done|done|done|done|done|done|].
  rewrite !Z.sub_diag in Hw'. exists sv'. split_and!; [|done|apply Hw'|done|done].
  rewrite rounds_turns by done. exact E.
Qed.

(** ** Witness: two clients and a replica *)

Definition sample_connection (fd : Z) : accept_os :=
  AcceptOs fd (2, 0) (ClientOs true (rb_os_good 10) (rb_os_good 11) true) client_memory true (MkSocket [] [] [] []).

Definition sample_peer (fd : Z) (t : ClientType) (st : ReplicaClientState) : Client :=
  with_type t (with_repl_client_state st (with_master_repl_state MASTER_REPL_STATE_PROPAGATE
    (init_client client_memory fd (client_rb [] 6)))).
Definition sample_conn (c : Client) : conn := new_conn c (client_rb [] 7) (MkSocket [] [] [] []).
Definition sample_node (rs : list Z) (conns : gmap Z conn) : server :=
  MkServer (mem_init tick_clock)
    (MkInfo ROLE_MASTER (lit "8371b4fb1155b71f4a04d3e1bc3e18c4a990aeeb") 0 0 (rs ++ replicate (16 - length rs) 0) (zlen rs))
    (op_config default_options) sample_files [] (sample_rb 4) conns.

Lemma sample_lasts k x : 0 ≤ k < 2 ^ 40 → 0 ≤ x < 2 ^ 40 → lasts k x.
Proof. unfold lasts, RING_BUFFER_SIZE. lia. Qed.

Lemma sample_idle k fd t st :
  0 ≤ k < 2 ^ 40 → sends_requests (sample_peer fd t st) → idle_conn k fd (sample_conn (sample_peer fd t st)).
Proof.
  intros Hk Hs. destruct (client_rb_holds [] 6) as [Hwo Hco]; [done|done|].
  destruct (client_rb_holds [] 7) as [Hwi Hci]; [done|done|].
  constructor; try done; (split_and!; [done|done|done|apply sample_lasts; done]).
Qed.

Lemma sample_replica k fd st :
  0 ≤ k < 2 ^ 40 → replica_conn k [] (sample_conn (sample_peer fd CLIENT_TYPE_REPLICA st)).
Proof.
  intros Hk. destruct (client_rb_holds [] 6) as [Hwo Hco]; [done|done|].
  constructor; [done|]. split_and!; [done|done|done|apply sample_lasts; done].
Qed.

Lemma sample_waits D rs conns k n :
  0 ≤ k < 2 ^ 40 → 0 ≤ n < 2 ^ 20 → NoDup rs →
  (∀ fd, fd ∈ D → ∃ t st, conns !! fd = Some (sample_conn (sample_peer fd t st)) ∧ sends_requests (sample_peer fd t st)) →
  (∀ r, r ∈ rs → r ≠ 0 ∧ ∃ st, conns !! r = Some (sample_conn (sample_peer r CLIENT_TYPE_REPLICA st))) →
  waits D (gset_to_gmap [] (list_to_set rs)) tick_clock (∅, 0%nat) k n (sample_node rs conns).
Proof.
  intros Hk Hn Hnd HD Hrs. constructor; cbn; try done.
  - split; [apply mem_init_rep|]. constructor; [rewrite map_size_empty; lia|]. intros ? ? ?. by rewrite lookup_empty.
  - exists rs. split_and!; [by split; [|eexists]|done|]. intros r. split.
    + intros Hr. exists []. apply lookup_gset_to_gmap_Some. split; [by apply elem_of_list_to_set|done].
    + intros [q [Hq _]%lookup_gset_to_gmap_Some]. by apply elem_of_list_to_set in Hq.
  - split_and!; [apply (rb_fresh_wf 64 4); [lia|done]|lia|by apply sample_lasts].
  - intros fd Hfd. destruct (HD fd Hfd) as (t & st & Hc & Hs). eexists. split; [exact Hc|by apply sample_idle].
  - intros r q [Hr <-]%lookup_gset_to_gmap_Some. apply elem_of_list_to_set in Hr.
    destruct (Hrs r Hr) as (H0 & st & Hc). split; [done|]. eexists. split; [exact Hc|by apply sample_replica].
Qed.

Lemma sample_connects fd : fd ≠ -1 → connection_granted (sample_connection fd).
Proof. intros Hfd. constructor; [done|by split|by apply client_granted_sample|done]. Qed.

Lemma sample_request cmds :
  cmds ≠ [] → Forall (accepted 1048576) cmds →
  forallb data_command (c_strings <$> cmds) && ((zlen (commands_bytes cmds) <=? 40) || negb (mark_after (c_strings <$> cmds) false)) &&
    (zlen (commands_bytes cmds) <? 65536) && (commands_steps cmds <=? 60)%nat = true →
  request_ok 1048576 60 cmds.
Proof.
  intros Hne Hacc (((Hd & Hm)%andb_prop & Hs)%andb_prop & Hf)%andb_prop. zbool. apply Nat.leb_le in Hf.
  constructor; try done. intros Hmark. rewrite Hmark in Hm. cbn in Hm. rewrite orb_false_r in Hm. by apply Z.leb_le.
Qed.

Definition fits_b (Q : gmap Z bytes) (cmds : list (list bytes)) : bool :=
  forallb (λ q, zlen q + zlen (passed cmds) <=? RING_BUFFER_SIZE) (map_to_list Q).*2.

Lemma sample_fits Q cmds : fits_b Q cmds = true → queues_fit Q cmds.
Proof.
  intros H r q Hq. unfold fits_b in H. rewrite forallb_forall in H. apply Z.leb_le, H, list_elem_of_In.
  apply list_elem_of_fmap. exists (r, q). split; [done|by apply elem_of_map_to_list].
Qed.

Definition sample_rounds : list (list act) :=
  [[Connects (sample_connection 8); Connects (sample_connection 9)];
   [Sends 9 [[lit "SET"; lit "k"; lit "v"]] false; Sends 8 [[lit "INCR"; lit "n"]; [lit "GET"; lit "k"]] true; Drains 7 10 false];
   [Sends 8 [[lit "DEL"; lit "k"]] false; Drains 7 1000 true; Sends 9 [[lit "GET"; lit "k"]] false]].

Definition sample_master : server :=
  sample_node [7] {[7 := sample_conn (sample_peer 7 CLIENT_TYPE_REPLICA REPL_STATE_NONE)]}.

Lemma clients_are_serialised_witness :
  ∃ sv', for_each (round 1048576 (replicate 8 NUL) (replicate 4 NUL) 60) sample_rounds sample_master = Ok (tt, sv') ∧
    sent 8 sv' = lit ":1" ++ CRLF ++ lit "$1" ++ CRLF ++ lit "v" ++ CRLF ++ lit "+OK" ++ CRLF ∧
    sent 9 sv' = lit "+OK" ++ CRLF ++ lit "$-1" ++ CRLF ∧
    sent 7 sv' = commands_bytes [[lit "SET"; lit "k"; lit "v"]].
Proof.
  destruct (clients_are_serialised 1048576 (replicate 8 NUL) (replicate 4 NUL) 60 ∅ {[7 := []]} (∅, 0%nat) sample_master sample_rounds
    [(8, Replies []); (9, Replies []); (9, Replies [RSimple (lit "OK")]); (8, Replies [RInteger 1; RBulk (lit "v")]);
     (7, Passed_on (take 10 (commands_bytes [[lit "SET"; lit "k"; lit "v"]])));
     (8, Replies [RSimple (lit "OK")]);
     (7, Passed_on (drop 10 (commands_bytes [[lit "SET"; lit "k"; lit "v"]]))); (9, Replies [RNull])]
    ({[lit "n" := (AStr (lit "1"), 0)]}, 0%nat)) as (sv' & E & Hsent & _).
  - lia.
  - reflexivity.
  - reflexivity.
  - assert ({[7 := []]} = gset_to_gmap ([] : bytes) (list_to_set [7])) as -> by (vm_compute; reflexivity).
    apply sample_waits.
    + vm_compute. split; discriminate || reflexivity.
    + vm_compute. split; discriminate || reflexivity.
    + repeat constructor. set_solver.
    + set_solver.
    + intros r [->|Hr]%elem_of_cons; [|by apply elem_of_nil in Hr]. split; [lia|]. exists REPL_STATE_NONE. reflexivity.
  - cbn [sample_rounds concat app acts_ok act_ok clients_after queues_after].
    repeat match goal with
    | |- _ ∧ _ => split
    | |- True => exact I
    | |- connection_granted _ => apply sample_connects; discriminate
    | |- queues_fit _ _ => apply sample_fits; vm_compute; reflexivity
    | |- request_ok _ _ _ =>
        apply sample_request; [discriminate|repeat constructor; vm_compute; discriminate|vm_compute; reflexivity]
    | |- is_Some _ => vm_compute; eexists; reflexivity
    | |- _ ∈ _ => set_solver
    | |- _ ∉ _ => set_solver
    | |- _ = _ => vm_compute; reflexivity
    end.
  - repeat constructor; set_solver.
  - intros fd Hfd. cbn in Hfd. rewrite !elem_of_cons, elem_of_nil in Hfd. destruct Hfd as [->|[->|[]]]; reflexivity.
  - vm_compute. reflexivity.
  - repeat constructor; vm_compute; discriminate || (intros; discriminate).
  - exists sv'. split; [exact E|]. rewrite !Hsent. repeat split.
Defined.
