(* ===== verification/Replicas.v ===== *)
(** * A master and its replicas

    A master with its clients and any number of replicas, each a server of its own
    with its clients, and the connections between them: bytes the master has sent
    to a replica arrive there later, one request at a time.  The servers take turns
    in any order.  The whole is shown to implement a reference machine with a log:
    the master appends the requests it passes on, and every replica runs them in
    the order of the log, at its own pace.  While nothing depends on the clock,
    every replica has at any time the keyspace of a prefix of the log, and the
    master's as soon as everything has arrived. *)

From S2P Require Import Prelude CLib RingBuffer Util Database Rdb RespWriter ServerState.
From S2P Require Import Commands CommandSpec Reference Timeless RespParser CommandHandler Wire Client ClientAlloc.
From S2P Require Import Propagation Replication ReplicationSpec Server ServerSpec Acts Clients.

(** ** The servers and the network *)

(** A replica, and how many of the bytes sent to it have arrived. *)
Record replica := MkReplica { rp_server : server; rp_received : nat }.

(** The replicas by the descriptor of their connection at the master. *)
Record system := MkSystem { sy_master : server; sy_replicas : gmap Z replica }.

(** Something happens at the master; at a replica; or the next [n] bytes on their
    way to a replica arrive there, where there may be room to write to the master. *)
Inductive sys_act := AtMaster (a : act) | AtReplica (r : Z) (a : act) | Delivered (r : Z) (n : nat) (room : bool).

Abbreviation request := (list (list bytes)).

Definition log_bytes (log : list request) : bytes := concat (commands_bytes <$> log).
Definition log_commands (log : list request) : list (list bytes) := c_strings <$> concat log.

(** ** The log and the wire *)

Lemma log_bytes_app l1 l2 : log_bytes (l1 ++ l2) = log_bytes l1 ++ log_bytes l2.
Proof. unfold log_bytes. by rewrite fmap_app, concat_app. Qed.

(** The rest of a log, in bytes. *)
Lemma log_bytes_at log i cmds :
  log !! i = Some cmds →
  log_bytes log = log_bytes (take i log) ++ commands_bytes cmds ++ log_bytes (drop (S i) log).
Proof.
  intros E. rewrite <- (take_drop_middle log i cmds E) at 1. rewrite log_bytes_app. done.
Qed.

Lemma log_bytes_done log i cmds :
  log !! i = Some cmds → log_bytes (take (S i) log) = log_bytes (take i log) ++ commands_bytes cmds.
Proof.
  intros E. rewrite (take_S_r _ _ cmds E), log_bytes_app. f_equal. unfold log_bytes. cbn. by rewrite app_nil_r.
Qed.

(** What arrives is the next request. *)
Lemma next_request (to_it queue before : bytes) log i cmds received :
  to_it ++ queue = before ++ log_bytes log → log !! i = Some cmds →
  (length queue ≤ length (log_bytes (drop (S i) log)))%nat →
  received = (length before + length (log_bytes (take i log)))%nat →
  take (length (commands_bytes cmds)) (drop received to_it) = commands_bytes cmds.
Proof.
  intros Hw E Hq ->. rewrite (log_bytes_at log i cmds E) in Hw. pose proof (f_equal length Hw) as Hl.
  rewrite !length_app in Hl. set (pre := before ++ log_bytes (take i log)).
  assert (take (length (commands_bytes cmds)) (drop (length pre) (to_it ++ queue)) = commands_bytes cmds) as Hd.
  { rewrite Hw. replace (before ++ log_bytes (take i log) ++ commands_bytes cmds ++ log_bytes (drop (S i) log))
      with (pre ++ commands_bytes cmds ++ log_bytes (drop (S i) log)) by (unfold pre; by rewrite <- app_assoc).
    by rewrite drop_app_length, take_app_length. }
  rewrite <- Hd at 2. unfold pre. rewrite !length_app, drop_app_le, take_app_le; [done|rewrite length_drop; lia|lia].
Qed.

Lemma total_args_bytes cmds : total_args cmds ≤ zlen (commands_bytes cmds).
Proof.
  induction cmds as [|args cmds IH]; [done|]. rewrite total_args_cons.
  change (commands_bytes (args :: cmds)) with (encode (RArray args) ++ commands_bytes cmds). rewrite zlen_app.
  assert (zlen args ≤ zlen (encode (RArray args))); [|lia]. cbn [encode]. rewrite !zlen_app.
  assert (zlen args ≤ zlen (concat (encode_bulk <$> args))); [|lia].
  clear. induction args as [|a args IH]; [done|]. cbn [fmap list_fmap concat length]. rewrite zlen_app. unfold encode_bulk at 1.
  rewrite !zlen_app. cbn. lia.
Qed.

Section system.
Context (max_alloc : Z) (region_ptr padding : bytes) (pf : nat).
(** The clocks of the servers, and the descriptor of each replica's link. *)
Context (clk : nat → Z * Z) (clks : Z → nat → Z * Z) (links : Z → Z).
Abbreviation turn := (turn max_alloc region_ptr padding pf).
Abbreviation handle_event := (handle_event max_alloc region_ptr padding pf).

Definition sys_turn (x : sys_act) : st system unit := λ y,
  match x with
  | AtMaster a => '(_, sv) ← turn a (sy_master y); Ok (tt, MkSystem sv (sy_replicas y))
  | AtReplica r a =>
      match sy_replicas y !! r with
      | Some rp =>
          '(_, sv) ← turn a (rp_server rp);
          Ok (tt, MkSystem (sy_master y) (<[r := MkReplica sv (rp_received rp)]> (sy_replicas y)))
      | None => Ok (tt, y)
      end
  | Delivered r n room =>
      match sy_replicas y !! r with
      | Some rp =>
          let d := take n (drop (rp_received rp) (sent r (sy_master y))) in
          '(_, sv) ← handle_event (Ready (links r) (both room EPOLLIN)) (at_sock (links r) (socket_gets d) (rp_server rp));
          Ok (tt, MkSystem (sy_master y) (<[r := MkReplica sv (rp_received rp + n)]> (sy_replicas y)))
      | None => Ok (tt, y)
      end
  end.

(** ** The reference: keyspaces and a log *)

(** A replica has run the first [nd_done] requests of the log. *)
Record node := MkNode { nd_ks : ks; nd_clients : gset Z; nd_done : nat }.

Record spec := MkSpec {
  sp_ks : ks;
  sp_clients : gset Z;
  sp_queues : gmap Z bytes;
  sp_log : list request;
  sp_replicas : gmap Z node
}.

(** What is passed on. *)
Definition logged (a : act) : list request :=
  match a with
  | Sends _ cmds _ => if mark_after (c_strings <$> cmds) false then [cmds] else []
  | _ => []
  end.

(** A request reaches a replica when the master's queue no longer holds it. *)
Inductive spec_step : spec → sys_act → spec → Prop :=
| step_master s D Q log R a r s' :
    act_ok max_alloc pf D Q a → spec_act clk Q a s = Ok (r, s') → answer_ok r →
    spec_step (MkSpec s D Q log R) (AtMaster a)
      (MkSpec s' (clients_after D a) (queues_after Q a) (log ++ logged a) R)
| step_replica s D Q log R r nd a b s' :
    R !! r = Some nd → (∀ cmds room, a ≠ Sends (links r) cmds room) → act_ok max_alloc pf (nd_clients nd) ∅ a →
    spec_act (clks r) ∅ a (nd_ks nd) = Ok (b, s') → answer_ok b →
    spec_step (MkSpec s D Q log R) (AtReplica r a)
      (MkSpec s D Q log (<[r := MkNode s' (clients_after (nd_clients nd) a) (nd_done nd)]> R))
| step_delivered s D Q log R r nd q cmds room rs s' :
    R !! r = Some nd → Q !! r = Some q → log !! nd_done nd = Some cmds →
    (length q ≤ length (log_bytes (drop (S (nd_done nd)) log)))%nat →
    spec_commands (clks r) (c_strings <$> cmds) (nd_ks nd) = Ok (rs, s') → replies_ok rs →
    spec_step (MkSpec s D Q log R) (Delivered r (length (commands_bytes cmds)) room)
      (MkSpec s D Q log (<[r := MkNode s' (nd_clients nd) (S (nd_done nd))]> R)).

Inductive spec_run : spec → list sys_act → spec → Prop :=
| run_nil sp : spec_run sp [] sp
| run_cons sp x sp1 xs sp2 : spec_step sp x sp1 → spec_run sp1 xs sp2 → spec_run sp (x :: xs) sp2.

(** ** The servers implement the reference *)

(** Nobody else is connected. *)
Definition known (D : gset Z) (Q : gmap Z bytes) (sv : server) : Prop :=
  ∀ fd, fd ∉ D → Q !! fd = None → sv_conns sv !! fd = None.

(** One replica: its server is at [nd], and what is on its way from the master and
    in the master's queue is the rest of the log. *)
Record replica_rep (k n : Z) (log : list request) (to_it queue : bytes) (r : Z) (nd : node) (rp : replica) : Prop := {
  rr_node : waits (nd_clients nd) ∅ (clks r) (nd_ks nd) k n (rp_server rp);
  rr_known : known (nd_clients nd) ∅ (rp_server rp);
  rr_link : links r ∈ nd_clients nd;
  rr_done : (nd_done nd ≤ length log)%nat;
  rr_wire : ∃ before, to_it ++ queue = before ++ log_bytes log ∧
              rp_received rp = (length before + length (log_bytes (take (nd_done nd) log)))%nat
}.

(** With [k] more turns and [n] more arguments to spare. *)
Record sys_rep (k n : Z) (sp : spec) (y : system) : Prop := {
  sr_master : waits (sp_clients sp) (sp_queues sp) clk (sp_ks sp) k n (sy_master y);
  sr_known : known (sp_clients sp) (sp_queues sp) (sy_master y);
  sr_log : Forall (λ cmds, request_ok max_alloc pf cmds ∧ mark_after (c_strings <$> cmds) false = true) (sp_log sp);
  sr_replicas : ∀ r nd, sp_replicas sp !! r = Some nd → ∃ rp q, sy_replicas y !! r = Some rp ∧
                  sp_queues sp !! r = Some q ∧ replica_rep k n (sp_log sp) (sent r (sy_master y)) q r nd rp
}.

(** What a turn may add to a keyspace. *)
Definition sys_cost (x : sys_act) : Z :=
  match x with AtMaster a | AtReplica _ a => act_args a | Delivered _ n _ => Z.of_nat n end.
Definition sys_costs (xs : list sys_act) : Z := foldr (λ x n, sys_cost x + n) 0 xs.

Lemma sys_cost_nonneg x : 0 ≤ sys_cost x.
Proof. destruct x; cbn; [apply act_args_nonneg|apply act_args_nonneg|lia]. Qed.

Lemma sys_costs_nonneg xs : 0 ≤ sys_costs xs.
Proof. induction xs as [|x xs IH]; cbn; [done|]. pose proof (sys_cost_nonneg x). unfold sys_costs in IH. lia. Qed.
Context (Hmax : max_alloc < 2 ^ 63) (Hptr : zlen region_ptr = 8) (Hpad : zlen padding = 4).

Lemma waits_weaken D Q c s k k' n n' sv : k' ≤ k → n' ≤ n → waits D Q c s k n sv → waits D Q c s k' n' sv.
Proof.
  intros Hk Hn Hw. eapply waits_less in Hw as [[Hdb HA] ? ? ? ? ? ?]; [|exact Hk]. constructor; try done.
  split; [done|]. by eapply room_weaken.
Qed.

Lemma replica_rep_weaken k k' n n' log t q r nd rp :
  k' ≤ k → n' ≤ n → replica_rep k n log t q r nd rp → replica_rep k' n' log t q r nd rp.
Proof. intros Hk Hn [Hw ? ? ? ?]. constructor; try done. by eapply waits_weaken. Qed.

(** A turn of one server of the system. *)
Lemma node_turn D Q c s k n sv a b s' :
  waits D Q c s k n sv → known D Q sv → 1 ≤ k → act_args a ≤ n → act_ok max_alloc pf D Q a →
  spec_act c Q a s = Ok (b, s') → answer_ok b →
  ∃ sv', turn a sv = Ok (tt, sv') ∧ waits (clients_after D a) (queues_after Q a) c s' (k - 1) (n - act_args a) sv' ∧
    known (clients_after D a) (queues_after Q a) sv' ∧
    (∀ r, r ≠ act_fd a → sent r sv' = sent r sv) ∧ sent (act_fd a) sv' = sent (act_fd a) sv ++ answer_bytes b.
Proof.
  intros Hw Hkn Hk Hn Ha E Hb.
  destruct (turn_ok max_alloc region_ptr padding pf Hmax Hptr Hpad D Q c s k n sv a b s' Hw Hk Hn Ha) as
    (sv' & Et & Hw' & Ho & Hso & Hs); [|done|done|].
  { intros fd Hfd. destruct a as [os|fd' cmds room|r m input|fd' ev]; cbn in Hfd; try (by apply elem_of_nil in Hfd).
    apply list_elem_of_singleton in Hfd as ->. destruct Ha as (_ & _ & ? & ?). by apply Hkn. }
  exists sv'. split_and!; try done. intros fd HD HQ. rewrite queues_after_none in HQ.
  assert (fd ∉ D) as HD' by (destruct a; cbn in HD; set_solver).
  rewrite Ho; [by apply Hkn| |done]. intros ->.
  destruct (act_fd_known _ _ _ _ _ Ha) as [?|[Hc|[q ?]]]; [done| |congruence].
  destruct a as [os| | |]; cbn in Hc, HD; [set_solver|by apply elem_of_nil in Hc..].
Qed.

(** *** One turn *)

Lemma sim_master k n s D Q log R a b s' y :
  sys_rep k n (MkSpec s D Q log R) y → 1 ≤ k → act_args a ≤ n →
  act_ok max_alloc pf D Q a → spec_act clk Q a s = Ok (b, s') → answer_ok b →
  ∃ y', sys_turn (AtMaster a) y = Ok (tt, y') ∧
    sys_rep (k - 1) (n - act_args a) (MkSpec s' (clients_after D a) (queues_after Q a) (log ++ logged a) R) y'.
Proof.
  intros [Hm Hkn Hlog Hreps] Hk Hn Ha E Hb. cbn [sp_ks sp_clients sp_queues sp_log sp_replicas] in *.
  destruct (node_turn D Q clk s k n (sy_master y) a b s' Hm Hkn Hk Hn Ha E Hb) as (sv' & Et & Hw' & Hk' & Hso & Hs).
  pose proof (act_args_nonneg a) as Hpos.
  eexists. split; [unfold sys_turn; rewrite Et; reflexivity|]. constructor; cbn [sp_ks sp_clients sp_queues sp_log sp_replicas sy_master sy_replicas]; try done.
  - apply Forall_app. split; [done|]. destruct a as [os|fd cmds room|r m input|fd ev]; cbn [logged]; try (by apply Forall_nil).
    destruct (mark_after _ _) eqn:Em; [|by apply Forall_nil]. destruct Ha as (_ & ? & _). by apply Forall_singleton.
  - intros r nd Hnd. destruct (Hreps r nd Hnd) as (rp & q & Hrp & Hq & [Hwr Hkr Hlr Hdr (before & Hwire & Hrec)]).
    exists rp. assert (∃ q', queues_after Q a !! r = Some q' ∧ sent r sv' ++ q' = (sent r (sy_master y) ++ q) ++ log_bytes (logged a)) as (q' & Hq' & Hsame).
    { destruct a as [os|fd cmds room|r' m input|fd ev]; cbn [queues_after logged act_fd spec_act act_ok] in *.
      - exists q. rewrite Hso by (destruct Ha as (_ & _ & _ & ?); congruence). by rewrite app_nil_r.
      - exists (q ++ passed cmds). rewrite lookup_fmap, Hq. split; [done|].
        rewrite Hso by (intros ->; destruct Ha as (HD & _); pose proof (waits_apart _ _ _ _ _ _ _ _ Hm HD); congruence).
        rewrite app_assoc. f_equal. unfold passed, log_bytes. destruct (mark_after _ _); [|done]. cbn. by rewrite app_nil_r.
      - injection E as <- <-. cbn [answer_bytes] in Hs. change (log_bytes []) with ([] : bytes). rewrite app_nil_r.
        destruct (decide (r = r')) as [->|Hne].
        + exists (drop m q). rewrite lookup_alter_eq, Hq. split; [done|]. rewrite Hs, Hq. cbn [default from_option].
          by rewrite <- app_assoc, take_drop.
        + exists q. rewrite lookup_alter_ne by done. by rewrite Hso.
      - injection E as <- <-. exists q. change (log_bytes []) with ([] : bytes). rewrite app_nil_r.
        destruct (decide (r = fd)) as [->|Hne]; [|by rewrite Hso]. rewrite Hs. cbn. by rewrite app_nil_r. }
    exists q'. split_and!; [done|done|]. constructor; try done; [by eapply waits_weaken; [| |exact Hwr]; lia|rewrite length_app; lia|].
    exists before. rewrite Hsame, Hwire, log_bytes_app, app_assoc. split; [done|]. by rewrite take_app_le.
Qed.

(** A replica that has moved on, the others having waited. *)
Lemma sim_one k k' n n' s D Q log R y r nd rp :
  sys_rep k n (MkSpec s D Q log R) y → k' ≤ k → n' ≤ n →
  (∃ q, Q !! r = Some q ∧ replica_rep k' n' log (sent r (sy_master y)) q r nd rp) →
  sys_rep k' n' (MkSpec s D Q log (<[r := nd]> R)) (MkSystem (sy_master y) (<[r := rp]> (sy_replicas y))).
Proof.
  intros [Hm Hkn Hlog Hreps] Hk Hn (q & Hq & Hr). cbn [sp_ks sp_clients sp_queues sp_log sp_replicas] in *.
  constructor; cbn [sp_ks sp_clients sp_queues sp_log sp_replicas sy_master sy_replicas]; try done; [by eapply waits_weaken|].
  intros r' nd' Hnd. destruct (decide (r' = r)) as [->|Hne].
  - rewrite lookup_insert_eq in Hnd. injection Hnd as <-. exists rp, q. rewrite lookup_insert_eq. by split_and!.
  - rewrite lookup_insert_ne in Hnd by done. destruct (Hreps r' nd' Hnd) as (rp' & q' & ? & ? & ?).
    exists rp', q'. rewrite lookup_insert_ne by done. split_and!; [done|done|]. by eapply replica_rep_weaken.
Qed.

Lemma sim_replica k n s D Q log R r nd a b s' y :
  sys_rep k n (MkSpec s D Q log R) y → 1 ≤ k → act_args a ≤ n → R !! r = Some nd →
  act_ok max_alloc pf (nd_clients nd) ∅ a → spec_act (clks r) ∅ a (nd_ks nd) = Ok (b, s') → answer_ok b →
  ∃ y', sys_turn (AtReplica r a) y = Ok (tt, y') ∧
    sys_rep (k - 1) (n - act_args a)
      (MkSpec s D Q log (<[r := MkNode s' (clients_after (nd_clients nd) a) (nd_done nd)]> R)) y'.
Proof.
  intros Hsys Hk Hn Hnd Ha E Hb. pose proof (act_args_nonneg a) as Hpos.
  destruct (sr_replicas _ _ _ _ Hsys r nd Hnd) as (rp & q & Hrp & Hq & [Hw Hkn Hl Hd Hwire]).
  destruct (node_turn _ _ _ _ k n _ a b s' Hw Hkn Hk Hn Ha E Hb) as (sv' & Et & Hw' & Hk' & _).
  assert (queues_after ∅ a = ∅) as HQ by (destruct a; [done|apply fmap_empty|by destruct Ha; simplify_map_eq|done]).
  rewrite HQ in Hw', Hk'. eexists. split; [unfold sys_turn; rewrite Hrp, Et; reflexivity|].
  eapply sim_one; [exact Hsys|lia|lia|]. exists q. split; [done|]. constructor; try done.
  destruct a; cbn [nd_clients clients_after]; set_solver.
Qed.

Lemma sim_delivered k n s D Q log R r nd q cmds room rs s' y :
  sys_rep k n (MkSpec s D Q log R) y → 1 ≤ k → zlen (commands_bytes cmds) ≤ n → R !! r = Some nd →
  Q !! r = Some q → log !! nd_done nd = Some cmds →
  (length q ≤ length (log_bytes (drop (S (nd_done nd)) log)))%nat →
  spec_commands (clks r) (c_strings <$> cmds) (nd_ks nd) = Ok (rs, s') → replies_ok rs →
  ∃ y', sys_turn (Delivered r (length (commands_bytes cmds)) room) y = Ok (tt, y') ∧
    sys_rep (k - 1) (n - zlen (commands_bytes cmds))
      (MkSpec s D Q log (<[r := MkNode s' (nd_clients nd) (S (nd_done nd))]> R)) y'.
Proof.
  intros Hsys Hk Hn Hnd Hq Hlog Hlen E Hrs. pose proof (total_args_bytes cmds) as Hargs.
  destruct (sr_replicas _ _ _ _ Hsys r nd Hnd) as (rp & q' & Hrp & Hq' & [Hw Hkn Hl Hd (before & Hwire & Hrec)]).
  cbn [sp_queues sp_log] in *. assert (q' = q) as -> by congruence.
  pose proof (sr_log _ _ _ _ Hsys) as Hok. cbn [sp_log] in Hok. pose proof (Forall_lookup_1 _ _ _ _ Hok Hlog) as [Hro Hmk].
  destruct (node_turn _ _ _ _ k n (rp_server rp) (Sends (links r) cmds room) (Replies rs) s' Hw Hkn) as (sv' & Et & Hw' & Hk' & _);
    [done|cbn; lia|by split_and!|cbn [spec_act]; by rewrite E|done|].
  cbn [clients_after queues_after act_args] in *. rewrite fmap_empty in Hw', Hk'.
  eexists. split; [unfold sys_turn; rewrite Hrp, (next_request _ _ _ _ _ _ _ Hwire Hlog Hlen Hrec) by done; unfold turn in Et;
    cbn [act_event act_arrives act_sock act_fd] in Et; rewrite Et; reflexivity|].
  eapply sim_one; [exact Hsys|lia|lia|]. exists q. split; [done|]. constructor; cbn [nd_clients nd_ks nd_done rp_server rp_received]; try done.
  - eapply waits_weaken; [| |exact Hw']; lia.
  - apply lookup_lt_Some in Hlog. lia.
  - exists before. split; [done|]. rewrite (log_bytes_done _ _ _ Hlog), length_app, Hrec. lia.
Qed.

(** A step of the reference is a turn of the servers. *)
Lemma sim_step k n sp x sp' y :
  sys_rep k n sp y → 1 ≤ k → sys_cost x ≤ n → spec_step sp x sp' →
  ∃ y', sys_turn x y = Ok (tt, y') ∧ sys_rep (k - 1) (n - sys_cost x) sp' y'.
Proof.
  intros Hsys Hk Hn Hstep. destruct Hstep; cbn [sys_cost] in *.
  - by eapply sim_master.
  - by eapply sim_replica.
  - by eapply sim_delivered.
Qed.

Lemma sim_run k n sp xs sp' y :
  spec_run sp xs sp' → sys_rep k n sp y → zlen xs ≤ k → sys_costs xs ≤ n →
  ∃ y', for_each sys_turn xs y = Ok (tt, y') ∧ sys_rep (k - zlen xs) (n - sys_costs xs) sp' y'.
Proof.
  intros Hrun. revert k n y. induction Hrun as [sp|sp x sp1 xs sp2 Hstep _ IH]; intros k n y Hsys Hk Hn.
  { exists y. cbn. by rewrite !Z.sub_0_r. }
  rewrite length_cons in Hk. cbn [sys_costs foldr] in Hn. fold (sys_costs xs) in Hn.
  pose proof (sys_costs_nonneg xs). destruct (sim_step k n sp x sp1 y Hsys) as (y1 & E & Hsys1); [lia|lia|done|].
  destruct (IH _ _ _ Hsys1) as (y' & Es & Hsys'); [lia|lia|]. exists y'. cbn [for_each].
  erewrite st_bind_ok by exact E. split; [exact Es|]. rewrite length_cons. cbn [sys_costs foldr]. fold (sys_costs xs).
  replace (k - Z.of_nat (S (length xs))) with (k - 1 - zlen xs) by lia.
  by replace (n - (sys_cost x + sys_costs xs)) with (n - sys_cost x - sys_costs xs) by lia.
Qed.
End system.

(** ** Consistency *)

(** The requests that are passed on do not look at the clock, the others only read;
    the clients of a replica only read. *)
Definition plain_act (x : sys_act) : bool :=
  match x with
  | AtMaster (Sends _ cmds _) =>
      forallb (if mark_after (c_strings <$> cmds) false then timeless else read_only) (c_strings <$> cmds)
  | AtReplica _ (Sends _ cmds _) => forallb read_only (c_strings <$> cmds)
  | _ => true
  end.

(** The keyspace [A] is what the log makes of [A0]. *)
Definition logs (A0 : adb) (log : list request) (A : adb) : Prop :=
  ∃ rs, plain_run (log_commands log) A0 = Ok (rs, A).

Record consistent (A0 : adb) (sp : spec) : Prop := {
  co_lasting : lasting A0;
  co_log : forallb timeless (log_commands (sp_log sp)) = true;
  co_master : logs A0 (sp_log sp) (sp_ks sp).1;
  co_replicas : ∀ r nd, sp_replicas sp !! r = Some nd → (nd_done nd ≤ length (sp_log sp))%nat ∧
                  logs A0 (take (nd_done nd) (sp_log sp)) (nd_ks nd).1
}.

Lemma log_commands_app l1 l2 : log_commands (l1 ++ l2) = log_commands l1 ++ log_commands l2.
Proof. unfold log_commands. by rewrite concat_app, fmap_app. Qed.

Lemma log_commands_one cmds : log_commands [cmds] = c_strings <$> cmds.
Proof. unfold log_commands. cbn. by rewrite app_nil_r. Qed.

Lemma logs_lasting A0 log A : lasting A0 → forallb timeless (log_commands log) = true → logs A0 log A → lasting A.
Proof. intros HA Ht (rs & E). by eapply plain_run_lasting. Qed.

(** One more request of the log. *)
Lemma logs_more A0 log A cmds clk t rs s' :
  lasting A0 → forallb timeless (log_commands log) = true → logs A0 log A →
  forallb timeless (c_strings <$> cmds) = true → spec_commands clk (c_strings <$> cmds) (A, t) = Ok (rs, s') →
  logs A0 (log ++ [cmds]) s'.1.
Proof.
  intros HA Hl [rs0 E0] Ht E. pose proof (plain_run_lasting _ _ _ _ HA Hl E0) as HA'.
  destruct (timeless_run clk _ A t rs s' HA' Ht E) as [E1 _]. exists (rs0 ++ rs).
  rewrite log_commands_app, log_commands_one. by eapply plain_run_app.
Qed.

Lemma timeless_prefix log i :
  forallb timeless (log_commands log) = true → forallb timeless (log_commands (take i log)) = true.
Proof.
  rewrite <- (take_drop i log) at 1. rewrite log_commands_app, forallb_app. by intros [? _]%andb_prop.
Qed.

Lemma timeless_at log i cmds :
  forallb timeless (log_commands log) = true → log !! i = Some cmds → forallb timeless (c_strings <$> cmds) = true.
Proof.
  intros Hl E. rewrite <- (take_drop_middle log i cmds E) in Hl. change (cmds :: drop (S i) log) with ([cmds] ++ drop (S i) log) in Hl.
  rewrite !log_commands_app, !forallb_app in Hl.
  apply andb_prop in Hl as [_ [Hl _]%andb_prop]. by rewrite log_commands_one in Hl.
Qed.

Lemma consistent_step max_alloc pf clk clks links A0 sp x sp' :
  consistent A0 sp → plain_act x = true → spec_step max_alloc pf clk clks links sp x sp' → consistent A0 sp'.
Proof.
  intros [HA Hl Hm Hr] Hp Hstep. destruct Hstep as
    [s D Q log R a b s' Ha E Hb|s D Q log R r nd a b s' Hnd _ Ha E Hb|s D Q log R r nd q cmds room rs s' Hnd _ Hlog _ E _];
    cbn [sp_log sp_ks sp_replicas] in *.
  - assert (logs A0 (log ++ logged a) s'.1 ∧ forallb timeless (log_commands (log ++ logged a)) = true) as [Hm' Hl'].
    { destruct a as [os|fd cmds room|r m input|fd ev]; cbn [logged spec_act plain_act] in *;
        [by injection E as _ <-; rewrite app_nil_r| |by injection E as _ <-; rewrite app_nil_r..].
      destruct s as [A t]. destruct (spec_commands clk _ (A, t)) as [[rs s1]|] eqn:Es; [|done]. injection E as _ <-.
      destruct (mark_after _ _).
      - split; [by eapply logs_more|]. by rewrite log_commands_app, log_commands_one, forallb_app, Hl, Hp.
      - rewrite app_nil_r. pose proof (logs_lasting _ _ _ HA Hl Hm) as HA'.
        by rewrite (read_only_run clk _ A t rs s1 HA' Hp Es). }
    constructor; try done. intros r nd Hnd. destruct (Hr r nd Hnd) as [Hd Hlg]. cbn [sp_log].
    split; [rewrite length_app; lia|]. by rewrite take_app_le.
  - constructor; try done. intros r' nd' Hnd'. cbn [sp_replicas sp_log] in *.
    destruct (decide (r' = r)) as [->|Hne]; [|rewrite lookup_insert_ne in Hnd' by done; by apply (Hr r')].
    rewrite lookup_insert_eq in Hnd'. injection Hnd' as <-. destruct (Hr r nd Hnd) as [Hd Hlg]. cbn [nd_done nd_ks]. split; [done|].
    destruct a as [os|fd cmds room|r0 m input|fd ev]; cbn [spec_act plain_act] in *; [by injection E as _ <-| |by injection E as _ <-..].
    destruct (nd_ks nd) as [A t]. destruct (spec_commands (clks r) _ (A, t)) as [[rs s1]|] eqn:Es; [|done]. injection E as _ <-.
    pose proof (logs_lasting _ _ _ HA (timeless_prefix _ _ Hl) Hlg) as HA'.
    by rewrite (read_only_run (clks r) _ A t rs s1 HA' Hp Es).
  - constructor; try done. intros r' nd' Hnd'. cbn [sp_replicas sp_log] in *.
    destruct (decide (r' = r)) as [->|Hne]; [|rewrite lookup_insert_ne in Hnd' by done; by apply (Hr r')].
    rewrite lookup_insert_eq in Hnd'. injection Hnd' as <-. destruct (Hr r nd Hnd) as [Hd Hlg]. cbn [nd_done nd_ks].
    split; [by apply lookup_lt_Some in Hlog|]. rewrite (take_S_r _ _ cmds Hlog). destruct (nd_ks nd) as [A t].
    eapply logs_more; [exact HA|by apply timeless_prefix|exact Hlg|by eapply timeless_at|exact E].
Qed.

Lemma consistent_run max_alloc pf clk clks links A0 sp xs sp' :
  spec_run max_alloc pf clk clks links sp xs sp' → forallb plain_act xs = true → consistent A0 sp → consistent A0 sp'.
Proof.
  intros Hrun. induction Hrun as [sp|sp x sp1 xs sp2 Hstep _ IH]; intros Hp Hc; [done|].
  cbn [forallb] in Hp. apply andb_prop in Hp as [Hx Hxs]. apply IH; [done|]. by eapply consistent_step.
Qed.

(** Everything has arrived. *)
Lemma all_done (to_it before : bytes) log i :
  to_it = before ++ log_bytes log → length to_it = (length before + length (log_bytes (take i log)))%nat →
  (i ≤ length log)%nat → Forall (λ cmds : request, cmds ≠ []) log → i = length log.
Proof.
  intros -> Hl Hi Hne. rewrite length_app in Hl. destruct (decide (i < length log)%nat) as [Hlt|]; [|lia].
  apply lookup_lt_is_Some_2 in Hlt as [cmds E]. rewrite (log_bytes_at log i cmds E), !length_app in Hl.
  pose proof (commands_bytes_nonempty cmds (Forall_lookup_1 _ _ _ _ Hne E)) as Hb.
  destruct (commands_bytes cmds); [done|]. simpl in Hl. lia.
Qed.

(** The servers at the start: all have the keyspace [A0], in which nothing
    expires, and the replicas have got all that was sent to them. *)
Record in_step (A0 : adb) (sp : spec) : Prop := {
  st_lasting : lasting A0;
  st_log : sp_log sp = [];
  st_master : (sp_ks sp).1 = A0;
  st_replicas : ∀ r nd, sp_replicas sp !! r = Some nd → nd_done nd = 0%nat ∧ (nd_ks nd).1 = A0
}.

Lemma in_step_consistent A0 sp : in_step A0 sp → consistent A0 sp.
Proof.
  intros [HA Hl Hm Hr]. constructor; rewrite ?Hl; try done; [rewrite Hm; by exists []|].
  intros r nd Hnd. destruct (Hr r nd Hnd) as [-> ->]. split; [done|by exists []].
Qed.

(** Every replica has the keyspace of a prefix of the log. *)
Lemma system_follows max_alloc region_ptr padding pf clk clks links A0 sp xs sp' y :
  max_alloc < 2 ^ 63 → zlen region_ptr = 8 → zlen padding = 4 →
  sys_rep max_alloc pf clk clks links (zlen xs) (sys_costs xs) sp y → in_step A0 sp →
  spec_run max_alloc pf clk clks links sp xs sp' → forallb plain_act xs = true →
  ∃ y' A, for_each (sys_turn max_alloc region_ptr padding pf links) xs y = Ok (tt, y') ∧
    logs A0 (sp_log sp') A ∧ db_rep (sv_mem (sy_master y')) A ∧
    ∀ r, is_Some (sp_replicas sp' !! r) → ∃ rp q i B,
      sy_replicas y' !! r = Some rp ∧ sp_queues sp' !! r = Some q ∧ (i ≤ length (sp_log sp'))%nat ∧
      logs A0 (take i (sp_log sp')) B ∧ db_rep (sv_mem (rp_server rp)) B ∧
      (q = [] → rp_received rp = length (sent r (sy_master y')) → B = A).
Proof.
  intros Hmax Hptr Hpad Hsys Hin Hrun Hp.
  destruct (sim_run max_alloc region_ptr padding pf clk clks links Hmax Hptr Hpad _ _ sp xs sp' y Hrun Hsys)
    as (y' & E & [[[Hdb _] _ _ _ _ _ _] _ Hlog Hreps]); [done|done|].
  destruct (consistent_run _ _ _ _ _ A0 sp xs sp' Hrun Hp (in_step_consistent _ _ Hin)) as [HA Ht Hm Hr].
  exists y', (sp_ks sp').1. split_and!; [done|done|done|]. intros r [nd Hnd].
  destruct (Hreps r nd Hnd) as (rp & q & Hrp & Hq & [[[Hdbr _] _ _ _ _ _ _] _ _ Hd (before & Hwire & Hrec)]).
  destruct (Hr r nd Hnd) as [_ Hlg]. exists rp, q, (nd_done nd), (nd_ks nd).1. split_and!; try done.
  intros -> Hall. rewrite app_nil_r in Hwire. rewrite Hall in Hrec.
  rewrite (all_done _ _ _ _ Hwire Hrec Hd) in Hlg by (eapply Forall_impl; [exact Hlog|]; by intros cmds [[[? _] _ _ _ _] _]).
  rewrite firstn_all in Hlg. destruct Hlg as [rs1 E1], Hm as [rs2 E2]. congruence.
Qed.


(** ** Witness: a replica that keeps up and one that lags *)

Definition sample_set (v : bytes) : request := [[lit "SET"; lit "k"; v]].

Definition sample_follower : server :=
  sample_node [] {[9 := sample_conn (sample_peer 9 CLIENT_TYPE_MASTER REPL_STATE_READY);
                   10 := sample_conn (sample_peer 10 CLIENT_TYPE_REGULAR REPL_STATE_NONE)]}.

Definition sample_system : system :=
  MkSystem
    (sample_node [6; 7] {[6 := sample_conn (sample_peer 6 CLIENT_TYPE_REPLICA REPL_STATE_NONE);
                          7 := sample_conn (sample_peer 7 CLIENT_TYPE_REPLICA REPL_STATE_NONE);
                          8 := sample_conn (sample_peer 8 CLIENT_TYPE_REGULAR REPL_STATE_NONE)]})
    {[6 := MkReplica sample_follower 0; 7 := MkReplica sample_follower 0]}.

(** The keyspaces of the master and of the second replica, the queues and the log. *)
Definition sample_spec (A B : adb) (q6 q7 : bytes) (log : list request) (done : nat) : spec :=
  MkSpec (A, 0%nat) {[8]} {[6 := q6; 7 := q7]} log
    {[6 := MkNode (∅, 0%nat) {[9; 10]} 0; 7 := MkNode (B, 0%nat) {[9; 10]} done]}.
Definition sample_value (v : bytes) : adb := {[lit "k" := (AStr v, 0)]}.
Definition sample_start : spec := sample_spec ∅ ∅ [] [] [] 0.

Definition sample_turns : list sys_act :=
  [AtMaster (Sends 8 (sample_set (lit "v")) false); AtMaster (Drains 7 1000 false);
   Delivered 7 (length (commands_bytes (sample_set (lit "v")))) true;
   AtReplica 7 (Sends 10 [[lit "GET"; lit "k"]] false); AtReplica 7 (Idles 9 EPOLLOUT); AtMaster (Idles 7 EPOLLIN);
   AtMaster (Sends 8 (sample_set (lit "w")) false); AtMaster (Drains 6 20 false)].

Lemma sample_follower_rep r :
  replica_rep (λ _, tick_clock) (λ _, 9) 8 1000 [] [] [] r (MkNode (∅, 0%nat) {[9; 10]} 0) (MkReplica sample_follower 0).
Proof.
  constructor; cbn [nd_clients nd_ks nd_done rp_server rp_received].
  - apply (sample_waits {[9; 10]} []); [lia|lia|constructor| |by intros r' ?%elem_of_nil].
    intros fd. rewrite elem_of_union, !elem_of_singleton.
    intros [->| ->].
    + exists CLIENT_TYPE_MASTER, REPL_STATE_READY. split; [reflexivity|by right].
    + exists CLIENT_TYPE_REGULAR, REPL_STATE_NONE. split; [reflexivity|by left].
  - intros fd HD _. cbn. by rewrite lookup_insert_ne, lookup_singleton_ne by set_solver.
  - set_solver.
  - done.
  - by exists [].
Qed.

Lemma sample_sys_rep : sys_rep 1048576 60 tick_clock (λ _, tick_clock) (λ _, 9) 8 1000 sample_start sample_system.
Proof.
  constructor; cbn [sp_ks sp_clients sp_queues sp_log sp_replicas sample_start sample_spec sy_master sy_replicas sample_system].
  - change {[6 := []; 7 := []]} with (gset_to_gmap ([] : bytes) (list_to_set [6; 7])).
    apply sample_waits; [lia|lia|repeat constructor; set_solver| |].
    + intros fd ->%elem_of_singleton. exists CLIENT_TYPE_REGULAR, REPL_STATE_NONE. split; [reflexivity|by left].
    + intros r. rewrite !elem_of_cons, elem_of_nil. intros [->|[->|[]]]; (split; [lia|]); exists REPL_STATE_NONE; reflexivity.
  - intros fd HD [H7%lookup_singleton_None H6]%lookup_insert_None. cbn. by rewrite !lookup_insert_ne, lookup_singleton_ne by set_solver.
  - constructor.
  - intros r nd. rewrite lookup_insert_Some, lookup_singleton_Some. intros [[<- <-]|[_ [<- <-]]];
      (exists (MkReplica sample_follower 0), []; split; [reflexivity|split; [reflexivity|exact (sample_follower_rep _)]]).
Qed.

Lemma step_to max_alloc pf clk clks links sp x sp1 sp2 :
  spec_step max_alloc pf clk clks links sp x sp1 → sp1 = sp2 → spec_step max_alloc pf clk clks links sp x sp2.
Proof. by intros H <-. Qed.

(** A turn of the sample, by computation. *)
Ltac sample_step_of r sp :=
  apply (run_cons _ _ _ _ _ _ _ sp);
  [eapply step_to; [first [eapply step_master | eapply (step_delivered _ _ _ _ _ _ _ _ _ _ r) | eapply step_replica]|];
   repeat match goal with
   | |- act_ok _ _ _ _ _ => cbn [act_ok]
   | |- _ ∧ _ => split
   | |- queues_fit _ _ => apply sample_fits; vm_compute; reflexivity
   | |- request_ok _ _ _ =>
       apply sample_request; [discriminate|repeat constructor; vm_compute; discriminate|vm_compute; reflexivity]
   | |- is_Some _ => vm_compute; eexists; reflexivity
   | |- _ ∈ _ => apply (bool_decide_unpack _); vm_compute; exact I
   | |- ∀ cmds room, _ ≠ _ => intros ? ? [=]
   | |- _ ≠ _ => vm_compute; discriminate
   | |- _ ∈ _ ∧ _ ∨ _ =>
       first [left; split; [apply (bool_decide_unpack _); vm_compute; exact I|reflexivity]
             |right; split; [vm_compute; eexists; reflexivity|reflexivity]]
   | |- answer_ok _ => cbn [answer_ok]
   | |- True => exact I
   | |- replies_ok _ => repeat constructor; vm_compute; discriminate || (intros; discriminate)
   | |- (_ ≤ _)%nat => apply Nat.leb_le; vm_compute; reflexivity
   | |- _ = _ => vm_compute; reflexivity
   end
  |].
Ltac sample_step sp := sample_step_of 7 sp.

Lemma sample_run :
  ∃ sp', spec_run 1048576 60 tick_clock (λ _, tick_clock) (λ _, 9) sample_start sample_turns sp' ∧
    sp_log sp' = [sample_set (lit "v"); sample_set (lit "w")].
Proof.
  set (d := λ v, commands_bytes (sample_set (lit v))).
  exists (sample_spec (sample_value (lit "w")) (sample_value (lit "v")) (drop 20 (d "v" ++ d "w")) (d "w") [sample_set (lit "v"); sample_set (lit "w")] 1).
  split; [|reflexivity]. unfold sample_turns.
  sample_step (sample_spec (sample_value (lit "v")) ∅ (d "v") (d "v") [sample_set (lit "v")] 0).
  sample_step (sample_spec (sample_value (lit "v")) ∅ (d "v") [] [sample_set (lit "v")] 0).
  sample_step (sample_spec (sample_value (lit "v")) (sample_value (lit "v")) (d "v") [] [sample_set (lit "v")] 1).
  sample_step (sample_spec (sample_value (lit "v")) (sample_value (lit "v")) (d "v") [] [sample_set (lit "v")] 1).
  sample_step (sample_spec (sample_value (lit "v")) (sample_value (lit "v")) (d "v") [] [sample_set (lit "v")] 1).
  sample_step (sample_spec (sample_value (lit "v")) (sample_value (lit "v")) (d "v") [] [sample_set (lit "v")] 1).
  sample_step (sample_spec (sample_value (lit "w")) (sample_value (lit "v")) (d "v" ++ d "w") (d "w") [sample_set (lit "v"); sample_set (lit "w")] 1).
  sample_step (sample_spec (sample_value (lit "w")) (sample_value (lit "v")) (drop 20 (d "v" ++ d "w")) (d "w") [sample_set (lit "v"); sample_set (lit "w")] 1).
  apply run_nil.
Qed.

Lemma sample_sys_rep_turns :
  sys_rep 1048576 60 tick_clock (λ _, tick_clock) (λ _, 9) (zlen sample_turns) (sys_costs sample_turns) sample_start sample_system.
Proof.
  assert (zlen sample_turns ≤ 8) as Hk by (vm_compute; discriminate).
  assert (sys_costs sample_turns ≤ 1000) as Hn by (vm_compute; discriminate).
  destruct sample_sys_rep as [Hm Hkn Hl Hr]. constructor; [by eapply waits_weaken|exact Hkn|exact Hl|].
  intros r nd Hnd. destruct (Hr r nd Hnd) as (rp & q & H1 & H2 & H3). exists rp, q. split_and!; [done|done|].
  by eapply replica_rep_weaken.
Qed.

