(* ===== verification/Joining.v ===== *)
(** * A replica joins a master that serves others

    The nine turns of [Sync] as events of two servers: the new replica is one of
    the connections of a master with clients and replicas, and the link to the
    master is one of the connections of a replica with clients of its own.  What
    happens on the two connections touches no other, so afterwards both servers
    serve all their connections as before, the new ones included, and what is shown
    in [Replicas] holds of them from then on. *)

From S2P Require Import Prelude CLib RingBuffer Util Database Rdb RespWriter ServerState.
From S2P Require Import Commands CommandSpec Reference Timeless RespParser CommandHandler Wire Client ClientAlloc.
From S2P Require Import Propagation Replication ReplicationSpec MasterSpec Sync Server ServerSpec Acts Clients Replicas.

(** ** The session of one connection *)

Definition conn_of (s : session) : conn := MkConn (w_client (s_world s)) (s_in s) (s_parser s) (s_ch s) (s_sock s).

(** The session leaves the other clients of the server alone. *)
Record framed (fd : Z) (sv : server) (s : session) : Prop := {
  fr_open : s_open s = true;
  fr_peers : s_peers s = cn_client <$> delete fd (sv_conns sv)
}.

Section frame.
Context (fd : Z) (sv : server).

Lemma framed_conns s : framed fd sv s → sv_conns (after_session fd s sv) = <[fd := conn_of s]> (sv_conns sv).
Proof.
  intros [Ho Hp]. apply map_eq. intros r. destruct (decide (r = fd)) as [->|Hne].
  - by rewrite after_session_self, lookup_insert_eq.
  - rewrite lookup_insert_ne by done. apply after_session_others; [by rewrite Hp|done].
Qed.

Lemma framed_again s s' : framed fd sv s → framed fd sv s' → framed fd (after_session fd s sv) s'.
Proof. intros Hs [Ho Hp]. constructor; [done|]. by rewrite Hp, framed_conns, delete_insert_eq. Qed.

Lemma framed_session s : framed fd sv s → session_of fd (conn_of s) (after_session fd s sv) = s.
Proof.
  intros Hs. unfold session_of. rewrite framed_conns, delete_insert_eq, <- (fr_peers _ _ _ Hs), <- (fr_open _ _ _ Hs) by done.
  by destruct s as [[] ? ? ? ? ? ? ?].
Qed.

Lemma framed_after s s' :
  framed fd sv s → framed fd sv s' → after_session fd s' (after_session fd s sv) = after_session fd s' sv.
Proof.
  intros Hs Hs'. pose proof (framed_conns s' Hs') as E'.
  pose proof (framed_conns s Hs) as E. assert (sv_conns (after_session fd s' (after_session fd s sv)) = sv_conns (after_session fd s' sv)) as Ec.
  { rewrite E'. apply map_eq. intros r. destruct (decide (r = fd)) as [->|Hne].
    - rewrite after_session_self, lookup_insert_eq; [done|apply Hs'].
    - rewrite after_session_others, E, !lookup_insert_ne; [done..| |done].
      by rewrite (fr_peers _ _ _ (framed_again _ _ Hs Hs')). }
  revert Ec. unfold after_session. cbn [sv_conns]. by intros ->.
Qed.

(** An event of the connection. *)
Lemma framed_serve (f : sessM unit) s s' :
  framed fd sv s → framed fd sv s' → f s = Ok (tt, s') →
  serve fd f (after_session fd s sv) = Ok (tt, after_session fd s' sv).
Proof.
  intros Hs Hs' E. unfold serve. rewrite framed_conns, lookup_insert_eq, framed_session, E by done.
  by rewrite framed_after.
Qed.

(** What happens to its socket. *)
Lemma framed_sock g s :
  framed fd sv s → at_sock fd g (after_session fd s sv) = after_session fd (put_sock (g (s_sock s)) s) sv.
Proof.
  intros Hs. assert (framed fd sv (put_sock (g (s_sock s)) s)) as Hs' by (by destruct Hs).
  pose proof (framed_conns _ Hs) as E. pose proof (framed_conns _ Hs') as E'.
  revert E E'. unfold at_sock, after_session. cbn [sv_conns]. intros -> ->. f_equal. by rewrite alter_insert_eq.
Qed.

Lemma framed_sent s : framed fd sv s → sent fd (after_session fd s sv) = outgoing (s_sock s).
Proof. intros Hs. unfold sent. by rewrite framed_conns, lookup_insert_eq. Qed.

Lemma framed_type s : framed fd sv s → client_type fd (after_session fd s sv) = Ok (type (cl s), after_session fd s sv).
Proof. intros Hs. unfold client_type. by rewrite framed_conns, lookup_insert_eq. Qed.
End frame.

(** ** The two servers *)

Section join.
Context (max_alloc : Z) (region_ptr padding : bytes) (pf : nat).
Abbreviation handle_event := (handle_event max_alloc region_ptr padding pf).
Abbreviation handle_input := (handle_input max_alloc region_ptr padding pf).
Abbreviation handle_output := (handle_output max_alloc region_ptr padding pf).
Abbreviation exchanged := (exchanged max_alloc region_ptr padding pf).

(** Bytes arrive for a connection; the network takes what was written to it. *)
Definition arrives (fd : Z) (d : bytes) : server → server :=
  at_sock fd (match d with [] => id | _ => socket_gets d end).
Definition taken (fd : Z) : server → server :=
  at_sock fd (λ k, MkSocket (incoming k) (read_answers k) (write_answers k) []).

(** Room to write is reported for this connection. *)
Definition watches_room (fd : Z) (sv : server) : bool :=
  match sv_conns sv !! fd with
  | Some cn => negb (Z.land (epoll_events (cn_client cn)) EPOLLOUT =? 0)
  | None => false
  end.

(** The events of the new replica's connection [r] at the master, and of the link
    [l] at the replica: until it is READY, a link is watched for room to write only,
    and there is room. *)
Definition master_event (r : Z) (d : bytes) : svM unit := λ sv,
  match d with
  | [] => if watches_room r sv then handle_event (Ready r EPOLLOUT) sv else Ok (tt, sv)
  | _ => handle_event (Ready r EPOLLIN) (arrives r d sv)
  end.

Definition join_turn (r l : Z) : st (server * server) unit := λ '(M, R),
  '(_, R1) ← handle_event (Ready l EPOLLOUT) (arrives l (sent r M) R);
  '(_, M1) ← master_event r (sent l R1) (taken r M);
  Ok (tt, (M1, taken l R1)).

Lemma input_event fd sv : handle_event (Ready fd EPOLLIN) sv = handle_input fd sv.
Proof.
  rewrite handle_ready. change (has EPOLLIN EPOLLIN) with true. change (has EPOLLIN EPOLLOUT) with false. cbn [when].
  unfold mbind, st_bind. by destruct (handle_input fd sv) as [[[] ?]|].
Qed.
Lemma output_event fd sv : handle_event (Ready fd EPOLLOUT) sv = handle_output fd sv.
Proof.
  rewrite handle_ready. change (has EPOLLOUT EPOLLIN) with false. change (has EPOLLOUT EPOLLOUT) with true. cbn [when].
  by erewrite st_bind_ok by reflexivity.
Qed.

Lemma framed_arrives fd sv d s :
  framed fd sv s → arrives fd d (after_session fd s sv) = after_session fd (deliver d s) sv.
Proof.
  intros Hs. unfold arrives. rewrite framed_sock by done. f_equal. unfold deliver. f_equal.
  destruct d; [|done]. rewrite !app_nil_r. by destruct (s_sock s).
Qed.

Lemma framed_taken fd sv s : framed fd sv s → taken fd (after_session fd s sv) = after_session fd (take_sent s).2 sv.
Proof. intros Hs. unfold taken. by rewrite framed_sock. Qed.

(** The turn of the master. *)
Lemma master_event_runs r M d m m' :
  framed r M m → framed r M m' → master_turn max_alloc region_ptr padding pf d m = Ok (tt, m') →
  match d with
  | [] => Z.land (epoll_events (cl m)) EPOLLOUT ≠ 0 → type (cl m) = CLIENT_TYPE_REPLICA
  | _ => type (cl m) = CLIENT_TYPE_REGULAR
  end →
  master_event r d (after_session r m M) = Ok (tt, after_session r m' M).
Proof.
  intros Hm Hm' E Ht. unfold master_event. destruct d as [|x d].
  - unfold watches_room. rewrite framed_conns, lookup_insert_eq by done. cbn [conn_of cn_client]. fold (cl m).
    unfold master_turn in E. erewrite st_bind_ok in E by reflexivity. cbn [id] in E.
    destruct (Z.land (epoll_events (cl m)) EPOLLOUT =? 0) eqn:E0; cbn [negb when] in *.
    + by injection E as <-.
    + zbool. rewrite output_event. unfold handle_output. erewrite st_bind_ok by (by apply framed_type). cbv beta.
      rewrite Ht by done. by eapply framed_serve.
  - change (client_event max_alloc region_ptr padding pf (x :: d) m = Ok (tt, m')) in E.
    rewrite framed_arrives by done. set (d0 := x :: d) in *. clearbody d0.
    assert (framed r M (deliver d0 m)) as Hd by (by destruct Hm).
    rewrite input_event. unfold handle_input. erewrite st_bind_ok by (by apply framed_type). cbv beta.
    change (cl (deliver d0 m)) with (cl m). rewrite Ht. by eapply framed_serve.
Qed.

(** An exchange of the two sessions is a turn of the two servers. *)
Lemma exchange_joins r l M R x y :
  framed r M x.1 → framed l R x.2 → exchanged x y →
  join_turn r l (after_session r x.1 M, after_session l x.2 R) = Ok (tt, (after_session r y.1 M, after_session l y.2 R)) ∧
  framed r M y.1 ∧ framed l R y.2.
Proof.
  intros Hm Hr [E [Ho1 Ho2] [Hp1 Hp2] [Ht (r1 & El & Hturn)]]. destruct x as [m rs], y as [m' r']. cbn [fst snd] in *.
  unfold exchange in E. cbn [take_sent] in E. rewrite El in E. fold (take_sent m).2 in E. fold (take_sent r1) in E.
  change (put_sock _ m) with (take_sent m).2 in E.
  destruct (master_turn max_alloc region_ptr padding pf (outgoing (s_sock r1)) (take_sent m).2) as [[[] m1]|] eqn:Em; [|done].
  injection E as -> <-. assert (framed r M m') as Hm' by (constructor; [done|by rewrite Hp1; apply Hm]).
  assert (framed l R r1) as Hr1 by (constructor; [exact Ho2|rewrite <- (fr_peers _ _ _ Hr); exact Hp2]).
  assert (framed l R (deliver (outgoing (s_sock m)) rs)) as Hd by (by destruct Hr).
  split; [|split; [done|by destruct Hr1]]. unfold join_turn. rewrite framed_sent, framed_arrives by done.
  rewrite output_event. unfold handle_output. erewrite st_bind_ok by (by apply framed_type). cbv beta.
  change (cl (deliver (outgoing (s_sock m)) rs)) with (cl rs). rewrite Ht.
  rewrite (framed_serve l R _ _ r1 Hd Hr1) by exact El. cbn [mbind res_bind].
  rewrite framed_sent, (framed_taken r) by done.
  rewrite (master_event_runs r M _ _ m'); [cbn [mbind res_bind]; by rewrite framed_taken|by destruct Hm|done|done|exact Hturn].
Qed.

Lemma exchanges_join r l M R n i x y :
  nsteps exchanged n x y → framed r M x.1 → framed l R x.2 →
  for_each (λ _, join_turn r l) (seq i n) (after_session r x.1 M, after_session l x.2 R) =
    Ok (tt, (after_session r y.1 M, after_session l y.2 R)) ∧ framed r M y.1 ∧ framed l R y.2.
Proof.
  intros H. revert i. induction H as [x|n x y z Hxy _ IH]; intros i Hm Hr; [done|].
  destruct (exchange_joins r l M R x y Hm Hr Hxy) as (E & Hm' & Hr'). cbn [seq for_each].
  erewrite st_bind_ok by exact E. by apply IH.
Qed.
End join.

(** A client [r] of the master [M], with nothing queued, and the new link [l] of the
    replica [R], with [k] more requests to spare. *)
Record may_join (k r l : Z) (path : bytes) (M R : server) (cm cr : conn) : Prop := {
  mj_client : sv_conns M !! r = Some cm ∧ type (cn_client cm) = CLIENT_TYPE_REGULAR ∧
              Z.land (epoll_events (cn_client cm)) EPOLLOUT = 0 ∧ outgoing (cn_sock cm) = [] ∧ r ≠ 0;
  mj_link : sv_conns R !! l = Some cr ∧
            link [] (k * RING_BUFFER_SIZE) (k * RING_BUFFER_SIZE) REPL_STATE_CONNECTING (session_of l cr R) ∧
            outgoing (cn_sock cr) = [] ∧ client_fd (cn_client cr) = l ∧ should_reply (cn_client cr) = true;
  mj_port : zlen (port (sv_config R)) < 6 ∧ no_nul (port (sv_config R));
  mj_info : announces (sv_info M) ∧ zlen (replicas (sv_info M)) = MAX_REPLICAS;
  mj_files : mkdir_ok (sv_os M) = true ∧ fopen_w_ok (sv_os M) = true ∧ path_malloc_ok (sv_os M) = true;
  mj_temp : fopen_w_ok (sv_os R) = true ∧
            construct_file_path (path_malloc_ok (sv_os R)) (dir (sv_config R)) TEMP_SNAPSHOT = Some path
}.

Lemma may_join_connected D Q clk s k n r l path M R cm cr :
  waits D Q clk s k n M → r ∈ D → sv_epoll R = [] → may_join k r l path M R cm cr →
  Sync.connected (k * RING_BUFFER_SIZE) (session_of r cm M) (session_of l cr R) path.
Proof.
  intros Hw HD Her [(Hcm & Ht & Hev & Hsm & _) (Hcr & Hlk & Hsr & _) Hport [Hinfo _] Hfiles Htemp].
  destruct (wt_conns _ _ _ _ _ _ _ Hw r HD) as (cn & Hcn & [_ _ Hp Hin Hout Hsk]). rewrite Hcm in Hcn. injection Hcn as <-.
  constructor; try done.
  - split_and!; [|done|done]. constructor; try done. by unfold cl; cbn; rewrite Ht.
  - split; [apply (wt_epoll _ _ _ _ _ _ _ Hw)|done].
Qed.

Lemma table_joins i rs r :
  table i rs → num_replicas i < MAX_REPLICAS → zlen (replicas i) = MAX_REPLICAS → table (new_replica i r) (rs ++ [r]).
Proof.
  intros [Hn [unused Hu]] Hlt Hlen. unfold new_replica, table. cbn [num_replicas replicas]. rewrite Hu in *.
  rewrite Hn in *. rewrite Nat2Z.id. split; [rewrite zlen_app; cbn; lia|].
  rewrite insert_app_r_alt, Nat.sub_diag by lia. destruct unused as [|x unused]; [rewrite app_nil_r in Hlen; lia|].
  exists unused. cbn. by rewrite <- app_assoc.
Qed.

(** The master serves its new replica. *)
Lemma master_joined D Q clk s k n r M cm a b m' :
  waits D Q clk s k n M → r ∈ D → sv_conns M !! r = Some cm → r ≠ 0 → client_fd (cn_client cm) = r →
  announces (sv_info M) → zlen (replicas (sv_info M)) = MAX_REPLICAS → framed r M m' →
  master_done (session_of r cm M) a b [] m' → k * RING_BUFFER_SIZE ≤ b →
  waits (D ∖ {[r]}) (<[r := []]> Q) clk s k n (after_session r m' M) ∧ sent r (after_session r m' M) = [].
Proof.
  intros Hw HD Hcm H0 Hfd [Hlt _] Hlen Hf [Hid [Hst Hty] _ Hsent Hinfo (Hmem & Hbl & _ & Hep)] Hb.
  pose proof (waits_apart _ _ _ _ _ _ _ _ Hw HD) as Hapart.
  pose proof Hw as [Hdb Hck (reps & Htab & Hnd & Hreps) _ Hbk Hconns Hrep].
  pose proof (framed_conns r M m' Hf) as Hcs. split; [|by rewrite framed_sent].
  constructor; cbn [after_session sv_mem sv_info sv_epoll sv_backlog]; rewrite ?Hmem, ?Hbl; try done.
  - exists (reps ++ [r]). rewrite Hinfo. split_and!.
    + replace (client_fd (cl (session_of r cm M))) with r by (by rewrite <- Hfd at 1).
      by apply table_joins.
    + apply NoDup_app. split_and!; [done| |apply NoDup_singleton].
      intros x Hx ->%list_elem_of_singleton. apply Hreps in Hx as [? ?]. congruence.
    + intros x. rewrite elem_of_app, list_elem_of_singleton, Hreps. destruct (decide (x = r)) as [->|Hne].
      * rewrite lookup_insert_eq. split; [by eexists|by right].
      * rewrite lookup_insert_ne by done. naive_solver.
  - intros fd [Hfd' Hne]%elem_of_difference.
    rewrite elem_of_singleton in Hne. change (sv_conns _) with (sv_conns (after_session r m' M)).
    rewrite Hcs, lookup_insert_ne by done. by apply Hconns.
  - intros x q. change (sv_conns _) with (sv_conns (after_session r m' M)). rewrite Hcs.
    destruct (decide (x = r)) as [->|Hne]; [|rewrite !lookup_insert_ne by done; apply Hrep].
    rewrite !lookup_insert_eq. intros [= <-]. split; [done|]. eexists. split; [reflexivity|].
    destruct Hid as [_ _ _ _ (Hwo & Hco & Hzo & Hxo) _]. constructor; [done|].
    split_and!; [done|done|done|]. unfold lasts. unfold out in Hxo. cbn. lia.
Qed.

(** The replica serves its master. *)
Lemma replica_joined D clk A0 A t k n n' l R cr a b m r' :
  waits D ∅ clk (A0, t) k n R → sv_conns R !! l = Some cr → l ∉ D →
  client_fd (cn_client cr) = l → should_reply (cn_client cr) = true → framed l R r' →
  replica_done (session_of l cr R) a b m r' → same_clock (sv_mem R) m → db_rep m A → adb_room n' A →
  k * RING_BUFFER_SIZE ≤ a → k * RING_BUFFER_SIZE ≤ b →
  waits ({[l]} ∪ D) ∅ clk (A, t) k n' (after_session l r' R) ∧ sent l (after_session l r' R) = [].
Proof.
  intros Hw Hcr HD Hfd Hsr Hf [Hmem (Ho & Hp & Ht & Hst) Hin Hout Hsk (Hinfo & Hep & Hbl & _ & Hfd' & Hsr')] [Hck Htk] Hdb HA Ha Hb.
  pose proof Hw as [_ [Hclk Hti] (reps & Htab & Hnd & Hreps) _ Hbk Hconns Hrep].
  pose proof (framed_conns l R r' Hf) as Hcs. split; [|by rewrite framed_sent, Hsk].
  constructor; cbn [after_session sv_mem sv_info sv_epoll sv_backlog]; rewrite ?Hmem, ?Hbl, ?Hinfo; try done.
  - cbn [snd] in *. split; congruence.
  - by exists reps.
  - intros fd. change (sv_conns _) with (sv_conns (after_session l r' R)). rewrite Hcs, elem_of_union, elem_of_singleton.
    destruct (decide (fd = l)) as [->|Hne].
    + intros _. rewrite lookup_insert_eq. eexists. split; [reflexivity|].
      destruct Hin as (? & ? & ? & ?), Hout as (? & ? & ? & ?).
      constructor; cbn; rewrite ?Hsk; try done; unfold cl, out in *.
      * by rewrite Hfd'.
      * split; [by right|]. by rewrite Hsr'.
      * split_and!; try done. unfold lasts. lia.
      * split_and!; try done. unfold lasts. lia.
    + intros [?|Hin']; [done|]. rewrite lookup_insert_ne by done. by apply Hconns.
Qed.

(** The nine turns, among the other connections of both servers. *)
Lemma servers_join max_alloc region_ptr padding pf D Q clk A tm D' clk' A0 t k n n0 n' r l path M R cm cr F :
  1000 ≤ max_alloc < 2 ^ 63 → (16 ≤ pf)%nat → 0 ≤ k →
  waits D Q clk (A, tm) (k + 2) n M → r ∈ D → waits D' ∅ clk' (A0, t) (k + 2) n0 R → l ∉ D' →
  may_join (k + 2) r l path M R cm cr → storable A → adb_room 256 A0 → adb_room n' ((reloaded <$> A) ∪ A0) →
  rdb_image (db (sv_mem M)) = Ok F → zlen F ≤ RING_BUFFER_SIZE →
  ∃ M' R', for_each (λ _, join_turn max_alloc region_ptr padding pf r l) (seq 0 9) (M, R) = Ok (tt, (M', R')) ∧
    (waits (D ∖ {[r]}) (<[r := []]> Q) clk (A, tm) k n M' ∧ sent r M' = []) ∧
    (waits ({[l]} ∪ D') ∅ clk' ((reloaded <$> A) ∪ A0, t) k n' R' ∧ sent l R' = []) ∧
    (∀ fd, fd ≠ r → sv_conns M' !! fd = sv_conns M !! fd) ∧ (∀ fd, fd ≠ l → sv_conns R' !! fd = sv_conns R !! fd).
Proof.
  intros Hmax Hpf Hk Hw HD Hw' HD' Hj Hst HA0 HA' Himg HF.
  pose proof (may_join_connected _ _ _ _ _ _ _ _ _ _ _ _ _ Hw HD (wt_epoll _ _ _ _ _ _ _ Hw') Hj) as Hcn.
  destruct Hj as [(Hcm & _ & _ & _ & H0) (Hcr & _ & _ & Hfl & Hsl) _ [Hinfo Hlen] _ _].
  destruct (wt_db _ _ _ _ _ _ _ Hw) as [Hdb _]. destruct (wt_db _ _ _ _ _ _ _ Hw') as [Hdb' _].
  destruct (synchronised max_alloc region_ptr padding pf ((k + 2) * RING_BUFFER_SIZE) (session_of r cm M) (session_of l cr R)
    path A A0 F Hmax Hpf Hcn) as (m' & r' & mem' & E & [Hsc Hdbr] & Hm & Hr); [unfold RING_BUFFER_SIZE; lia|done..|].
  destruct (exchanges_join max_alloc region_ptr padding pf r l M R 9 0 _ _ E) as (Ej & Hfm & Hfr); [done|done|].
  cbn [fst snd] in *. rewrite !after_session_same in Ej by done.
  destruct (wt_conns _ _ _ _ _ _ _ Hw r HD) as (cn & Hcn' & Hid). rewrite Hcm in Hcn'. injection Hcn' as <-.
  exists (after_session r m' M), (after_session l r' R). split; [exact Ej|]. split; [|split; [|split]].
  - eapply master_joined; try done; [by eapply waits_less; [|exact Hw]; lia|apply Hid|unfold RING_BUFFER_SIZE; lia].
  - eapply replica_joined; try done; [by eapply waits_less; [|exact Hw']; lia| |]; unfold RING_BUFFER_SIZE in *; lia.
  - intros fd Hne. by rewrite framed_conns, lookup_insert_ne.
  - intros fd Hne. by rewrite framed_conns, lookup_insert_ne.
Qed.

(** Who is tracked stays tracked. *)
Lemma run_tracks max_alloc pf clk clks links sp xs sp' r :
  spec_run max_alloc pf clk clks links sp xs sp' → is_Some (sp_replicas sp !! r) → is_Some (sp_replicas sp' !! r).
Proof.
  intros Hrun. induction Hrun as [sp|sp x sp1 xs sp2 Hstep _ IH]; [done|]. intros Hr. apply IH.
  destruct Hstep; cbn [sp_replicas] in *; [done|..]; apply lookup_insert_is_Some'; by right.
Qed.


(** ** Witness: a master with a key, and a replica with a client *)

Definition with_mem (m : mem) (sv : server) : server :=
  MkServer m (sv_info sv) (sv_config sv) (sv_os sv) (sv_epoll sv) (sv_backlog sv) (sv_conns sv).

Lemma waits_with_mem D Q clk s k n sv m A n' :
  waits D Q clk s k n sv → db_rep m A → adb_room n' A →
  waits D Q (clock m) (A, ticks m) k n' (with_mem m sv).
Proof. intros [_ _ ? ? ? ? ?] Hdb HA. by constructor. Qed.

Definition sample_key (v : bytes) : adb := {[lit "k" := (AStr v, 0)]}.

Definition sample_joined : server :=
  with_mem sample_mem (sample_node []
    {[5 := sample_conn (sample_peer 5 CLIENT_TYPE_REGULAR REPL_STATE_NONE);
      8 := sample_conn (sample_peer 8 CLIENT_TYPE_REGULAR REPL_STATE_NONE)]}).
Definition sample_joiner : server :=
  sample_node [] {[9 := sample_conn (sample_peer 9 CLIENT_TYPE_MASTER REPL_STATE_CONNECTING);
                   10 := sample_conn (sample_peer 10 CLIENT_TYPE_REGULAR REPL_STATE_NONE)]}.

Definition join_sample_turns : list sys_act :=
  [AtMaster (Sends 5 (sample_set (lit "w")) false); AtMaster (Drains 8 1000 false);
   Delivered 8 (length (commands_bytes (sample_set (lit "w")))) true].

Definition joined_spec (A B : adb) (q : bytes) (log : list request) (done : nat) : spec :=
  MkSpec (A, 0%nat) ({[5; 8]} ∖ {[8]}) (<[8 := q]> ∅) log {[8 := MkNode (B, 0%nat) ({[9]} ∪ {[10]}) done]}.

Lemma sample_joined_waits k n :
  0 ≤ k < 2 ^ 40 → 0 ≤ n < 2 ^ 20 → waits {[5; 8]} ∅ (λ _, (1, 0)) (sample_key (lit "v"), 0%nat) k n sample_joined.
Proof.
  intros Hk Hn. assert (clock sample_mem = (λ _, (1, 0)) ∧ ticks sample_mem = 0%nat) as [<- <-] by (vm_compute; done).
  apply (waits_with_mem _ _ tick_clock (∅, 0%nat) _ n).
  - apply (sample_waits {[5; 8]} []); [done|done|constructor| |by intros r ?%elem_of_nil].
    intros fd. rewrite elem_of_union, !elem_of_singleton.
    intros [->| ->]; exists CLIENT_TYPE_REGULAR, REPL_STATE_NONE; (split; [reflexivity|by left]).
  - apply sample_mem_rep.
  - constructor; [unfold sample_key; rewrite map_size_singleton; lia|].
    intros k0 xs e Hk0. unfold sample_key in Hk0. by apply lookup_singleton_Some in Hk0 as [_ [=]].
Qed.

Lemma sample_joiner_waits k n :
  0 ≤ k < 2 ^ 40 → 0 ≤ n < 2 ^ 20 → waits {[10]} ∅ tick_clock (∅, 0%nat) k n sample_joiner.
Proof.
  intros Hk Hn. apply (sample_waits {[10]} []); [done|done|constructor| |by intros r ?%elem_of_nil].
  intros fd ->%elem_of_singleton. exists CLIENT_TYPE_REGULAR, REPL_STATE_NONE. split; [reflexivity|by left].
Qed.

Lemma sample_may_join k :
  0 ≤ k < 2 ^ 40 →
  may_join k 8 9 (lit "/tmp/redis-data/temp_snapshot.rdb") sample_joined sample_joiner
    (sample_conn (sample_peer 8 CLIENT_TYPE_REGULAR REPL_STATE_NONE))
    (sample_conn (sample_peer 9 CLIENT_TYPE_MASTER REPL_STATE_CONNECTING)).
Proof.
  intros Hk. destruct (client_rb_holds [] 6) as [Hwo Hco]; [done|done|].
  destruct (client_rb_holds [] 7) as [Hwi Hci]; [done|done|].
  constructor.
  - by split_and!.
  - split_and!; try done. constructor; try done; (split_and!; [done|done|done|unfold RING_BUFFER_SIZE; cbn; lia]).
  - split; [vm_compute; reflexivity|apply (bool_decide_unpack _); by vm_compute].
  - split; [|done]. split_and!; [by vm_compute|by vm_compute|apply (bool_decide_unpack _); by vm_compute|
      apply (bool_decide_unpack _); by vm_compute| |]; by vm_compute.
  - done.
  - split; [done|]. vm_compute. reflexivity.
Qed.

Lemma join_sample_run :
  spec_run 1048576 60 (λ _, (1, 0)) (λ _, tick_clock) (λ _, 9) (joined_spec (sample_key (lit "v")) (sample_key (lit "v")) [] [] 0)
    join_sample_turns (joined_spec (sample_key (lit "w")) (sample_key (lit "w")) [] [sample_set (lit "w")] 1).
Proof.
  unfold join_sample_turns. set (d := commands_bytes (sample_set (lit "w"))).
  sample_step_of 8 (joined_spec (sample_key (lit "w")) (sample_key (lit "v")) d [sample_set (lit "w")] 0).
  sample_step_of 8 (joined_spec (sample_key (lit "w")) (sample_key (lit "v")) [] [sample_set (lit "w")] 0).
  sample_step_of 8 (joined_spec (sample_key (lit "w")) (sample_key (lit "w")) [] [sample_set (lit "w")] 1).
  apply run_nil.
Qed.

Lemma join_sample_counts : zlen join_sample_turns = 3 ∧ 0 ≤ sys_costs join_sample_turns < 2 ^ 20.
Proof. split; [reflexivity|]. vm_compute. split; discriminate || reflexivity. Qed.

Lemma sample_joined_known : known {[5; 8]} ∅ sample_joined.
Proof. intros fd HD _. cbn. by rewrite lookup_insert_ne, lookup_singleton_ne by set_solver. Qed.
Lemma sample_joiner_known : known ({[9]} ∪ {[10]}) ∅ sample_joiner.
Proof. intros fd HD _. cbn. by rewrite lookup_insert_ne, lookup_singleton_ne by set_solver. Qed.

