(* ===== verification/SessionInv.v ===== *)
(** * The invariant of a session

    What the functions of client.c and replication.c keep of the client they
    serve, of the other clients and of the server, whatever bytes the peers send
    and whatever the operating system answers. *)

From S2P Require Import Prelude CLib RingBuffer Util Database Rdb RespWriter ServerState.
From S2P Require Import Commands CommandSpec Halting RespParser CommandHandler ParserTerm Client ClientAlloc Replication.

(** ** The invariant *)

(** The replica table has its 16 entries and counts at most that many. *)
Definition info_ok (ρ : server_role_t) (i : server_info_t) : Prop :=
  role i = ρ ∧ zlen (replicas i) = MAX_REPLICAS ∧ 0 ≤ num_replicas i ≤ MAX_REPLICAS.

(** The counters of a link to a master: nothing is written before the transfer,
    and as much as was received between two turns of it. *)
Definition transfer_ok (c : Client) : Prop :=
  type c = CLIENT_TYPE_MASTER →
  match repl_client_state c with
  | REPL_STATE_NONE | REPL_STATE_READY | REPL_STATE_ERROR => True
  | REPL_STATE_RECEIVING_RDB_DATA =>
      rdb_written_bytes c = rdb_received_bytes c ∧ LONG_MIN ≤ rdb_received_bytes c ∧ rdb_expected_bytes c ≤ LONG_MAX
  | _ => rdb_written_bytes c = 0
  end.

(** A client knows its descriptor, has a well-formed output buffer, is a link to
    a master on a replica only, and has sent no negative number of bytes. *)
Definition client_core (ρ : server_role_t) (fd : Z) (c : Client) : Prop :=
  client_fd c = fd ∧ rb_wf (output_buffer c) ∧ (ρ = ROLE_MASTER → type c ≠ CLIENT_TYPE_MASTER) ∧
  0 ≤ rdb_file_offset c.
Definition client_ok (ρ : server_role_t) (fd : Z) (c : Client) : Prop := client_core ρ fd c ∧ transfer_ok c.

(** The lengths an array on the parser's stack may have. *)
Definition array_length (n : Z) : Prop := 0 ≤ n ≤ INT_MAX.

(** The backlog may be missing. *)
Definition backlog_ok (rb : ring_buffer) : Prop := region rb = None ∨ rb_wf rb.

(** What a property of the link may look at. *)
Definition link_same (c c' : Client) : Prop :=
  type c' = type c ∧ repl_client_state c' = repl_client_state c ∧ rdb_expected_bytes c' = rdb_expected_bytes c ∧
  rdb_received_bytes c' = rdb_received_bytes c ∧ rdb_written_bytes c' = rdb_written_bytes c.
Definition link_closed (T : Client → Prop) : Prop := ∀ c c', link_same c c' → T c → T c'.

Lemma transfer_closed : link_closed transfer_ok.
Proof. intros c c' (H1 & H2 & H3 & H4 & H5). unfold transfer_ok. by rewrite H1, H2, H3, H4, H5. Qed.
#[export] Hint Resolve transfer_closed : keep.

(** ** Steps that leave the link alone *)

Section steps.
Context (ρ : server_role_t) (fd : Z) (Reach : mem → Prop) (T : Client → Prop) (HT : link_closed T).

Definition world_good (w : world) : Prop :=
  (client_core ρ fd (w_client w) ∧ T (w_client w)) ∧ info_ok ρ (w_info w).
Definition world_reach (w : world) : Prop := world_good w ∧ Reach (w_mem w).

(** A session whose link has [T]. *)
Record session_at (s : session) : Prop := {
  so_world : world_reach (s_world s);
  so_in : rb_wf (s_in s) ∧ size (s_in s) = RING_BUFFER_SIZE;
  so_parser : stack_ok array_length (s_parser s);
  so_args : 0 ≤ arg_capacity (s_ch s) < 2 ^ 62;
  so_backlog : backlog_ok (s_backlog s);
  so_peers : ∀ r c, s_peers s !! r = Some c → client_ok ρ r c
}.

Lemma reply_world_keeps (f : rbM unit) : preserves rb_wf f → preserves world_reach (reply f).
Proof.
  intros Hf w b w' [[[(Hfd & Hwf & Ht & Ho) HTc] Hi] Hm]. unfold reply.
  destruct (f (output_buffer (w_client w))) as [[[] rb]|] eqn:E; [|done]. intros [= _ <-].
  split; [|done]. split; [|done]. split; [|by eapply HT; [|exact HTc]]. split_and!; [done| |done..]. by eapply Hf.
Qed.
Lemma epoll_world_keeps mask : preserves world_reach (epoll_mod mask).
Proof.
  intros w b w' [[[(Hfd & Hwf & Ht & Ho) HTc] Hi] Hm]. unfold epoll_mod.
  destruct (epoll_answers w) as [|[] ?]; [| |done]; intros [= _ <-]; (split; [|done]); (split; [|done]); by split; [|by eapply HT; [|exact HTc]].
Qed.

Lemma on_w_keeps {B} (f : cmdM B) : preserves world_reach f → preserves session_at (on_w f).
Proof.
  intros Hf s b s' [Hw Hin Hp Ha Hb Hpe]. unfold on_w. destruct (f (s_world s)) as [[b' w]|] eqn:E; [|done].
  intros [= _ <-]. constructor; try done. by eapply Hf.
Qed.

Lemma reply_session_keeps (f : rbM unit) : preserves rb_wf f → preserves session_at (on_w (reply f)).
Proof. intros Hf. by apply on_w_keeps, reply_world_keeps. Qed.
Lemma epoll_session_keeps mask : preserves session_at (on_w (epoll_mod mask)).
Proof. apply on_w_keeps, epoll_world_keeps. Qed.

Lemma put_world_ok w s : session_at s → world_reach w → session_at (put_world w s).
Proof. intros [Hw Hin Hp Ha Hb Hpe] Hw'. by constructor. Qed.
Lemma put_sock_ok k s : session_at s → session_at (put_sock k s).
Proof. intros [Hw Hin Hp Ha Hb Hpe]. by constructor. Qed.
Lemma put_open_ok b s : session_at s → session_at (put_open b s).
Proof. intros [Hw Hin Hp Ha Hb Hpe]. by constructor. Qed.

(** An operation of the ring buffer that keeps it well formed. *)
Definition rb_keeps (f : ring_buffer → res (Z * ring_buffer)) : Prop :=
  ∀ rb rc rb', f rb = Ok (rc, rb') → (rb_wf rb → rb_wf rb' ∧ size rb' = size rb) ∧ (region rb = None → region rb' = None).

Lemma none_asserts rb : region rb = None → assert_state rb = false.
Proof. intros Hn. unfold assert_state. rewrite Hn. by destruct (negb _). Qed.

Lemma rb_read_ok n : rb_keeps (λ rb, rb_read rb n).
Proof.
  intros rb rc rb' E. cbv beta in E. split; [by intros Hwf; eapply rb_read_keeps|].
  intros Hn. revert E. unfold rb_read, ASSERT_STATE. by rewrite (none_asserts rb Hn).
Qed.
Lemma rb_write_ok n : rb_keeps (λ rb, rb_write rb n).
Proof.
  intros rb rc rb' E. cbv beta in E. split; [by intros Hwf; eapply rb_write_keeps|].
  intros Hn. revert E. unfold rb_write, ASSERT_STATE. by rewrite (none_asserts rb Hn).
Qed.
Lemma rb_store_ok off d : rb_keeps (λ rb, rb' ← rb_store rb off d; Ok (0, rb')).
Proof.
  intros rb rc rb'. destruct (rb_store rb off d) as [rb1|] eqn:E; [|done]. intros [= _ <-].
  split; [by intros Hwf; eapply rb_store_keeps|]. intros Hn. unfold rb_store in E. by rewrite Hn in E.
Qed.

Lemma in_keeps f : rb_keeps f → preserves session_at (rb_op_on s_in put_in f).
Proof.
  intros Hf s b s' [Hw [Hin Hsz] Hp Ha Hb Hpe]. unfold rb_op_on. destruct (f (s_in s)) as [[rc rb]|] eqn:E; [|done].
  intros [= _ <-]. destruct (Hf _ _ _ E) as [H1 _]. destruct (H1 Hin). constructor; try done. split; [done|]. cbn. congruence.
Qed.
Lemma backlog_keeps f : rb_keeps f → preserves session_at (rb_op_on s_backlog put_backlog f).
Proof.
  intros Hf s b s' [Hw Hin Hp Ha Hb Hpe]. unfold rb_op_on. destruct (f (s_backlog s)) as [[rc rb]|] eqn:E; [|done].
  intros [= _ <-]. destruct (Hf _ _ _ E) as [H1 H2]. constructor; try done. destruct Hb as [Hb|Hb]; [left; by apply H2|right].
  by destruct (H1 Hb).
Qed.

Lemma alive_keeps : preserves session_at alive.
Proof. intros s b s' Hs. unfold alive. destruct (s_open s); [|done]. by intros [= _ <-]. Qed.

Lemma read_sock_keeps len : preserves session_at (read_sock len).
Proof.
  intros s b s' Hs. unfold read_sock. destruct (sock_read len (s_sock s)) as [a k]. intros [= _ <-]. by apply put_sock_ok.
Qed.
Lemma put_sock_keeps k : preserves session_at (modify (put_sock k)).
Proof. apply leads_modify. apply put_sock_ok. Qed.

(** Flushing asserts that the buffer is well formed before it does anything. *)
Definition rb_shape (rb : ring_buffer) : Prop :=
  (∀ W, region rb = Some W → zlen W = size rb) ∧ 0 < size rb < 2 ^ 62 ∧
  0 ≤ read_index rb < 2 ^ 64 ∧ 0 ≤ write_index rb < 2 ^ 64.

Lemma wf_shape rb : rb_wf rb → rb_shape rb.
Proof.
  intros [_ (W & HW & Hl) Hs Ho Hf H64]. split_and!; try lia. intros W' HW'. rewrite HW in HW'. by injection HW' as <-.
Qed.

Lemma readable_asserts rb r : rb_shape rb → rb_readable rb = Ok r → rb_wf rb.
Proof.
  intros (HW & Hs & Hr & Hw). unfold rb_readable, ASSERT_STATE. destruct (assert_state rb) eqn:Ea; [|done].
  intros _. by apply assert_state_wf.
Qed.

Lemma flush_loop_keeps fuel n rb k r rb' k' :
  rb_shape rb → flush_loop fuel n (rb, k) = Ok (r, (rb', k')) → rb_wf rb'.
Proof.
  revert n rb k. induction fuel as [|fuel IH]; intros n rb k Hsh; [done|]. cbn [flush_loop].
  destruct (rb_readable rb) as [[buf len]|] eqn:E; [|done]. cbn [mbind res_bind].
  pose proof (readable_asserts _ _ Hsh E) as Hwf. destruct (len =? 0); [by intros [= _ <- _]|].
  destruct (rb_load rb buf len); [|done]. cbn [mbind res_bind].
  destruct (sock_write _ k) as [[sent|[]] k1]; [|by apply IH|by intros [= _ <- _]..].
  destruct (sent =? 0); [by intros [= _ <- _]|].
  destruct (rb_read rb sent) as [[rc rb1]|] eqn:Er; [|done]. cbn [mbind res_bind]. apply IH.
  apply wf_shape. by eapply rb_read_keeps.
Qed.

(** All of the invariant but the output buffer, which is only of the right shape. *)
Definition session_shape (s : session) : Prop :=
  rb_shape (output_buffer (cl s)) ∧
  ∃ rb, session_at (put_world (set_client (with_output rb (cl s)) (s_world s)) s).

Lemma flush_restores : leads session_shape session_at flush_client_output.
Proof.
  intros s n s' [Hsh (rb0 & [[[[(Hfd & _ & Ht & Ho) HTc] Hi] Hm] Hin Hp Ha Hb Hpe])]. unfold flush_client_output.
  destruct (flush_loop _ 0 _) as [[n' [rb k]]|] eqn:E; [|done]. intros [= _ <-].
  apply flush_loop_keeps in E; [|exact Hsh]. constructor; try done.
  split; [|done]. split; [|done]. split; [done|]. by eapply HT; [|exact HTc].
Qed.

Lemma ok_shape s : session_at s → session_shape s.
Proof.
  intros [[[[(Hfd & Hwf & Ht & Ho) HTc] Hi] Hm] Hin Hp Ha Hb Hpe]. split; [by apply wf_shape|].
  exists (output_buffer (cl s)). constructor; try done.
  split; [|done]. split; [|done]. split; [done|]. by eapply HT; [|exact HTc].
Qed.

Lemma flush_keeps : preserves session_at flush_client_output.
Proof. intros s n s' Hs. apply flush_restores. by apply ok_shape. Qed.

Lemma remove_replica_keeps r : preserves world_reach (remove_replica r).
Proof.
  intros w [] w' [[Hc (Hr & Hl & Hn)] Hm]. unfold remove_replica.
  destruct (find_replica r _ 0 =? -1) eqn:Ep; [done|]. destruct (replicas (w_info w) !! _) as [last|] eqn:El; [|done].
  intros [= <-]. split; [|done]. split; [done|].
  assert (num_replicas (w_info w) ≠ 0) as H0.
  { intros H0. rewrite H0 in Ep. by rewrite take_0 in Ep. }
  unfold MAX_REPLICAS in *.
  assert (u64 (num_replicas (w_info w) - 1) = num_replicas (w_info w) - 1) as Hu by (apply uwrap_small; lia).
  unfold info_ok, MAX_REPLICAS. cbn [w_info set_info replicas num_replicas role]. rewrite Hu, length_insert.
  split_and!; done || lia.
Qed.

Lemma disconnection_keeps : preserves session_at handle_client_disconnection.
Proof.
  unfold handle_client_disconnection. apply (leads_bind _ session_at); [apply alive_keeps|intros _].
  apply (leads_bind _ session_at); [apply leads_gets|intros c].
  apply (leads_bind _ session_at); [apply leads_when, on_w_keeps, remove_replica_keeps|intros _].
  apply leads_modify. intros s Hs. apply put_open_ok, put_world_ok; [done|].
  destruct Hs as [[[Hc (Hr & Hl & Hn)] Hm] _ _ _ _ _]. split; [split; [done|]|done].
  unfold info_ok. cbn [forget_client set_info w_info role replicas num_replicas]. by rewrite length_fmap.
Qed.

Lemma offset_keeps n : preserves session_at (modify (λ s, put_world (advance_offset n (s_world s)) s)).
Proof.
  apply leads_modify. intros s Hs. apply put_world_ok; [done|]. destruct Hs as [[[Hc (Hr & Hl & Hn)] Hm] _ _ _ _ _]. by split.
Qed.
Lemma base_keeps n : preserves session_at (modify (λ s, put_world (advance_base n (s_world s)) s)).
Proof.
  apply leads_modify. intros s Hs. apply put_world_ok; [done|]. destruct Hs as [[[Hc (Hr & Hl & Hn)] Hm] _ _ _ _ _]. by split.
Qed.
Lemma put_file_keeps path (data : bytes) : preserves session_at (modify (λ s, put_world (put_file path data (s_world s)) s)).
Proof. apply leads_modify. intros s Hs. apply put_world_ok; [done|]. apply Hs. Qed.
End steps.

(** An assignment to the client takes one property of the link to another. *)
Lemma on_client_leads ρ fd Reach (T T' : Client → Prop) f :
  (∀ c, client_core ρ fd c → client_core ρ fd (f c)) → (∀ c, T c → T' (f c)) →
  leads (session_at ρ fd Reach T) (session_at ρ fd Reach T') (on_client f).
Proof.
  intros Hf HT s [] s' [[[[Hc HTc] Hi] Hm] Hin Hp Ha Hb Hpe]. unfold on_client, on_w. cbn. intros [= <-].
  constructor; try done. split; [|done]. split; [|done]. split; [by apply Hf|by apply HT].
Qed.

(** An assignment that leaves the link alone. *)
Lemma on_client_keeps ρ fd Reach T f :
  link_closed T → (∀ c, client_core ρ fd c → client_core ρ fd (f c)) → (∀ c, link_same c (f c)) →
  preserves (session_at ρ fd Reach T) (on_client f).
Proof. intros HT Hf Hs. apply on_client_leads; [done|]. intros c. by apply HT. Qed.

Lemma session_at_weaken ρ fd Reach (T T' : Client → Prop) s :
  (T (cl s) → T' (cl s)) → session_at ρ fd Reach T s → session_at ρ fd Reach T' s.
Proof. intros HT [[[[Hc HTc] Hi] Hm] Hin Hp Ha Hb Hpe]. constructor; try done. split; [|done]. split; [|done]. by split; [|apply HT]. Qed.

#[export] Hint Resolve reply_session_keeps epoll_session_keeps alive_keeps read_sock_keeps put_sock_keeps flush_keeps
  disconnection_keeps offset_keeps base_keeps put_file_keeps in_keeps backlog_keeps rb_read_ok rb_write_ok rb_store_ok
  on_client_keeps : keep.
#[export] Hint Extern 1 (link_same _ _) => by split_and! : keep.

(** ** Commands and input *)

Section session.
Context (max_alloc : Z) (region_ptr padding : bytes) (pf : nat) (Hmax : max_alloc < 2 ^ 63).
Context (ρ : server_role_t) (fd : Z) (Reach : mem → Prop).
Context (Hcmd : ∀ args w w', Reach (w_mem w) → handle_command args w = Ok (tt, w') → Reach (w_mem w')).
Context (Hload : ∀ os dir name m rc m', Reach m → rdb_load_data_from_file os dir name m = Ok (rc, m') → Reach m').

Abbreviation session_ok := (session_at ρ fd Reach transfer_ok).
Abbreviation good := (world_good ρ fd transfer_ok).
Abbreviation reach := (world_reach ρ fd Reach transfer_ok).

Lemma client_ok_with (f : Client → Client) w :
  (∀ c, client_ok ρ fd c → client_ok ρ fd (f c)) → good w → good (set_client (f (w_client w)) w).
Proof. intros Hf [Hc Hi]. split; [by apply Hf|done]. Qed.

(** A client that becomes a replica is no link. *)
Lemma good_inv : world_inv good.
Proof.
  constructor; try done.
  - intros f Hf w b w' Hw E. eapply (reply_world_keeps ρ fd (λ _, True) _ transfer_closed f Hf); [by split|exact E].
  - intros mask w b w' Hw E. eapply (epoll_world_keeps ρ fd (λ _, True) _ transfer_closed mask); [by split|exact E].
  - intros w b w' [[(Hfd & Hwf & Ht & Ho) Hx] (Hr & Hl & Hn)]. unfold add_replica.
    destruct (_ <? _) eqn:E; [|done]. intros [= _ <-]. zbool. split; [by split; [split_and!|]|].
    split_and!; cbn; [done|by rewrite length_insert|lia|lia].
  - intros f n w [[(Hfd & Hwf & Ht & Ho) Hx] Hi]. split; [|done]. split; [|done]. split_and!; [done..|]. cbn. lia.
Qed.

Lemma command_keeps args : preserves reach (handle_command args).
Proof.
  intros w [] w' [Hw Hm] E. split; [|by eapply Hcmd].
  eapply handle_command_keeps; [exact good_inv| |exact Hw|exact E]. intros b w1 H. by apply (client_ok_with (with_propogate b)).
Qed.

(** The handshake leads from one state before the transfer to another. *)
Lemma simple_string_keeps buf : preserves reach (handle_simple_string_reply buf).
Proof.
  intros w [] w' [[[Hc Hx] Hi] Hm]. unfold handle_simple_string_reply. erewrite st_bind_ok by reflexivity. cbv beta zeta.
  destruct (bool_decide _); [|by intros [= <-]]. unfold transfer_ok in Hx.
  destruct (repl_client_state _) eqn:E; try (by intros [= <-]; split; [split; [split; [|unfold transfer_ok; rewrite E]|]|]);
    (case_match; intros [= <-]; by split).
Qed.

Lemma error_state_ok w : reach w → reach (set_client (with_repl_client_state REPL_STATE_ERROR (w_client w)) w).
Proof. intros [[[Hc _] Hi] Hm]. by split. Qed.

(** The callbacks of the parser keep the server, and end when the commands do. *)
#[local] Instance good_handler : Handler (CommandHandler * world) := create_handler max_alloc.

Lemma good_handler_safe X N :
  (∀ args w, reach w → fine X (handle_command args w)) → INT_MAX ≤ N < 2 ^ 60 →
  HandlerSafe (CommandHandler * world) N (handler_good reach) (allowed X) array_length.
Proof.
  intros Hfine HN. apply server_handler_safe; [done|done|done|apply command_keeps|apply simple_string_keeps|apply error_state_ok].
Qed.

Lemma array_length_pred n : array_length n → n ≠ 0 → n ≠ -1 → array_length (s64 (n - 1)).
Proof. unfold array_length, INT_MAX. intros Hn H0 _. rewrite swrap_small; lia. Qed.

Lemma run_parser_keeps M n s k s' :
  n ≤ zlen M → zlen M < 2 ^ 60 → session_ok s → run_parser max_alloc pf M n s = Ok (k, s') → session_ok s'.
Proof.
  intros Hn HM [Hw Hin Hp Ha Hb Hpe]. unfold run_parser, the_handler. set (N := Z.max INT_MAX (zlen M)).
  pose proof (good_handler_safe True N (λ args w _, handle_command_halts args w Logic.I) ltac:(unfold N, INT_MAX; lia)) as Hsafe.
  destruct (parser_parse M pf 0 n (s_parser s, (s_ch s, s_world s))) as [[pos [p [ch w]]]|] eqn:E; [|done].
  intros [= <- <-].
  eapply (parse_keeps_stack N (handler_good reach) (allowed True) array_length M (allowed_fault True) array_length_pred)
    in E as [Hp' [Hc Hw']]; try done; unfold N; try lia.
Qed.

(** *** Propagation *)

Lemma write_backlog_keeps n : preserves session_ok (write_backlog region_ptr padding n).
Proof. unfold write_backlog. preserve. Qed.

(** The client at a descriptor, served or not, and an update of it. *)
Lemma client_at_ok r s c : session_ok s → client_at r s = Some c → client_ok ρ r c.
Proof.
  intros Hs. unfold client_at. destruct (Z.eqb_spec r (client_fd (w_client (s_world s)))) as [->|Hne].
  - destruct (s_open s); [|done]. intros [= <-]. destruct Hs as [[[Hc _] _] _ _ _ _ _].
    pose proof Hc as [[Hfd _] _]. rewrite Hfd. exact Hc.
  - by apply (so_peers _ _ _ _ _ Hs).
Qed.

Lemma put_client_at_ok r c s : session_ok s → client_ok ρ r c → session_ok (put_client_at r c s).
Proof.
  intros [[[Hc Hi] Hm] Hin Hp Ha Hb Hpe] Hc'. unfold put_client_at.
  destruct (Z.eqb_spec r (client_fd (w_client (s_world s)))) as [->|Hne].
  - constructor; try done. split; [|done]. split; [|done]. by destruct Hc as [[<- _] _].
  - constructor; try done. intros r' c'. cbn. intros [[<- <-]|[_ H]]%lookup_insert_Some; [done|by apply Hpe].
Qed.

Lemma enable_write_at_keeps r : preserves session_ok (enable_write_at r).
Proof.
  intros s [] s' Hs. unfold enable_write_at. destruct (client_at r s) as [c|] eqn:Ec; [|done].
  pose proof (client_at_ok r s c Hs Ec) as Hc. unfold client_enable_write_events, epoll_mod. cbn [epoll_answers set_client].
  assert (client_ok ρ r (with_epoll (Z.lor (epoll_events c) EPOLLOUT) c)) as Hc' by exact Hc.
  assert (∀ w, w_client w = w_client (s_world s) → w_info w = w_info (s_world s) → w_mem w = w_mem (s_world s) →
    session_ok (put_world w s)) as Hw.
  { intros w E1 E2 E3. apply put_world_ok; [done|]. destruct Hs as [[[H1 H2] H3] _ _ _ _ _].
    split; [split|]; congruence. }
  destruct (epoll_answers (s_world s)) as [|[] bs]; [| |done]; intros [= <-];
    (apply put_client_at_ok; [by apply Hw|done]).
Qed.

Lemma propagate_to_keeps M n r : preserves session_ok (propagate_to M n r).
Proof.
  unfold propagate_to. destruct (r =? 0); [apply leads_ret|].
  intros s [] s' Hs (s0 & s1 & E1 & E)%st_bind_inv. injection E1 as <- <-. cbn [id] in E.
  apply st_bind_inv in E as (c & s1 & E1 & E). unfold lift, of_option in E1.
  destruct (client_at r s) as [c'|] eqn:Ec; [|done]. injection E1 as <- <-.
  destruct (client_at_ok r s c' Hs Ec) as ((Hfd & Hwf & Ht & Ho) & Hx).
  apply st_bind_inv in E as ([buf len] & s1 & E1 & E). unfold lift in E1.
  destruct (rb_writable _) as [[buf' len']|]; [|done]. injection E1 as <- <- <-.
  destruct (n <=? len'); [|by eapply disconnection_keeps].
  apply st_bind_inv in E as ([] & s1 & E1 & E). eapply alive_keeps in E1; [|done]. cbv beta in E.
  apply st_bind_inv in E as ([] & s2 & E2 & E). apply (leads_when session_ok) in E2; [|apply leads_stop|done].
  apply st_bind_inv in E as (rb1 & s3 & E3 & E). unfold lift in E3.
  destruct (rb_store _ _ _) as [rb1'|] eqn:Es; [|done]. injection E3 as <- <-.
  apply st_bind_inv in E as ([rc rb2] & s3 & E3 & E). unfold lift in E3.
  destruct (rb_write _ _) as [[rc' rb2']|] eqn:Ew; [|done]. injection E3 as <- <- <-.
  apply rb_store_keeps in Es as [Hwf1 _]; [|done]. apply rb_write_keeps in Ew as [Hwf2 _]; [|done].
  apply st_bind_inv in E as ([] & s3 & E3 & E). injection E3 as <-.
  eapply leads_when; [apply enable_write_at_keeps| |exact E]. by apply put_client_at_ok.
Qed.

Lemma propagate_loop_keeps fuel M n i : preserves session_ok (propagate_loop fuel M n i).
Proof.
  revert i. induction fuel as [|fuel IH]; intros i; cbn [propagate_loop]; [apply leads_stop|].
  pose proof propagate_to_keeps. preserve.
Qed.

Lemma propagate_keeps M n : preserves session_ok (propagate region_ptr padding M n).
Proof. unfold propagate. pose proof write_backlog_keeps. pose proof propagate_loop_keeps. preserve. Qed.

(** *** Input *)

Lemma after_parse_keeps a b M n : preserves session_ok (after_parse region_ptr padding a b M n).
Proof. unfold after_parse. pose proof propagate_keeps. preserve. Qed.

(** The bytes the parser is given. *)
Lemma parser_input s :
  session_ok s → ∃ M, rb_load (s_in s) (read_index (s_in s) mod size (s_in s))
      (2 * size (s_in s) - read_index (s_in s) mod size (s_in s)) = Ok M ∧
    rb_readable (s_in s) = Ok (read_index (s_in s) mod size (s_in s), zlen (contents (s_in s))) ∧
    zlen (contents (s_in s)) ≤ zlen M ≤ 2 * RING_BUFFER_SIZE.
Proof.
  intros Hs. destruct (so_in _ _ _ _ _ Hs) as [Hwf Hsz]. destruct (rb_load_tail (s_in s) Hwf) as (rest & HM).
  eexists. split; [exact HM|]. split; [by apply rb_readable_wf|]. split; [rewrite zlen_app; lia|].
  apply rb_load_length in HM. rewrite HM, Hsz. unfold RING_BUFFER_SIZE.
  pose proof (Z.mod_pos_bound (read_index (s_in s)) 65536 ltac:(lia)). lia.
Qed.

Lemma process_received_keeps a b : preserves session_ok (process_received max_alloc region_ptr padding pf a b).
Proof.
  intros s go s' Hs. unfold process_received. destruct (parser_input s Hs) as (M & HM & Hr & Hlen).
  erewrite st_bind_ok by reflexivity. cbv beta. rewrite Hr. erewrite st_bind_ok by reflexivity. cbv beta iota.
  rewrite HM. erewrite st_bind_ok by reflexivity. cbv beta. intros (k & s1 & E1 & E)%st_bind_inv.
  eapply after_parse_keeps; [|exact E]. eapply run_parser_keeps; [| |exact Hs|exact E1]; [lia|].
  unfold RING_BUFFER_SIZE in Hlen. lia.
Qed.

Lemma process_loop_keeps fuel : preserves session_ok (process_loop max_alloc region_ptr padding fuel pf).
Proof.
  induction fuel as [|fuel IH]; cbn [process_loop]; [apply leads_stop|].
  pose proof process_received_keeps. pose proof (read_sock_keeps ρ fd Reach transfer_ok) as Hr. unfold read_sock in Hr. preserve.
Qed.

Lemma process_input_keeps : preserves session_ok (process_client_input max_alloc region_ptr padding pf).
Proof. intros s [] s'. apply process_loop_keeps. Qed.

(** ** The link to the master

    What is known of the link in each part: before the transfer, at its header, at
    a turn of its loop with [bytes_read] as [br], after [n] bytes were received, and
    after they were written. *)

Definition linking (c : Client) : Prop := type c = CLIENT_TYPE_MASTER ∧ rdb_written_bytes c = 0.
Definition at_header (c : Client) : Prop := linking c ∧ repl_client_state c = REPL_STATE_RECEIVED_FULLRESYNC_RESPONSE.
Definition starting (c : Client) : Prop := linking c ∧ rdb_received_bytes c = 0 ∧ rdb_expected_bytes c ≤ LONG_MAX.
Definition in_turn (c : Client) : Prop :=
  type c = CLIENT_TYPE_MASTER ∧ repl_client_state c = REPL_STATE_RECEIVING_RDB_DATA ∧
  LONG_MIN ≤ rdb_written_bytes c ∧ rdb_expected_bytes c ≤ LONG_MAX.
Definition turn_ok (br : option Z) (c : Client) : Prop :=
  in_turn c ∧ rdb_written_bytes c = rdb_received_bytes c ∧ (is_Some br → rdb_received_bytes c < rdb_expected_bytes c).
Definition room_for (n : Z) (c : Client) : Prop :=
  in_turn c ∧ rdb_written_bytes c = rdb_received_bytes c ∧ rdb_received_bytes c + n ≤ rdb_expected_bytes c.
Definition got (n : Z) (c : Client) : Prop :=
  in_turn c ∧ rdb_received_bytes c = rdb_written_bytes c + n ∧ rdb_received_bytes c ≤ rdb_expected_bytes c.
Definition wrote (c : Client) : Prop :=
  in_turn c ∧ rdb_written_bytes c = rdb_received_bytes c ∧ rdb_received_bytes c ≤ rdb_expected_bytes c.

Lemma linking_closed : link_closed linking.
Proof. intros c c' (H1 & H2 & H3 & H4 & H5) [Ht Hw]. split; congruence. Qed.
Lemma at_header_closed : link_closed at_header.
Proof. intros c c' H [Hl Hs]. split; [by eapply linking_closed|]. destruct H as (_ & -> & _). done. Qed.
Lemma turn_closed br : link_closed (turn_ok br).
Proof.
  intros c c' (H1 & H2 & H3 & H4 & H5) ((Ht & Hs & Hl & Hx) & Hw & Hb). unfold turn_ok, in_turn. by rewrite H1, H2, H3, H4, H5.
Qed.
Lemma wrote_closed : link_closed wrote.
Proof.
  intros c c' (H1 & H2 & H3 & H4 & H5) ((Ht & Hs & Hl & Hx) & Hw & Hb). unfold wrote, in_turn. by rewrite H1, H2, H3, H4, H5.
Qed.
#[local] Hint Resolve linking_closed at_header_closed turn_closed wrote_closed : keep.

Lemma turn_transfer br c : turn_ok br c → transfer_ok c.
Proof. intros ((Ht & Hs & Hl & Hx) & Hw & _) _. rewrite Hs. split; [done|]. lia. Qed.

Lemma load_session_keeps os dir name : preserves session_ok (on_w (on_db (rdb_load_data_from_file os dir name))).
Proof.
  apply on_w_keeps. intros w rc w' [Hw Hm]. unfold on_db.
  destruct (rdb_load_data_from_file os dir name (w_mem w)) as [[rc' m']|] eqn:E; [|done]. intros [= _ <-].
  split; [exact Hw|]. by eapply Hload.
Qed.

Lemma send_command_keeps args next : preserves (session_at ρ fd Reach linking) (send_command args next).
Proof. unfold send_command. preserve. apply on_client_leads; by intros c Hc. Qed.

(** A state before the transfer. *)
Lemma enter_state next :
  (∀ c, rdb_written_bytes c = 0 → transfer_ok (with_repl_client_state next c)) →
  leads (session_at ρ fd Reach linking) session_ok (on_client (with_repl_client_state next)).
Proof. intros Hn. apply on_client_leads; [by intros c Hc|]. intros c [_ Hw]. by apply Hn. Qed.

Lemma open_temp_keeps T : link_closed T → preserves (session_at ρ fd Reach T) open_temp.
Proof. intros HT. unfold open_temp, set_transfer. preserve. Qed.

Lemma close_temp_keeps T : link_closed T → preserves (session_at ρ fd Reach T) close_temp.
Proof. intros HT. unfold close_temp, set_transfer. preserve. Qed.

Lemma load_temp_keeps : preserves session_ok load_temp.
Proof.
  unfold load_temp, client_enable_read_events. pose proof load_session_keeps. preserve.
  apply on_client_leads; by intros c Hc.
Qed.

(** A read takes an answer, and gives no more than it was asked for. *)
Lemma sock_read_takes len k d k' :
  0 ≤ len → sock_read len k = (inl d, k') → d ≠ [] →
  0 < zlen d ≤ len ∧ (length (read_answers k') < length (read_answers k))%nat.
Proof.
  intros Hlen. unfold sock_read. destruct (read_answers k) as [|[n| |e] rs]; [done| |by intros [= <- _]|done].
  destruct (take _ (incoming k)) as [|x l] eqn:E; [done|]. intros [= <- <-] _. cbn [read_answers length]. split; [|lia].
  assert (length (x :: l) ≤ Z.to_nat (Z.min n len))%nat as Hl by (rewrite <- E, length_take; lia). cbn [length] in Hl |- *. lia.
Qed.
Lemma sock_read_interrupted len k k' :
  sock_read len k = (inr EINTR, k') → (length (read_answers k') < length (read_answers k))%nat.
Proof.
  unfold sock_read. destruct (read_answers k) as [|[n| |e] rs]; [done| |done|].
  - by destruct (take _ _).
  - intros [= -> <-]. cbn. lia.
Qed.

(** The reading part of a turn. *)
Lemma receive_bytes_gives br s r s' :
  session_at ρ fd Reach (turn_ok br) s → receive_bytes br s = Ok (r, s') →
  match r with
  | Leave => session_ok s'
  | Again => session_at ρ fd Reach (turn_ok (Some (-1))) s' ∧
      (length (read_answers (s_sock s')) < length (read_answers (s_sock s)))%nat
  | WriteOut None => True
  | WriteOut (Some n) => 0 ≤ n ∧ session_at ρ fd Reach (got n) s' ∧
      (length (read_answers (s_sock s')) < length (read_answers (s_sock s)))%nat
  end.
Proof.
  intros Hs. pose proof Hs as [[[[_ ((Ht & Hst & Hl & Hx) & Hw & Hb)] _] _] _ _ _ _ _]. change (w_client (s_world s)) with (cl s) in *.
  unfold receive_bytes. erewrite st_bind_ok by reflexivity. cbv beta. destruct (_ <? _) eqn:E; zbool.
  2:{ intros [= <- <-]. destruct br as [n|]; [|done]. specialize (Hb ltac:(by eexists)). lia. }
  erewrite st_bind_ok by reflexivity. cbv beta.
  destruct (so_in _ _ _ _ _ Hs) as [Hwf _]. unfold mbind at 1, st_bind, lift. destruct (rb_writable _) as [[buf len]|]; [|done].
  assert (session_ok s) as Hok by (eapply session_at_weaken; [|exact Hs]; apply turn_transfer).
  destruct (len =? 0); [by intros [= <- <-]|]. unfold mbind at 1, st_bind, read_sock.
  destruct (sock_read _ (s_sock s)) as [[d|e] k] eqn:Er.
  - destruct d as [|x d]; [intros [= <- <-]; by apply put_sock_ok|]. set (data := x :: d) in *.
    assert (session_at ρ fd Reach (room_for (zlen data)) (put_sock k s) ∧
      (length (read_answers k) < length (read_answers (s_sock s)))%nat) as [H1 Hans].
    { destruct (decide (rdb_expected_bytes (cl s) - rdb_received_bytes (cl s) < 2 ^ 63)) as [Hlt|Hge].
      - rewrite swrap_small in Er by lia. apply sock_read_takes in Er as [Hd Ha]; [|lia|done]. split; [|done].
        apply put_sock_ok. eapply session_at_weaken; [|exact Hs]. intros _. split; [done|]. split; [done|]. lia.
      - exfalso. assert (s64 (rdb_expected_bytes (cl s) - rdb_received_bytes (cl s)) < 0) as Hneg.
        { unfold LONG_MIN, LONG_MAX in *. unfold swrap. change (2 ^ (64 - 1)) with 9223372036854775808.
          rewrite (Z.mod_eq _ (2 ^ 64)) by done.
          assert ((rdb_expected_bytes (cl s) - rdb_received_bytes (cl s) + 9223372036854775808) / 2 ^ 64 = 1) as ->;
            [|lia]. symmetry. apply (Z.div_unique _ _ _ (rdb_expected_bytes (cl s) - rdb_received_bytes (cl s) + 9223372036854775808 - 2 ^ 64)); lia. }
        revert Er. unfold sock_read. destruct (read_answers (s_sock s)) as [|[n| |]]; [done| |done|done].
        replace (Z.to_nat (Z.min n _)) with 0%nat by lia. done. }
    clearbody data. intros (rc1 & s1 & E1 & E2)%st_bind_inv. pose proof E1 as Hs1. apply (in_keeps ρ fd Reach (room_for (zlen data))) in Hs1;
      [|apply rb_store_ok|done].
    apply st_bind_inv in E2 as (rc2 & s2 & E2 & E3). pose proof E2 as Hs2. apply (in_keeps ρ fd Reach (room_for (zlen data))) in Hs2;
      [|apply rb_write_ok|done].
    apply st_bind_inv in E3 as (u & s3 & E3 & E4). injection E4 as <- <-. split; [lia|].
    assert (s_sock s3 = k) as ->.
    { unfold rb_op_on in E1, E2. destruct (rb_store _ _ _); [|done]. injection E1 as _ <-.
      destruct (rb_write _ _) as [[]|]; [|done]. injection E2 as _ <-. by injection E3 as _ <-. }
    split; [|done]. eapply on_client_leads; [| |exact Hs2|exact E3]; [by intros c Hc|].
    intros c ((Ht' & Hst' & Hl' & Hx') & Hw' & Hr'). unfold got, in_turn. cbn. rewrite swrap_small by (unfold LONG_MIN, LONG_MAX in *; lia).
    split_and!; done || lia.
  - assert (∀ e, session_ok (put_sock e s)) as Hp by (intros; by apply put_sock_ok).
    destruct e; [|by intros [= <- <-]..]. intros [= <- <-]. apply sock_read_interrupted in Er. split; [|exact Er].
    apply put_sock_ok. eapply session_at_weaken; [|exact Hs]. intros (H1 & H2 & _). by split_and!.
Qed.

(** The writing part writes what was received. *)
Lemma write_temp_gives n s u s' :
  0 ≤ n → session_at ρ fd Reach (got n) s → write_temp n s = Ok (u, s') →
  session_at ρ fd Reach wrote s' ∧ s_sock s' = s_sock s.
Proof.
  intros Hn Hs. pose proof Hs as [[[[_ ((Ht & Hst & Hl & Hx) & Hr & He)] _] _] _ _ _ _ _]. change (w_client (s_world s)) with (cl s) in *.
  unfold write_temp. erewrite st_bind_ok by reflexivity. cbv beta. cbn [id].
  unfold mbind at 1, st_bind, lift. destruct (rb_readable _) as [[buf len]|]; [|done]. cbn [id].
  destruct (tmp_rdb_fp (cl s)) as [|path written|]; [done| |done].
  unfold mbind at 1, st_bind. destruct (rb_load _ _ _) as [data|] eqn:Ed; [|done]. cbv beta iota.
  apply rb_load_length in Ed. rewrite uwrap_small in Ed by (unfold LONG_MIN, LONG_MAX in *; lia).
  intros (u1 & s1 & E1 & E2)%st_bind_inv. apply st_bind_inv in E2 as (rc & s2 & E2 & [= _ <-]).
  assert (session_at ρ fd Reach wrote s1) as H1.
  { eapply on_client_leads; [| |exact Hs|exact E1]; [by intros c Hc|].
    intros c ((Ht' & Hst' & Hl' & Hx') & Hr' & He'). unfold wrote, in_turn. cbn.
    rewrite swrap_small by (unfold LONG_MIN, LONG_MAX in *; lia). split_and!; done || lia. }
  split; [eapply in_keeps; [apply rb_read_ok|exact H1|exact E2]|].
  unfold rb_op_on in E2. destruct (rb_read _ _) as [[]|]; [|done]. injection E2 as _ <-. by injection E1 as _ <-.
Qed.

Lemma finish_keeps : leads (session_at ρ fd Reach wrote) session_ok (_ ← close_temp; load_temp).
Proof.
  apply (leads_bind _ session_ok); [|intros _; apply load_temp_keeps]. intros s u s' Hs E.
  eapply session_at_weaken; [|eapply (close_temp_keeps wrote); [apply wrote_closed|exact Hs|exact E]].
  intros (H & Hw & _). by apply (turn_transfer None).
Qed.

Lemma receive_loop_keeps fuel br : leads (session_at ρ fd Reach (turn_ok br)) session_ok (receive_loop fuel br).
Proof.
  revert br. induction fuel as [|fuel IH]; intros br s u s' Hs; [done|]. cbn [receive_loop].
  intros (r & s1 & E1 & E)%st_bind_inv. apply (receive_bytes_gives br s r s1 Hs) in E1. destruct r as [| |[n|]]; [| | |done].
  - by injection E as _ <-.
  - destruct E1 as [H1 _]. by eapply IH.
  - destruct E1 as (Hn & H1 & _). unfold mbind at 1, st_bind, lift in E. cbn [of_option] in E.
    apply st_bind_inv in E as (u1 & s2 & E2 & E). apply write_temp_gives in E2 as [H2 _]; [|done|done].
    apply st_bind_inv in E as (c & s3 & [= <- <-] & E). destruct (_ =? _) eqn:Ee; [by eapply finish_keeps|].
    eapply IH; [|exact E]. eapply session_at_weaken; [|exact H2]. intros (Ht & Hw & He). zbool.
    split; [done|]. split; [done|]. lia.
Qed.

Lemma receive_snapshot_keeps : leads (session_at ρ fd Reach (turn_ok None)) session_ok replica_receive_rdb_snapshot.
Proof.
  assert (leads (session_at ρ fd Reach (turn_ok None)) session_ok (mret tt)) as Hret.
  { intros s u s' Hs [= _ <-]. eapply session_at_weaken; [|exact Hs]. apply turn_transfer. }
  unfold replica_receive_rdb_snapshot.
  apply (leads_bind _ (session_at ρ fd Reach (turn_ok None))); [apply open_temp_keeps, turn_closed|intros opened].
  destruct opened; [|done]. apply (leads_bind _ (session_at ρ fd Reach (turn_ok None))); [apply leads_gets|intros s].
  apply receive_loop_keeps.
Qed.

(** The header gives the length, and the first turn begins. *)
Lemma header_starts M :
  leads (session_at ρ fd Reach at_header) (session_at ρ fd Reach starting)
    (set_transfer (λ c, (st_value (strtol M), 0, rdb_written_bytes c, tmp_rdb_fp c))).
Proof.
  apply on_client_leads; [by intros c Hc|]. intros c [[Ht Hw] _]. split; [done|]. split; [done|]. cbn. apply strtol_range.
Qed.
Lemma starts_turn :
  leads (session_at ρ fd Reach starting) (session_at ρ fd Reach (turn_ok None))
    (on_client (with_repl_client_state REPL_STATE_RECEIVING_RDB_DATA)).
Proof.
  apply on_client_leads; [by intros c Hc|]. intros c ([Ht Hw] & Hr & He). unfold turn_ok, in_turn. cbn.
  unfold LONG_MIN. split_and!; try done; try lia.
Qed.

Lemma receive_header_keeps : leads (session_at ρ fd Reach at_header) session_ok receive_header.
Proof.
  assert (leads (session_at ρ fd Reach at_header) session_ok (mret tt)) as Hret.
  { intros s u s' Hs [= _ <-]. eapply session_at_weaken; [|exact Hs]. intros [[_ Hw] Hst] _. by rewrite Hst. }
  set (I := session_at ρ fd Reach at_header) in *. unfold receive_header.
  apply (leads_bind _ I); [apply leads_gets|intros rb]. apply (leads_bind _ I); [apply leads_lift|intros [buf len]].
  destruct (len <? 4); [done|]. apply (leads_bind _ I); [apply leads_lift|intros M]. destruct (find_crlf _ _); [|done]. cbv zeta.
  apply (leads_bind _ I); [apply in_keeps, rb_read_ok|intros rc]. destruct (negb _); [done|].
  apply (leads_bind _ (session_at ρ fd Reach starting)); [apply header_starts|intros _].
  apply (leads_bind _ (session_at ρ fd Reach (turn_ok None))); [apply starts_turn|intros _; apply receive_snapshot_keeps].
Qed.

Lemma master_data_keeps :
  leads (λ s, session_ok s ∧ type (cl s) = CLIENT_TYPE_MASTER) session_ok
    (replica_handle_master_data max_alloc region_ptr padding pf).
Proof.
  intros s u s' [Hs Ht]. unfold replica_handle_master_data. erewrite st_bind_ok by reflexivity. cbv beta. cbn [id].
  pose proof (λ T H, session_at_weaken ρ fd Reach transfer_ok T s H Hs) as Hweak.
  assert (∀ next (f : sessM unit), preserves (session_at ρ fd Reach linking) f →
    (transfer_ok (cl s) → linking (cl s)) →
    (∀ c, rdb_written_bytes c = 0 → transfer_ok (with_repl_client_state next c)) →
    (_ ← f; on_client (with_repl_client_state next)) s = Ok (u, s') → session_ok s') as Hsend.
  { intros next f Hf Hl Hn. eapply leads_bind; [exact Hf|intros; by apply enter_state|]. by apply Hweak. }
  unfold send_ping_command, send_replconf_listening_port_command, send_replconf_capa_command, send_psync_command.
  destruct (repl_client_state (cl s)) eqn:Est.
  all: try (apply Hsend; [apply send_command_keeps| |by intros c Hc _]; intros Hx; split; [done|]; specialize (Hx Ht); by rewrite Est in Hx).
  all: try (by apply process_input_keeps).
  all: try (by intros [= _ <-]).
  - apply receive_header_keeps. apply Hweak. intros Hx. specialize (Hx Ht). rewrite Est in Hx. by split; [split|].
  - apply receive_snapshot_keeps. apply Hweak. intros Hx. specialize (Hx Ht). rewrite Est in Hx. destruct Hx as (H1 & H2 & H3).
    split; [split_and!; [done..|lia|done]|]. split; [done|]. by intros [].
Qed.

(** ** The master's output to a replica *)

Lemma sock_write_count d k n k' : sock_write d k = (inl n, k') → 0 ≤ n.
Proof. unfold sock_write. destruct (write_answers k) as [|[m|e] ws]; [|..|done]; intros [= <- _]; lia. Qed.
Lemma sendfile_count file o n k m k' : sendfile file o n k = (inl m, k') → 0 ≤ m.
Proof.
  unfold sendfile. destruct (_ <=? n); [done|]. destruct (slice _ _ _); [by intros [= <- _]|]. apply sock_write_count.
Qed.

Lemma sent_keeps n : 0 ≤ n → preserves session_ok (on_client (λ c, with_file_offset (rdb_file_offset c + n) c)).
Proof.
  intros Hn. apply on_client_keeps; [apply transfer_closed| |by intros c]. intros c (H1 & H2 & H3 & H4). split_and!; [done..|cbn; lia].
Qed.

Lemma send_loop_keeps fuel n : preserves session_ok (send_loop fuel n).
Proof.
  induction fuel as [|fuel IH]; cbn [send_loop]; [apply leads_stop|].
  apply (leads_bind _ session_ok); [apply leads_gets|intros s]. destruct (rdb_fd (cl s) ≫= _) as [file|]; [|apply leads_ret].
  destruct (sendfile _ _ _ _) as [[m|e] k] eqn:E; [apply sendfile_count in E; pose proof (sent_keeps m E)|]; preserve.
Qed.
Lemma send_snapshot_keeps : preserves session_ok master_send_rdb_snapshot.
Proof. unfold master_send_rdb_snapshot, client_disable_write_events. pose proof send_loop_keeps. preserve. Qed.

(** Copying over the structure leaves the memory and the size alone. *)
Lemma le_val_range d : 0 ≤ le_val d < 2 ^ (8 * zlen d).
Proof.
  induction d as [|c d IH]; [done|]. rewrite length_cons. unfold le_val in *. cbn [foldr].
  replace (8 * Z.of_nat (S (length d))) with (8 + 8 * zlen d) by lia. rewrite Z.pow_add_r by lia.
  pose proof (byte_val_range c). change (2 ^ 8) with 256. lia.
Qed.

Lemma overwrite_shape rb d rb' :
  zlen region_ptr = 8 → zlen padding = 4 →
  rb_wf rb → overwrite_struct region_ptr padding rb d = Ok rb' → rb_shape rb'.
Proof.
  intros Hptr Hpad Hwf. unfold overwrite_struct. destruct (_ <? _) eqn:El; [done|]. destruct (bool_decide _); [|done].
  intros [= <-]. destruct (wf_shape _ Hwf) as (HW & Hs & _ & _).
  set (new := d ++ drop (length d) (struct_image region_ptr padding rb)).
  assert (zlen (struct_image region_ptr padding rb) = 40) as H40
    by (unfold struct_image, le_bytes; rewrite !zlen_app, !length_fmap, !length_seqZ; lia).
  assert (zlen new = 40) as Hnew by (unfold new; zbool; rewrite zlen_app, length_drop; lia).
  assert (∀ i, 0 ≤ i ≤ 32 → 0 ≤ le_val (slice i 8 new) < 2 ^ 64) as Hv.
  { intros i Hi. pose proof (le_val_range (slice i 8 new)) as H. by rewrite slice_length in H by lia. }
  split; [done|]. split; [done|]. split; apply Hv; lia.
Qed.

Lemma overwritten_shape rb : rb_shape rb → leads session_ok (session_shape ρ fd Reach transfer_ok) (on_client (with_output rb)).
Proof.
  intros Hsh s [] s' Hs. unfold on_client, on_w. cbn. intros [= <-]. split; [done|].
  exists (output_buffer (cl s)). destruct Hs as [[[[(Hfd & Hwf & Ht & Ho) Hx] Hi] Hm] Hin Hp Ha Hb Hpe]. by constructor.
Qed.

(** The part of a partial resynchronisation that sends: the structure is written
    over, and flushing asserts what is in it. *)
Lemma overwrite_and_flush rb :
  rb_shape rb → preserves session_ok (_ ← on_client (with_output rb); bytes_sent ← flush_client_output;
    when (0 <? bytes_sent) (on_client (λ c, with_repl_offset (s64 (repl_offset c + bytes_sent)) c))).
Proof.
  intros Hsh. apply (leads_bind _ (session_shape ρ fd Reach transfer_ok)); [by apply overwritten_shape|intros _].
  apply (leads_bind _ session_ok); [apply flush_restores, transfer_closed|intros n]. preserve.
Qed.

Lemma continue_psync_keeps :
  zlen region_ptr = 8 → zlen padding = 4 → preserves session_ok (continue_psync region_ptr padding).
Proof.
  intros Hptr Hpad s [] s' Hs. unfold continue_psync. erewrite st_bind_ok by reflexivity. cbv beta zeta. cbn [id].
  assert (rb_wf (output_buffer (cl s))) as Hwf by apply Hs.
  match goal with |- ?f s = _ → _ => enough (preserves session_ok f) as Hf by (by apply Hf) end.
  unfold client_disable_write_events. destruct (_ =? _); [preserve|].
  apply (leads_bind _ session_ok); [preserve|intros _]. destruct (_ <=? 0); [apply leads_ret|].
  apply (leads_bind _ session_ok); [apply leads_lift|intros [buf len]]. destruct (len <? _); [preserve|].
  apply (leads_bind _ session_ok); [apply leads_lift|intros d].
  apply (leads_bind _ session_ok); [preserve|intros _].
  destruct (overwrite_struct region_ptr padding (output_buffer (cl s)) d) as [rb|] eqn:E; [|done].
  apply overwrite_shape in E; [|done..]. apply (overwrite_and_flush rb E).
Qed.

Lemma replica_out_keeps :
  zlen region_ptr = 8 → zlen padding = 4 → preserves session_ok (master_handle_replica_out region_ptr padding).
Proof.
  intros Hptr Hpad. unfold master_handle_replica_out. pose proof send_snapshot_keeps.
  pose proof (continue_psync_keeps Hptr Hpad). preserve.
Qed.
End session.
