(* ===== verification/ServerInv.v ===== *)
(** * The invariant of the server

    What holds of every connection, the backlog and the replica table after any
    events, whatever bytes the peers send and whatever the operating system
    answers, as long as no step faults; and that the keyspace only ever changes
    by commands and by loading a snapshot. *)

From S2P Require Import Prelude CLib RingBuffer Util Database Rdb RespWriter ServerState.
From S2P Require Import Commands CommandSpec KeyspaceRun Halting RespParser CommandHandler ParserTerm Client ClientAlloc.
From S2P Require Import Replication Server ServerSpec SessionInv.

(** ** The invariant *)

(** A connection: the client, an input buffer of the size it was made with, a
    parser in one of its states, and an argument array that was allocated. *)
Record conn_ok (ρ : server_role_t) (fd : Z) (cn : conn) : Prop := {
  co_client : client_ok ρ fd (cn_client cn);
  co_in : rb_wf (cn_in cn) ∧ size (cn_in cn) = RING_BUFFER_SIZE;
  co_parser : stack_ok array_length (cn_parser cn);
  co_args : 0 ≤ arg_capacity (cn_ch cn) < 2 ^ 62
}.

Record server_ok (ρ : server_role_t) (sv : server) : Prop := {
  sv_info_ok : info_ok ρ (sv_info sv);
  sv_backlog_ok : backlog_ok (sv_backlog sv);
  sv_conns_ok : ∀ fd cn, sv_conns sv !! fd = Some cn → conn_ok ρ fd cn
}.

(** ** Every event *)

Section events.
Context (ρ : server_role_t) (m0 : mem).

(** The memory of the database is one that commands and loads have led to. *)
Abbreviation reached := (reached m0).

Definition server_good (sv : server) : Prop := server_ok ρ sv ∧ reached (sv_mem sv).

Lemma session_of_ok fd cn sv :
  server_good sv → sv_conns sv !! fd = Some cn → session_at ρ fd reached transfer_ok (session_of fd cn sv).
Proof.
  intros [[Hi Hb Hc] Hm] Hcn. destruct (Hc fd cn Hcn) as [Hcl Hin Hp Ha]. constructor; try done.
  intros r c. cbn [s_peers session_of]. rewrite lookup_fmap, fmap_Some. intros (cn' & Hcn' & ->).
  apply lookup_delete_Some in Hcn' as [_ Hcn']. apply (Hc r cn' Hcn').
Qed.

Lemma after_session_ok fd s sv :
  server_ok ρ sv → session_at ρ fd reached transfer_ok s → server_good (after_session fd s sv).
Proof.
  intros [Hi Hb Hc] [[[Hcl Hi'] Hm] Hin Hp Ha Hb' Hpe]. split; [|done]. constructor; try done.
  intros r cn. cbn [after_session sv_conns].
  assert (∀ cn', map_imap (λ r cn, Some (match s_peers s !! r with Some c => with_conn_client c cn | None => cn end))
    (delete fd (sv_conns sv)) !! r = Some cn' → conn_ok ρ r cn') as Hother.
  { intros cn'. rewrite map_lookup_imap. destruct (delete fd (sv_conns sv) !! r) as [cn0|] eqn:E; [|done].
    apply lookup_delete_Some in E as [_ E]. cbn. intros [= <-]. destruct (Hc r cn0 E) as [? ? ? ?].
    destruct (s_peers s !! r) as [c|] eqn:Ep; [|done]. constructor; try done. by apply Hpe. }
  destruct (s_open s); [|by apply Hother].
  intros [[<- <-]|[_ H]]%lookup_insert_Some; [|by apply Hother]. by constructor.
Qed.

(** The type of the client at a descriptor. *)
Definition type_at (fd : Z) (t : ClientType) (sv : server) : Prop :=
  from_option (λ cn, type (cn_client cn) = t) True (sv_conns sv !! fd).

(** A function that is run on clients of one type. *)
Lemma serve_typed {B} fd (g : ClientType → svM B) :
  (∀ t, leads (λ sv, server_good sv ∧ type_at fd t sv) server_good (g t)) → preserves server_good (t ← client_type fd; g t).
Proof.
  intros Hg sv b sv' Hsv (t & sv1 & E1 & E2)%st_bind_inv. eapply Hg; [|exact E2]. unfold client_type in E1.
  unfold type_at. destruct (sv_conns sv !! fd) as [cn|] eqn:Ec; [|done]. injection E1 as <- <-. split; [done|]. by rewrite Ec.
Qed.
Lemma serve_at fd t f :
  leads (λ s, session_at ρ fd reached transfer_ok s ∧ type (cl s) = t) (session_at ρ fd reached transfer_ok) f →
  leads (λ sv, server_good sv ∧ type_at fd t sv) server_good (serve fd f).
Proof.
  intros Hf sv [] sv' [Hsv Ht]. unfold serve, type_at in *. destruct (sv_conns sv !! fd) as [cn|] eqn:Ec; [|done].
  destruct (f (session_of fd cn sv)) as [[[] s]|] eqn:E; [|done]. intros [= <-].
  apply after_session_ok; [apply Hsv|]. eapply Hf; [|exact E]. split; [by apply session_of_ok|exact Ht].
Qed.

(** The page size is positive. *)
Definition client_os_sane (os : client_os) : Prop := 0 < page_size (input_os os) ∧ 0 < page_size (output_os os).
Definition event_sane (ev : epoll_event) : Prop :=
  match ev with NewConnection os => client_os_sane (connect_client os) | Ready _ _ => True end.

Lemma register_keeps fd os garbage created rel add_ok sock init mask :
  client_os_sane os → create_client os garbage fd = Ok (created, rel) →
  (∀ c, client_fd (init c) = client_fd c ∧ output_buffer (init c) = output_buffer c ∧
        (ρ = ROLE_MASTER → type (init c) ≠ CLIENT_TYPE_MASTER) ∧ rdb_file_offset (init c) = rdb_file_offset c ∧
        (rdb_written_bytes c = 0 → transfer_ok (init c))) →
  preserves server_good (register fd created add_ok sock init (epoll_mod mask)).
Proof.
  intros [Hp1 Hp2] Ec Hinit sv [] sv' [[Hi Hb Hc] Hm]. unfold register. destruct created as [[c input]|]; [|done].
  destruct (create_client_cases os garbage fd Hp1 Hp2) as (r & released & E & Hr). rewrite Ec in E.
  injection E as <- <-. destruct Hr as (_ & [Hfd (Hwi & _ & Hzi & _) (Hwo & _ & _ & _) _ (_ & _ & Hw0 & _ & Ho0 & _) _] & _).
  destruct (negb add_ok); [done|]. destruct (Hinit c) as (If & Io & It & Ioff & Ix). unfold epoll_mod. cbn [epoll_answers server_world w_client].
  assert (∀ e, conn_ok ρ fd (MkConn (with_epoll e (init c)) input parser_init (create_command_handler 256 10) sock)) as Hnew.
  { intros e. constructor; cbn; [|done|apply init_stack_ok|lia]. split; [|by apply Ix]. split_and!; cbn; [by rewrite If|by rewrite Io|done|]. rewrite Ioff. lia. }
  destruct (sv_epoll sv) as [|[] bs]; [| |done]; intros [= <-]; (split; [|exact Hm]);
    (constructor; try done; intros r cn; cbn; intros [[<- <-]|[_ H]]%lookup_insert_Some; [apply Hnew|by apply Hc]).
Qed.

Lemma accept_keeps os : client_os_sane (connect_client os) → preserves server_good (accept_client os).
Proof.
  intros Hos. unfold accept_client. destruct (_ =? -1); [apply leads_stop|].
  apply (leads_bind _ server_good); [apply leads_lift|intros _].
  apply leads_lift_bind. intros [created rel] E. eapply register_keeps; [exact Hos|exact E|]. intros c. split_and!; try done; by intros Hw Hm.
Qed.

Context (max_alloc : Z) (region_ptr padding : bytes) (pf : nat) (Hmax : max_alloc < 2 ^ 63).
Context (Hptr : zlen region_ptr = 8) (Hpad : zlen padding = 4).

(** A function for clients of any type. *)
Lemma serve_any_type fd t f :
  preserves (session_at ρ fd reached transfer_ok) f →
  leads (λ sv, server_good sv ∧ type_at fd t sv) server_good (serve fd f).
Proof. intros Hf. apply serve_at. intros s u s' [Hs _]. by apply Hf. Qed.
Lemma serve_keeps fd f :
  preserves (session_at ρ fd reached transfer_ok) f → preserves server_good (serve fd f).
Proof.
  intros Hf sv u sv' Hsv E. eapply (serve_any_type fd (from_option (type ∘ cn_client) CLIENT_TYPE_REGULAR (sv_conns sv !! fd)) f Hf);
    [split; [done|]|exact E]. unfold type_at. by destruct (sv_conns sv !! fd).
Qed.

Lemma handle_input_keeps fd : preserves server_good (handle_input max_alloc region_ptr padding pf fd).
Proof.
  apply serve_typed. intros [].
  - apply serve_any_type, process_input_keeps; [done|apply command_reaches].
  - intros sv u sv' [Hsv _] [= _ <-]. exact Hsv.
  - apply serve_at, master_data_keeps; [done|apply command_reaches|apply load_reaches].
Qed.

Lemma handle_output_keeps fd : preserves server_good (handle_output max_alloc region_ptr padding pf fd).
Proof.
  apply serve_typed. intros [].
  - apply serve_any_type. eapply leads_bind; [apply flush_keeps, transfer_closed|intros; apply leads_ret].
  - by apply serve_any_type, replica_out_keeps.
  - apply serve_at, master_data_keeps; [done|apply command_reaches|apply load_reaches].
Qed.

Lemma handle_event_keeps ev :
  event_sane ev → preserves server_good (handle_event max_alloc region_ptr padding pf ev).
Proof.
  pose proof handle_input_keeps. pose proof handle_output_keeps.
  assert (∀ fd, preserves server_good (serve fd handle_client_disconnection)) as Hd
    by (intros fd; apply serve_keeps, disconnection_keeps).
  destruct ev as [os|fd events]; cbn [event_sane handle_event]; intros Hev; [by apply accept_keeps|]. preserve.
Qed.

(** The events an answer of [epoll_wait] reports. *)
Definition wait_sane (wa : wait_answer) : Prop :=
  match wa with Waited evs _ => Forall event_sane evs | WaitFailed _ _ => True end.

Lemma handle_events_keep fresh evs :
  Forall event_sane evs → preserves server_good (handle_events max_alloc region_ptr padding pf fresh evs).
Proof.
  intros Hev. revert fresh. induction Hev as [|[os|fd events] evs Hev _ IH]; intros fresh; cbn [handle_events].
  - apply leads_ret.
  - apply (leads_bind _ server_good); [by apply handle_event_keeps|done].
  - case_bool_decide; [apply leads_stop|]. apply (leads_bind _ server_good); [by apply handle_event_keeps|done].
Qed.

Lemma event_loop_keeps waits :
  Forall wait_sane waits → preserves server_good (event_loop max_alloc region_ptr padding pf waits).
Proof.
  induction 1 as [|[evs stop|interrupted stop] waits Hev _ IH]; cbn [event_loop]; [apply leads_ret| |preserve].
  apply (leads_bind _ server_good); [by apply handle_events_keep|intros _; preserve].
Qed.
End events.

(** ** From the start *)

Definition start_sane (os : start_os) : Prop := 0 < page_size (backlog_os os) ∧ client_os_sane (master_client os).

Lemma connect_keeps os :
  start_sane os → preserves (server_good ROLE_SLAVE (mem_start os)) (connect_to_master os).
Proof.
  intros [_ Hos]. unfold connect_to_master. set (I := server_good ROLE_SLAVE (mem_start os)).
  apply (leads_bind _ I); [apply leads_lift|intros addrs]. apply (leads_bind _ I); [apply leads_lift|intros fd].
  apply leads_lift_bind. intros [created rel] E. apply (leads_bind _ I); [apply leads_lift|intros _].
  eapply register_keeps; [exact Hos|exact E|]. intros c. split_and!; try done; by intros Hw Hm.
Qed.

Lemma load_at_start_keeps ρ m0 : preserves (server_good ρ m0) load_at_start.
Proof.
  intros sv [] sv' [[Hi Hb Hc] Hm]. unfold load_at_start. destruct (bool_decide _); [|by intros [= <-]].
  destruct (rdb_load_data_from_file _ _ _ _) as [[rc m']|] eqn:E; [|done]. intros [= <-].
  split; [by constructor|]. by eapply load_reaches.
Qed.

Lemma backlog_created os sz rc b rel :
  0 < page_size os → 0 < sz < 2 ^ 62 → rb_create os sz = Ok (rc, b, rel) → backlog_ok (default NULL_BUFFER b).
Proof.
  intros Hp Hsz E. pose proof (rb_create_total os sz Hp Hsz) as H. destruct (rb_created os sz).
  - destruct H as (rb & H & Hwf & _). rewrite H in E. injection E as <- <- <-. by right.
  - rewrite H in E. injection E as <- <- <-. by left.
Qed.

Lemma set_up_good os argv sv :
  start_sane os → set_up os argv = Ok sv → ∃ ρ, server_good ρ (mem_start os) sv.
Proof.
  intros Hos. unfold set_up.
  destruct (rb_create (backlog_os os) REPL_BACKLOG_SIZE) as [[[rc b] rel]|] eqn:Eb; [|done]. cbn [mbind res_bind].
  apply backlog_created in Eb; [|apply Hos|done]. destruct (_ =? -1); [done|].
  destruct (parse_args argv default_options) as [o|]; [|done]. cbn [mbind res_bind].
  set (sv0 := MkServer _ _ _ _ _ _ ∅).
  assert (server_good (op_role o) (mem_start os) sv0) as H0.
  { split; [|exists 0; apply run_none]. constructor; [done|done|]. intros fd cn. cbn. by rewrite lookup_empty. }
  intros E. exists (op_role o).
  assert (∃ sv1, (if bool_decide (op_role o = ROLE_SLAVE) then connect_to_master os sv0 else Ok (tt, sv0)) = Ok (tt, sv1) ∧
    server_good (op_role o) (mem_start os) sv1) as (sv1 & E1 & H1).
  { case_bool_decide as Hr; [|by exists sv0]. destruct (connect_to_master os sv0) as [[[] sv1]|] eqn:Ec; [|done].
    exists sv1. split; [done|]. rewrite Hr in *. by eapply connect_keeps. }
  rewrite E1 in E. cbn [mbind res_bind] in E. destruct (load_at_start sv1) as [[[] sv2]|] eqn:E2; [|done].
  cbn [mbind res_bind] in E. destruct (listen_socket os); [|done]. injection E as <-. by eapply load_at_start_keeps.
Qed.

Section main.
Context (max_alloc : Z) (region_ptr padding : bytes) (pf : nat) (os : start_os) (argv : list bytes) (waits : list wait_answer).
Context (Hmax : max_alloc < 2 ^ 63) (Hptr : zlen region_ptr = 8) (Hpad : zlen padding = 4).
Context (Hos : start_sane os) (Hwaits : Forall wait_sane waits).

(** A server that still waits is good; one that stopped has only saved and
    released its keyspace since. *)
Lemma main_good r sv :
  main max_alloc region_ptr padding pf os argv waits = Ok (r, sv) →
  ∃ ρ sv1, server_good ρ (mem_start os) sv1 ∧
    sv_info sv = sv_info sv1 ∧ sv_backlog sv = sv_backlog sv1 ∧ sv_conns sv = sv_conns sv1 ∧ (r = None → sv = sv1).
Proof.
  unfold main, start_server. destruct (set_up os argv) as [sv0|] eqn:E0; [|done]. cbn [mbind res_bind].
  destruct (set_up_good os argv sv0 Hos E0) as [ρ H0].
  destruct (event_loop _ _ _ _ waits sv0) as [[stopped sv1]|] eqn:E1; [|done]. cbn [mbind res_bind].
  apply (event_loop_keeps ρ (mem_start os) max_alloc region_ptr padding pf Hmax Hptr Hpad waits Hwaits) in E1; [|done].
  intros E. exists ρ, sv1. destruct stopped; [|by injection E as <- <-].
  destruct (shutdown sv1) as [[rel sv2]|] eqn:E2; [|done]. injection E as <- <-. unfold shutdown in E2.
  destruct (rdb_save_data_to_file _ _ _ _) as [[b os']|]; [|done]. cbn [mbind res_bind] in E2.
  destruct (redis_db_destroy _) as [[blocks m']|]; [|done]. by injection E2 as <- <-.
Qed.
End main.

(** C8: the invariant of the server.  Whatever the peers send (malformed and
    truncated commands, nested arrays, half a snapshot), whatever the system calls
    answer, whatever allocations of ring buffers, lists, nodes and table arrays are
    refused, and however the events are interleaved: as long as no step has faulted
    ([main] gives a server; the seventeenth PSYNC, for one, writes past the replica
    table and is a fault), every connection is filed under the descriptor its client
    holds, its two ring buffers are well formed and the input buffer has its full
    size, its parser's stack is one the parse functions build, with array lengths
    from 0 to [INT_MAX], and its argument array has a size that was allocated; the
    backlog is missing or well formed; the replica table has its 16 entries and
    counts at most that many; the role has not changed, and on a master no client is
    a link to a master; what was sent of a snapshot is not negative, and a link has
    written nothing of one before its transfer and as much as it received between two
    turns of it. *)
Theorem server_invariant max_alloc region_ptr padding pf os argv waits r sv :
  max_alloc < 2 ^ 63 → zlen region_ptr = 8 → zlen padding = 4 → start_sane os → Forall wait_sane waits →
  main max_alloc region_ptr padding pf os argv waits = Ok (r, sv) → ∃ ρ, server_ok ρ sv.
Proof.
  intros Hmax Hptr Hpad Hos Hwaits E.
  destruct (main_good _ _ _ _ _ _ _ Hmax Hptr Hpad Hos Hwaits _ _ E) as (ρ & sv1 & [[Hi Hb Hc] _] & Ei & Eb & Ec & _).
  exists ρ. constructor; by rewrite ?Ei, ?Eb, ?Ec.
Qed.

(** The table, the lists and their nodes get the memory they ask for. *)
Definition allocations_succeed (os : start_os) : Prop := list_allocs os = [] ∧ table_allocs os = [].

Lemma mem_start_rep os : allocations_succeed os → db_rep (mem_start os) ∅.
Proof. intros [El Et]. unfold mem_start. rewrite El, Et. apply (mem_init_rep (wall_clock os)). Qed.

(** C9: the keyspace changes by commands and snapshots only.  From the start, after
    any events and as long as no step has faulted, the memory of the database is what
    a sequence of commands, each run by [handle_command], and of loads of snapshot
    files has made of the empty one.  When the table and the lists get the memory
    they ask for, it represents a keyspace unless every such sequence that leads to
    it has [2^28] arguments and bytes or more: the table's probe sequences and flags,
    the lists, which share no node, and the number of keys are those of a finite map. *)
Theorem keyspace_stays_well_formed max_alloc region_ptr padding pf os argv waits sv :
  max_alloc < 2 ^ 63 → zlen region_ptr = 8 → zlen padding = 4 → start_sane os → Forall wait_sane waits →
  main max_alloc region_ptr padding pf os argv waits = Ok (None, sv) →
  (∃ n, keyspace_run (mem_start os) n (sv_mem sv)) ∧
  (allocations_succeed os →
   ∀ n, keyspace_run (mem_start os) n (sv_mem sv) → n < 2 ^ 28 → ∃ A, db_rep (sv_mem sv) A).
Proof.
  intros Hmax Hptr Hpad Hos Hwaits E.
  destruct (main_good _ _ _ _ _ _ _ Hmax Hptr Hpad Hos Hwaits _ _ E) as (ρ & sv1 & [_ Hn] & _ & _ & _ & ->); [|done].
  split; [done|]. intros Hal n Hrun Hlim. pose proof (keyspace_run_charge _ _ _ Hrun).
  destruct (keyspace_run_rep _ n _ ∅ 0 Hrun) as (A & Hr & _); [done|by apply mem_start_rep|apply empty_room; lia|by exists A].
Qed.

(** ** Witnesses: two clients connect, and one leaves *)

Definition brief_client : accept_os :=
  AcceptOs 12 (2, 0) (ClientOs true (rb_os_good 10) (rb_os_good 11) true) client_memory true
    (MkSocket [] [ReadFails EINTR; Closed] [] []).

Definition brief_waits : list wait_answer :=
  [Waited [NewConnection (sample_accept []); NewConnection brief_client] false;
   Waited [Ready 12 EPOLLIN; Ready 9 EPOLLOUT] false].

Lemma brief_sane : start_sane (sample_start sample_files) ∧ Forall wait_sane brief_waits.
Proof. split; [by split|]. by repeat constructor. Qed.

Definition still_waits (r : res (option (list os_release) * server)) : bool :=
  match r with Ok (None, _) => true | _ => false end.

Lemma brief_runs :
  ∃ sv, main 1048576 (replicate 8 NUL) (replicate 4 NUL) 40 (sample_start sample_files) [] brief_waits = Ok (None, sv).
Proof.
  assert (still_waits (main 1048576 (replicate 8 NUL) (replicate 4 NUL) 40 (sample_start sample_files) [] brief_waits) = true) as H
    by (vm_compute; reflexivity).
  destruct (main _ _ _ _ _ _ _) as [[[rel|] sv]|]; [done|by exists sv|done].
Qed.

Lemma server_invariant_witness :
  ∃ sv ρ, main 1048576 (replicate 8 NUL) (replicate 4 NUL) 40 (sample_start sample_files) [] brief_waits = Ok (None, sv) ∧
    server_ok ρ sv.
Proof.
  destruct brief_runs as [sv E]. destruct (server_invariant 1048576 (replicate 8 NUL) (replicate 4 NUL) 40
    (sample_start sample_files) [] brief_waits None sv ltac:(lia) eq_refl eq_refl (proj1 brief_sane) (proj2 brief_sane) E) as [ρ H].
  exists sv, ρ. split; [exact E|exact H].
Defined.

Lemma keyspace_stays_well_formed_witness :
  ∃ sv, main 1048576 (replicate 8 NUL) (replicate 4 NUL) 40 (sample_start sample_files) [] brief_waits = Ok (None, sv) ∧
    (∃ n, keyspace_run (mem_init tick_clock) n (sv_mem sv)) ∧
    ∀ n, keyspace_run (mem_init tick_clock) n (sv_mem sv) → n < 2 ^ 28 → ∃ A, db_rep (sv_mem sv) A.
Proof.
  destruct brief_runs as [sv E]. destruct (keyspace_stays_well_formed 1048576 (replicate 8 NUL) (replicate 4 NUL) 40
    (sample_start sample_files) [] brief_waits sv ltac:(lia) eq_refl eq_refl (proj1 brief_sane) (proj2 brief_sane) E) as (H & Hwf).
  exists sv. split; [exact E|]. split; [exact H|exact (Hwf (conj eq_refl eq_refl))].
Defined.
