(* ===== verification/SessionHalts.v ===== *)
(** * Every session ends

    The loops of client.c and replication.c end: reading, parsing, propagating,
    flushing, and the two ends of the transfer of a snapshot, whatever the peers
    send and whatever the sockets answer, as long as the commands and the loads of
    snapshots do. *)

From S2P Require Import Prelude CLib RingBuffer Util Database Rdb RespWriter ServerState.
From S2P Require Import Commands CommandSpec Halting RespParser CommandHandler ParserTerm Client ClientAlloc Replication.
From S2P Require Import SessionInv.

Lemma leads_and {S A} (I I' J J' : S → Prop) (f : st S A) :
  leads I J f → leads I' J' f → leads (λ s, I s ∧ I' s) (λ s, J s ∧ J' s) f.
Proof. intros H1 H2 s a s' [Hs Hs'] E. split; [by eapply H1|by eapply H2]. Qed.

(** ** Steps *)

Section steps.
Context (X : Prop).

Lemma flush_shape_halts ρ fd Reach T : halts X (session_shape ρ fd Reach T) flush_client_output.
Proof.
  intros s [Hsh _]. destruct (rb_readable (output_buffer (cl s))) as [r|e] eqn:E.
  - destruct (flush_session s) as (n & k & sk & rb & -> & _); [|done]. by eapply readable_asserts.
  - unfold flush_client_output, flush_fuel. rewrite Nat.add_comm. cbn [Nat.add flush_loop].
    unfold cl in E. rewrite E. cbn [mbind res_bind]. pose proof (rb_readable_fine X (output_buffer (w_client (s_world s)))) as Hf.
    by rewrite E in Hf.
Qed.

Lemma flush_halts ρ fd Reach T : link_closed T → halts X (session_at ρ fd Reach T) flush_client_output.
Proof. intros HT s Hs. eapply flush_shape_halts. by apply ok_shape. Qed.

Section any.
Context (I : session → Prop).

Lemma on_w_halts {A} (f : cmdM A) : halts X anywhere f → halts X I (on_w f).
Proof. intros Hf s _. unfold on_w. specialize (Hf (s_world s) Logic.I). by destruct (f _) as [[]|]. Qed.
Lemma on_client_halts f : halts X I (on_client f).
Proof. by apply on_w_halts. Qed.
Lemma alive_halts : halts X I alive.
Proof. intros s _. unfold alive. by destruct (s_open s). Qed.
Lemma read_sock_halts len : halts X I (read_sock len).
Proof. intros s _. unfold read_sock. by destruct (sock_read _ _). Qed.
Lemma rb_op_halts get put f : (∀ rb, fine X (f rb)) → halts X I (rb_op_on get put f).
Proof. intros Hf s _. unfold rb_op_on. specialize (Hf (get s)). by destruct (f (get s)) as [[]|]. Qed.
Lemma store_op_fine off d rb : fine X (rb' ← rb_store rb off d; Ok (0, rb')).
Proof. by apply fine_bind; [apply rb_store_fine|]. Qed.
Lemma enable_write_at_halts r : halts X I (enable_write_at r).
Proof.
  intros s _. unfold enable_write_at. destruct (client_at r s) as [c|]; [|done].
  pose proof (epoll_halts X anywhere) as He. unfold client_enable_write_events.
  match goal with |- context [epoll_mod ?m ?w] => specialize (He m w Logic.I); destruct (epoll_mod m w) as [[]|] end; done.
Qed.
Lemma remove_replica_fine r w : fine X (remove_replica r w).
Proof. unfold remove_replica. destruct (_ =? -1); [done|]. by destruct (replicas _ !! _). Qed.
End any.

Lemma disconnection_halts : halts X anywhere handle_client_disconnection.
Proof.
  unfold handle_client_disconnection. pose proof alive_halts.
  apply (halts_bind _ _ anywhere); [apply alive_halts|done|intros _].
  apply (halts_bind _ _ anywhere); [done|done|intros c].
  apply (halts_bind _ _ anywhere); [|done|done]. apply halts_when, on_w_halts. intros w _. apply remove_replica_fine.
Qed.
Lemma disconnection_halts' (I : session → Prop) : halts X I handle_client_disconnection.
Proof. intros s _. by apply disconnection_halts. Qed.
End steps.

#[local] Hint Resolve flush_halts on_w_halts on_client_halts alive_halts read_sock_halts rb_op_halts store_op_fine
  enable_write_at_halts disconnection_halts' epoll_halts reply_halts on_db_halts transfer_closed : halt.

(** ** Propagation *)

Section process.
Context (X : Prop) (max_alloc : Z) (region_ptr padding : bytes) (pf : nat) (Hmax : max_alloc < 2 ^ 63).
Context (ρ : server_role_t) (fd : Z) (Reach : mem → Prop).
Context (Hcmd : ∀ args w w', Reach (w_mem w) → handle_command args w = Ok (tt, w') → Reach (w_mem w')).
Context (Hcmd_fine : ∀ args w, Reach (w_mem w) → fine X (handle_command args w)).
Context (Hload_fine : ∀ os dir name m, Reach m → fine X (rdb_load_data_from_file os dir name m)).
Context (Hpf : (parse_steps (2 * RING_BUFFER_SIZE) ≤ pf)%nat).

Abbreviation session_ok := (session_at ρ fd Reach transfer_ok).

Lemma copy_struct_fine rb n : fine X (copy_struct region_ptr padding rb n).
Proof. unfold copy_struct. by destruct (_ <=? _). Qed.
#[local] Hint Resolve copy_struct_fine : halt.

Lemma write_backlog_halts n : halts X session_ok (write_backlog region_ptr padding n).
Proof. unfold write_backlog. halt. Qed.

Lemma propagate_to_halts M n r : halts X anywhere (propagate_to M n r).
Proof. unfold propagate_to. halt. Qed.

(** No turn of the loop adds a replica. *)
Definition replicas_below (n : Z) (s : session) : Prop := num_replicas (w_info (s_world s)) ≤ n.

Lemma same_info_below {A} n (f : sessM A) :
  (∀ s a s', f s = Ok (a, s') → w_info (s_world s') = w_info (s_world s)) → preserves (replicas_below n) f.
Proof. intros Hf s a s' Hs E. unfold replicas_below. by rewrite (Hf _ _ _ E). Qed.

Lemma disconnection_below n :
  leads (λ s, session_ok s ∧ replicas_below n s) (replicas_below n) handle_client_disconnection.
Proof.
  intros s u s' [Hs Hn] (u1 & s1 & E1 & E)%st_bind_inv. unfold alive in E1. destruct (s_open s); [|done]. injection E1 as _ <-.
  apply st_bind_inv in E as (c & s1 & [= <- <-] & E). apply st_bind_inv in E as (u2 & s2 & E2 & [= _ <-]).
  unfold when in E2. destruct (bool_decide _); [|by injection E2 as _ <-].
  unfold on_w in E2. destruct (remove_replica _ _) as [[v w]|] eqn:E; [|done]. injection E2 as _ <-.
  unfold remove_replica in E. destruct (_ =? -1) eqn:Ep; [done|]. destruct (replicas _ !! _); [|done]. injection E as _ <-.
  destruct Hs as [[[_ (_ & _ & Hnum)] _] _ _ _ _ _]. unfold replicas_below in *. cbn. unfold MAX_REPLICAS in *.
  destruct (decide (num_replicas (w_info (s_world s)) = 0)) as [H0|Hne]; [by rewrite H0, take_0 in Ep|].
  rewrite uwrap_small by lia. lia.
Qed.

Lemma put_client_info r c s : w_info (s_world (put_client_at r c s)) = w_info (s_world s).
Proof. unfold put_client_at. by destruct (_ =? _). Qed.

Lemma enable_write_info r s u s' : enable_write_at r s = Ok (u, s') → w_info (s_world s') = w_info (s_world s).
Proof.
  unfold enable_write_at, client_enable_write_events, epoll_mod. destruct (client_at r s); [|done]. cbn [epoll_answers set_client].
  destruct (epoll_answers (s_world s)) as [|[] ?]; [| |done]; intros [= _ <-]; by rewrite put_client_info.
Qed.

Lemma propagate_to_below M bytes r n :
  leads (λ s, session_ok s ∧ replicas_below n s) (replicas_below n) (propagate_to M bytes r).
Proof.
  unfold propagate_to. destruct (r =? 0); [by intros s u s' [_ Hs] [= _ <-]|].
  intros s u s' [Hs Hn]. erewrite st_bind_ok by reflexivity. cbv beta. cbn [id].
  intros (c & s1 & E1 & E)%st_bind_inv. unfold lift in E1. destruct (of_option _ _) as [c'|]; [|done]. injection E1 as -> <-.
  apply st_bind_inv in E as ([buf len] & s1 & E1 & E). unfold lift in E1.
  destruct (rb_writable _) as [[buf' len']|]; [|done]. injection E1 as <- <- <-.
  destruct (bytes <=? len'); [|by eapply disconnection_below].
  apply st_bind_inv in E as (u1 & s1 & E1 & E). unfold alive in E1. destruct (s_open s); [|done]. injection E1 as _ <-.
  apply st_bind_inv in E as (u2 & s1 & E1 & E). unfold when in E1. destruct (_ <? _) in E1; [done|]. injection E1 as _ <-.
  apply st_bind_inv in E as (rb & s1 & E1 & E). unfold lift in E1. destruct (rb_store _ _ _); [|done]. injection E1 as _ <-.
  apply st_bind_inv in E as ([rc rb2] & s1 & E1 & E). unfold lift in E1. destruct (rb_write _ _); [|done]. injection E1 as _ <-.
  apply st_bind_inv in E as (u3 & s1 & [= _ <-] & E). unfold replicas_below, when in *. destruct (rc =? 0).
  - apply enable_write_info in E. by rewrite E, put_client_info.
  - injection E as _ <-. by rewrite put_client_info.
Qed.

Lemma propagate_loop_halts fuel M bytes i n :
  i ≤ n → n - i < Z.of_nat fuel → halts X (λ s, session_ok s ∧ replicas_below n s) (propagate_loop fuel M bytes i).
Proof.
  revert i. induction fuel as [|fuel IH]; intros i Hi Hfuel; [lia|]. cbn [propagate_loop].
  set (I := λ s, session_ok s ∧ replicas_below n s).
  apply halts_gets_bind. intros s Hs. destruct (i <? _) eqn:E; [|done]. zbool.
  assert (i + 1 ≤ n) as Hi' by (destruct Hs as [_ Hs]; unfold replicas_below in Hs; lia).
  match goal with |- fine X (?f s) => enough (halts X I f) as Hf by (by apply Hf) end.
  apply halts_lift_bind; [by apply fine_of_option|intros r _].
  apply (halts_bind _ _ I); [|intros s1 u s2 [H1 H2] E1; split|intros _; apply IH; lia].
  - intros s1 _. by apply propagate_to_halts.
  - by eapply propagate_to_keeps.
  - by eapply propagate_to_below; [split|].
Qed.

Lemma propagate_halts M n : halts X session_ok (propagate region_ptr padding M n).
Proof.
  unfold propagate. apply (halts_bind _ _ session_ok); [done|apply offset_keeps|intros _].
  apply (halts_bind _ _ session_ok); [apply write_backlog_halts|apply write_backlog_keeps|intros _].
  apply halts_gets_bind. intros s Hs. pose proof Hs as [[[_ (_ & _ & Hnum)] _] _ _ _ _ _].
  apply (propagate_loop_halts _ M n 0 (num_replicas (w_info (s_world s)))); [lia|lia|]. split; [done|].
  unfold replicas_below. lia.
Qed.

(** ** Input *)

Lemma run_parser_fine M n s :
  n ≤ zlen M → zlen M ≤ 2 * RING_BUFFER_SIZE → session_ok s → fine X (run_parser max_alloc pf M n s).
Proof.
  intros Hn HM [Hw Hin Hp Ha Hb Hpe]. unfold run_parser, the_handler. unfold RING_BUFFER_SIZE in HM.
  pose proof (server_parse_fine max_alloc INT_MAX Hmax ltac:(unfold INT_MAX; lia) X (world_reach ρ fd Reach transfer_ok)) as Hf.
  specialize (Hf (λ args w H, Hcmd_fine args w (proj2 H))).
  specialize (Hf (command_keeps ρ fd Reach Hcmd) (simple_string_keeps ρ fd Reach) (error_state_ok ρ fd Reach)).
  specialize (Hf pf M 0 n (s_parser s) (s_ch s) (s_world s) ltac:(unfold INT_MAX; lia) ltac:(lia) Hn Hp).
  unfold server_handler in Hf.
  assert (fine X (parser_parse (HS := create_handler max_alloc) M pf 0 n (s_parser s, (s_ch s, s_world s)))) as Hfine.
  { apply Hf; [by split|]. etrans; [|exact Hpf]. unfold parse_steps. apply Nat.add_le_mono_r, Nat.mul_le_mono_r.
    unfold RING_BUFFER_SIZE. lia. }
  by destruct (parser_parse _ _ _ _ _) as [[pos [p [ch w]]]|].
Qed.

Lemma after_parse_halts a b M n : halts X session_ok (after_parse region_ptr padding a b M n).
Proof.
  unfold after_parse. pose proof propagate_halts. pose proof (propagate_keeps region_ptr padding ρ fd Reach). halt.
Qed.

Lemma process_received_halts a b : halts X session_ok (process_received max_alloc region_ptr padding pf a b).
Proof.
  intros s Hs. unfold process_received. destruct (parser_input ρ fd Reach s Hs) as (M & HM & Hr & Hlen).
  erewrite st_bind_ok by reflexivity. cbv beta. rewrite Hr. erewrite st_bind_ok by reflexivity. cbv beta iota.
  rewrite HM. erewrite st_bind_ok by reflexivity. cbv beta.
  pose proof (run_parser_fine M (zlen (contents (s_in s))) s ltac:(lia) ltac:(lia) Hs) as Hf.
  unfold mbind, st_bind. destruct (run_parser _ _ _ _ s) as [[k s1]|] eqn:E; [|done]. apply after_parse_halts.
  eapply run_parser_keeps; [exact Hmax|exact Hcmd| | |exact Hs|exact E]; [lia|]. unfold RING_BUFFER_SIZE in Hlen. lia.
Qed.
(** What is left of the socket's answers. *)
Definition reads_below (n : nat) (s : session) : Prop := (length (read_answers (s_sock s)) < n)%nat.

Lemma same_reads {A} n (f : sessM A) :
  (∀ s a s', f s = Ok (a, s') → read_answers (s_sock s') = read_answers (s_sock s)) → preserves (reads_below n) f.
Proof. intros Hf s a s' Hs E. unfold reads_below. by rewrite (Hf _ _ _ E). Qed.

Lemma flush_loop_reads fuel total rb k r rb' k' :
  flush_loop fuel total (rb, k) = Ok (r, (rb', k')) → read_answers k' = read_answers k.
Proof.
  revert total rb k. induction fuel as [|fuel IH]; intros total rb k; [done|]. cbn [flush_loop].
  destruct (rb_readable rb) as [[buf len]|]; [|done]. cbn [mbind res_bind]. destruct (len =? 0); [by intros [= _ _ <-]|].
  destruct (rb_load rb buf len) as [d|]; [|done]. cbn [mbind res_bind].
  destruct (sock_write d k) as [w k1] eqn:Ew.
  assert (read_answers k1 = read_answers k) as Hk.
  { unfold sock_write in Ew. destruct (write_answers k) as [|[]]; by injection Ew as _ <-. }
  destruct w as [sent|[]].
  - destruct (sent =? 0); [by intros [= _ _ <-]|]. destruct (rb_read rb sent) as [[rc rb1]|]; [|done]. cbn [mbind res_bind].
    intros E%IH. congruence.
  - intros E%IH. congruence.
  - by intros [= _ _ <-].
  - by intros [= _ _ <-].
Qed.

Lemma flush_below n : preserves (reads_below n) flush_client_output.
Proof.
  apply same_reads. intros s a s'. unfold flush_client_output.
  destruct (flush_loop _ _ _) as [[r [rb k]]|] eqn:E; [|done]. intros [= _ <-]. by apply flush_loop_reads in E.
Qed.
Lemma on_w_below {A} n (f : cmdM A) : preserves (reads_below n) (on_w f).
Proof. apply same_reads. intros s a s'. unfold on_w. destruct (f _) as [[]|]; [|done]. by intros [= _ <-]. Qed.
Lemma alive_below n : preserves (reads_below n) alive.
Proof. apply same_reads. intros s a s'. unfold alive. destruct (s_open s); [|done]. by intros [= _ <-]. Qed.
Lemma in_below n f : preserves (reads_below n) (rb_op_on s_in put_in f).
Proof. apply same_reads. intros s a s'. unfold rb_op_on. destruct (f _) as [[]|]; [|done]. by intros [= _ <-]. Qed.
Lemma backlog_below n f : preserves (reads_below n) (rb_op_on s_backlog put_backlog f).
Proof. apply same_reads. intros s a s'. unfold rb_op_on. destruct (f _) as [[]|]; [|done]. by intros [= _ <-]. Qed.
Lemma put_client_sock r c s : s_sock (put_client_at r c s) = s_sock s.
Proof. unfold put_client_at. by destruct (_ =? _). Qed.
Lemma put_client_below n r c : preserves (reads_below n) (modify (put_client_at r c)).
Proof. apply same_reads. intros s [] s' [= <-]. by rewrite put_client_sock. Qed.
Lemma put_world_below n f : preserves (reads_below n) (modify (λ s, put_world (f (s_world s)) s)).
Proof. apply same_reads. by intros s [] s' [= <-]. Qed.
Lemma put_open_below n b : preserves (reads_below n) (modify (put_open b)).
Proof. apply same_reads. by intros s [] s' [= <-]. Qed.
Lemma enable_write_below n r : preserves (reads_below n) (enable_write_at r).
Proof.
  apply same_reads. intros s a s'. unfold enable_write_at. destruct (client_at r s); [|done].
  destruct (client_enable_write_events _) as [[]|]; [|done]. intros [= _ <-]. by rewrite put_client_sock.
Qed.

#[local] Hint Resolve flush_below on_w_below alive_below in_below backlog_below put_client_below put_world_below put_open_below
  enable_write_below : keep.

Lemma disconnection_reads n : preserves (reads_below n) handle_client_disconnection.
Proof. unfold handle_client_disconnection. preserve. by apply leads_modify. Qed.
#[local] Hint Resolve disconnection_reads : keep.
Lemma propagate_reads n M k : preserves (reads_below n) (propagate region_ptr padding M k).
Proof.
  assert (∀ r, preserves (reads_below n) (propagate_to M k r)) as Hto by (intros r; unfold propagate_to; preserve).
  assert (∀ fuel i, preserves (reads_below n) (propagate_loop fuel M k i)) as Hloop
    by (induction fuel as [|fuel IH]; intros i; cbn [propagate_loop]; preserve).
  assert (preserves (reads_below n) (write_backlog region_ptr padding k)) as Hback by (unfold write_backlog; preserve).
  unfold propagate. preserve.
Qed.
Lemma after_parse_reads n a b M k : preserves (reads_below n) (after_parse region_ptr padding a b M k).
Proof. unfold after_parse. pose proof (propagate_reads n). preserve. Qed.
Lemma process_received_reads n a b : preserves (reads_below n) (process_received max_alloc region_ptr padding pf a b).
Proof.
  unfold process_received. pose proof (after_parse_reads n). preserve. apply same_reads. intros s r s'. unfold run_parser.
  destruct (parser_parse _ _ _ _ _) as [[pos [p [ch w]]]|]; [|done]. by intros [= _ <-].
Qed.

(** Every turn takes an answer of the socket. *)
Lemma process_loop_halts fuel :
  halts X (λ s, session_ok s ∧ reads_below fuel s) (process_loop max_alloc region_ptr padding fuel pf).
Proof.
  induction fuel as [|fuel IH]; intros s [Hs Hr]; unfold reads_below in Hr; [lia|]. cbn [process_loop].
  erewrite st_bind_ok by reflexivity. cbv beta. destruct (so_in _ _ _ _ _ Hs) as [Hwf _].
  pose proof (rb_writable_fine X (s_in s)) as Hw. unfold mbind at 1, st_bind at 1, lift.
  destruct (rb_writable _) as [[buf len]|] eqn:El; [|done]. destruct (len =? 0) eqn:E0; [done|].
  assert (0 ≤ len) as Hlen by (rewrite rb_writable_wf in El by done; injection El as _ <-; pose proof (contents_length _ Hwf);
    destruct Hwf; lia).
  unfold mbind at 1, st_bind at 1. destruct (sock_read len (s_sock s)) as [[[|x d]|e] k] eqn:Er.
  - exact (disconnection_halts' X anywhere _ Logic.I).
  - apply sock_read_takes in Er as [_ Hk]; [|done|done].
    assert (session_ok (put_sock k s) ∧ reads_below fuel (put_sock k s)) as Hs1.
    { split; [by apply put_sock_ok|]. unfold reads_below. cbn [s_sock put_sock]. lia. }
    revert Hs1. generalize (put_sock k s). set (I := λ s, session_ok s ∧ reads_below fuel s). intros s1 Hs1.
    match goal with |- fine X (?f s1) => enough (halts X I f) as Hf by (by apply Hf) end.
    apply (halts_bind _ _ I); [auto with halt|apply leads_and; auto with keep|intros _].
    apply (halts_bind _ _ I); [auto with halt|apply leads_and; auto with keep|intros rc]. destruct (negb _); [done|].
    apply (halts_bind _ _ I); [|apply leads_and; [by apply process_received_keeps|apply process_received_reads]|].
    { intros s2 [Hs2 _]. by apply process_received_halts. }
    intros go. destruct go; [exact IH|done].
  - pose proof (put_sock_ok ρ fd Reach transfer_ok k s Hs) as Hk. destruct e; [| |done].
    + apply sock_read_interrupted in Er. apply IH. split; [done|]. unfold reads_below. cbn [s_sock put_sock]. lia.
    + pose proof (flush_halts X ρ fd Reach transfer_ok transfer_closed _ Hk) as Hf. unfold mbind, st_bind.
      by destruct (flush_client_output (put_sock k s)) as [[]|].
Qed.

Lemma process_input_halts : halts X session_ok (process_client_input max_alloc region_ptr padding pf).
Proof. intros s Hs. apply process_loop_halts. split; [done|]. unfold reads_below. lia. Qed.
(** ** The link to the master *)

Lemma open_temp_halts : halts X anywhere open_temp.
Proof. unfold open_temp, set_transfer. halt. Qed.
Lemma receive_bytes_halts br : halts X anywhere (receive_bytes br).
Proof. unfold receive_bytes, set_transfer. halt. Qed.
Lemma write_temp_halts n : halts X anywhere (write_temp n).
Proof. unfold write_temp, set_transfer. halt. Qed.
Lemma close_temp_halts : halts X anywhere close_temp.
Proof. unfold close_temp, set_transfer. halt. Qed.

Lemma load_temp_halts : halts X session_ok load_temp.
Proof.
  unfold load_temp, client_enable_read_events. apply halts_gets_bind. intros s Hs.
  match goal with |- fine X (?f s) => enough (halts X session_ok f) as Hf by (by apply Hf) end.
  apply (halts_bind _ _ anywhere); [|done|intros _; halt].
  intros s1 [[_ Hm] _ _ _ _ _]. unfold on_w, on_db.
  pose proof (Hload_fine (w_os (s_world s)) (dir (w_config (s_world s))) TEMP_SNAPSHOT _ Hm) as Hf.
  by destruct (rdb_load_data_from_file _ _ _ _) as [[]|].
Qed.

Lemma finish_halts : halts X (session_at ρ fd Reach wrote) (_ ← close_temp; load_temp).
Proof.
  apply (halts_bind _ _ session_ok); [intros s _; by apply close_temp_halts| |intros _; apply load_temp_halts].
  intros s u s' Hs E. eapply session_at_weaken; [|eapply (close_temp_keeps ρ fd Reach wrote); [apply wrote_closed|exact Hs|exact E]].
  intros (H & Hw & _). by apply (turn_transfer None).
Qed.

(** Every turn takes an answer of the socket, and the last one loads the file. *)
Lemma receive_loop_halts fuel br :
  halts X (λ s, session_at ρ fd Reach (turn_ok br) s ∧ reads_below fuel s) (receive_loop fuel br).
Proof.
  revert br. induction fuel as [|fuel IH]; intros br s [Hs Hr]; unfold reads_below in Hr; [lia|]. cbn [receive_loop].
  pose proof (receive_bytes_halts br s Logic.I) as Hf. unfold mbind at 1, st_bind at 1.
  destruct (receive_bytes br s) as [[r s1]|] eqn:E1; [|done]. apply (receive_bytes_gives ρ fd Reach br s r s1 Hs) in E1.
  destruct r as [| |[n|]]; [done| | |done].
  - destruct E1 as [H1 Hk]. apply IH. split; [done|]. unfold reads_below. lia.
  - destruct E1 as (Hn & H1 & Hk). unfold mbind at 1, st_bind at 1, lift. cbn [of_option].
    pose proof (write_temp_halts n s1 Logic.I) as Hw. unfold mbind at 1, st_bind at 1.
    destruct (write_temp n s1) as [[u s2]|] eqn:E2; [|done]. apply (write_temp_gives ρ fd Reach) in E2 as [H2 Hk2]; [|done|done].
    erewrite st_bind_ok by reflexivity. cbv beta. destruct (_ =? _) eqn:Ee; [by apply finish_halts|]. zbool.
    apply IH. split; [|unfold reads_below; rewrite Hk2; lia]. eapply session_at_weaken; [|exact H2].
    intros (Ht & Hw' & He). split; [done|]. split; [done|]. lia.
Qed.

Lemma receive_snapshot_halts : halts X (session_at ρ fd Reach (turn_ok None)) replica_receive_rdb_snapshot.
Proof.
  unfold replica_receive_rdb_snapshot. set (I := session_at ρ fd Reach (turn_ok None)).
  apply (halts_bind _ _ I); [intros s _; by apply open_temp_halts|apply open_temp_keeps, turn_closed|intros opened].
  destruct opened; [|done]. apply halts_gets_bind. intros s Hs. apply receive_loop_halts. split; [done|].
  unfold reads_below. cbn [id]. lia.
Qed.

Lemma receive_header_halts : halts X (session_at ρ fd Reach at_header) receive_header.
Proof.
  set (I := session_at ρ fd Reach at_header). unfold receive_header.
  apply (halts_bind _ _ I); [done|apply leads_gets|intros rb].
  apply (halts_bind _ _ I); [auto with halt|apply leads_lift|intros [buf len]]. destruct (len <? 4); [done|].
  apply (halts_bind _ _ I); [auto with halt|apply leads_lift|intros M]. destruct (find_crlf _ _); [|done]. cbv zeta.
  apply (halts_bind _ _ I); [auto with halt|apply in_keeps, rb_read_ok|intros rc]. destruct (negb _); [done|].
  apply (halts_bind _ _ (session_at ρ fd Reach starting)); [apply on_client_halts|apply header_starts|intros _].
  apply (halts_bind _ _ (session_at ρ fd Reach (turn_ok None))); [apply on_client_halts|apply starts_turn|intros _].
  apply receive_snapshot_halts.
Qed.

Lemma send_command_halts args next : halts X (session_at ρ fd Reach linking) (send_command args next).
Proof. pose proof linking_closed. unfold send_command. halt. Qed.

Lemma master_data_halts :
  halts X (λ s, session_ok s ∧ type (cl s) = CLIENT_TYPE_MASTER) (replica_handle_master_data max_alloc region_ptr padding pf).
Proof.
  intros s [Hs Ht]. unfold replica_handle_master_data. erewrite st_bind_ok by reflexivity. cbv beta. cbn [id].
  pose proof (λ T H, session_at_weaken ρ fd Reach transfer_ok T s H Hs) as Hweak.
  assert (∀ args next next', (transfer_ok (cl s) → linking (cl s)) →
    fine X ((_ ← send_command args next; on_client (with_repl_client_state next')) s)) as Hsend.
  { intros args next next' Hl. apply (halts_bind _ (session_at ρ fd Reach linking) anywhere); [apply send_command_halts|done| |by apply Hweak].
    intros _. apply on_client_halts. }
  unfold send_ping_command, send_replconf_listening_port_command, send_replconf_capa_command, send_psync_command.
  destruct (repl_client_state (cl s)) eqn:Est.
  all: try (apply Hsend; intros Hx; split; [done|]; specialize (Hx Ht); by rewrite Est in Hx).
  all: try (by apply process_input_halts).
  all: try done.
  - apply receive_header_halts. apply Hweak. intros Hx. specialize (Hx Ht). rewrite Est in Hx. by split; [split|].
  - apply receive_snapshot_halts. apply Hweak. intros Hx. specialize (Hx Ht). rewrite Est in Hx. destruct Hx as (H1 & H2 & H3).
    split; [split_and!; [done..|lia|done]|]. split; [done|]. by intros [].
Qed.
End process.

(** ** The master's output to a replica *)

Section output.
Context (X : Prop) (region_ptr padding : bytes) (ρ : server_role_t) (fd : Z) (Reach : mem → Prop).

Abbreviation session_ok := (session_at ρ fd Reach transfer_ok).

(** The answers left to the socket and the bytes left of the file. *)
Definition send_left (s : session) : nat :=
  length (write_answers (s_sock s)) +
  Z.to_nat (zlen (default [] (rdb_fd (cl s) ≫= (files (w_os (s_world s)) !!.))) - rdb_file_offset (cl s)).

Lemma sock_write_takes d k r k' :
  sock_write d k = (r, k') →
  (write_answers k = [] ∧ write_answers k' = [] ∧ r = inl (zlen d)) ∨
  (length (write_answers k') < length (write_answers k))%nat.
Proof.
  unfold sock_write. destruct (write_answers k) as [|[n|e] ws]; intros [= <- <-]; [left|right..]; cbn; [done|lia|lia].
Qed.

Lemma send_loop_fine fuel n s :
  0 ≤ rdb_file_offset (cl s) → (send_left s < fuel)%nat → fine X (send_loop fuel n s).
Proof.
  revert s. induction fuel as [|fuel IH]; intros s Ho Hfuel; [lia|]. cbn [send_loop].
  erewrite st_bind_ok by reflexivity. cbv beta. cbn [id]. unfold send_left in Hfuel.
  destruct (rdb_fd (cl s) ≫= _) as [F|] eqn:EF; [|done]. unfold default, id in Hfuel.
  destruct (sendfile F (rdb_file_offset (cl s)) n (s_sock s)) as [r k] eqn:Es.
  erewrite st_bind_ok by reflexivity. cbv beta. unfold sendfile in Es.
  destruct (_ <=? n); [by injection Es as <- <-|].
  destruct (slice _ _ F) as [|x d] eqn:Ed; [by injection Es as <- <-|]. set (data := x :: d) in *.
  assert (rdb_file_offset (cl s) < zlen F ∧ 0 < zlen data) as [Hin Hpos].
  { split; [|unfold data; rewrite length_cons; lia]. destruct (decide (zlen F ≤ rdb_file_offset (cl s))); [|lia].
    unfold slice in Ed. rewrite drop_ge, take_nil in Ed by lia. done. }
  pose proof (sock_write_takes _ _ _ _ Es) as Hk. destruct r as [m|[]]; [| |done|done].
  - pose proof (sock_write_count _ _ _ _ Es) as Hm. destruct (m =? 0) eqn:E0; [done|]. zbool.
    erewrite st_bind_ok by reflexivity. cbv beta. unfold send_left, cl in *. apply IH; cbn; [lia|].
    rewrite EF. unfold default, id. destruct Hk as [(E1 & E2 & _)|Hk]; [rewrite E1 in Hfuel; rewrite E2; cbn [length] in *|]; lia.
  - apply IH; [done|]. unfold send_left, cl in *. cbn. rewrite EF. unfold default, id.
    destruct Hk as [(_ & _ & [=])|Hk]. lia.
Qed.

Lemma send_snapshot_halts : halts X session_ok master_send_rdb_snapshot.
Proof.
  unfold master_send_rdb_snapshot, client_disable_write_events. apply halts_gets_bind. intros s Hs. cbn [id].
  destruct (bool_decide _); [done|]. cbv zeta. pose proof Hs as [[[[(_ & _ & _ & Ho) _] _] _] _ _ _ _ _].
  unfold mbind at 1, st_bind at 1.
  pose proof (send_loop_fine (send_fuel s) (u64 (rdb_file_size (cl s) - rdb_file_offset (cl s))) s Ho) as Hf.
  assert (send_left s < send_fuel s)%nat as Hlt by (unfold send_left, send_fuel, cl; lia). specialize (Hf Hlt).
  destruct (send_loop _ _ s) as [[broke s1]|]; [|done]. 
  match goal with |- fine X (?f s1) => enough (halts X anywhere f) as Hg by (by apply Hg) end. halt.
Qed.

Lemma overwrite_fine rb d : fine X (overwrite_struct region_ptr padding rb d).
Proof. unfold overwrite_struct. destruct (_ <? _); [done|]. by destruct (bool_decide _). Qed.

Lemma continue_psync_halts :
  zlen region_ptr = 8 → zlen padding = 4 → halts X session_ok (continue_psync region_ptr padding).
Proof.
  intros Hptr Hpad. unfold continue_psync. apply halts_gets_bind. intros s Hs. cbv zeta. cbn [id].
  assert (rb_wf (output_buffer (cl s))) as Hwf by apply Hs.
  match goal with |- fine X (?f s) => enough (halts X session_ok f) as Hf by (by apply Hf) end.
  unfold client_disable_write_events. destruct (_ =? _); [halt|].
  apply (halts_bind _ _ session_ok); [halt|preserve|intros _]. destruct (_ <=? 0); [done|].
  apply (halts_bind _ _ session_ok); [auto with halt|apply leads_lift|intros [buf len]]. destruct (len <? _); [halt|].
  apply (halts_bind _ _ session_ok); [auto with halt|apply leads_lift|intros d].
  apply (halts_bind _ _ session_ok); [auto with halt|preserve|intros _].
  apply halts_lift_bind; [apply overwrite_fine|intros rb E]. apply overwrite_shape in E; [|done..].
  apply (halts_bind _ _ (session_shape ρ fd Reach transfer_ok)); [apply on_client_halts|by apply overwritten_shape|intros _].
  apply (halts_bind _ _ anywhere); [apply flush_shape_halts|done|intros n; halt].
Qed.

Lemma replica_out_halts :
  zlen region_ptr = 8 → zlen padding = 4 → halts X session_ok (master_handle_replica_out region_ptr padding).
Proof.
  intros Hptr Hpad. unfold master_handle_replica_out. pose proof send_snapshot_halts.
  pose proof (continue_psync_halts Hptr Hpad). halt.
Qed.
End output.
