(* ===== verification/ServerHalts.v ===== *)
(** * The server does not hang

    Every event ends, and so does the start and the shutdown: from [main] on, no
    loop of the server runs out of the fuel the model gives it. *)

From S2P Require Import Prelude CLib RingBuffer Util Khash Database Rdb RespWriter ServerState.
From S2P Require Import Commands CommandSpec KeyspaceRun Halting RespParser CommandHandler ParserTerm Client ClientAlloc.
From S2P Require Import Replication Server ServerSpec SessionInv ServerInv SessionHalts.

(** ** Events *)

Section events.
Context (max_alloc : Z) (region_ptr padding : bytes) (pf : nat) (Hmax : max_alloc < 2 ^ 63).
Context (Hptr : zlen region_ptr = 8) (Hpad : zlen padding = 4) (Hpf : (parse_steps (2 * RING_BUFFER_SIZE) ≤ pf)%nat).
Context (ρ : server_role_t) (m0 : mem).

Abbreviation X := (endless m0).
Abbreviation good := (server_good ρ m0).
Abbreviation session_ok fd := (session_at ρ fd (reached m0) transfer_ok).

Lemma serve_halts fd t f :
  halts X (λ s, session_ok fd s ∧ type (cl s) = t) f → halts X (λ sv, good sv ∧ type_at fd t sv) (serve fd f).
Proof.
  intros Hf sv [Hsv Ht]. unfold serve, type_at in *. destruct (sv_conns sv !! fd) as [cn|] eqn:Ec; [|done].
  specialize (Hf (session_of fd cn sv)). destruct (f _) as [[u s]|]; [done|]. apply Hf. split; [by apply session_of_ok|exact Ht].
Qed.
Lemma serve_any_halts fd t f : halts X (session_ok fd) f → halts X (λ sv, good sv ∧ type_at fd t sv) (serve fd f).
Proof. intros Hf. apply serve_halts. intros s [Hs _]. by apply Hf. Qed.

Lemma typed_halts {B} fd (g : ClientType → svM B) :
  (∀ t, halts X (λ sv, good sv ∧ type_at fd t sv) (g t)) → halts X good (t ← client_type fd; g t).
Proof.
  intros Hg sv Hsv. unfold mbind, st_bind, client_type. destruct (sv_conns sv !! fd) as [cn|] eqn:Ec; [|done].
  apply Hg. split; [done|]. unfold type_at. by rewrite Ec.
Qed.

Lemma handle_input_halts fd : halts X good (handle_input max_alloc region_ptr padding pf fd).
Proof.
  pose proof (command_fine m0). pose proof (load_fine m0).
  apply typed_halts. intros []; [| |].
  - apply serve_any_halts. apply process_input_halts; try done. apply command_reaches.
  - done.
  - apply serve_halts. apply master_data_halts; try done. apply command_reaches.
Qed.

Lemma handle_output_halts fd : halts X good (handle_output max_alloc region_ptr padding pf fd).
Proof.
  pose proof (command_fine m0). pose proof (load_fine m0).
  apply typed_halts. intros []; [| |].
  - apply serve_any_halts. apply (halts_bind _ _ anywhere); [apply flush_halts, transfer_closed|done|done].
  - by apply serve_any_halts, replica_out_halts.
  - apply serve_halts. apply master_data_halts; try done. apply command_reaches.
Qed.

Lemma set_non_blocking_fine Y a b : fine Y (set_non_blocking a b).
Proof. unfold set_non_blocking. destruct (a =? -1); [done|]. by destruct (b =? -1). Qed.

Lemma register_halts Y I fd created ok sock init mask : halts Y I (register fd created ok sock init (epoll_mod mask)).
Proof.
  intros sv _. unfold register. destruct created as [[c input]|]; [|done]. destruct (negb ok); [done|].
  apply fine_bind; [by apply (epoll_halts Y anywhere)|]. by intros [] _.
Qed.

Lemma accept_halts os : client_os_sane (connect_client os) → halts X good (accept_client os).
Proof.
  intros [Hp1 Hp2]. unfold accept_client, client_enable_read_events. destruct (_ =? -1); [by apply halts_stop|].
  apply halts_lift_bind; [apply set_non_blocking_fine|intros _ _].
  destruct (create_client_cases (connect_client os) (connect_memory os) (connect_fd os) Hp1 Hp2) as (r & released & -> & _).
  apply halts_lift_bind; [done|intros [created rel] _]. apply register_halts.
Qed.

Lemma handle_event_halts ev : event_sane ev → halts X good (handle_event max_alloc region_ptr padding pf ev).
Proof.
  pose proof handle_input_halts. pose proof handle_output_halts.
  pose proof (handle_input_keeps ρ m0 max_alloc region_ptr padding pf Hmax).
  assert (∀ fd, halts X good (serve fd handle_client_disconnection)) as Hd.
  { intros fd sv Hsv. unfold serve. destruct (sv_conns sv !! fd) as [cn|]; [|done].
    pose proof (disconnection_halts' X anywhere (session_of fd cn sv) Logic.I) as Hf. by destruct (handle_client_disconnection _) as [[]|]. }
  destruct ev as [os|fd events]; cbn [event_sane handle_event]; intros Hev; [by apply accept_halts|]. halt.
Qed.

Lemma handle_events_halt fresh evs :
  Forall event_sane evs → halts X good (handle_events max_alloc region_ptr padding pf fresh evs).
Proof.
  intros Hev. revert fresh. induction Hev as [|[os|fd events] evs Hev _ IH]; intros fresh; cbn [handle_events].
  - done.
  - apply (halts_bind _ _ good); [by apply handle_event_halts|by apply handle_event_keeps|done].
  - case_bool_decide; [by apply halts_stop|].
    apply (halts_bind _ _ good); [by apply handle_event_halts|by apply handle_event_keeps|done].
Qed.

Lemma event_loop_halts waits :
  Forall wait_sane waits → halts X good (event_loop max_alloc region_ptr padding pf waits).
Proof.
  induction 1 as [|[evs stop|interrupted stop] waits Hev _ IH]; cbn [event_loop]; [done| |halt].
  apply (halts_bind _ _ good); [by apply handle_events_halt|by apply handle_events_keep|intros _; by destruct stop].
Qed.
End events.

(** ** Start and shutdown *)

Lemma parse_args_fine Y argv o : fine Y (parse_args argv o).
Proof.
  assert (∀ n d, fine Y (strcpy n d)) as Hcpy by (intros n d; unfold strcpy; by destruct (_ <? _)).
  revert o. induction argv as [argv IH] using (well_founded_induction (Nat.lt_wf_0_projected length)). intros o.
  destruct argv as [|a rest]; [done|]. cbn [parse_args]. cbv zeta.
  destruct (streq a "--dir"); [destruct rest as [|v rest]; [done|apply IH; cbn; lia]|].
  destruct (streq a "--dbfilename"); [destruct rest as [|v rest]; [done|apply IH; cbn; lia]|].
  destruct (streq a "--port"); [destruct rest as [|v rest]; [done|]|].
  { apply fine_bind; [apply Hcpy|intros p _]. apply IH. cbn. lia. }
  destruct (streq a "--replicaof"); [|apply IH; cbn; lia].
  destruct rest as [|h [|p rest]]; [apply IH; cbn; lia|apply IH; cbn; lia|].
  apply fine_bind; [apply Hcpy|intros host _]. apply fine_bind; [apply Hcpy|intros mport _]. apply IH. cbn. lia.
Qed.

Lemma connect_master_fine Y addrs : fine Y (connect_master addrs).
Proof. induction addrs as [|[fd []] addrs IH]; [done|..]; cbn [connect_master]; by destruct (fd =? -1). Qed.

Lemma connect_halts Y os : start_sane os → halts Y anywhere (connect_to_master os).
Proof.
  intros [_ [Hp1 Hp2]]. unfold connect_to_master, client_enable_write_events.
  apply halts_lift_bind; [by apply fine_of_option|intros addrs _].
  apply halts_lift_bind; [apply connect_master_fine|intros fd _].
  destruct (create_client_cases (master_client os) (master_memory os) fd Hp1 Hp2) as (r & released & -> & _).
  apply halts_lift_bind; [done|intros [created rel] _]. apply halts_lift_bind; [apply set_non_blocking_fine|intros _ _].
  apply register_halts.
Qed.

Lemma listen_fine Y os : fine Y (listen_socket os).
Proof.
  unfold listen_socket. do 4 (destruct (_ =? _); try done; cbn [negb]). all: apply fine_bind; [apply set_non_blocking_fine|intros _ _].
  all: by destruct (negb _).
Qed.

Lemma load_at_start_halts ρ m0 : halts (endless m0) (server_good ρ m0) load_at_start.
Proof.
  intros sv [_ Hm]. unfold load_at_start. destruct (bool_decide _); [|done].
  apply fine_bind; [by apply load_fine|]. by intros [] _.
Qed.

Lemma backlog_fine Y os : 0 < page_size os → fine Y (rb_create os REPL_BACKLOG_SIZE).
Proof.
  intros Hp. pose proof (rb_create_total os REPL_BACKLOG_SIZE Hp ltac:(done)) as H. destruct (rb_created _ _).
  - by destruct H as (rb & -> & _).
  - by rewrite H.
Qed.

Section main.
Context (max_alloc : Z) (region_ptr padding : bytes) (pf : nat) (os : start_os) (argv : list bytes) (waits : list wait_answer).
Context (Hos : start_sane os).

Abbreviation m0 := (mem_start os).

Lemma set_up_fine : fine (endless m0) (set_up os argv).
Proof.
  unfold set_up. apply fine_bind; [apply backlog_fine, Hos|intros [[rc b] rel] Eb].
  apply backlog_created in Eb; [|apply Hos|done]. destruct (_ =? -1); [done|].
  apply fine_bind; [apply parse_args_fine|intros o _]. cbv zeta. set (sv0 := MkServer _ _ _ _ _ _ ∅).
  assert (server_good (op_role o) m0 sv0) as H0.
  { split; [|exists 0; apply run_none]. constructor; [done|done|]. intros fd cn. cbn. by rewrite lookup_empty. }
  apply fine_bind; [case_bool_decide; [by apply connect_halts|done]|intros [u sv1] E1].
  assert (server_good (op_role o) m0 sv1) as H1.
  { case_bool_decide as Hr; [|by injection E1 as _ <-]. rewrite Hr in *. by eapply connect_keeps. }
  apply fine_bind; [by apply (load_at_start_halts (op_role o))|intros [u2 sv2] _].
  by apply fine_bind; [apply listen_fine|].
Qed.

Lemma shutdown_fine Y sv : fine Y (shutdown sv).
Proof.
  unfold shutdown. apply fine_bind; [apply rdb_save_fine|intros [b os'] _].
  apply fine_bind; [by apply db_destroy_halts|]. by intros [] _.
Qed.
End main.

(** C7: the server never hangs.  Whatever the command line, whatever the peers send
    (malformed and truncated commands, arrays announced with any length, half a
    snapshot), whatever the system calls and the allocator answer and however the
    events are interleaved, the start, every event and the shutdown end or fault: with
    [parse_steps] steps for the parser on the bytes an input buffer can show it, no
    loop of the parser, of the sockets, of the propagation, of the transfer of a
    snapshot, of its files or of the lists is out of fuel.  Only a probe of the hash
    table can be endless, and only within a command or a load, on a memory that
    commands and loads have led to; and when the table and the lists get the memory
    they ask for, no command and no load does so on a memory that any sequence of
    commands and loads has led to with less than [2^28] arguments and bytes in all. *)
Theorem server_never_hangs max_alloc region_ptr padding pf os argv waits :
  max_alloc < 2 ^ 63 → zlen region_ptr = 8 → zlen padding = 4 → start_sane os → Forall wait_sane waits →
  (parse_steps (2 * RING_BUFFER_SIZE) ≤ pf)%nat →
  let run := main max_alloc region_ptr padding pf os argv waits in
  run ≠ Stop OutOfFuel ∧ (run = Stop EndlessProbe → endless (mem_start os)) ∧
  (allocations_succeed os → probes_end (mem_start os)).
Proof.
  intros Hmax Hptr Hpad Hos Hwaits Hpf run.
  assert (fine (endless (mem_start os)) run) as Hf.
  { apply fine_bind; [by apply set_up_fine|intros sv E]. destruct (set_up_good os argv sv Hos E) as [ρ Hsv].
    apply fine_bind; [by apply (event_loop_halts _ _ _ _ Hmax Hptr Hpad Hpf ρ)|intros [stopped sv1] _].
    destruct stopped; [|done]. apply fine_bind; [apply shutdown_fine|]. by intros [] _. }
  split_and!; [|intros E; by rewrite E in Hf|intros Hal; by apply empty_probes_end, mem_start_rep].
  intros E. by rewrite E in Hf.
Qed.

(** ** Witness: two clients connect, and one leaves *)

Lemma server_never_hangs_witness :
  let run := main 1048576 (replicate 8 NUL) (replicate 4 NUL) (parse_steps (2 * RING_BUFFER_SIZE))
               (sample_start sample_files) [] brief_waits in
  run ≠ Stop OutOfFuel ∧ (run = Stop EndlessProbe → endless (mem_init tick_clock)) ∧
  probes_end (mem_init tick_clock).
Proof.
  destruct (server_never_hangs 1048576 (replicate 8 NUL) (replicate 4 NUL) (parse_steps (2 * RING_BUFFER_SIZE))
    (sample_start sample_files) [] brief_waits) as (H1 & H2 & H3).
  - reflexivity.
  - reflexivity.
  - reflexivity.
  - exact (proj1 brief_sane).
  - exact (proj2 brief_sane).
  - apply Nat.le_refl.
  - split; [exact H1|]. split; [exact H2|exact (H3 (conj eq_refl eq_refl))].
Defined.
